(* ===== verification/_CoqProject ===== *)
-Q . S2P
Prelude.v
CMem.v
Int.v
Crypto.v
Scrypt.v
Aead.v
SetTable.v
Base58.v
Address.v
Transaction.v
MerkleBlock.v
Bloom.v
Key.v
ProtoBuf.v
PaymentProtocol.v
PaymentKeys.v
Sequence.v
Bip38.v
Mnemonic.v
Wallet.v
WalletOps.v
WalletTx.v
PeerManager.v
PeerHandlers.v
PeerChain.v
PeerProofs.v
PeerStart.v
PeerSpec.v
