(* ===== verification/Prelude.v ===== *)
(** * Verification library of the SPV wallet core (Modules/core)

    The wallet library in src/Modules/core is C code for a simplified-payment-verification wallet: it
    keeps keys and transactions, downloads block headers and filtered blocks from peers, and decides
    which chain and which transactions count.  This library translates it to executable Rocq
    definitions, file by file, and proves what makes each part correct.

    ** Files and the code they model

    - [Prelude]: machine integers, digit lists, list lemmas, tactics and hint databases.
    - [CMem]: the memory interface of the parsers and serializers (pointer and capacity arguments,
      guarded reads, the offset pattern of the writers) and its contract [writes].
    - [Int] (BRInt.h): 256-bit integers as numbers with their limb views, division, compact targets.
    - [Crypto], [Scrypt], [Aead] (BRCrypto.c): hashes, HMAC, PBKDF2, HMAC-DRBG, scrypt, Poly1305,
      ChaCha20 and their AEAD; standard test vectors are evaluated as Examples.
    - [SetTable] (BRSet.c): the open-addressing hash table, refining finite maps.
    - [Base58] (BRBase58.c), [Address] (BRAddress.c): encodings, varints, scripts, addresses.
    - [Transaction] (BRTransaction.c): serialization, parsing, signing, sizes and fees.
    - [MerkleBlock] (BRMerkleBlock.c): headers, partial merkle trees, the difficulty rule over any
      store of blocks (class [BlockStore], laws [StoreOf]).
    - [Bloom] (BRBloomFilter.c): insertion, membership, serialization.
    - [Key] (BRKey.c), [Sequence] (BRBIP32Sequence.c), [Bip38] (BRBIP38Key.c), [Mnemonic]
      (BRBIP39Mnemonic.c, BRBIP39WordsEn.h): keys and their formats; the curve is the class
      [Secp256k1] with its laws.
    - [ProtoBuf], [PaymentProtocol], [PaymentKeys] (BRPaymentProtocol.c): protocol buffer fields, the
      messages of BIP70 and BIP75, and those with keys (invoice requests, encrypted messages).
    - [Wallet], [WalletOps], [WalletTx] (BRWallet.c): the state and the balance; registering, removing,
      confirming transactions; choosing inputs.  Address derivation is the class [AddressChain]
      with the laws [ChainLaws]; [Wallet.sequence_chain] is the one of BRBIP32Sequence.c, and its laws follow from
      the absence of hash collisions.
    - [PeerManager], [PeerHandlers] (BRPeerManager.c): the state of the peer manager and the functions that
      peers and the application call; [PeerChain], [PeerProofs], [PeerStart] have their lemmas and [PeerSpec] their
      properties.

    ** State and composition

    A C struct is a Record, a pointer to a caller's struct is a value passed and returned.  Where
    objects are shared and freed, the store is explicit: the wallet's transactions are in [allTx] and
    the arrays hold hashes; the manager's blocks are on a heap and its tables hold pointers, so that a
    read through a freed pointer has no result.  The manager holds the wallet; its handlers call the
    wallet's functions, the bloom filter, the merkle tree and the difficulty rule as the code does, in
    the monad [M] of PeerManager (state and failure).  Callbacks and messages to peers are recorded in
    order ([Event], [Action]).

    ** Conventions, fuel and bounds

    Functions that may read outside an object, fail an assertion or loop forever return [option], with [None]
    for that outcome. Recursion that is not structural takes fuel, chosen where the function is called so that
    running out is excluded by the theorems: [tree_fuel] 34 (a 32-bit count of transactions has a tree of depth
    32), the difficulty walk 180 steps, the wallet's recursions over ancestors and descendants one step per
    known transaction, address generation [gap_fuel], the walks along the chain one step per block of the table,
    [_peerRelayedBlock] two calls more than there are orphans, [link_saved] likewise. The loops of [ProtoBuf]
    take one step per offset of their buffer, which is enough because the offset determines what follows. Where
    the code itself may not end, that is a theorem ([WalletTx.create_diverges],
    [PaymentProtocol.details_diverge]). Integers are [Z] with the wrap-around of their C type written out; lists
    stand for arrays below 2^64 elements; heights of blocks are assumed below 2^30 in the theorems about the
    chain; BIP39 entropy has 4 to 32 bytes in its theorems.  Constants are those of the main network, except the table of
    checkpoints in the examples of the peer manager (the main network's does not parse); its theorems are
    about any table.  The theorems about wallets exclude transactions with a zero input hash (coinbase
    transactions), for which assertions of BRWallet.c fail.

    ** What the theorems show

    - Formats: what is serialized is parsed back (transactions, blocks, bloom filters, addresses, base58,
      WIF and BIP38 keys, mnemonics, compact targets), and parsers stay inside their buffers.
    - Cryptography: implementations agree with their definitions or refine them (Poly1305, ChaCha20,
      the AEAD), signatures verify, public derivation agrees with private derivation.
    - Merkle blocks: an honest partial tree yields its transactions; what is reported is in the tree,
      apart from the forgery that [merkle_proof_forgery] constructs; the difficulty rule.
    - Wallet: an invariant over all sequences of operations, the balance as the sum of the unspent
      outputs, validity and pending status, the transactions it creates.
    - Payment protocol: requests, payments and their ACKs (also invoice requests, messages and encrypted
      messages) are parsed back from what is serialized, relative to their fields ([..._format]); an encrypted message
      verifies and is decrypted by its receiver ([ECDHLaws] is what is assumed of the curve); inputs on which the
      parsers do not end.
    - Peer manager: an invariant over all sequences of events, progress of the header download, the end of the
      recursion over orphans as a bound on its calls, reorganisations, block locators, saving and restoring.

    ** Not modelled

    Functions that only release memory (the Free functions) or store callback pointers; locks (a
    handler is one atomic step) and threads; BRLocalAmount and BRBitcoinAmount (display amounts in
    double arithmetic); in BRPeerManager.c the handlers of relayed, rejected, requested and published
    transactions, DNS lookups (an input of the model), the waiting loop of BRPeerManagerDisconnect; BRPeer.c (sockets
    and message parsing); BIP44Sequence.c and BRBech32.c, which are not built; the
    functions of BRBIP38Key.c and BRBIP32Sequence.c without implementation.  Code outside src/ (the timetravel
    hash in a submodule) is a parameter, and so are the sizes that BRBloomFilterNew computes with the C library's
    logarithm.  Vendored libraries (secp256k1, nettle, unbound, sqlite, the sph hashes) and the Swift and
    Objective-C application are left out. *)
From stdpp Require Import base numbers list gmap sets fin_maps.
From Stdlib Require Import ZArith Lia.
From Stdlib Require Ascii String.
Local Open Scope Z_scope.

Declare Scope cmem_scope.
Delimit Scope cmem_scope with cmem.

(** ** Machine integers

    A [uintN_t] is a [Z] in [0, 2^N); every C operation that can wrap is followed by the matching
    reduction below.  [size_t] is 64 bits wide (iOS, arm64). *)

Definition u8 (x : Z) : Z := x mod 0x100.
Definition u16 (x : Z) : Z := x mod 0x10000.
Definition u32 (x : Z) : Z := x mod 0x100000000.
Definition u64 (x : Z) : Z := x mod 0x10000000000000000.

(** Conversion to [int32_t] / [int]: two's complement. *)
Definition s32 (x : Z) : Z := (x + 0x80000000) mod 0x100000000 - 0x80000000.

Definition SIZE_MAX : Z := 0xffffffffffffffff.
Definition UINT32_MAX : Z := 0xffffffff.
Definition INT32_MAX : Z := 0x7fffffff.

(** C's truth values: 0 is false, everything else is true. *)
Definition c_true (x : Z) : bool := negb (x =? 0).
Definition c_bool (b : bool) : Z := if b then 1 else 0.

(** Linear arithmetic over expressions with divisions, remainders and the reductions above. *)
Ltac zdiv_lia := Z.div_mod_to_equations; lia.
Ltac uint := unfold u8, u16, u32, u64, s32, SIZE_MAX, UINT32_MAX, INT32_MAX in *; zdiv_lia.

Lemma u8_id x : 0 <= x < 0x100 -> u8 x = x.
Proof. intros; uint. Qed.

Lemma u16_id x : 0 <= x < 0x10000 -> u16 x = x.
Proof. intros; uint. Qed.

Lemma u32_id x : 0 <= x < 0x100000000 -> u32 x = x.
Proof. intros; uint. Qed.

Lemma u64_id x : 0 <= x < 0x10000000000000000 -> u64 x = x.
Proof. intros; uint. Qed.

Lemma s32_id x : - 0x80000000 <= x < 0x80000000 -> s32 x = x.
Proof. intros; uint. Qed.

Lemma u8_range x : 0 <= u8 x < 0x100.
Proof. uint. Qed.

Lemma u32_range x : 0 <= u32 x < 0x100000000.
Proof. uint. Qed.

Lemma u64_range x : 0 <= u64 x < 0x10000000000000000.
Proof. uint. Qed.

Lemma u64_add_l x y : u64 (u64 x + y) = u64 (x + y).
Proof. unfold u64. now rewrite Zplus_mod_idemp_l. Qed.

Lemma u64_add_r x y : u64 (x + u64 y) = u64 (x + y).
Proof. unfold u64. now rewrite Zplus_mod_idemp_r. Qed.

Lemma u64_sub_l x y : u64 (u64 x - y) = u64 (x - y).
Proof. unfold u64. now rewrite Zminus_mod_idemp_l. Qed.

Lemma u64_sub_r x y : u64 (x - u64 y) = u64 (x - y).
Proof. unfold u64. now rewrite Zminus_mod_idemp_r. Qed.

Lemma u64_u64 x : u64 (u64 x) = u64 x.
Proof. uint. Qed.

Lemma u64_ex x : exists k, u64 x = x + k * 0x10000000000000000.
Proof. exists (- (x / 0x10000000000000000)). unfold u64. rewrite Z.mod_eq by lia. lia. Qed.

Lemma u64_congr x y k : x = y + k * 0x10000000000000000 -> u64 x = u64 y.
Proof. intros ->. apply Z_mod_plus_full. Qed.

(** Equations between [u64] terms: every inner [u64] differs from its argument by a multiple of 2^64. *)
Ltac u64_eq :=
  repeat match goal with
  | |- context [u64 (?a + ?b)] =>
      match a with context [u64 ?x] => let k := fresh "k" in destruct (u64_ex x) as [k ->] end ||
      match b with context [u64 ?x] => let k := fresh "k" in destruct (u64_ex x) as [k ->] end
  | |- context [u64 (?a - ?b)] =>
      match a with context [u64 ?x] => let k := fresh "k" in destruct (u64_ex x) as [k ->] end ||
      match b with context [u64 ?x] => let k := fresh "k" in destruct (u64_ex x) as [k ->] end
  end;
  match goal with |- u64 ?x = u64 ?y => apply (u64_congr x y ((x - y) / 0x10000000000000000)); zdiv_lia end.

Create Rewrite HintDb cint.
Create HintDb cint_db discriminated.
#[export] Hint Rewrite u64_add_l u64_add_r u64_sub_l u64_sub_r u64_u64 : cint.
#[export] Hint Resolve u8_range u32_range u64_range : cint_db.

(** ** Bit operations as arithmetic *)

Lemma land_ones_mod x k : 0 <= k -> Z.land x (Z.ones k) = x mod 2 ^ k.
Proof. apply Z.land_ones. Qed.

Lemma land_0xff x : Z.land x 0xff = x mod 256.
Proof. exact (Z.land_ones x 8 ltac:(lia)). Qed.

Lemma land_0x0f x : Z.land x 0x0f = x mod 16.
Proof. exact (Z.land_ones x 4 ltac:(lia)). Qed.

Lemma land_high_low a b k : 0 <= k -> 0 <= b < 2 ^ k -> Z.land (a * 2 ^ k) b = 0.
Proof.
  intros Hk Hb. rewrite <- Z.shiftl_mul_pow2 by lia.
  apply Z.bits_inj'; intros i Hi.
  rewrite Z.land_spec, Z.bits_0, Z.shiftl_spec by lia.
  destruct (Z.ltb_spec i k).
  - now rewrite (Z.testbit_neg_r _ (i - k)) by lia.
  - rewrite <- (Z.mod_small b (2 ^ k)), Z.mod_pow2_bits_high by lia. apply andb_false_r.
Qed.

(** [|] of two numbers whose bits do not overlap is their sum. *)
Lemma lor_disjoint a b k : 0 <= k -> 0 <= b < 2 ^ k -> Z.lor (a * 2 ^ k) b = a * 2 ^ k + b.
Proof. intros. symmetry. apply Z.add_nocarry_lor. now apply land_high_low. Qed.

Lemma land_shifted x m n : 0 <= n -> Z.land x (Z.shiftl m n) = Z.shiftl (Z.land (Z.shiftr x n) m) n.
Proof.
  intros Hn. apply Z.bits_inj'; intros i Hi. rewrite Z.land_spec, !Z.shiftl_spec by lia.
  destruct (Z.ltb_spec (i - n) 0).
  - rewrite !(Z.testbit_neg_r _ (i - n)) by lia. apply andb_false_r.
  - rewrite Z.land_spec, Z.shiftr_spec by lia. now replace (i - n + n) with i by lia.
Qed.

(** ** Bytes

    A byte string is a [list Z] whose elements are bytes; [len] is its C length. *)

Notation len l := (Z.of_nat (length l)).

Definition is_byte (b : Z) : Prop := 0 <= b < 256.
Notation bytes_ok := (Forall is_byte).

#[export] Instance is_byte_dec b : Decision (is_byte b).
Proof. unfold is_byte. apply _. Defined.

Lemma lxor_byte x y : is_byte x -> is_byte y -> is_byte (Z.lxor x y).
Proof.
  unfold is_byte. intros Hx Hy. split; [apply Z.lxor_nonneg; lia|].
  destruct (Z.eq_dec (Z.lxor x y) 0) as [->|N]; [lia|].
  assert (0 <= Z.lxor x y) by (apply Z.lxor_nonneg; lia).
  change 256 with (2 ^ 8). apply Z.log2_lt_pow2; [lia|].
  pose proof (Z.log2_lxor x y ltac:(lia) ltac:(lia)).
  assert (forall z, 0 <= z < 256 -> Z.log2 z < 8).
  { intros z Hz. destruct (Z.eq_dec z 0) as [->|]; [reflexivity|]. apply Z.log2_lt_pow2; lia. }
  pose proof (H1 x Hx). pose proof (H1 y Hy). lia.
Qed.

Lemma zip_lxor_bytes x y : bytes_ok x -> bytes_ok y -> bytes_ok (zip_with Z.lxor x y).
Proof.
  intros Hx Hy. eapply Forall_zip_with_fst; [exact Hx|]. eapply Forall_impl; [exact Hy|].
  intros b Hb a Ha. now apply lxor_byte.
Qed.

(** A one-time pad is removed by applying it again. *)
Lemma zip_lxor_twice (x y : list Z) : (length x <= length y)%nat -> zip_with Z.lxor (zip_with Z.lxor x y) y = x.
Proof.
  revert y; induction x as [|a x IH]; intros [|b y] H; cbn in *; try lia; [done..|].
  rewrite IH by lia. now rewrite Z.lxor_assoc, Z.lxor_nilpotent, Z.lxor_0_r.
Qed.

(** The characters of a string literal. *)
Fixpoint chars (s : String.string) : list Z :=
  match s with
  | String.EmptyString => []
  | String.String c s' => Z.of_N (Ascii.N_of_ascii c) :: chars s'
  end.

(** Little-endian numerals in base [B]: the value of a digit list and the [n] low digits of a number.
    Byte strings are base 256; the [u32]/[u64] views of the wide unions are bases 2^32 and 2^64. *)
Fixpoint le_num (B : Z) (l : list Z) : Z :=
  match l with
  | [] => 0
  | d :: l' => d + B * le_num B l'
  end.

Fixpoint le_digits (B : Z) (n : nat) (x : Z) : list Z :=
  match n with
  | O => []
  | S n' => x mod B :: le_digits B n' (x / B)
  end.

Notation le_val := (le_num 256).
Notation le_bytes := (le_digits 256).
Notation is_digit B := (fun d => 0 <= d < B).

Section digits.
Context (B : Z) (HB : 1 < B).

Lemma length_le_digits n x : length (le_digits B n x) = n.
Proof. revert x; induction n; intros; simpl; auto. Qed.

Lemma le_digits_ok n x : Forall (is_digit B) (le_digits B n x).
Proof.
  revert x; induction n; intros; simpl; constructor; auto.
  apply Z.mod_pos_bound. lia.
Qed.

Lemma pow_nat_S n : B ^ Z.of_nat (S n) = B * B ^ Z.of_nat n.
Proof. rewrite Nat2Z.inj_succ. apply Z.pow_succ_r. lia. Qed.

Lemma pow_nat_pos n : 0 < B ^ Z.of_nat n.
Proof. apply Z.pow_pos_nonneg; lia. Qed.

Lemma le_num_range l : Forall (is_digit B) l -> 0 <= le_num B l < B ^ len l.
Proof.
  induction 1 as [|b l Hb Hl IH]; cbn [le_num length]; [rewrite Z.pow_0_r; lia|].
  rewrite pow_nat_S. simpl in Hb. nia.
Qed.

Lemma le_num_le_digits n x : le_num B (le_digits B n x) = x mod B ^ Z.of_nat n.
Proof.
  revert x; induction n as [|n IH]; intros x; cbn [le_digits le_num].
  - now rewrite Z.pow_0_r, Z.mod_1_r.
  - rewrite IH, pow_nat_S, Z.rem_mul_r; [lia|lia|apply pow_nat_pos].
Qed.

Lemma le_digits_le_num l : Forall (is_digit B) l -> le_digits B (length l) (le_num B l) = l.
Proof.
  induction 1 as [|b l Hb Hl IH]; cbn [le_digits le_num length]; [reflexivity|].
  simpl in Hb. rewrite (Z.mul_comm B). f_equal.
  - rewrite Z_mod_plus_full. apply Z.mod_small. lia.
  - rewrite Z.div_add, Z.div_small by lia. exact IH.
Qed.

Lemma le_num_le_digits_id n x : 0 <= x < B ^ Z.of_nat n -> le_num B (le_digits B n x) = x.
Proof. intros. rewrite le_num_le_digits. now apply Z.mod_small. Qed.

Lemma le_num_app a b : le_num B (a ++ b) = le_num B a + B ^ len a * le_num B b.
Proof.
  induction a as [|x a IH]; cbn [le_num length app]; [rewrite Z.pow_0_r; lia|].
  rewrite IH, pow_nat_S. lia.
Qed.

Lemma le_num_inj a b :
  Forall (is_digit B) a -> Forall (is_digit B) b -> length a = length b ->
  le_num B a = le_num B b -> a = b.
Proof.
  intros Ha Hb Hl He. rewrite <- (le_digits_le_num a Ha), <- (le_digits_le_num b Hb).
  now rewrite Hl, He.
Qed.

Lemma le_num_insert l i d d' :
  l !! i = Some d -> le_num B (<[i := d']> l) = le_num B l + (d' - d) * B ^ Z.of_nat i.
Proof.
  revert i; induction l as [|x l IH]; intros [|i]; simpl lookup; try discriminate.
  - intros [= <-]. cbn. rewrite Z.pow_0_r. lia.
  - intros H. change (x + B * le_num B (<[i:=d']> l) =
                    x + B * le_num B l + (d' - d) * B ^ Z.of_nat (S i)).
    rewrite (IH i H), pow_nat_S. lia.
Qed.

Lemma le_digits_app n m x : le_digits B (n + m) x = le_digits B n x ++ le_digits B m (x / B ^ Z.of_nat n).
Proof.
  revert x; induction n as [|n IH]; intros x; cbn [le_digits app Nat.add].
  - now rewrite Z.pow_0_r, Z.div_1_r.
  - rewrite IH, pow_nat_S, Z.div_div; [reflexivity|lia|apply pow_nat_pos].
Qed.

Lemma le_digits_mod n x : le_digits B n (x mod B ^ Z.of_nat n) = le_digits B n x.
Proof.
  rewrite <- le_num_le_digits. rewrite <- (length_le_digits n x) at 1.
  apply le_digits_le_num, le_digits_ok.
Qed.

Lemma lookup_le_digits n x i :
  (i < n)%nat -> le_digits B n x !! i = Some (x / B ^ Z.of_nat i mod B).
Proof.
  revert x i; induction n as [|n IH]; intros x [|i] Hi; try lia.
  - change (Some (x mod B) = Some (x / B ^ 0 mod B)). now rewrite Z.pow_0_r, Z.div_1_r.
  - change (le_digits B n (x / B) !! i = Some (x / B ^ Z.of_nat (S i) mod B)).
    rewrite IH, pow_nat_S, Z.div_div; [reflexivity|lia|apply pow_nat_pos|lia].
Qed.
End digits.

Lemma le_bytes_ok n x : bytes_ok (le_bytes n x).
Proof. exact (le_digits_ok 256 eq_refl n x). Qed.

Lemma le_val_range l : bytes_ok l -> 0 <= le_val l < 256 ^ len l.
Proof. exact (le_num_range 256 eq_refl l). Qed.

Lemma le_val_inj a b : bytes_ok a -> bytes_ok b -> length a = length b -> le_val a = le_val b -> a = b.
Proof. exact (le_num_inj 256 eq_refl a b). Qed.

Lemma le_bytes_le_val l : bytes_ok l -> le_bytes (length l) (le_val l) = l.
Proof. exact (le_digits_le_num 256 eq_refl l). Qed.

Lemma le_val_le_bytes_id n x : 0 <= x < 256 ^ Z.of_nat n -> le_val (le_bytes n x) = x.
Proof. exact (le_num_le_digits_id 256 eq_refl n x). Qed.

#[export] Hint Resolve le_bytes_ok : cint_db.
#[export] Hint Rewrite length_le_digits : cint.

(** Fixed-length byte strings, split into their elements. *)
Ltac split_bytes l :=
  repeat (destruct l as [|? l]; simpl in *; try lia; try discriminate).

(** ** Lists *)

Lemma take_app_len {A} (a b : list A) : take (length a) (a ++ b) = a.
Proof. apply take_app_length. Qed.

Lemma drop_app_len {A} (a b : list A) : drop (length a) (a ++ b) = b.
Proof. apply drop_app_length. Qed.

Lemma drop_add {A} (l : list A) i j : drop (i + j) l = drop j (drop i l).
Proof. now rewrite drop_drop. Qed.

Lemma foldl_invariant {A B} (P : A -> Prop) (f : A -> B -> A) l a :
  P a -> (forall a b, P a -> P (f a b)) -> P (foldl f a l).
Proof. revert a; induction l; intros; simpl; auto. Qed.

(** ** The option monad *)

Lemma bind_Some_l {A B} (x : A) (f : A -> option B) : (Some x ≫= f) = f x.
Proof. reflexivity. Qed.
