(* ===== verification/CMem.v ===== *)
(** * The C memory interface of the serializers

    A pointer argument [data] with its capacity [dataLen] is an [option (list Z)]: [None] is NULL and
    [Some m] the object from the pointer to its end.  Functions that read or write memory live in the
    [option] monad, where [None] means an access outside the object (undefined behaviour).

    The serializers of the code share one pattern: a running offset [off] of type [size_t], every
    field written only when [data && off + size <= dataLen], and the offset returned at the end
    when it fits.  [put], [call_at] and [finish] are the three steps of that pattern; [writes f bs] is
    the contract of such a function. *)
From stdpp Require Import base numbers list.
From Stdlib Require Import ZArith Lia.
From S2P Require Import Prelude.
Local Open Scope Z_scope.

(** ** Raw accesses *)

(** [n] bytes at [m + off]. *)
Definition mem_read (m : list Z) (off n : Z) : option (list Z) :=
  if (0 <=? off) && (0 <=? n) && (off + n <=? len m)
  then Some (take (Z.to_nat n) (drop (Z.to_nat off) m)) else None.

(** Store [bs] at [m + off]. *)
Definition mem_write (m : list Z) (off : Z) (bs : list Z) : option (list Z) :=
  if (0 <=? off) && (off + len bs <=? len m)
  then Some (take (Z.to_nat off) m ++ bs ++ drop (Z.to_nat off + length bs) m) else None.

Lemma mem_read_mid a b c off n :
  off = len a -> n = len b -> mem_read (a ++ b ++ c) off n = Some b.
Proof.
  intros -> ->. unfold mem_read. rewrite !length_app.
  rewrite (proj2 (Z.leb_le 0 _)), (proj2 (Z.leb_le 0 _)), (proj2 (Z.leb_le _ _)) by lia.
  simpl. now rewrite !Nat2Z.id, drop_app_len, take_app_len.
Qed.

Lemma mem_write_mid a b b' c off :
  off = len a -> length b' = length b -> mem_write (a ++ b ++ c) off b' = Some (a ++ b' ++ c).
Proof.
  intros -> Hl. unfold mem_write. rewrite !length_app.
  rewrite (proj2 (Z.leb_le 0 _)), (proj2 (Z.leb_le _ _)) by lia.
  simpl. rewrite Nat2Z.id, take_app_len, drop_add, drop_app_len, Hl, drop_app_len. reflexivity.
Qed.

Lemma mem_write_0 m c : len c <= len m -> mem_write m 0 c = Some (c ++ drop (length c) m).
Proof.
  intros H. rewrite <- (take_drop (length c) m) at 1.
  apply (mem_write_mid [] (take (length c) m)); rewrite ?length_take; simpl; lia.
Qed.

Lemma mem_read_length m off n bs : mem_read m off n = Some bs -> len bs = n.
Proof.
  unfold mem_read. destruct (_ && _) eqn:E; [|discriminate]. intros [= <-].
  rewrite !andb_true_iff, !Z.leb_le in E. rewrite length_take, length_drop. lia.
Qed.

Lemma mem_read_ok m off n bs : bytes_ok m -> mem_read m off n = Some bs -> bytes_ok bs.
Proof.
  unfold mem_read. destruct (_ && _); [|discriminate]. intros H [= <-].
  now apply Forall_take, Forall_drop.
Qed.

Lemma mem_read_is_Some m off n :
  0 <= off -> 0 <= n -> off + n <= len m -> is_Some (mem_read m off n).
Proof.
  intros. unfold mem_read.
  rewrite (proj2 (Z.leb_le 0 _)), (proj2 (Z.leb_le 0 _)), (proj2 (Z.leb_le _ _)) by lia.
  now eexists.
Qed.

(** [(off + n <= bufLen) ? dec(&buf[off]) : dflt], the guarded read of the parsers; the addition is
    [size_t] addition. *)
Definition get_or {A} (dec : list Z -> A) (dflt : A) (n : Z) (buf : list Z) (bufLen off : Z) : option A :=
  if u64 (off + n) <=? bufLen then dec <$> mem_read buf off n else Some dflt.

Lemma get_or_mid {A} (dec : list Z -> A) dflt n a b c off :
  off = len a -> n = len b -> len (a ++ b ++ c) < 0x10000000000000000 ->
  get_or dec dflt n (a ++ b ++ c) (len (a ++ b ++ c)) off = Some (dec b).
Proof.
  intros -> -> Hlt. unfold get_or. rewrite (mem_read_mid a b c) by reflexivity.
  rewrite !length_app in *. rewrite u64_id by lia.
  now rewrite (proj2 (Z.leb_le _ _)) by lia.
Qed.

(** ** The serializer pattern *)

Notation ptr := (option (list Z)).

(** [if (data && off + n <= dataLen) memcpy(&data[off], bs, n); off += n;] *)
Definition put (dataLen : Z) (bs : list Z) (st : ptr * Z) : option (ptr * Z) :=
  let '(data, off) := st in
  match data with
  | None => Some (None, u64 (off + len bs))
  | Some m =>
      if u64 (off + len bs) <=? dataLen
      then m' ← mem_write m off bs; Some (Some m', u64 (off + len bs))
      else Some (Some m, u64 (off + len bs))
  end.

(** [off += f((data ? &data[off] : NULL), (off <= dataLen ? dataLen - off : 0), ...);] *)
Definition call_at (dataLen : Z) (f : ptr -> Z -> option (ptr * Z)) (st : ptr * Z) : option (ptr * Z) :=
  let '(data, off) := st in
  let room := if off <=? dataLen then dataLen - off else 0 in
  match data with
  | None => '(_, n) ← f None room; Some (None, u64 (off + n))
  | Some m =>
      '(p, n) ← f (Some (drop (Z.to_nat off) m)) room;
      Some (Some (take (Z.to_nat off) m ++ default [] p), u64 (off + n))
  end.

(** [return (! data || off <= dataLen) ? off : 0;] *)
Definition finish (dataLen : Z) (st : ptr * Z) : option (ptr * Z) :=
  let '(data, off) := st in
  match data with
  | None => Some (None, off)
  | Some m => Some (Some m, if off <=? dataLen then off else 0)
  end.

(** State of the pattern once [pre] has been produced, starting from the pointer [p0]. *)
Definition cursor (p0 : ptr) (pre : list Z) : ptr * Z :=
  ((fun m => pre ++ drop (length pre) m) <$> p0, u64 (len pre)).

(** The pointer is NULL, or the object holds [dataLen] bytes and [bs] fits. *)
Definition room (p0 : ptr) (dataLen : Z) (bs : list Z) : Prop :=
  match p0 with
  | None => True
  | Some m => len bs <= dataLen <= len m /\ dataLen < 0x10000000000000000
  end.

(** Contract of a serializer: on NULL it returns the size needed, on a large enough buffer it writes
    exactly [bs] at its start and returns their number. *)
Definition writes (f : ptr -> Z -> option (ptr * Z)) (bs : list Z) : Prop :=
  forall p0 dataLen, room p0 dataLen bs -> f p0 dataLen = Some (cursor p0 bs).

Lemma room_le p0 n a b : room p0 n a -> len b <= len a -> room p0 n b.
Proof. destruct p0; simpl; lia. Qed.

Lemma room_app p0 n a b : room p0 n (a ++ b) -> room p0 n a.
Proof. destruct p0; simpl; [rewrite length_app|]; lia. Qed.

Lemma cursor_nil p0 : cursor p0 [] = (p0, 0).
Proof. now destruct p0. Qed.

Lemma put_cursor p0 n pre bs :
  room p0 n (pre ++ bs) -> put n bs (cursor p0 pre) = Some (cursor p0 (pre ++ bs)).
Proof.
  unfold cursor, put. destruct p0 as [m|]; simpl.
  - rewrite length_app. intros [? ?].
    rewrite (u64_id (len pre)) by lia. rewrite u64_id by lia.
    rewrite (proj2 (Z.leb_le _ _)) by lia.
    rewrite <- (take_drop (length bs) (drop (length pre) m)).
    rewrite mem_write_mid; [|reflexivity|rewrite length_take, length_drop; lia].
    simpl. rewrite drop_drop, <- app_assoc, Nat2Z.inj_add, u64_id by lia. reflexivity.
  - intros _. rewrite u64_add_l, length_app, Nat2Z.inj_add. reflexivity.
Qed.

Lemma call_at_cursor p0 n f pre bs :
  writes f bs -> room p0 n (pre ++ bs) -> call_at n f (cursor p0 pre) = Some (cursor p0 (pre ++ bs)).
Proof.
  unfold cursor, call_at. intros Hf. destruct p0 as [m|]; simpl.
  - rewrite length_app. intros [? ?].
    rewrite (u64_id (len pre)) by lia. rewrite (proj2 (Z.leb_le _ _)) by lia.
    rewrite Nat2Z.id, drop_app_len, take_app_len.
    rewrite (Hf (Some _)) by (simpl; rewrite length_drop; lia).
    simpl. rewrite drop_drop, <- app_assoc, Nat2Z.inj_add, u64_add_r. reflexivity.
  - intros _. rewrite (Hf None) by exact I. simpl.
    rewrite u64_add_l, u64_add_r, length_app, Nat2Z.inj_add. reflexivity.
Qed.

Lemma finish_cursor p0 n bs : room p0 n bs -> finish n (cursor p0 bs) = Some (cursor p0 bs).
Proof.
  unfold finish, cursor. destruct p0 as [m|]; simpl; [|reflexivity].
  intros [? ?]. rewrite u64_id by lia. now rewrite (proj2 (Z.leb_le _ _)) by lia.
Qed.

(** Symbolic execution of a serializer body: each step extends the cursor. *)
Lemma bind_put p0 n pre bs (k : ptr * Z -> option (ptr * Z)) :
  room p0 n (pre ++ bs) -> (put n bs (cursor p0 pre) ≫= k) = k (cursor p0 (pre ++ bs)).
Proof. intros. now rewrite put_cursor. Qed.

Lemma bind_call_at p0 n f pre bs (k : ptr * Z -> option (ptr * Z)) :
  writes f bs -> room p0 n (pre ++ bs) ->
  (call_at n f (cursor p0 pre) ≫= k) = k (cursor p0 (pre ++ bs)).
Proof. intros. now rewrite (call_at_cursor _ _ _ _ bs). Qed.

(** What a caller sees in the two uses of a serializer. *)
Lemma writes_null f bs n : writes f bs -> f None n = Some (None, u64 (len bs)).
Proof. intros H. now rewrite (H None). Qed.

Lemma writes_exact f bs m n :
  writes f bs -> len bs <= n -> n = len m -> n < 0x10000000000000000 ->
  f (Some m) n = Some (Some (bs ++ drop (length bs) m), len bs).
Proof.
  intros H ? ? ?. rewrite (H (Some m)) by (simpl; lia). unfold cursor; simpl.
  now rewrite u64_id by lia.
Qed.

(** Symbolic execution of a whole serializer: each field of [bs] in turn. *)
Ltac fits Hroom := eapply room_le; [exact Hroom|rewrite ?length_app; cbn [length]; lia].
Ltac field Hroom := rewrite bind_put by fits Hroom.
Ltac sub_field Hroom H := rewrite (bind_call_at _ _ _ _ _ _ H) by fits Hroom.

(** A buffer of the size the function asks for, filled by it: the bytes it reports. *)
Definition filled (f : ptr -> Z -> option (ptr * Z)) : option (list Z) :=
  '(_, n) ← f None 0;
  '(p, n') ← f (Some (replicate (Z.to_nat n) 0)) n;
  Some (take (Z.to_nat n') (default [] p)).

Lemma filled_writes f bs : writes f bs -> len bs < 0x10000000000000000 -> filled f = Some bs.
Proof.
  intros Hf Hl. unfold filled. rewrite (writes_null f bs 0 Hf). cbn [mbind option_bind].
  rewrite u64_id by lia. rewrite (writes_exact f bs _ (len bs) Hf) by (rewrite ?length_replicate; lia).
  cbn [mbind option_bind default id]. now rewrite Nat2Z.id, take_app_len.
Qed.

(** Nothing outside the object is written when the capacity passed is real. *)
Definition ptr_ok (p : ptr) (n : Z) : Prop := match p with None => True | Some m => n <= len m end.
