(* ===== verification/Int.v ===== *)
(** * Int: the integer helpers of BRInt.h

    The wide unions [UInt128/160/256/512] are numbers; their [u8], [u32] and [u64] members are the
    little-endian digits of that number in base 2^8, 2^32 and 2^64 (the targets are little-endian).
    The file models the comparisons, the hex macros, the unaligned accessors and the 256-bit
    arithmetic used for difficulty targets, and proves each against ordinary arithmetic. *)
From stdpp Require Import base numbers list.
From Stdlib Require Import ZArith Lia.
From S2P Require Import Prelude.
Local Open Scope Z_scope.

(** ** Union members *)

Definition B32 : Z := 0x100000000.
Definition B64 : Z := 0x10000000000000000.
Definition U256 : Z := 0x10000000000000000000000000000000000000000000000000000000000000000.

Definition u8s (u : Z) : list Z := le_bytes 32 u.
Definition u32s (u : Z) : list Z := le_digits B32 8 u.
Definition u64s (u : Z) : list Z := le_digits B64 4 u.
Definition of_u8s (l : list Z) : Z := le_val l.
Definition of_u32s (l : list Z) : Z := le_num B32 l.
Definition of_u64s (l : list Z) : Z := le_num B64 l.

(** [a[i]] and [a[i] = x] on a member array; every index below is in range. *)
Definition wd (l : list Z) (i : Z) : Z := default 0 (l !! Z.to_nat i).
Definition upd (l : list Z) (i x : Z) : list Z := <[Z.to_nat i := x]> l.

Definition UINT256_ZERO : Z := of_u64s [0; 0; 0; 0].

Definition is_u256 (u : Z) : Prop := 0 <= u < U256.

(** ** Comparisons *)

Definition UInt256Eq (a b : Z) : bool :=
  let a := u64s a in let b := u64s b in
  (wd a 0 =? wd b 0) && (wd a 1 =? wd b 1) && (wd a 2 =? wd b 2) && (wd a 3 =? wd b 3).

Definition UInt256SupEq (a b : Z) : bool :=
  let a := u64s a in let b := u64s b in
  (wd b 3 <? wd a 3) ||
  ((wd a 3 =? wd b 3) &&
   ((wd b 2 <? wd a 2) ||
    ((wd a 2 =? wd b 2) &&
     ((wd b 1 <? wd a 1) || ((wd a 1 =? wd b 1) && (wd b 0 <=? wd a 0)))))).

Definition UInt256IsZero (u : Z) : bool :=
  let u := u64s u in
  Z.lor (Z.lor (Z.lor (wd u 0) (wd u 1)) (wd u 2)) (wd u 3) =? 0.

Definition UInt128Eq (a b : Z) : bool :=
  let a := le_digits B64 2 a in let b := le_digits B64 2 b in (wd a 0 =? wd b 0) && (wd a 1 =? wd b 1).

Definition UInt128IsZero (u : Z) : bool := let u := le_digits B64 2 u in Z.lor (wd u 0) (wd u 1) =? 0.

Definition UInt256Reverse (u : Z) : Z := of_u8s (reverse (u8s u)).

(** ** Hex macros *)

Definition _hexc (u : Z) : Z :=
  Z.land u 0x0f + (if Z.land u 0x0f <=? 9 then 48 else 97 - 0x0a).

Definition _hexu (c : Z) : Z :=
  if (48 <=? c) && (c <=? 57) then c - 48
  else if (97 <=? c) && (c <=? 102) then c - (97 - 0x0a)
  else if (65 <=? c) && (c <=? 70) then c - (65 - 0x0a)
  else 0.

(** The 64 characters of the macro's array (the terminating NUL is left out). *)
Definition u256_hex_encode (u : Z) : list Z :=
  mjoin ((fun b => [_hexc (Z.shiftr b 4); _hexc b]) <$> u8s u).

Fixpoint hex_pairs (s : list Z) : list Z :=
  match s with
  | hi :: lo :: s' => u8 (Z.lor (Z.shiftl (_hexu hi) 4) (_hexu lo)) :: hex_pairs s'
  | _ => []
  end.

Definition u256_hex_decode (s : list Z) : Z := of_u8s (hex_pairs (take 64 s)).

(** ** Unaligned accessors *)

Definition UInt16SetLE (u : Z) : list Z := [Z.land u 0xff; Z.land (Z.shiftr u 8) 0xff].

Definition UInt32SetLE (u : Z) : list Z :=
  [Z.land u 0xff; Z.land (Z.shiftr u 8) 0xff; Z.land (Z.shiftr u 16) 0xff; Z.land (Z.shiftr u 24) 0xff].

Definition UInt32SetBE (u : Z) : list Z :=
  [Z.land (Z.shiftr u 24) 0xff; Z.land (Z.shiftr u 16) 0xff; Z.land (Z.shiftr u 8) 0xff; Z.land u 0xff].

Definition UInt64SetLE (u : Z) : list Z :=
  [Z.land u 0xff; Z.land (Z.shiftr u 8) 0xff; Z.land (Z.shiftr u 16) 0xff; Z.land (Z.shiftr u 24) 0xff;
   Z.land (Z.shiftr u 32) 0xff; Z.land (Z.shiftr u 40) 0xff; Z.land (Z.shiftr u 48) 0xff;
   Z.land (Z.shiftr u 56) 0xff].

Definition UInt256Set (u : Z) : list Z := u8s u.

Definition UInt16GetLE (b2 : list Z) : Z := Z.lor (Z.shiftl (wd b2 1) 8) (wd b2 0).

Definition UInt16GetBE (b2 : list Z) : Z := Z.lor (Z.shiftl (wd b2 0) 8) (wd b2 1).

Definition UInt32GetLE (b4 : list Z) : Z :=
  Z.lor (Z.lor (Z.lor (Z.shiftl (wd b4 3) 24) (Z.shiftl (wd b4 2) 16)) (Z.shiftl (wd b4 1) 8)) (wd b4 0).

Definition UInt32GetBE (b4 : list Z) : Z :=
  Z.lor (Z.lor (Z.lor (Z.shiftl (wd b4 0) 24) (Z.shiftl (wd b4 1) 16)) (Z.shiftl (wd b4 2) 8)) (wd b4 3).

Definition UInt64GetLE (b8 : list Z) : Z :=
  Z.lor (Z.lor (Z.lor (Z.lor (Z.lor (Z.lor (Z.lor (Z.shiftl (wd b8 7) 56) (Z.shiftl (wd b8 6) 48))
    (Z.shiftl (wd b8 5) 40)) (Z.shiftl (wd b8 4) 32)) (Z.shiftl (wd b8 3) 24)) (Z.shiftl (wd b8 2) 16))
    (Z.shiftl (wd b8 1) 8)) (wd b8 0).

Definition UInt256Get (b32 : list Z) : Z := of_u8s (take 32 b32).

(** ** 256-bit arithmetic *)

(** Highest [b' <= b], [b' > 0], whose bit is set in [x]; the inner loop of [bits]. *)
Fixpoint bits_word (x : Z) (b : nat) : nat :=
  match b with
  | O => 0
  | S b' => if negb (Z.land x (Z.shiftl 1 (Z.of_nat b)) =? 0) then b else bits_word x b'
  end.

(** The outer loop, over [pos = p - 1, ..., 0]. *)
Fixpoint bits_loop (l : list Z) (p : nat) : Z :=
  match p with
  | O => 0
  | S pos =>
      let x := wd l (Z.of_nat pos) in
      if negb (x =? 0)
      then match bits_word x 31 with
           | O => 32 * Z.of_nat pos + 1
           | b => 32 * Z.of_nat pos + Z.of_nat b + 1
           end
      else bits_loop l pos
  end.

(** The return type is [uint8_t]. *)
Definition bits (number : Z) : Z := u8 (bits_loop (u32s number) 8).

Fixpoint add_loop (a b : list Z) (carry : Z) : list Z :=
  match a, b with
  | x :: a', y :: b' =>
      let sum := u64 (x + y + carry) in
      u32 sum :: add_loop a' b' (Z.shiftr sum 32)
  | _, _ => []
  end.

Definition add (a b : Z) : Z := of_u32s (add_loop (u32s a) (u32s b) 0).

Definition addOne (a : Z) : Z := add a (of_u64s [1; 0; 0; 0]).

(** [~x] of a [uint64_t]. *)
Definition not64 (x : Z) : Z := u64 (Z.lnot x).

Definition neg (a : Z) : Z := of_u64s (not64 <$> u64s a).

Definition subtract (a b : Z) : Z := add a (addOne (neg b)).

Definition shl_step (a : list Z) (k s : Z) (r : list Z) (i : Z) : list Z :=
  let r := if (i + k + 1 <? 4) && negb (s =? 0)
           then upd r (i + k + 1) (Z.lor (wd r (i + k + 1)) (Z.shiftr (wd a i) (64 - s))) else r in
  if i + k <? 4 then upd r (i + k) (Z.lor (wd r (i + k)) (u64 (Z.shiftl (wd a i) s))) else r.

Definition shiftLeft (a : Z) (nbits : Z) : Z :=
  let k := nbits / 64 in
  let s := nbits mod 64 in
  of_u64s (foldl (shl_step (u64s a) k s) [0; 0; 0; 0] [0; 1; 2; 3]).

Definition shr_step (a : list Z) (k s : Z) (r : list Z) (i : Z) : list Z :=
  let r := if (0 <=? i - k - 1) && negb (s =? 0)
           then upd r (i - k - 1) (Z.lor (wd r (i - k - 1)) (u64 (Z.shiftl (wd a i) (64 - s)))) else r in
  if 0 <=? i - k then upd r (i - k) (Z.lor (wd r (i - k)) (Z.shiftr (wd a i) s)) else r.

Definition shiftRight (a : Z) (nbits : Z) : Z :=
  let k := nbits / 64 in
  let s := nbits mod 64 in
  of_u64s (foldl (shr_step (u64s a) k s) [0; 0; 0; 0] [0; 1; 2; 3]).

(** [r.u32[shift / 32] |= (1 << (shift & 31))] *)
Definition set_bit (r shift : Z) : Z :=
  let l := u32s r in
  of_u32s (upd l (shift / 32) (Z.lor (wd l (shift / 32)) (u32 (Z.shiftl 1 (Z.land shift 31))))).

(** [while (shift >= 0)] with [shift = n - 1]. *)
Fixpoint divide_loop (n : nat) (num div r : Z) : Z :=
  match n with
  | O => r
  | S shift =>
      let '(num, r) := if UInt256SupEq num div
                       then (subtract num div, set_bit r (Z.of_nat shift)) else (num, r) in
      divide_loop shift num (shiftRight div 1) r
  end.

(** [None]: the assertion [div_bits != 0] fails. *)
Definition divide (a b : Z) : option Z :=
  let num_bits := bits a in
  let div_bits := bits b in
  if div_bits =? 0 then None
  else if num_bits <? div_bits then Some UINT256_ZERO
  else
    let shift := num_bits - div_bits in
    Some (divide_loop (Z.to_nat (shift + 1)) a (shiftLeft b (u8 shift)) UINT256_ZERO).

Fixpoint mul_loop (a : list Z) (b carry : Z) : list Z :=
  match a with
  | [] => []
  | x :: a' =>
      let n := u64 (carry + b * x) in
      Z.land n 0xffffffff :: mul_loop a' b (Z.shiftr n 32)
  end.

Definition multiplyThis32 (a b : Z) : Z := of_u32s (mul_loop (u32s a) b 0).

(** [nCompact] is an [int32_t], so [>> 24] is arithmetic; the shift counts are [uint8_t]. *)
Definition setCompact (nCompact : Z) : Z :=
  let nSize := Z.shiftr nCompact 24 in
  let nWord := of_u32s (upd (u32s UINT256_ZERO) 0 (Z.land nCompact 0x007fffff)) in
  if nSize <=? 3 then shiftRight nWord (u8 (8 * (3 - nSize)))
  else shiftLeft nWord (u8 (8 * (nSize - 3))).

Definition getCompact (number : Z) : option Z :=
  let nSize := (bits number + 7) / 8 in
  let nCompact := if nSize <=? 3 then u32 (Z.shiftl (wd (u32s number) 0) (8 * (3 - nSize)))
                  else wd (u32s (shiftRight number (u8 (8 * (nSize - 3))))) 0 in
  let '(nCompact, nSize) := if negb (Z.land nCompact 0x00800000 =? 0)
                            then (Z.shiftr nCompact 8, nSize + 1) else (nCompact, nSize) in
  if negb (Z.land nCompact (u32 (Z.lnot 0x007fffff)) =? 0) || (256 <=? nSize) then None
  else Some (Z.lor nCompact (u32 (Z.shiftl nSize 24))).

Example getCompact_genesis : getCompact (setCompact 0x1e00ffff) = Some 0x1e00ffff.
Proof. vm_compute. reflexivity. Qed.

Example divide_small : divide 1000000007 13 = Some 76923077.
Proof. vm_compute. reflexivity. Qed.

Lemma wd_byte l i : bytes_ok l -> is_byte (wd l i).
Proof.
  intros H. unfold wd. destruct (l !! Z.to_nat i) as [x|] eqn:E; cbn; [|unfold is_byte; lia].
  now apply (proj1 (Forall_lookup _ _) H (Z.to_nat i)).
Qed.

(** ** Accessor lemmas *)

Lemma shiftr_div x k : 0 <= k -> Z.shiftr x k = x / 2 ^ k.
Proof. apply Z.shiftr_div_pow2. Qed.

Ltac accessor := rewrite ?shiftr_div, ?land_0xff by lia; cbn [le_digits]; rewrite ?Z.div_div by lia; reflexivity.

Lemma UInt16SetLE_spec u : UInt16SetLE u = le_bytes 2 u.
Proof. unfold UInt16SetLE. accessor. Qed.

Lemma UInt32SetLE_spec u : UInt32SetLE u = le_bytes 4 u.
Proof. unfold UInt32SetLE. accessor. Qed.

Lemma UInt64SetLE_spec u : UInt64SetLE u = le_bytes 8 u.
Proof. unfold UInt64SetLE. accessor. Qed.

Lemma UInt32SetBE_spec u : UInt32SetBE u = reverse (le_bytes 4 u).
Proof. unfold UInt32SetBE. accessor. Qed.

Ltac bytes_bounds :=
  repeat match goal with
    | H : Forall _ (_ :: _) |- _ => apply Forall_cons in H; destruct H
    | H : is_byte _ |- _ => unfold is_byte in H
    end.

(** Turns a [|] of disjoint byte lanes into a sum. *)
Lemma lor_lane a b k : 0 <= k -> 0 <= b < 2 ^ k -> a mod 2 ^ k = 0 -> Z.lor a b = a + b.
Proof.
  intros Hk Hb Ha.
  assert (E : a = (a / 2 ^ k) * 2 ^ k).
  { pose proof (Z.div_mod a (2 ^ k) ltac:(lia)). lia. }
  rewrite E at 1. rewrite lor_disjoint by lia. lia.
Qed.

Ltac lanes :=
  rewrite ?Z.shiftl_mul_pow2 by lia;
  change (2 ^ 8) with 0x100; change (2 ^ 16) with 0x10000; change (2 ^ 24) with 0x1000000;
  change (2 ^ 32) with 0x100000000; change (2 ^ 40) with 0x10000000000;
  change (2 ^ 48) with 0x1000000000000; change (2 ^ 56) with 0x100000000000000.

(** The innermost [|], whose right operand has [k] bits. *)
Ltac lane k :=
  match goal with
  | |- context [Z.lor ?a ?b] =>
      lazymatch a with
      | context [Z.lor _ _] => fail
      | _ => rewrite (lor_lane a b k);
             [|lia|lia|change (2 ^ k) with ltac:(let r := eval vm_compute in (2 ^ k) in exact r); zdiv_lia]
      end
  end.

Lemma UInt16GetLE_spec l : bytes_ok l -> length l = 2%nat -> UInt16GetLE l = le_val l.
Proof.
  intros Hl Hn. split_bytes l. bytes_bounds. unfold UInt16GetLE, wd; simpl.
  lanes. lane 8. lia.
Qed.

Lemma UInt32GetLE_spec l : bytes_ok l -> length l = 4%nat -> UInt32GetLE l = le_val l.
Proof.
  intros Hl Hn. split_bytes l. bytes_bounds. unfold UInt32GetLE, wd; simpl.
  lanes. lane 24. lane 16. lane 8. lia.
Qed.

Lemma UInt32GetBE_spec l : bytes_ok l -> length l = 4%nat -> UInt32GetBE l = le_val (reverse l).
Proof.
  intros Hl Hn. split_bytes l. bytes_bounds. unfold UInt32GetBE, wd.
  simpl. lanes. lane 24. lane 16. lane 8. lia.
Qed.

Lemma UInt64GetLE_spec l : bytes_ok l -> length l = 8%nat -> UInt64GetLE l = le_val l.
Proof.
  intros Hl Hn. split_bytes l. bytes_bounds. unfold UInt64GetLE, wd; simpl.
  lanes. lane 56. lane 48. lane 40. lane 32. lane 24. lane 16. lane 8. lia.
Qed.

Lemma UInt256Get_spec l : length l = 32%nat -> UInt256Get l = le_val l.
Proof. intros H. unfold UInt256Get, of_u8s. now rewrite take_ge by lia. Qed.

Lemma UInt32Get_Set u : 0 <= u < 0x100000000 -> UInt32GetLE (UInt32SetLE u) = u.
Proof.
  intros. rewrite UInt32SetLE_spec, UInt32GetLE_spec; auto using le_bytes_ok.
  now apply le_val_le_bytes_id.
Qed.

Lemma UInt16Get_Set u : 0 <= u < 0x10000 -> UInt16GetLE (UInt16SetLE u) = u.
Proof.
  intros. rewrite UInt16SetLE_spec, UInt16GetLE_spec; auto using le_bytes_ok.
  now apply le_val_le_bytes_id.
Qed.

Lemma UInt64Get_Set u : 0 <= u < 0x10000000000000000 -> UInt64GetLE (UInt64SetLE u) = u.
Proof.
  intros. rewrite UInt64SetLE_spec, UInt64GetLE_spec; auto using le_bytes_ok.
  now apply le_val_le_bytes_id.
Qed.

Lemma UInt256Get_Set u : is_u256 u -> UInt256Get (UInt256Set u) = u.
Proof. intros. rewrite UInt256Get_spec by reflexivity. now apply le_val_le_bytes_id. Qed.

Lemma UInt256Set_Get l : bytes_ok l -> length l = 32%nat -> UInt256Set (UInt256Get l) = l.
Proof.
  intros Hl Hn. rewrite UInt256Get_spec by done. unfold UInt256Set, u8s. rewrite <- Hn.
  now apply le_bytes_le_val.
Qed.

Lemma UInt256Get_range l : bytes_ok l -> length l = 32%nat -> is_u256 (UInt256Get l).
Proof.
  intros Hl Hn. rewrite UInt256Get_spec by done. unfold is_u256, U256.
  pose proof (le_val_range l Hl). rewrite Hn in *. exact H.
Qed.

#[export] Hint Rewrite UInt16SetLE_spec UInt32SetLE_spec UInt64SetLE_spec : cint.

(** ** Limb views *)

Lemma u64s_unfold a : is_u256 a -> exists a0 a1 a2 a3,
  u64s a = [a0; a1; a2; a3] /\ a = a0 + B64 * (a1 + B64 * (a2 + B64 * a3)) /\
  0 <= a0 < B64 /\ 0 <= a1 < B64 /\ 0 <= a2 < B64 /\ 0 <= a3 < B64.
Proof.
  intros Ha. unfold is_u256, U256 in Ha. unfold u64s, B64. cbn [le_digits].
  do 4 eexists. split; [reflexivity|]. zdiv_lia.
Qed.

Lemma of_u64s_range l :
  length l = 4%nat -> Forall (is_digit B64) l -> is_u256 (of_u64s l).
Proof.
  intros Hn Hl. pose proof (le_num_range B64 eq_refl l Hl) as H. rewrite Hn in H. exact H.
Qed.

Lemma of_u32s_range l :
  length l = 8%nat -> Forall (is_digit B32) l -> is_u256 (of_u32s l).
Proof.
  intros Hn Hl. pose proof (le_num_range B32 eq_refl l Hl) as H. rewrite Hn in H. exact H.
Qed.

Lemma of_u32s_u32s u : is_u256 u -> of_u32s (u32s u) = u.
Proof. intros. now apply le_num_le_digits_id. Qed.

Lemma of_u64s_u64s u : is_u256 u -> of_u64s (u64s u) = u.
Proof. intros. now apply le_num_le_digits_id. Qed.

Lemma UInt256Eq_spec a b : is_u256 a -> is_u256 b -> UInt256Eq a b = (a =? b).
Proof.
  intros Ha Hb. unfold UInt256Eq.
  destruct (u64s_unfold a Ha) as (a0 & a1 & a2 & a3 & -> & -> & ?).
  destruct (u64s_unfold b Hb) as (b0 & b1 & b2 & b3 & -> & -> & ?).
  unfold wd, B64 in *; simpl. apply Bool.eq_iff_eq_true.
  rewrite !andb_true_iff, !Z.eqb_eq. lia.
Qed.

Lemma UInt256SupEq_spec a b : is_u256 a -> is_u256 b -> UInt256SupEq a b = (b <=? a).
Proof.
  intros Ha Hb. unfold UInt256SupEq.
  destruct (u64s_unfold a Ha) as (a0 & a1 & a2 & a3 & -> & -> & ?).
  destruct (u64s_unfold b Hb) as (b0 & b1 & b2 & b3 & -> & -> & ?).
  unfold wd, B64 in *; simpl. apply Bool.eq_iff_eq_true.
  rewrite ?orb_true_iff, ?andb_true_iff, ?orb_true_iff, ?andb_true_iff, ?orb_true_iff, ?andb_true_iff,
    ?Z.eqb_eq, ?Z.ltb_lt, ?Z.leb_le. lia.
Qed.

Lemma UInt256IsZero_spec u : is_u256 u -> UInt256IsZero u = (u =? 0).
Proof.
  intros Hu. unfold UInt256IsZero.
  destruct (u64s_unfold u Hu) as (a0 & a1 & a2 & a3 & -> & -> & ?).
  unfold wd, B64 in *; simpl. apply Bool.eq_iff_eq_true.
  rewrite !Z.eqb_eq, !Z.lor_eq_0_iff. lia.
Qed.

(** ** Addition, complement, multiplication *)

Lemma add_loop_spec a b c :
  length a = length b -> Forall (is_digit B32) a -> Forall (is_digit B32) b -> 0 <= c <= 1 ->
  length (add_loop a b c) = length a /\ Forall (is_digit B32) (add_loop a b c) /\
  le_num B32 (add_loop a b c) = (le_num B32 a + le_num B32 b + c) mod B32 ^ len a.
Proof.
  revert b c; induction a as [|x a IH]; intros [|y b] c Hn Ha Hb Hc; try discriminate.
  - cbn. rewrite Z.mod_1_r. auto.
  - apply Forall_cons in Ha as [Hx Ha], Hb as [Hy Hb]. injection Hn as Hn.
    cbn [add_loop le_num length]. unfold B32 in Hx, Hy.
    rewrite (u64_id (x + y + c)), shiftr_div by lia. change (2 ^ 32) with B32.
    destruct (IH b ((x + y + c) / B32) Hn Ha Hb) as (IL & IF & IV).
    { unfold B32. zdiv_lia. }
    split; [now rewrite IL|]. split; [constructor; [unfold u32, B32; zdiv_lia|exact IF]|].
    rewrite IV, pow_nat_S, Z.rem_mul_r; [|unfold B32; lia|apply pow_nat_pos; reflexivity].
    unfold u32. fold B32.
    replace (x + B32 * le_num B32 a + (y + B32 * le_num B32 b) + c)
      with (x + y + c + (le_num B32 a + le_num B32 b) * B32) by lia.
    rewrite Z_mod_plus_full, Z.div_add by (unfold B32; lia). f_equal. f_equal. f_equal. lia.
Qed.

Lemma u32s_ok u : length (u32s u) = 8%nat /\ Forall (is_digit B32) (u32s u).
Proof. split; [apply length_le_digits|now apply le_digits_ok]. Qed.

Lemma u64s_ok u : length (u64s u) = 4%nat /\ Forall (is_digit B64) (u64s u).
Proof. split; [apply length_le_digits|now apply le_digits_ok]. Qed.

Lemma add_spec a b : is_u256 a -> is_u256 b -> add a b = (a + b) mod U256.
Proof.
  intros Ha Hb. unfold add, of_u32s.
  destruct (u32s_ok a) as [La Fa], (u32s_ok b) as [Lb Fb].
  destruct (add_loop_spec (u32s a) (u32s b) 0) as (_ & _ & ->); try lia; auto.
  rewrite La. fold (of_u32s (u32s a)) (of_u32s (u32s b)).
  rewrite !of_u32s_u32s by done. f_equal. lia.
Qed.

Lemma add_range a b : is_u256 (add a b).
Proof.
  unfold add. destruct (u32s_ok a) as [La Fa], (u32s_ok b) as [Lb Fb].
  destruct (add_loop_spec (u32s a) (u32s b) 0) as (? & ? & _); try lia; auto.
  apply of_u32s_range; congruence || auto.
Qed.

Lemma neg_spec a : is_u256 a -> neg a = U256 - 1 - a.
Proof.
  intros Ha. unfold neg, of_u64s.
  destruct (u64s_unfold a Ha) as (a0 & a1 & a2 & a3 & -> & -> & ?).
  assert (E : forall x, 0 <= x < B64 -> not64 x = B64 - 1 - x).
  { intros x Hx. unfold not64, Z.lnot. unfold B64 in *. uint. }
  simpl. rewrite !E by lia. unfold U256, B64 in *. lia.
Qed.

Lemma subtract_spec a b : is_u256 a -> is_u256 b -> subtract a b = (a - b) mod U256.
Proof.
  intros Ha Hb. unfold subtract, addOne. change (of_u64s [1; 0; 0; 0]) with 1.
  rewrite add_spec; [|done|apply add_range].
  rewrite add_spec; [|rewrite neg_spec by done; unfold is_u256, U256 in *; lia|done].
  rewrite neg_spec by done. rewrite Zplus_mod_idemp_r.
  replace (a + (U256 - 1 - b + 1)) with (a - b + 1 * U256) by lia. apply Z_mod_plus_full.
Qed.

Lemma mul_loop_spec a b c :
  Forall (is_digit B32) a -> 0 <= b < B32 -> 0 <= c < B32 ->
  length (mul_loop a b c) = length a /\ Forall (is_digit B32) (mul_loop a b c) /\
  le_num B32 (mul_loop a b c) = (le_num B32 a * b + c) mod B32 ^ len a.
Proof.
  intros Ha Hb; revert c; induction Ha as [|x a Hx Ha IH]; intros c Hc.
  - cbn. rewrite Z.mod_1_r. auto.
  - cbn [mul_loop le_num length]. simpl in Hx.
    assert (Hn : 0 <= c + b * x < B32 * B32) by nia.
    rewrite (u64_id (c + b * x)), shiftr_div by (unfold B32 in *; lia). change (2 ^ 32) with B32.
    change 0xffffffff with (Z.ones 32). rewrite Z.land_ones by lia. change (2 ^ 32) with B32.
    destruct (IH ((c + b * x) / B32)) as (IL & IF & IV).
    { split; [apply Z.div_pos; unfold B32; lia|apply Z.div_lt_upper_bound; unfold B32 in *; lia]. }
    split; [now rewrite IL|].
    split; [constructor; [apply Z.mod_pos_bound; reflexivity|exact IF]|].
    rewrite IV, pow_nat_S, Z.rem_mul_r; [|unfold B32; lia|apply pow_nat_pos; reflexivity].
    replace ((x + B32 * le_num B32 a) * b + c) with (c + b * x + (le_num B32 a * b) * B32) by lia.
    rewrite Z_mod_plus_full, Z.div_add by (unfold B32; lia). f_equal. f_equal. f_equal. lia.
Qed.

Lemma multiplyThis32_spec a b : is_u256 a -> 0 <= b < B32 -> multiplyThis32 a b = (a * b) mod U256.
Proof.
  intros Ha Hb. unfold multiplyThis32, of_u32s. destruct (u32s_ok a) as [La Fa].
  destruct (mul_loop_spec (u32s a) b 0) as (_ & _ & ->); try (unfold B32; lia); auto.
  rewrite La. fold (of_u32s (u32s a)). rewrite of_u32s_u32s by done. f_equal. lia.
Qed.

(** ** Bit length *)

Lemma land_bit_zero x i : 0 <= i -> (Z.land x (Z.shiftl 1 i) =? 0) = negb (Z.testbit x i).
Proof.
  intros Hi. rewrite Z.shiftl_1_l. destruct (Z.testbit x i) eqn:E; simpl.
  - apply Z.eqb_neq. intros H. apply (f_equal (fun z => Z.testbit z i)) in H.
    rewrite Z.land_spec, Z.bits_0, E, Z.pow2_bits_true in H by lia. discriminate.
  - apply Z.eqb_eq. apply Z.bits_inj'. intros j Hj. rewrite Z.land_spec, Z.bits_0.
    destruct (Z.eq_dec i j) as [<-|Hn]; [now rewrite E|].
    rewrite Z.pow2_bits_false by done. apply andb_false_r.
Qed.

Lemma bits_word_spec x b : 0 < x < 2 ^ Z.of_nat (S b) -> Z.of_nat (bits_word x b) = Z.log2 x.
Proof.
  induction b as [|b IH]; intros Hx.
  - change (2 ^ Z.of_nat 1) with 2 in Hx. simpl. now replace x with 1 by lia.
  - cbn [bits_word]. rewrite land_bit_zero, negb_involutive by lia.
    destruct (Z.testbit x (Z.of_nat (S b))) eqn:E.
    + symmetry. apply Z.log2_unique; [lia|]. split; [|rewrite <- Nat2Z.inj_succ; lia].
      destruct (Z.lt_ge_cases x (2 ^ Z.of_nat (S b))) as [Hlt|]; [exfalso|lia].
      rewrite <- (Z.mod_small x (2 ^ Z.of_nat (S b))), Z.mod_pow2_bits_high in E by lia. discriminate.
    + apply IH. split; [lia|].
      destruct (Z.lt_ge_cases x (2 ^ Z.of_nat (S b))) as [|Hge]; [lia|exfalso].
      assert (Z.log2 x = Z.of_nat (S b)) as Hl.
      { apply Z.log2_unique; [lia|]. rewrite <- Nat2Z.inj_succ. lia. }
      rewrite <- Hl, Z.bit_log2 in E by lia. discriminate.
Qed.

Definition bit_length (x : Z) : Z := if x =? 0 then 0 else Z.log2 x + 1.

Lemma bits_loop_spec l p :
  Forall (is_digit B32) l -> (p <= length l)%nat ->
  bits_loop l p = bit_length (le_num B32 (take p l)).
Proof.
  intros Hl. induction p as [|p IH]; intros Hp; [reflexivity|].
  cbn [bits_loop]. destruct (lookup_lt_is_Some_2 l p ltac:(lia)) as [x Hx].
  rewrite (take_S_r l p x Hx). unfold wd. rewrite Nat2Z.id, Hx. simpl default.
  pose proof (Forall_lookup_1 _ _ _ _ Hl Hx) as Hxb. simpl in Hxb.
  rewrite le_num_app by reflexivity. cbn [le_num]. rewrite length_take_le by lia.
  rewrite Z.mul_0_r, Z.add_0_r.
  assert (Hlow : 0 <= le_num B32 (take p l) < B32 ^ Z.of_nat p).
  { pose proof (le_num_range B32 eq_refl (take p l) (Forall_take _ _ _ Hl)) as H.
    rewrite length_take_le in H by lia. exact H. }
  set (v := le_num B32 (take p l)) in *.
  destruct (Z.eqb_spec x 0) as [->|Hx0]; simpl negb; cbv iota.
  - rewrite IH by lia. fold v. now rewrite Z.mul_0_r, Z.add_0_r.
  - assert (Hw : Z.of_nat (bits_word x 31) = Z.log2 x).
    { apply bits_word_spec. change (2 ^ Z.of_nat 32) with B32. lia. }
    transitivity (32 * Z.of_nat p + Z.of_nat (bits_word x 31) + 1).
    { destruct (bits_word x 31); lia. }
    rewrite Hw. unfold bit_length.
    assert (Hpow : B32 ^ Z.of_nat p = 2 ^ (32 * Z.of_nat p)).
    { change B32 with (2 ^ 32). rewrite <- Z.pow_mul_r by lia. reflexivity. }
    rewrite Hpow in *. pose proof (Z.log2_spec x ltac:(lia)) as Hlog.
    rewrite (proj2 (Z.eqb_neq _ 0)) by nia. f_equal. symmetry.
    apply Z.log2_unique; [pose proof (Z.log2_nonneg x); lia|].
    rewrite <- Z.add_succ_r, !Z.pow_add_r by (pose proof (Z.log2_nonneg x); lia).
    set (k := 2 ^ (32 * Z.of_nat p)) in *. set (q := 2 ^ Z.log2 x) in *.
    set (q' := 2 ^ Z.succ (Z.log2 x)) in *. nia.
Qed.

Lemma bits_spec u : is_u256 u -> bits u = u8 (bit_length u).
Proof.
  intros Hu. unfold bits. destruct (u32s_ok u) as [Ln Fn].
  rewrite bits_loop_spec, take_ge by (lia || auto).
  fold (of_u32s (u32s u)). now rewrite of_u32s_u32s.
Qed.

Lemma bit_length_le u n : 0 <= u < 2 ^ n -> 0 <= n -> 0 <= bit_length u <= n.
Proof.
  intros Hu Hn. unfold bit_length. destruct (Z.eqb_spec u 0); [lia|].
  pose proof (Z.log2_nonneg u). pose proof (proj1 (Z.log2_lt_pow2 u n ltac:(lia))). lia.
Qed.

Lemma bit_length_bounds u : 0 < u -> 2 ^ (bit_length u - 1) <= u < 2 ^ bit_length u /\ 0 < bit_length u.
Proof.
  intros Hu. unfold bit_length. rewrite (proj2 (Z.eqb_neq _ _)) by lia.
  pose proof (Z.log2_spec u Hu). pose proof (Z.log2_nonneg u).
  replace (Z.log2 u + 1 - 1) with (Z.log2 u) by lia. rewrite <- Z.add_1_r in *. lia.
Qed.

Lemma bits_small u : 0 <= u < 2 ^ 255 -> bits u = bit_length u.
Proof.
  intros Hu. rewrite bits_spec by (unfold is_u256, U256; lia).
  apply u8_id. pose proof (bit_length_le u 255 Hu). lia.
Qed.

(** ** Shifts *)

Lemma pow2_split s : 0 <= s <= 64 -> 2 ^ s * 2 ^ (64 - s) = B64 /\ 0 < 2 ^ s /\ 0 < 2 ^ (64 - s).
Proof.
  intros Hs. rewrite <- Z.pow_add_r by lia. replace (s + (64 - s)) with 64 by lia.
  split; [reflexivity|]. split; apply Z.pow_pos_nonneg; lia.
Qed.

(** A word shifted left by [s]: the part that stays and the part carried to the next word. *)
Lemma shl_word x s : 0 <= x < B64 -> 0 <= s <= 64 ->
  x * 2 ^ s = Z.shiftr x (64 - s) * B64 + u64 (Z.shiftl x s) /\
  0 <= Z.shiftr x (64 - s) < 2 ^ s /\ 0 <= u64 (Z.shiftl x s) <= B64 - 2 ^ s /\
  u64 (Z.shiftl x s) mod 2 ^ s = 0.
Proof.
  intros Hx Hs. destruct (pow2_split s Hs) as (HB & HP & HQ).
  rewrite shiftr_div, Z.shiftl_mul_pow2 by lia. unfold u64. change 0x10000000000000000 with B64.
  set (P := 2 ^ s) in *. set (Q := 2 ^ (64 - s)) in *. rewrite <- HB in *.
  rewrite (Z.mul_comm P Q) in *. rewrite Z.mul_mod_distr_r by lia.
  pose proof (Z.div_mod x Q ltac:(lia)) as Hdm. pose proof (Z.mod_pos_bound x Q HQ) as Hm.
  assert (0 <= x / Q < P).
  { split; [apply Z.div_pos; lia|apply Z.div_lt_upper_bound; lia]. }
  rewrite Z_mod_mult. nia.
Qed.

Lemma lor_words x y s : 0 <= x < B64 -> 0 <= y < B64 -> 0 <= s <= 64 ->
  Z.lor (Z.shiftr x (64 - s)) (u64 (Z.shiftl y s)) = Z.shiftr x (64 - s) + u64 (Z.shiftl y s) /\
  Z.lor (u64 (Z.shiftl y s)) (Z.shiftr x (64 - s)) = Z.shiftr x (64 - s) + u64 (Z.shiftl y s).
Proof.
  intros Hx Hy Hs. destruct (shl_word x s Hx Hs) as (_ & ? & _ & _).
  destruct (shl_word y s Hy Hs) as (_ & _ & _ & ?).
  rewrite Z.lor_comm, (lor_lane _ _ s) by lia. lia.
Qed.

Ltac shift_cases n :=
  let H := fresh "Hk" in
  assert (H : n / 64 = 0 \/ n / 64 = 1 \/ n / 64 = 2 \/ n / 64 = 3)
    by (pose proof (Z.div_mod n 64); pose proof (Z.mod_pos_bound n 64); lia);
  destruct H as [H|[H|[H|H]]].

Lemma pow64_split n k : n / 64 = k -> 0 <= n -> 2 ^ n = 2 ^ (64 * k) * 2 ^ (n mod 64).
Proof.
  intros <- Hn. pose proof (Z.div_mod n 64). pose proof (Z.mod_pos_bound n 64).
  rewrite <- Z.pow_add_r by lia. f_equal. lia.
Qed.

(** The two loops, evaluated: [hi]/[lo] are the parts of a word shifted left by [s] (left shift), or
    shifted left by [64 - s] (right shift). *)
Definition whi (s x : Z) : Z := Z.shiftr x (64 - s).
Definition wlo (s x : Z) : Z := u64 (Z.shiftl x s).

Lemma wlo_0 x : 0 <= x < B64 -> wlo 0 x = x.
Proof. intros. unfold wlo. rewrite Z.shiftl_0_r. now apply u64_id. Qed.

Lemma whi_0 x : 0 <= x < B64 -> whi 0 x = 0.
Proof. intros. unfold whi. rewrite shiftr_div by lia. now apply Z.div_small. Qed.

Lemma wlo_64 x : wlo 64 x = 0.
Proof. unfold wlo, u64. rewrite Z.shiftl_mul_pow2 by lia. apply Z_mod_mult. Qed.

Lemma whi_64 x : whi 64 x = x.
Proof. unfold whi. apply Z.shiftr_0_r. Qed.

Lemma shl_words a0 a1 a2 a3 k s :
  0 <= a0 < B64 -> 0 <= a1 < B64 -> 0 <= a2 < B64 -> 0 <= a3 < B64 -> 0 <= s < 64 -> (k < 4)%nat ->
  foldl (shl_step [a0; a1; a2; a3] (Z.of_nat k) s) [0; 0; 0; 0] [0; 1; 2; 3] =
  replicate k 0 ++ take (4 - k) [wlo s a0; whi s a0 + wlo s a1; whi s a1 + wlo s a2; whi s a2 + wlo s a3].
Proof.
  intros H0 H1 H2 H3 Hs Hk. unfold shl_step, wd, upd.
  destruct (Z.eqb_spec s 0) as [->|Hs0].
  - rewrite !wlo_0, !whi_0 by done.
    pose proof (wlo_0 a0 H0) as E0. pose proof (wlo_0 a1 H1) as E1. pose proof (wlo_0 a2 H2) as E2.
    pose proof (wlo_0 a3 H3) as E3. unfold wlo in *.
    destruct k as [|[|[|[|k]]]]; try lia; simpl; rewrite ?Z.lor_0_l, ?E0, ?E1, ?E2, ?E3; reflexivity.
  - destruct (lor_words a0 a1 s) as [E0 _]; try lia. destruct (lor_words a1 a2 s) as [E1 _]; try lia.
    destruct (lor_words a2 a3 s) as [E2 _]; try lia. unfold whi, wlo.
    destruct k as [|[|[|[|k]]]]; try lia; simpl; rewrite ?Z.lor_0_l, ?E0, ?E1, ?E2; reflexivity.
Qed.

Lemma shr_words a0 a1 a2 a3 k s :
  0 <= a0 < B64 -> 0 <= a1 < B64 -> 0 <= a2 < B64 -> 0 <= a3 < B64 -> 0 <= s < 64 -> (k < 4)%nat ->
  foldl (shr_step [a0; a1; a2; a3] (Z.of_nat k) s) [0; 0; 0; 0] [0; 1; 2; 3] =
  (let t := 64 - s in
   drop k [whi t a0 + wlo t a1; whi t a1 + wlo t a2; whi t a2 + wlo t a3; whi t a3] ++ replicate k 0).
Proof.
  intros H0 H1 H2 H3 Hs Hk. unfold shr_step, wd, upd.
  destruct (Z.eqb_spec s 0) as [->|Hs0].
  - cbv zeta. change (64 - 0) with 64. rewrite !wlo_64, !whi_64, !Z.add_0_r.
    destruct k as [|[|[|[|k]]]]; try lia; simpl; rewrite ?Z.lor_0_l, ?Z.shiftr_0_r; reflexivity.
  - assert (Ht : 64 - (64 - s) = s) by lia.
    destruct (lor_words a0 a1 (64 - s)) as [_ E0]; try lia. destruct (lor_words a1 a2 (64 - s)) as [_ E1]; try lia.
    destruct (lor_words a2 a3 (64 - s)) as [_ E2]; try lia. rewrite Ht in *. unfold whi, wlo. rewrite Ht.
    rewrite Z.lor_comm in E0, E1, E2.
    destruct k as [|[|[|[|k]]]]; try lia; simpl; rewrite ?Z.lor_0_l, ?E0, ?E1, ?E2; reflexivity.
Qed.

Lemma whi_wlo x s : 0 <= x < B64 -> 0 <= s <= 64 ->
  x * 2 ^ s = whi s x * B64 + wlo s x /\ 0 <= whi s x < 2 ^ s /\ 0 <= wlo s x <= B64 - 2 ^ s.
Proof. intros Hx Hs. destruct (shl_word x s Hx Hs) as (? & ? & ? & _). auto. Qed.

Lemma shiftLeft_spec a n : is_u256 a -> 0 <= n < 256 -> shiftLeft a n = (a * 2 ^ n) mod U256.
Proof.
  intros Ha Hn. unfold shiftLeft.
  destruct (u64s_unfold a Ha) as (a0 & a1 & a2 & a3 & -> & Ea & H0 & H1 & H2 & H3).
  pose proof (Z.mod_pos_bound n 64 ltac:(lia)) as Hs.
  destruct (whi_wlo a0 (n mod 64) H0 ltac:(lia)) as (E0 & ? & ?).
  destruct (whi_wlo a1 (n mod 64) H1 ltac:(lia)) as (E1 & ? & ?).
  destruct (whi_wlo a2 (n mod 64) H2 ltac:(lia)) as (E2 & ? & ?).
  destruct (whi_wlo a3 (n mod 64) H3 ltac:(lia)) as (E3 & ? & ?).
  assert (Ek : exists k, n / 64 = Z.of_nat k /\ (k < 4)%nat).
  { exists (Z.to_nat (n / 64)). shift_cases n; rewrite Hk; lia. }
  destruct Ek as (k & Ek & Hk). rewrite Ek, shl_words, (pow64_split n _ Ek) by lia.
  assert (EA : a * 2 ^ (n mod 64) =
    wlo (n mod 64) a0 + B64 * (whi (n mod 64) a0 + wlo (n mod 64) a1 +
      B64 * (whi (n mod 64) a1 + wlo (n mod 64) a2 +
        B64 * (whi (n mod 64) a2 + wlo (n mod 64) a3 + B64 * whi (n mod 64) a3)))) by (subst a; lia).
  rewrite Z.mul_assoc, (Z.mul_comm a), <- Z.mul_assoc, EA. clear EA E0 E1 E2 E3 Ea.
  set (h0 := whi _ a0) in *. set (h1 := whi _ a1) in *. set (h2 := whi _ a2) in *. set (h3 := whi _ a3) in *.
  set (l0 := wlo _ a0) in *. set (l1 := wlo _ a1) in *. set (l2 := wlo _ a2) in *. set (l3 := wlo _ a3) in *.
  unfold of_u64s, U256, B64 in *.
  destruct k as [|[|[|[|k]]]]; try lia; simpl;
    change (2 ^ (64 * Z.of_nat 0)) with 1; change (2 ^ (64 * Z.of_nat 1)) with (0x10000000000000000);
    change (2 ^ (64 * Z.of_nat 2)) with (0x100000000000000000000000000000000);
    change (2 ^ (64 * Z.of_nat 3)) with (0x1000000000000000000000000000000000000000000000000).
  - apply (Z.mod_unique_pos _ _ h3); lia.
  - apply (Z.mod_unique_pos _ _ (h2 + l3 + 0x10000000000000000 * h3)); lia.
  - apply (Z.mod_unique_pos _ _ (h1 + l2 + 0x10000000000000000 * (h2 + l3 + 0x10000000000000000 * h3))); lia.
  - apply (Z.mod_unique_pos _ _ (h0 + l1 + 0x10000000000000000 * (h1 + l2 + 0x10000000000000000 *
      (h2 + l3 + 0x10000000000000000 * h3)))); lia.
Qed.

Lemma shiftRight_spec a n : is_u256 a -> 0 <= n < 256 -> shiftRight a n = a / 2 ^ n.
Proof.
  intros Ha Hn. unfold shiftRight.
  destruct (u64s_unfold a Ha) as (a0 & a1 & a2 & a3 & -> & Ea & H0 & H1 & H2 & H3).
  pose proof (Z.mod_pos_bound n 64 ltac:(lia)) as Hs.
  set (s := n mod 64) in *. set (t := 64 - s).
  destruct (whi_wlo a0 t H0 ltac:(lia)) as (E0 & ? & ?).
  destruct (whi_wlo a1 t H1 ltac:(lia)) as (E1 & ? & ?).
  destruct (whi_wlo a2 t H2 ltac:(lia)) as (E2 & ? & ?).
  destruct (whi_wlo a3 t H3 ltac:(lia)) as (E3 & ? & ?).
  assert (Ek : exists k, n / 64 = Z.of_nat k /\ (k < 4)%nat).
  { exists (Z.to_nat (n / 64)). shift_cases n; rewrite Hk; lia. }
  destruct Ek as (k & Ek & Hk).
  assert (Est : 2 ^ s * 2 ^ t = B64).
  { rewrite <- Z.pow_add_r by lia. replace (s + t) with 64 by lia. reflexivity. }
  assert (P : 0 < 2 ^ s) by (apply Z.pow_pos_nonneg; lia).
  assert (Pt : 0 < 2 ^ t) by (apply Z.pow_pos_nonneg; lia).
  assert (EA : a / 2 ^ s = whi t a0 + wlo t a1 + B64 * (whi t a1 + wlo t a2 +
                 B64 * (whi t a2 + wlo t a3 + B64 * whi t a3))).
  { rewrite <- (Z.div_mul_cancel_r a (2 ^ s) (2 ^ t)) by lia. rewrite Est.
    symmetry. apply (Z.div_unique_pos _ _ _ (wlo t a0)); [lia|]. subst a. lia. }
  rewrite Ek, (shr_words a0 a1 a2 a3 k s), (pow64_split n _ Ek) by lia. fold s t. cbv zeta. fold t.
  rewrite (Z.mul_comm (2 ^ (64 * Z.of_nat k))), <- Z.div_div, EA by lia.
  clear EA E0 E1 E2 E3 Ea Est. clearbody t s.
  set (h0 := whi _ a0) in *. set (h1 := whi _ a1) in *. set (h2 := whi _ a2) in *. set (h3 := whi _ a3) in *.
  set (l0 := wlo _ a0) in *. set (l1 := wlo _ a1) in *. set (l2 := wlo _ a2) in *. set (l3 := wlo _ a3) in *.
  unfold of_u64s, U256, B64 in *.
  destruct k as [|[|[|[|k]]]]; try lia; simpl;
    change (2 ^ (64 * Z.of_nat 0)) with 1; change (2 ^ (64 * Z.of_nat 1)) with (0x10000000000000000);
    change (2 ^ (64 * Z.of_nat 2)) with (0x100000000000000000000000000000000);
    change (2 ^ (64 * Z.of_nat 3)) with (0x1000000000000000000000000000000000000000000000000).
  - rewrite Z.div_1_r. lia.
  - apply (Z.div_unique_pos _ _ _ (h0 + l1)); lia.
  - apply (Z.div_unique_pos _ _ _ (h0 + l1 + 0x10000000000000000 * (h1 + l2))); lia.
  - apply (Z.div_unique_pos _ _ _ (h0 + l1 + 0x10000000000000000 * (h1 + l2 + 0x10000000000000000 * (h2 + l3)))); lia.
Qed.

(** ** Division *)

Lemma u32s_lookup a i : 0 <= i < 8 -> u32s a !! Z.to_nat i = Some (a / B32 ^ i mod B32).
Proof. intros. unfold u32s. rewrite lookup_le_digits by (unfold B32; lia). now rewrite Z2Nat.id by lia. Qed.

Lemma land_31 x : Z.land x 31 = x mod 32.
Proof. exact (Z.land_ones x 5 ltac:(lia)). Qed.

Lemma set_bit_spec r s :
  is_u256 r -> 0 <= s < 256 -> r mod 2 ^ (s + 1) = 0 -> set_bit r s = r + 2 ^ s.
Proof.
  intros Hr Hs Hm. unfold set_bit, of_u32s, upd, wd.
  assert (Hi : 0 <= s / 32 < 8) by zdiv_lia.
  rewrite (u32s_lookup r _ Hi); cbn [default from_option id].
  rewrite land_31. pose proof (Z.mod_pos_bound s 32 ltac:(lia)) as Hb.
  rewrite Z.shiftl_mul_pow2, Z.mul_1_l by lia.
  assert (P : 0 < 2 ^ (s mod 32)) by (apply Z.pow_pos_nonneg; lia).
  assert (P32 : 2 ^ (s mod 32) < 2 ^ 32) by (apply Z.pow_lt_mono_r; lia).
  rewrite u32_id by (change (2 ^ 32) with 0x100000000 in P32; lia).
  assert (EB : B32 ^ (s / 32) * 2 ^ (s mod 32) = 2 ^ s).
  { change B32 with (2 ^ 32). rewrite <- Z.pow_mul_r, <- Z.pow_add_r by lia. f_equal. zdiv_lia. }
  assert (PB : 0 < B32 ^ (s / 32)) by (apply Z.pow_pos_nonneg; unfold B32; lia).
  (* the word has all its bits up to [s mod 32] clear *)
  assert (HW : (r / B32 ^ (s / 32) mod B32) mod 2 ^ (s mod 32 + 1) = 0).
  { rewrite Z.pow_add_r in Hm |- * by lia. change (2 ^ 1) with 2 in *.
    set (p := 2 ^ (s mod 32)) in *. set (B := B32 ^ (s / 32)) in *.
    assert (D : (p * 2 | B32)).
    { exists (2 ^ (31 - s mod 32)). unfold p. change (p * 2) with (2 ^ (s mod 32) * 2 ^ 1).
      change 2 with (2 ^ 1) at 3. rewrite <- !Z.pow_add_r by lia.
      change B32 with (2 ^ 32). f_equal. lia. }
    apply Z.mod_divide in Hm; [|nia]. destruct Hm as [q Hq].
    assert (Er : r = (q * (p * 2)) * B) by (rewrite <- EB in Hq; lia).
    rewrite Er, Z.div_mul by lia. destruct D as [d Hd]. rewrite Hd.
    assert (0 < d) by (unfold B32 in Hd; nia).
    rewrite Z.mul_mod_distr_r by nia. apply Z_mod_mult. }
  set (W := r / B32 ^ (s / 32) mod B32) in *.
  rewrite (lor_lane W _ (s mod 32 + 1)); [|lia| |exact HW].
  2:{ rewrite Z.pow_add_r by lia. change (2 ^ 1) with 2. lia. }
  rewrite (le_num_insert B32 _ _ W).
  2:{ rewrite u32s_lookup by lia. reflexivity. }
  unfold u32s. rewrite le_num_le_digits_id; [|reflexivity|].
  - rewrite Z2Nat.id by lia. rewrite <- EB. lia.
  - unfold is_u256 in Hr. exact Hr.
Qed.

Lemma mod_double r m : 0 < m -> r mod (2 * m) = 0 -> r mod m = 0.
Proof.
  intros Hm H. apply Z.mod_divide in H; [|lia]. destruct H as [q ->].
  replace (q * (2 * m)) with (q * 2 * m) by lia. apply Z_mod_mult.
Qed.

Lemma u256_pow : U256 = 2 ^ 256.
Proof. reflexivity. Qed.

(** One run of the loop: [div] is [b * 2^shift], [num] is below [2 * div] and [r] has its low bits clear. *)
Lemma divide_loop_spec a b n num div r :
  0 < b -> 0 <= num -> 0 <= r ->
  a = r * b + num -> div * 2 = b * 2 ^ Z.of_nat n -> num < b * 2 ^ Z.of_nat n ->
  b * 2 ^ Z.of_nat n <= U256 -> is_u256 a -> r mod 2 ^ Z.of_nat n = 0 -> (n <= 256)%nat ->
  (n = 0)%nat \/ divide_loop n num div r = a / b.
Proof.
  intros Hb. revert num div r; induction n as [|n IH]; intros num div r Hn Hr Ha Hd Hlt Hbnd Hu Hm Hle; [auto|].
  right. cbn [divide_loop].
  assert (Pn : 0 < 2 ^ Z.of_nat n) by (apply Z.pow_pos_nonneg; lia).
  rewrite Nat2Z.inj_succ, Z.pow_succ_r in Hd, Hlt, Hbnd, Hm by lia.
  assert (Ed : div = b * 2 ^ Z.of_nat n) by lia. unfold is_u256 in *.
  assert (Hru : r <= a) by nia.
  rewrite UInt256SupEq_spec by (unfold is_u256; nia).
  set (st := if div <=? num then _ else _).
  assert (E : exists num' r', st = (num', r') /\ 0 <= num' < div /\ 0 <= r' /\ a = r' * b + num' /\ r' mod 2 ^ Z.of_nat n = 0).
  { unfold st; clear st. destruct (Z.leb_spec div num).
    - do 2 eexists. split; [reflexivity|].
      rewrite subtract_spec, set_bit_spec by (unfold is_u256; try rewrite Z.add_1_r, Z.pow_succ_r; lia).
      rewrite Z.mod_small by lia. split; [lia|]. split; [lia|]. split; [nia|].
      rewrite <- Z.add_mod_idemp_l, (mod_double r), Z.add_0_l, Z_mod_same_full by (done || lia). reflexivity.
    - do 2 eexists. split; [reflexivity|]. repeat split; try lia. now apply mod_double. }
  destruct E as (num' & r' & -> & Hn' & Hr' & Ha' & Hm').
  destruct n as [|n].
  - cbn [divide_loop]. apply Z.div_unique with num'; [left|]; lia.
  - destruct (IH num' (shiftRight div 1) r') as [|E]; try done; try lia.
    rewrite shiftRight_spec by (unfold is_u256; nia). rewrite Ed, Nat2Z.inj_succ, Z.pow_succ_r by lia.
    change (2 ^ 1) with 2. replace (b * (2 * 2 ^ Z.of_nat n)) with (b * 2 ^ Z.of_nat n * 2) by lia.
    rewrite Z.div_mul by lia. lia.
Qed.

(** [divide] is integer division below 2^255; at 2^255 and above [bits] no longer fits its [uint8_t]. *)
Lemma divide_correct a b : 0 <= a < 2 ^ 255 -> 0 < b < 2 ^ 255 -> divide a b = Some (a / b).
Proof.
  intros Ha Hb. unfold divide. rewrite !bits_small by lia.
  pose proof (bit_length_le b 255 ltac:(lia) ltac:(lia)) as Lb.
  pose proof (bit_length_le a 255 Ha ltac:(lia)) as La.
  destruct (bit_length_bounds b ltac:(lia)) as (Bb & Pb).
  rewrite (proj2 (Z.eqb_neq _ _)) by lia.
  destruct (Z.ltb_spec (bit_length a) (bit_length b)) as [Hlt|Hge].
  - f_equal. change UINT256_ZERO with 0. symmetry. apply Z.div_small.
    destruct (Z.eq_dec a 0) as [->|]; [lia|].
    destruct (bit_length_bounds a ltac:(lia)) as (Ba & _).
    pose proof (Z.pow_le_mono_r 2 (bit_length a) (bit_length b - 1) ltac:(lia) ltac:(lia)). lia.
  - f_equal. destruct (bit_length_bounds a) as (Ba & _).
    { destruct (Z.eq_dec a 0) as [->|]; [cbn in Hge; lia|lia]. }
    set (s := bit_length a - bit_length b) in *.
    assert (Es : 2 ^ bit_length a = 2 ^ bit_length b * 2 ^ s).
    { rewrite <- Z.pow_add_r by lia. f_equal. lia. }
    assert (Es1 : 2 ^ (bit_length b) = 2 * 2 ^ (bit_length b - 1)).
    { rewrite <- Z.pow_succ_r by lia. f_equal. lia. }
    assert (Ps : 0 < 2 ^ s) by (apply Z.pow_pos_nonneg; lia).
    assert (Pa : 2 ^ bit_length a <= 2 ^ 255) by (apply Z.pow_le_mono_r; lia).
    assert (PM : U256 = 2 * 2 ^ 255) by reflexivity. set (M := 2 ^ 255) in *. clearbody M.
    set (pb := 2 ^ (bit_length b - 1)) in *. set (ps := 2 ^ s) in *.
    assert (Hbs : b * ps < M) by (apply Z.lt_le_trans with (2 ^ bit_length a); [rewrite Es; nia|lia]).
    assert (Hab : a < b * ps * 2) by (rewrite Es, Es1 in Ba; nia).
    assert (Pbs : 0 < b * ps) by nia.
    rewrite u8_id, shiftLeft_spec by (unfold is_u256; lia).
    fold ps. rewrite Z.mod_small by lia. change UINT256_ZERO with 0.
    assert (E2 : 2 ^ Z.of_nat (Z.to_nat (s + 1)) = 2 * ps).
    { rewrite Z2Nat.id, Z.add_1_r, Z.pow_succ_r by lia. reflexivity. }
    destruct (divide_loop_spec a b (Z.to_nat (s + 1)) a (b * ps) 0) as [|E];
      rewrite ?E2; unfold is_u256; try lia; try done.
Qed.

(** Above that bound the quotient is wrong: the compiled code returns 0 for 2^255 / 1. *)
Example divide_wraps : divide (2 ^ 255) 1 = Some 0 /\ divide (2 ^ 255) (2 ^ 255) = None.
Proof. vm_compute. auto. Qed.

(** ** The compact ("nBits") encoding of targets *)

Lemma word0 x : wd (u32s x) 0 = x mod B32.
Proof. unfold wd. rewrite u32s_lookup by lia. cbn. now rewrite Z.div_1_r. Qed.

Lemma pow8 n : 0 <= n -> 2 ^ (8 * n) = 256 ^ n.
Proof. intros. now rewrite Z.pow_mul_r by lia. Qed.

Lemma setCompact_spec n w :
  3 <= n <= 32 -> 0 <= w < 0x800000 -> setCompact (n * 0x1000000 + w) = w * 256 ^ (n - 3).
Proof.
  intros Hn Hw. unfold setCompact.
  assert (En : Z.shiftr (n * 0x1000000 + w) 24 = n).
  { rewrite shiftr_div by lia. change (2 ^ 24) with 0x1000000. zdiv_lia. }
  assert (Ew : Z.land (n * 0x1000000 + w) 0x007fffff = w).
  { change 0x007fffff with (Z.ones 23). rewrite Z.land_ones by lia. change (2 ^ 23) with 0x800000. zdiv_lia. }
  rewrite En, Ew. clear En Ew.
  assert (E : of_u32s (upd (u32s UINT256_ZERO) 0 w) = w).
  { transitivity (w + 0); [reflexivity|lia]. }
  rewrite E. clear E. destruct (Z.leb_spec n 3).
  - replace n with 3 by lia. change (u8 (8 * (3 - 3))) with 0. rewrite shiftRight_spec by (unfold is_u256, U256; lia).
    change (2 ^ 0) with 1. change (256 ^ (3 - 3)) with 1. rewrite Z.div_1_r. lia.
  - rewrite u8_id, shiftLeft_spec, pow8 by (unfold is_u256, U256; lia).
    assert (Hp : 256 ^ (n - 3) <= 256 ^ 29) by (apply Z.pow_le_mono_r; lia).
    assert (0 < 256 ^ (n - 3)) by (apply Z.pow_pos_nonneg; lia).
    apply Z.mod_small. change (256 ^ 29) with 0x10000000000000000000000000000000000000000000000000000000000 in Hp.
    unfold U256. nia.
Qed.

Lemma sign_bit x : 0 <= x < 0x1000000 -> (Z.land x 0x00800000 =? 0) = (x <? 0x800000).
Proof.
  intros Hx. change (Z.land x 0x00800000) with (Z.land x (Z.shiftl 1 23)). rewrite land_bit_zero by lia.
  destruct (Z.testbit x 23) eqn:T; symmetry;
    [apply Z.ltb_ge; apply Z.testbit_true in T | apply Z.ltb_lt; apply Z.testbit_false in T]; try lia;
    change (2 ^ 23) with 0x800000 in T; zdiv_lia.
Qed.

Lemma compact_pack n w :
  0 <= n < 256 -> 0 <= w < 0x800000 ->
  (if negb (Z.land w (u32 (Z.lnot 0x007fffff)) =? 0) || (256 <=? n) then None
   else Some (Z.lor w (u32 (Z.shiftl n 24)))) = Some (n * 0x1000000 + w).
Proof.
  intros Hn Hw. change (u32 (Z.lnot 0x007fffff)) with (0x1ff * 2 ^ 23).
  rewrite Z.land_comm, land_high_low; [|lia|change (2 ^ 23) with 0x800000; lia]. rewrite (proj2 (Z.leb_gt 256 n)) by lia. simpl.
  rewrite Z.shiftl_mul_pow2 by lia. change (2 ^ 24) with 0x1000000.
  rewrite u32_id by lia. rewrite Z.lor_comm. change 0x1000000 with (2 ^ 24).
  rewrite lor_disjoint; [reflexivity|lia|]. change (2 ^ 24) with 0x1000000. lia.
Qed.

Lemma bit_length_mul w k : 0 < w -> 0 <= k -> bit_length (w * 2 ^ k) = bit_length w + k.
Proof.
  intros Hw Hk. assert (0 < 2 ^ k) by (apply Z.pow_pos_nonneg; lia).
  unfold bit_length. rewrite !(proj2 (Z.eqb_neq _ 0)) by nia. rewrite Z.log2_mul_pow2 by lia. lia.
Qed.

Lemma bit_length_interval w k : 0 <= k -> 2 ^ k <= w -> k < bit_length w.
Proof.
  intros Hk Hw. assert (0 < 2 ^ k) by (apply Z.pow_pos_nonneg; lia).
  destruct (bit_length_bounds w ltac:(lia)) as [B _].
  apply (Z.pow_lt_mono_r_iff 2); [lia| |lia]. unfold bit_length.
  destruct (_ =? _); [lia|]. pose proof (Z.log2_nonneg w). lia.
Qed.

(** The first two statements of [getCompact] on [w * 256^(n - 3)], where [sz] bytes are significant. *)
Lemma compact_mantissa n w sz :
  3 <= n <= 32 -> 0 <= w < 0x800000 -> 2 <= sz <= n -> (sz = n \/ sz = n - 1 /\ w < 0x10000) ->
  (if sz <=? 3 then u32 (Z.shiftl (wd (u32s (w * 256 ^ (n - 3))) 0) (8 * (3 - sz)))
   else wd (u32s (shiftRight (w * 256 ^ (n - 3)) (u8 (8 * (sz - 3))))) 0) = w * 256 ^ (n - sz).
Proof.
  intros Hn Hw Hsz Hor.
  destruct (Z.leb_spec sz 3).
  - rewrite word0, Z.shiftl_mul_pow2 by lia.
    assert (Hc : n = 3 /\ sz = 3 \/ n = 3 /\ sz = 2 \/ n = 4 /\ sz = 3) by lia.
    unfold B32. destruct Hc as [[-> ->]|[[-> ->]|[-> ->]]].
    + change (256 ^ (3 - 3)) with 1. change (2 ^ (8 * (3 - 3))) with 1. uint.
    + change (256 ^ (3 - 3)) with 1. change (256 ^ (3 - 2)) with 256. change (2 ^ (8 * (3 - 2))) with 256. uint.
    + change (256 ^ (4 - 3)) with 256. change (2 ^ (8 * (3 - 3))) with 1. uint.
  - rewrite word0, u8_id by lia.
    assert (E : w * 256 ^ (n - 3) = w * 256 ^ (n - sz) * 256 ^ (sz - 3)).
    { rewrite <- Z.mul_assoc, <- Z.pow_add_r by lia. repeat f_equal. lia. }
    assert (Hp : 0 < 256 ^ (sz - 3) <= 256 ^ 29) by (split; [apply Z.pow_pos_nonneg|apply Z.pow_le_mono_r]; lia).
    assert (Hs : n - sz = 0 \/ n - sz = 1 /\ w < 0x10000) by lia.
    assert (Hx : 0 <= w * 256 ^ (n - sz) < 0x1000000).
    { destruct Hs as [->|[-> ?]]; [change (256 ^ 0) with 1|change (256 ^ 1) with 256]; lia. }
    rewrite shiftRight_spec; [|unfold is_u256; change U256 with (0x1000000 * 256 ^ 29); rewrite E; nia|lia].
    rewrite pow8, E, Z.div_mul by lia. unfold B32. apply Z.mod_small. lia.
Qed.

(** Canonical compact numbers: three mantissa bytes, sign bit clear, no leading zero byte. *)
Lemma getCompact_correct n w :
  3 <= n <= 32 -> 0x8000 <= w < 0x800000 ->
  getCompact (w * 256 ^ (n - 3)) = Some (n * 0x1000000 + w).
Proof.
  intros Hn Hw. unfold getCompact.
  set (v := w * 256 ^ (n - 3)).
  assert (Hp : 0 < 256 ^ (n - 3) <= 256 ^ 29) by (split; [apply Z.pow_pos_nonneg|apply Z.pow_le_mono_r]; lia).
  assert (Hv : 0 <= v < 2 ^ 255).
  { unfold v. split; [lia|]. change (2 ^ 255) with (0x800000 * 256 ^ 29).
    apply Z.lt_le_trans with (0x800000 * 256 ^ (n - 3)); [apply Z.mul_lt_mono_pos_r|apply Z.mul_le_mono_nonneg_l]; lia. }
  pose proof (bit_length_interval w 15 ltac:(lia) ltac:(change (2 ^ 15) with 0x8000; lia)) as Bl.
  pose proof (bit_length_le w 23 ltac:(change (2 ^ 23) with 0x800000; lia) ltac:(lia)) as Bu.
  assert (Eb : bits v = bit_length w + 8 * (n - 3)).
  { rewrite bits_small by lia. unfold v. rewrite <- pow8 by lia. apply bit_length_mul; lia. }
  rewrite Eb. replace (bit_length w + 8 * (n - 3) + 7) with ((n - 3) * 8 + (bit_length w + 7)) by lia.
  rewrite Z.div_add_l by lia.
  assert (Hsz : (bit_length w + 7) / 8 = 3 \/ (bit_length w + 7) / 8 = 2 /\ w < 0x10000).
  { destruct (Z.eq_dec (bit_length w) 16) as [E16|]; [right|left; zdiv_lia].
    rewrite E16. destruct (bit_length_bounds w ltac:(lia)). rewrite E16 in *. split; [reflexivity|lia]. }
  unfold v. rewrite compact_mantissa by lia.
  destruct Hsz as [->|[-> Hw']].
  - replace (n - (n - 3 + 3)) with 0 by lia. rewrite Z.pow_0_r, Z.mul_1_r, sign_bit by lia.
    rewrite (proj2 (Z.ltb_lt _ _)) by lia. simpl negb. cbv iota beta.
    replace (n - 3 + 3) with n by lia. apply compact_pack; lia.
  - replace (n - (n - 3 + 2)) with 1 by lia. rewrite Z.pow_1_r, sign_bit by lia.
    rewrite (proj2 (Z.ltb_ge _ _)) by lia. simpl negb. cbv iota beta.
    rewrite shiftr_div by lia. change (2 ^ 8) with 256. rewrite Z.div_mul by lia.
    replace (n - 3 + 2 + 1) with n by lia. apply compact_pack; lia.
Qed.

(** *** [getCompact] of any value *)

Lemma setCompact_small n w :
  0 <= n <= 3 -> 0 <= w < 0x800000 -> setCompact (n * 0x1000000 + w) = w / 256 ^ (3 - n).
Proof.
  intros Hn Hw. unfold setCompact.
  assert (En : Z.shiftr (n * 0x1000000 + w) 24 = n).
  { rewrite shiftr_div by lia. change (2 ^ 24) with 0x1000000. zdiv_lia. }
  assert (Ew : Z.land (n * 0x1000000 + w) 0x007fffff = w).
  { change 0x007fffff with (Z.ones 23). rewrite Z.land_ones by lia. change (2 ^ 23) with 0x800000. zdiv_lia. }
  rewrite En, Ew. clear En Ew.
  assert (E : of_u32s (upd (u32s UINT256_ZERO) 0 w) = w) by (transitivity (w + 0); [reflexivity|lia]).
  rewrite E, (proj2 (Z.leb_le _ _)), u8_id, shiftRight_spec, pow8 by (unfold is_u256, U256; lia). done.
Qed.

(** Size in bytes and leading three bytes of a value. *)
Lemma compact_bytes v (sz := (bits v + 7) / 8) : 0 <= v < 2 ^ 255 ->
  0 <= sz <= 32 /\
  exists m, 0 <= m < 0x1000000 /\
    (if sz <=? 3 then u32 (Z.shiftl (wd (u32s v) 0) (8 * (3 - sz)))
     else wd (u32s (shiftRight v (u8 (8 * (sz - 3))))) 0) = m /\
    (sz <= 3 -> m = v * 256 ^ (3 - sz)) /\
    (3 < sz -> 0x10000 <= m /\ m * 256 ^ (sz - 3) <= v < (m + 1) * 256 ^ (sz - 3)).
Proof.
  intros Hv. unfold sz in *. clear sz. rewrite bits_small by done.
  pose proof (bit_length_le v 255 Hv ltac:(lia)) as Bl. set (sz := (bit_length v + 7) / 8).
  assert (Hsz : 0 <= sz <= 32) by (unfold sz; zdiv_lia). split; [done|].
  assert (Hlo : 0 < v -> 256 ^ (sz - 1) <= v < 256 ^ sz).
  { intros Hp. destruct (bit_length_bounds v Hp) as [[B1 B2] Bp]. rewrite <- !pow8 by (unfold sz; zdiv_lia). split.
    - apply Z.le_trans with (2 ^ (bit_length v - 1)); [|done]. apply Z.pow_le_mono_r; unfold sz; zdiv_lia.
    - apply Z.lt_le_trans with (2 ^ bit_length v); [done|]. apply Z.pow_le_mono_r; unfold sz; zdiv_lia. }
  destruct (Z.leb_spec sz 3) as [H3|H3]; rewrite word0.
  - assert (Hx : 0 <= v * 256 ^ (3 - sz) < 0x1000000 /\ 0 <= v < 0x1000000).
    { destruct (Z.eq_dec v 0) as [->|]; [lia|]. specialize (Hlo ltac:(lia)).
      assert (Hc : sz = 0 \/ sz = 1 \/ sz = 2 \/ sz = 3) by lia.
      destruct Hc as [E|[E|[E|E]]]; rewrite E in *; [change (256 ^ 0) with 1 in *; lia|..];
        [change (256 ^ 1) with 256 in *; change (256 ^ (3 - 1)) with 65536
        |change (256 ^ 2) with 65536 in *; change (256 ^ (3 - 2)) with 256
        |change (256 ^ 3) with 16777216 in *; change (256 ^ (3 - 3)) with 1]; lia. }
    exists (v * 256 ^ (3 - sz)). split; [lia|]. split; [|split; [done|lia]].
    rewrite Z.shiftl_mul_pow2, pow8 by lia. unfold B32. rewrite (Z.mod_small v) by lia. apply u32_id. lia.
  - assert (Hpos : 0 < v).
    { destruct (Z.eq_dec v 0) as [E|]; [|lia]. unfold sz in H3. rewrite E in H3. now vm_compute in H3. }
    rewrite u8_id, shiftRight_spec, pow8 by (unfold is_u256; rewrite ?u256_pow; lia).
    specialize (Hlo Hpos). assert (Hs : 256 ^ sz = 256 ^ (sz - 3) * 0x1000000).
    { change 0x1000000 with (256 ^ 3). rewrite <- Z.pow_add_r by lia. f_equal. lia. }
    assert (Hs1 : 256 ^ (sz - 1) = 256 ^ (sz - 3) * 0x10000).
    { change 0x10000 with (256 ^ 2). rewrite <- Z.pow_add_r by lia. f_equal. lia. }
    assert (0 < 256 ^ (sz - 3)) by (apply Z.pow_pos_nonneg; lia).
    assert (v / 256 ^ (sz - 3) < 0x1000000) by (apply Z.div_lt_upper_bound; lia).
    assert (0x10000 <= v / 256 ^ (sz - 3)) by (apply Z.div_le_lower_bound; lia).
    exists (v / 256 ^ (sz - 3)). split; [lia|]. split; [unfold B32; apply Z.mod_small; lia|].
    pose proof (Z.div_mod v (256 ^ (sz - 3)) ltac:(lia)). pose proof (Z.mod_pos_bound v (256 ^ (sz - 3)) ltac:(lia)).
    split; [lia|intros _; lia].
Qed.

(** [getCompact] is total below 2^255 and rounds down, keeping at least 15 significant bits. *)
Lemma getCompact_floor v : 0 <= v < 2 ^ 255 ->
  exists c, getCompact v = Some c /\ 0 <= c < 0x22000000 /\ setCompact c <= v /\ (v - setCompact c) * 0x8000 <= v.
Proof.
  intros Hv. destruct (compact_bytes v Hv) as (Hsz & m & Hm & E & Hs3 & Hb3).
  unfold getCompact. set (sz := (bits v + 7) / 8) in *. rewrite E. clear E. rewrite sign_bit by lia.
  destruct (Z.ltb_spec m 0x800000) as [Hlt|Hge]; cbn [negb]; cbv iota beta.
  - rewrite compact_pack by lia. exists (sz * 0x1000000 + m). split; [done|]. split; [lia|].
    destruct (Z_le_gt_dec sz 3) as [H3|H3].
    + rewrite setCompact_small by lia. rewrite Hs3, Z.div_mul by (apply Z.pow_nonzero; lia) || lia. lia.
    + destruct (Hb3 ltac:(lia)) as [Hm16 Hd]. rewrite setCompact_spec by lia.
      assert (0 < 256 ^ (sz - 3)) by (apply Z.pow_pos_nonneg; lia). nia.
  - rewrite shiftr_div by lia. change (2 ^ 8) with 256. rewrite compact_pack by zdiv_lia.
    eexists. split; [reflexivity|]. split; [zdiv_lia|].
    pose proof (Z.div_mod m 256 ltac:(lia)) as Dm. pose proof (Z.mod_pos_bound m 256 ltac:(lia)) as Rm.
    destruct (Z_le_gt_dec sz 3) as [H3|H3].
    + specialize (Hs3 ltac:(lia)). assert (Hc : sz = 0 \/ sz = 1 \/ sz = 2 \/ sz = 3) by lia.
      destruct Hc as [Es|[Es|[Es|Es]]]; rewrite Es in *;
        [|rewrite setCompact_small by lia..|rewrite setCompact_spec by lia].
      * replace v with 0 in Hs3 by (unfold sz in Es; lia). lia.
      * change (256 ^ (3 - 1)) with 65536 in Hs3. change (256 ^ (3 - (1 + 1))) with 256. zdiv_lia.
      * change (256 ^ (3 - 2)) with 256 in Hs3. change (256 ^ (3 - (2 + 1))) with 1. zdiv_lia.
      * change (256 ^ (3 - 3)) with 1 in Hs3. change (256 ^ (3 + 1 - 3)) with 256. lia.
    + destruct (Hb3 ltac:(lia)) as [_ Hd].
      assert (Hsz31 : sz + 1 <= 32 \/ sz = 32) by lia.
      assert (Hp : 256 ^ (sz + 1 - 3) = 256 ^ (sz - 3) * 256).
      { replace (sz + 1 - 3) with (sz - 3 + 1) by lia. rewrite Z.pow_add_r by lia. reflexivity. }
      assert (0 < 256 ^ (sz - 3)) by (apply Z.pow_pos_nonneg; lia).
      destruct Hsz31 as [Hle|Es].
      * rewrite setCompact_spec by zdiv_lia. rewrite Hp. nia.
      * rewrite Es in *. change (2 ^ 255) with (0x800000 * 256 ^ (32 - 3)) in Hv. nia.
Qed.

(** ** Properties *)

(** C34. [shiftLeft], [shiftRight], [add], [subtract] and [multiplyThis32] are arithmetic modulo 2^256 on the
    whole range of 256-bit numbers, carries out of the top limb and borrows included.  [divide], a
    shift-and-subtract loop over the limbs, is Euclidean division for operands below 2^255 and fails its
    assertion for the divisor 0 (at 2^255 and above [bits], a [uint8_t], wraps: see [divide_wraps]). *)
Theorem arith_spec a b k :
  is_u256 a -> is_u256 b -> 0 <= k < 256 ->
  shiftLeft a k = (a * 2 ^ k) mod U256 /\ shiftRight a k = a / 2 ^ k /\
  add a b = (a + b) mod U256 /\ subtract a b = (a - b) mod U256 /\
  (b < B32 -> multiplyThis32 a b = (a * b) mod U256) /\
  (a < 2 ^ 255 -> b < 2 ^ 255 -> divide a b = if b =? 0 then None else Some (a / b)).
Proof.
  intros Ha Hb Hk. split_and!; [now apply shiftLeft_spec|now apply shiftRight_spec|now apply add_spec
    |now apply subtract_spec| |].
  - intros. apply multiplyThis32_spec; [done|]. unfold is_u256 in Hb. lia.
  - intros Ha' Hb'. unfold is_u256 in *. destruct (Z.eqb_spec b 0) as [->|Hz]; [reflexivity|].
    apply divide_correct; lia.
Qed.

Lemma arith_spec_witness :
  add (2 ^ 256 - 1) 13 = 12 /\ subtract 5 13 = 2 ^ 256 - 8 /\ divide 1000000007 13 = Some (1000000007 / 13).
Proof.
  split; [refine (eq_trans (proj1 (proj2 (proj2 (arith_spec (2 ^ 256 - 1) 13 0 _ _ _)))) _)|split;
    [refine (eq_trans (proj1 (proj2 (proj2 (proj2 (arith_spec 5 13 0 _ _ _))))) _)
    |refine (eq_trans (proj2 (proj2 (proj2 (proj2 (proj2 (arith_spec 1000000007 13 0 _ _ _))))) _ _) _)]];
    try (vm_compute; reflexivity); split; vm_compute; congruence.
Defined.

(** C35. Compact targets: [getCompact] inverts [setCompact] on canonical encodings; on any value below
    2^255 it does not fail, never rounds up, and is off by at most 1 part in 2^15. *)
Theorem compact_roundtrip n w v :
  3 <= n <= 32 -> 0x8000 <= w < 0x800000 -> 0 <= v < 2 ^ 255 ->
  getCompact (setCompact (n * 0x1000000 + w)) = Some (n * 0x1000000 + w) /\
  exists c, getCompact v = Some c /\ setCompact c <= v /\ (v - setCompact c) * 0x8000 <= v.
Proof.
  intros Hn Hw Hv. rewrite setCompact_spec by lia. split; [now apply getCompact_correct|].
  destruct (getCompact_floor v Hv) as (c & E & _ & H1 & H2). eauto.
Qed.

Lemma compact_roundtrip_witness : getCompact (setCompact (0x1b * 0x1000000 + 0x0cf3a0)) = Some 0x1b0cf3a0.
Proof. refine (proj1 (compact_roundtrip 0x1b 0x0cf3a0 0 _ _ _)); lia. Defined.
