(* ===== verification/Crypto.v ===== *)
(** * Crypto: the hash functions of BRCrypto.c

    The block hashes (SHA-1, SHA-2, RIPEMD-160, MD5) share one driver in the source, repeated in each
    function: full blocks are compressed as they are copied into the block buffer [x], then the tail is
    padded in place.  [md_run] is that driver, with the buffer kept between iterations; [md_run_spec]
    shows that it computes the fold of the compression function over the padded message.  HMAC,
    HMAC-DRBG and PBKDF2 take the hash function as an argument, as the code does.  All definitions
    run: the published test vectors are checked by evaluation. *)
From stdpp Require Import base numbers list.
From Stdlib Require Import ZArith Lia.
From S2P Require Import Prelude Int.
Local Open Scope Z_scope.

(** ** Words and blocks *)

Definition be32 (x : Z) : Z :=
  u32 (Z.lor (Z.lor (Z.lor (Z.shiftl (Z.land x 0xff) 24) (Z.shiftl (Z.land x 0xff00) 8))
    (Z.shiftr (Z.land x 0xff0000) 8)) (Z.shiftr (Z.land x 0xff000000) 24)).

(** The union [{ be32(x >> 32), be32(x) }.u64], low word first. *)
Definition be64 (x : Z) : Z := le_num B32 [be32 (u32 (Z.shiftr x 32)); be32 (u32 x)].

Definition rol32 (a b : Z) : Z := Z.lor (u32 (Z.shiftl a b)) (Z.shiftr a (32 - b)).
Definition ror32 (a b : Z) : Z := Z.lor (Z.shiftr a b) (u32 (Z.shiftl a (32 - b))).
Definition ror64 (a b : Z) : Z := Z.lor (Z.shiftr a b) (u64 (Z.shiftl a (64 - b))).

Definition not32 (x : Z) : Z := u32 (Z.lnot x).

(** The block buffer [uint32_t x[]] / [uint64_t x[]] is kept as bytes; these are its words. *)
Fixpoint words (w : nat) (n : nat) (x : list Z) : list Z :=
  match n with
  | O => []
  | S n' => le_val (take w x) :: words w n' (drop w x)
  end.

(** [r[i] += v[i]] for every [i]. *)
Definition add_words (wrap : Z -> Z) (r v : list Z) : list Z := zip_with (fun a b => wrap (a + b)) r v.

(** ** The block driver *)

Section driver.
(** [bs]: block size, [lo]: offset of the length field, [lenb]: its bytes, [compress]: [_BR..Compress]. *)
Context (bs lo : Z) (lenb : Z -> list Z) (compress : list Z -> list Z -> list Z).

(** [for (...; i += bs) { memcpy(x, data + i, ...); if (i + bs > len) break; compress(buf, x); }],
    where [go i len] is the loop condition. *)
Fixpoint md_loop (fuel : nat) (go : Z -> Z -> bool) (data buf x : list Z) (i : Z) : list Z * list Z * Z :=
  match fuel with
  | O => (buf, x, i)
  | S fuel' =>
      if go i (len data) then
        let n := if u64 (i + bs) <? len data then bs else len data - i in
        let x := take (Z.to_nat n) (drop (Z.to_nat i) data) ++ drop (Z.to_nat n) x in
        if len data <? u64 (i + bs) then (buf, x, i)
        else md_loop fuel' go data (compress buf x) x (u64 (i + bs))
      else (buf, x, i)
  end.

(** The statements after the loop. *)
Definition md_final (data : list Z) (st : list Z * list Z * Z) : list Z :=
  let '(buf, x, i) := st in
  let r := len data - i in
  let x := take (Z.to_nat r) x ++ replicate (Z.to_nat (bs - r)) 0 in
  let x := <[Z.to_nat r := 0x80]> x in
  let '(buf, x) := if lo <=? r then (compress buf x, replicate (Z.to_nat bs) 0) else (buf, x) in
  let x := take (Z.to_nat lo) x ++ lenb (len data) in
  compress buf x.

Definition md_run (go : Z -> Z -> bool) (buf0 data : list Z) : list Z :=
  md_final data (md_loop (S (S (length data))) go data buf0 (replicate (Z.to_nat bs) 0) 0).
End driver.

Definition lenb32_be (n : Z) : list Z :=
  le_bytes 4 (be32 (u32 (Z.shiftr n 29))) ++ le_bytes 4 (be32 (u32 (Z.shiftl n 3))).
Definition lenb32_le (n : Z) : list Z :=
  le_bytes 4 (u32 (Z.shiftl n 3)) ++ le_bytes 4 (u32 (Z.shiftr n 29)).
Definition lenb64_be (n : Z) : list Z := le_bytes 8 0 ++ le_bytes 8 (be64 (u64 (n * 8))).

(** ** SHA-1 *)

Definition f1 (x y z : Z) : Z := Z.lor (Z.land x y) (Z.land (not32 x) z).
Definition f2 (x y z : Z) : Z := Z.lxor (Z.lxor x y) z.
Definition f3 (x y z : Z) : Z := Z.lor (Z.lor (Z.land x y) (Z.land x z)) (Z.land y z).

Definition sha1_word (x : list Z) (i : Z) : Z :=
  if i <? 16 then be32 (wd x i)
  else rol32 (Z.lxor (Z.lxor (Z.lxor (wd x (i - 3)) (wd x (i - 8))) (wd x (i - 14))) (wd x (i - 16))) 1.

(** One [sha1(f, k, x[i] = ...)] step; [x] is extended past its first 16 words. *)
Definition sha1_step (st : list Z * list Z) (i : Z) : list Z * list Z :=
  let '(v, x) := st in
  let w := sha1_word x i in
  let x := if i <? 16 then upd x i w else x ++ [w] in
  match v with
  | [a; b; c; d; e] =>
      let '(fv, k) := if i <? 20 then (f1 b c d, 0x5a827999)
                      else if i <? 40 then (f2 b c d, 0x6ed9eba1)
                      else if i <? 60 then (f3 b c d, 0x8f1bbcdc)
                      else (f2 b c d, 0xca62c1d6) in
      ([u32 (rol32 a 5 + fv + e + k + w); a; rol32 b 30; c; d], x)
  | _ => st
  end.

Definition _BRSHA1Compress (r xb : list Z) : list Z :=
  add_words u32 r (fst (foldl sha1_step (r, words 4 16 xb) (seqZ 0 80))).

Definition BRSHA1 (data : list Z) : list Z :=
  mjoin ((fun w => le_bytes 4 (be32 w)) <$>
    md_run 64 56 lenb32_be _BRSHA1Compress Z.ltb
      [0x67452301; 0xefcdab89; 0x98badcfe; 0x10325476; 0xc3d2e1f0] data).

(** ** SHA-2 *)

Definition ch (lnot : Z -> Z) (x y z : Z) : Z := Z.lxor (Z.land x y) (Z.land (lnot x) z).
Definition maj (x y z : Z) : Z := Z.lxor (Z.lxor (Z.land x y) (Z.land x z)) (Z.land y z).

Definition s0 (x : Z) : Z := Z.lxor (Z.lxor (ror32 x 2) (ror32 x 13)) (ror32 x 22).
Definition s1 (x : Z) : Z := Z.lxor (Z.lxor (ror32 x 6) (ror32 x 11)) (ror32 x 25).
Definition s2 (x : Z) : Z := Z.lxor (Z.lxor (ror32 x 7) (ror32 x 18)) (Z.shiftr x 3).
Definition s3 (x : Z) : Z := Z.lxor (Z.lxor (ror32 x 17) (ror32 x 19)) (Z.shiftr x 10).

(** The 64 constants, written eight to a numeral with the first in the high digits, as in the source's
    lines. *)
Definition words8 (x : Z) : list Z := reverse (le_digits B32 8 x).

Definition k256 : list Z :=
  Eval vm_compute in
  words8 0x428a2f9871374491b5c0fbcfe9b5dba53956c25b59f111f1923f82a4ab1c5ed5 ++
  words8 0xd807aa9812835b01243185be550c7dc372be5d7480deb1fe9bdc06a7c19bf174 ++
  words8 0xe49b69c1efbe47860fc19dc6240ca1cc2de92c6f4a7484aa5cb0a9dc76f988da ++
  words8 0x983e5152a831c66db00327c8bf597fc7c6e00bf3d5a7914706ca635114292967 ++
  words8 0x27b70a852e1b21384d2c6dfc53380d13650a7354766a0abb81c2c92e92722c85 ++
  words8 0xa2bfe8a1a81a664bc24b8b70c76c51a3d192e819d6990624f40e3585106aa070 ++
  words8 0x19a4c1161e376c082748774c34b0bcb5391c0cb34ed8aa4a5b9cca4f682e6ff3 ++
  words8 0x748f82ee78a5636f84c878148cc7020890befffaa4506cebbef9a3f7c67178f2.

(** [w[i] = s3(w[i - 2]) + w[i - 7] + s2(w[i - 15]) + w[i - 16]]; [w] holds its first [i] words. *)
Definition schedule_step (wrap sg3 sg2 : Z -> Z) (w : list Z) (i : Z) : list Z :=
  w ++ [wrap (sg3 (wd w (i - 2)) + wd w (i - 7) + sg2 (wd w (i - 15)) + wd w (i - 16))].

Definition sha2_step (wrap lnot sg1 sg0 : Z -> Z) (v : list Z) (kw : Z * Z) : list Z :=
  match v with
  | [a; b; c; d; e; f; g; h] =>
      let t1 := wrap (h + sg1 e + ch lnot e f g + fst kw + snd kw) in
      let t2 := wrap (sg0 a + maj a b c) in
      [wrap (t1 + t2); a; b; c; wrap (d + t1); e; f; g]
  | _ => v
  end.

Definition _BRSHA256Compress (r xb : list Z) : list Z :=
  let w := be32 <$> words 4 16 xb in
  let w := foldl (schedule_step u32 s3 s2) w (seqZ 16 48) in
  add_words u32 r (foldl (sha2_step u32 not32 s1 s0) r (zip k256 w)).

Definition buf224 : list Z :=
  [0xc1059ed8; 0x367cd507; 0x3070dd17; 0xf70e5939; 0xffc00b31; 0x68581511; 0x64f98fa7; 0xbefa4fa4].

Definition BRSHA224 (data : list Z) : list Z :=
  mjoin ((fun w => le_bytes 4 (be32 w)) <$>
    take 7 (md_run 64 56 lenb32_be _BRSHA256Compress Z.ltb buf224 data)).

Definition buf256 : list Z :=
  [0x6a09e667; 0xbb67ae85; 0x3c6ef372; 0xa54ff53a; 0x510e527f; 0x9b05688c; 0x1f83d9ab; 0x5be0cd19].

Definition BRSHA256 (data : list Z) : list Z :=
  mjoin ((fun w => le_bytes 4 (be32 w)) <$> md_run 64 56 lenb32_be _BRSHA256Compress Z.ltb buf256 data).

Definition BRSHA256_2 (data : list Z) : list Z := BRSHA256 (BRSHA256 data).

Definition S0 (x : Z) : Z := Z.lxor (Z.lxor (ror64 x 28) (ror64 x 34)) (ror64 x 39).
Definition S1 (x : Z) : Z := Z.lxor (Z.lxor (ror64 x 14) (ror64 x 18)) (ror64 x 41).
Definition S2 (x : Z) : Z := Z.lxor (Z.lxor (ror64 x 1) (ror64 x 8)) (Z.shiftr x 7).
Definition S3 (x : Z) : Z := Z.lxor (Z.lxor (ror64 x 19) (ror64 x 61)) (Z.shiftr x 6).

Definition k512 : list Z :=
  [0x428a2f98d728ae22; 0x7137449123ef65cd; 0xb5c0fbcfec4d3b2f; 0xe9b5dba58189dbbc; 0x3956c25bf348b538;
   0x59f111f1b605d019; 0x923f82a4af194f9b; 0xab1c5ed5da6d8118; 0xd807aa98a3030242; 0x12835b0145706fbe;
   0x243185be4ee4b28c; 0x550c7dc3d5ffb4e2; 0x72be5d74f27b896f; 0x80deb1fe3b1696b1; 0x9bdc06a725c71235;
   0xc19bf174cf692694; 0xe49b69c19ef14ad2; 0xefbe4786384f25e3; 0x0fc19dc68b8cd5b5; 0x240ca1cc77ac9c65;
   0x2de92c6f592b0275; 0x4a7484aa6ea6e483; 0x5cb0a9dcbd41fbd4; 0x76f988da831153b5; 0x983e5152ee66dfab;
   0xa831c66d2db43210; 0xb00327c898fb213f; 0xbf597fc7beef0ee4; 0xc6e00bf33da88fc2; 0xd5a79147930aa725;
   0x06ca6351e003826f; 0x142929670a0e6e70; 0x27b70a8546d22ffc; 0x2e1b21385c26c926; 0x4d2c6dfc5ac42aed;
   0x53380d139d95b3df; 0x650a73548baf63de; 0x766a0abb3c77b2a8; 0x81c2c92e47edaee6; 0x92722c851482353b;
   0xa2bfe8a14cf10364; 0xa81a664bbc423001; 0xc24b8b70d0f89791; 0xc76c51a30654be30; 0xd192e819d6ef5218;
   0xd69906245565a910; 0xf40e35855771202a; 0x106aa07032bbd1b8; 0x19a4c116b8d2d0c8; 0x1e376c085141ab53;
   0x2748774cdf8eeb99; 0x34b0bcb5e19b48a8; 0x391c0cb3c5c95a63; 0x4ed8aa4ae3418acb; 0x5b9cca4f7763e373;
   0x682e6ff3d6b2b8a3; 0x748f82ee5defb2fc; 0x78a5636f43172f60; 0x84c87814a1f0ab72; 0x8cc702081a6439ec;
   0x90befffa23631e28; 0xa4506cebde82bde9; 0xbef9a3f7b2c67915; 0xc67178f2e372532b; 0xca273eceea26619c;
   0xd186b8c721c0c207; 0xeada7dd6cde0eb1e; 0xf57d4f7fee6ed178; 0x06f067aa72176fba; 0x0a637dc5a2c898a6;
   0x113f9804bef90dae; 0x1b710b35131c471b; 0x28db77f523047d84; 0x32caab7b40c72493; 0x3c9ebe0a15c9bebc;
   0x431d67c49c100d4c; 0x4cc5d4becb3e42b6; 0x597f299cfc657e2a; 0x5fcb6fab3ad6faec; 0x6c44198c4a475817].

Definition _BRSHA512Compress (r xb : list Z) : list Z :=
  let w := be64 <$> words 8 16 xb in
  let w := foldl (schedule_step u64 S3 S2) w (seqZ 16 64) in
  add_words u64 r (foldl (sha2_step u64 not64 S1 S0) r (zip k512 w)).

Definition buf384 : list Z :=
  [0xcbbb9d5dc1059ed8; 0x629a292a367cd507; 0x9159015a3070dd17; 0x152fecd8f70e5939;
   0x67332667ffc00b31; 0x8eb44a8768581511; 0xdb0c2e0d64f98fa7; 0x47b5481dbefa4fa4].

Definition BRSHA384 (data : list Z) : list Z :=
  mjoin ((fun w => le_bytes 8 (be64 w)) <$>
    take 6 (md_run 128 112 lenb64_be _BRSHA512Compress Z.ltb buf384 data)).

Definition buf512 : list Z :=
  [0x6a09e667f3bcc908; 0xbb67ae8584caa73b; 0x3c6ef372fe94f82b; 0xa54ff53a5f1d36f1;
   0x510e527fade682d1; 0x9b05688c2b3e6c1f; 0x1f83d9abfb41bd6b; 0x5be0cd19137e2179].

Definition BRSHA512 (data : list Z) : list Z :=
  mjoin ((fun w => le_bytes 8 (be64 w)) <$> md_run 128 112 lenb64_be _BRSHA512Compress Z.ltb buf512 data).

(** ** RIPEMD-160 *)

Definition rmd_f (x y z : Z) : Z := Z.lxor (Z.lxor x y) z.
Definition rmd_g (x y z : Z) : Z := Z.lor (Z.land x y) (Z.land (not32 x) z).
Definition rmd_h (x y z : Z) : Z := Z.lxor (Z.lor x (not32 y)) z.
Definition rmd_i (x y z : Z) : Z := Z.lor (Z.land x z) (Z.land y (not32 z)).
Definition rmd_j (x y z : Z) : Z := Z.lxor x (Z.lor y (not32 z)).

Definition rl1 : list Z := [0; 1; 2; 3; 4; 5; 6; 7; 8; 9; 10; 11; 12; 13; 14; 15].
Definition rl2 : list Z := [7; 4; 13; 1; 10; 6; 15; 3; 12; 0; 9; 5; 2; 14; 11; 8].
Definition rl3 : list Z := [3; 10; 14; 4; 9; 15; 8; 1; 2; 7; 0; 6; 13; 11; 5; 12].
Definition rl4 : list Z := [1; 9; 11; 10; 0; 8; 12; 4; 13; 3; 7; 15; 14; 5; 6; 2].
Definition rl5 : list Z := [4; 0; 5; 9; 7; 12; 2; 10; 14; 1; 3; 8; 11; 6; 15; 13].
Definition rr1 : list Z := [5; 14; 7; 0; 9; 2; 11; 4; 13; 6; 15; 8; 1; 10; 3; 12].
Definition rr2 : list Z := [6; 11; 3; 7; 0; 13; 5; 10; 14; 15; 8; 12; 4; 9; 1; 2].
Definition rr3 : list Z := [15; 5; 1; 3; 7; 14; 6; 9; 11; 8; 12; 2; 10; 0; 4; 13].
Definition rr4 : list Z := [8; 6; 4; 1; 3; 11; 15; 0; 5; 12; 2; 13; 9; 7; 10; 14].
Definition rr5 : list Z := [12; 15; 10; 4; 1; 5; 8; 7; 6; 2; 13; 14; 0; 3; 9; 11].
Definition sl1 : list Z := [11; 14; 15; 12; 5; 8; 7; 9; 11; 13; 14; 15; 6; 7; 9; 8].
Definition sl2 : list Z := [7; 6; 8; 13; 11; 9; 7; 15; 7; 12; 15; 9; 11; 7; 13; 12].
Definition sl3 : list Z := [11; 13; 6; 7; 14; 9; 13; 15; 14; 8; 13; 6; 5; 12; 7; 5].
Definition sl4 : list Z := [11; 12; 14; 15; 14; 15; 9; 8; 9; 14; 5; 6; 8; 6; 5; 12].
Definition sl5 : list Z := [9; 15; 5; 11; 6; 8; 13; 12; 5; 12; 13; 14; 11; 8; 5; 6].
Definition sr1 : list Z := [8; 9; 9; 11; 13; 15; 15; 5; 7; 7; 8; 11; 14; 14; 12; 6].
Definition sr2 : list Z := [9; 13; 15; 7; 12; 8; 9; 11; 7; 7; 12; 7; 6; 15; 13; 11].
Definition sr3 : list Z := [9; 7; 15; 11; 8; 6; 6; 14; 12; 13; 5; 14; 13; 13; 7; 5].
Definition sr4 : list Z := [15; 5; 8; 11; 14; 14; 6; 14; 6; 9; 12; 9; 12; 5; 15; 8].
Definition sr5 : list Z := [8; 5; 12; 9; 12; 5; 14; 6; 8; 13; 6; 5; 15; 13; 11; 11].

(** [rmd(t, fn(b, c, d), x[rr[i]], k, sr[i], a, e, d, c, b)] on one line of working variables. *)
Definition rmd_step (fn : Z -> Z -> Z -> Z) (k : Z) (x : list Z) (v : list Z) (rs : Z * Z) : list Z :=
  match v with
  | [a; b; c; d; e] =>
      let t := u32 (rol32 (u32 (fn b c d + a + wd x (fst rs) + k)) (snd rs) + e) in
      [e; t; b; rol32 c 10; d]
  | _ => v
  end.

Definition rmd_round (fn : Z -> Z -> Z -> Z) (k : Z) (rl sl x v : list Z) : list Z :=
  foldl (rmd_step fn k x) v (zip rl sl).

Definition rmd_left (x v : list Z) : list Z :=
  let v := rmd_round rmd_f 0x00000000 rl1 sl1 x v in
  let v := rmd_round rmd_g 0x5a827999 rl2 sl2 x v in
  let v := rmd_round rmd_h 0x6ed9eba1 rl3 sl3 x v in
  let v := rmd_round rmd_i 0x8f1bbcdc rl4 sl4 x v in
  rmd_round rmd_j 0xa953fd4e rl5 sl5 x v.

Definition rmd_right (x v : list Z) : list Z :=
  let v := rmd_round rmd_j 0x50a28be6 rr1 sr1 x v in
  let v := rmd_round rmd_i 0x5c4dd124 rr2 sr2 x v in
  let v := rmd_round rmd_h 0x6d703ef3 rr3 sr3 x v in
  let v := rmd_round rmd_g 0x7a6d76e9 rr4 sr4 x v in
  rmd_round rmd_f 0x00000000 rr5 sr5 x v.

Definition _BRRMDCompress (r xb : list Z) : list Z :=
  let x := words 4 16 xb in
  match r, rmd_left x r, rmd_right x r with
  | [r0; r1; r2; r3; r4], [al; bl; cl; dl; el], [ar; br; cr; dr; er] =>
      [u32 (r1 + cl + dr); u32 (r2 + dl + er); u32 (r3 + el + ar); u32 (r4 + al + br); u32 (r0 + bl + cr)]
  | _, _, _ => r
  end.

Definition buf160 : list Z := [0x67452301; 0xefcdab89; 0x98badcfe; 0x10325476; 0xc3d2e1f0].

Definition BRRMD160 (data : list Z) : list Z :=
  mjoin (le_bytes 4 <$> md_run 64 56 lenb32_le _BRRMDCompress Z.leb buf160 data).

Definition BRHash160 (data : list Z) : list Z := BRRMD160 (BRSHA256 data).

(** ** MD5 *)

Definition md5_F (x y z : Z) : Z := Z.lxor z (Z.land x (Z.lxor y z)).
Definition md5_G (x y z : Z) : Z := Z.lxor y (Z.land z (Z.lxor x y)).
Definition md5_H (x y z : Z) : Z := Z.lxor (Z.lxor x y) z.
Definition md5_I (x y z : Z) : Z := Z.lxor y (Z.lor x (not32 z)).

Definition kmd5 : list Z :=
  [0xd76aa478; 0xe8c7b756; 0x242070db; 0xc1bdceee; 0xf57c0faf; 0x4787c62a; 0xa8304613; 0xfd469501;
   0x698098d8; 0x8b44f7af; 0xffff5bb1; 0x895cd7be; 0x6b901122; 0xfd987193; 0xa679438e; 0x49b40821;
   0xf61e2562; 0xc040b340; 0x265e5a51; 0xe9b6c7aa; 0xd62f105d; 0x02441453; 0xd8a1e681; 0xe7d3fbc8;
   0x21e1cde6; 0xc33707d6; 0xf4d50d87; 0x455a14ed; 0xa9e3e905; 0xfcefa3f8; 0x676f02d9; 0x8d2a4c8a;
   0xfffa3942; 0x8771f681; 0x6d9d6122; 0xfde5380c; 0xa4beea44; 0x4bdecfa9; 0xf6bb4b60; 0xbebfbc70;
   0x289b7ec6; 0xeaa127fa; 0xd4ef3085; 0x04881d05; 0xd9d4d039; 0xe6db99e5; 0x1fa27cf8; 0xc4ac5665;
   0xf4292244; 0x432aff97; 0xab9423a7; 0xfc93a039; 0x655b59c3; 0x8f0ccc92; 0xffeff47d; 0x85845dd1;
   0x6fa87e4f; 0xfe2ce6e0; 0xa3014314; 0x4e0811a1; 0xf7537e82; 0xbd3af235; 0x2ad7d2bb; 0xeb86d391].

Definition smd5 : list Z := [7; 12; 17; 22; 5; 9; 14; 20; 4; 11; 16; 23; 6; 10; 15; 21].

Definition md5_step (x : list Z) (v : list Z) (i : Z) : list Z :=
  match v with
  | [a; b; c; d] =>
      let '(fv, xi, s) :=
        if i <? 16 then (md5_F b c d, wd x i, wd smd5 (i mod 4))
        else if i <? 32 then (md5_G b c d, wd x ((5 * i + 1) mod 16), wd smd5 (4 + i mod 4))
        else if i <? 48 then (md5_H b c d, wd x ((3 * i + 5) mod 16), wd smd5 (8 + i mod 4))
        else (md5_I b c d, wd x ((7 * i) mod 16), wd smd5 (12 + i mod 4)) in
      let a := u32 (a + (fv + xi + wd kmd5 i)) in
      [d; u32 (rol32 a s + b); b; c]
  | _ => v
  end.

Definition _BRMD5Compress (r xb : list Z) : list Z :=
  add_words u32 r (foldl (md5_step (words 4 16 xb)) r (seqZ 0 64)).

Definition BRMD5 (data : list Z) : list Z :=
  mjoin (le_bytes 4 <$> md_run 64 56 lenb32_le _BRMD5Compress Z.leb
    [0x67452301; 0xefcdab89; 0x98badcfe; 0x10325476] data).

(** ** MurmurHash3 *)

Definition C1 : Z := 0xcc9e2d51.
Definition C2 : Z := 0x1b873593.

Definition fmix32 (h : Z) : Z :=
  let h := Z.lxor h (Z.shiftr h 16) in
  let h := u32 (h * 0x85ebca6b) in
  let h := Z.lxor h (Z.shiftr h 13) in
  let h := u32 (h * 0xc2b2ae35) in
  Z.lxor h (Z.shiftr h 16).

Definition murmur_block (h k : Z) : Z :=
  let k := u32 (k * C1) in
  let k := u32 (rol32 k 15 * C2) in
  let h := Z.lxor h k in
  u32 (rol32 h 13 * 5 + 0xe6546b64).

(** The [switch (len & 3)] with its fall-throughs; [t] is the tail [data[i*4], ...]. *)
Definition murmur_tail (h : Z) (t : list Z) (n : Z) : Z :=
  let k := 0 in
  let k := if n =? 3 then Z.lxor k (Z.shiftl (wd t 2) 16) else k in
  let k := if 2 <=? n then Z.lxor k (Z.shiftl (wd t 1) 8) else k in
  if 1 <=? n then Z.lxor h (u32 (rol32 (u32 (Z.lxor k (wd t 0) * C1)) 15 * C2)) else h.

Definition BRMurmur3_32 (data : list Z) (seed : Z) : Z :=
  let count := len data / 4 in
  let h := foldl murmur_block seed (words 4 (Z.to_nat count) data) in
  let h := murmur_tail h (drop (Z.to_nat (count * 4)) data) (Z.land (len data) 3) in
  fmix32 (Z.lxor h (u32 (len data))).

(** ** HMAC, HMAC-DRBG, PBKDF2 *)

Section hmac.
Context (hash : list Z -> list Z) (hashLen : Z).

(** [memset(k, 0, blockLen), memcpy(k, key, keyLen)], every word xored with the pad. *)
Definition key_pad (blockLen pad : Z) (key : list Z) : list Z :=
  Z.lxor pad <$> (key ++ replicate (Z.to_nat (blockLen - len key)) 0).

Definition BRHMAC (key data : list Z) : list Z :=
  let blockLen := if 32 <? hashLen then 128 else 64 in
  let key := if blockLen <? len key then hash key else key in
  let kipad := key_pad blockLen 0x36 key ++ data in
  let kopad := key_pad blockLen 0x5c key ++ hash kipad in
  hash kopad.

(** [memcpy(dk + i*hashLen, T, (i*hashLen + hashLen <= dkLen) ? hashLen : dkLen % hashLen)] *)
Definition block_part (outLen i : Z) (T : list Z) : list Z :=
  take (Z.to_nat (if i * hashLen + hashLen <=? outLen then hashLen else outLen mod hashLen)) T.

(** [for (r = 1; r < rounds; r++)]; [U] and [T] as the code has them. *)
Fixpoint pbkdf2_rounds (n : nat) (pw U T : list Z) : list Z :=
  match n with
  | O => T
  | S n' => let U := BRHMAC pw U in pbkdf2_rounds n' pw U (zip_with Z.lxor T U)
  end.

Definition BRPBKDF2 (dkLen : Z) (pw salt : list Z) (rounds : Z) : list Z :=
  mjoin ((fun i =>
    let U := BRHMAC pw (salt ++ le_bytes 4 (be32 (u32 (i + 1)))) in
    block_part dkLen i (pbkdf2_rounds (Z.to_nat (rounds - 1)) pw U U))
    <$> seqZ 0 ((dkLen + hashLen - 1) / hashLen)).

(** [for (i = 0; i*hashLen < outLen; i++)]: [V] is rehashed before each block. *)
Fixpoint drbg_out (n : nat) (outLen i : Z) (K V : list Z) : list Z * list Z :=
  match n with
  | O => ([], V)
  | S n' =>
      let V := BRHMAC K V in
      let '(rest, V') := drbg_out n' outLen (i + 1) K V in
      (block_part outLen i V ++ rest, V')
  end.

(** Returns [out], [K] and [V]; a [NULL] pointer is [None]. *)
Definition BRHMACDRBG (outLen : Z) (K V : list Z) (seed nonce ps : option (list Z)) : list Z * list Z * list Z :=
  let fresh := bool_decide (is_Some seed) || bool_decide (is_Some nonce) || bool_decide (is_Some ps) in
  let entropy := default [] seed ++ default [] nonce ++ default [] ps in
  let '(K, V) := if fresh then (replicate (Z.to_nat hashLen) 0x00, replicate (Z.to_nat hashLen) 0x01)
                 else (K, V) in
  let K := BRHMAC K (V ++ [0x00] ++ entropy) in
  let V := BRHMAC K V in
  let '(K, V) := if fresh then let K := BRHMAC K (V ++ [0x01] ++ entropy) in (K, BRHMAC K V) else (K, V) in
  let '(out, V) := drbg_out (Z.to_nat ((outLen + hashLen - 1) / hashLen)) outLen 0 K V in
  (out, K, V).
End hmac.

(** ** Published test vectors *)

Example kat_sha1 : BRSHA1 [97; 98; 99] =
  [169; 153; 62; 54; 71; 6; 129; 106; 186; 62; 37; 113; 120; 80; 194; 108; 156; 208; 216; 157].
Proof. vm_compute. reflexivity. Qed.

Example kat_sha224 : BRSHA224 [97; 98; 99] =
  [35; 9; 125; 34; 52; 5; 216; 34; 134; 66; 164; 119; 189; 162; 85; 179; 42; 173; 188; 228; 189; 160; 179; 247; 227; 108; 157; 167].
Proof. vm_compute. reflexivity. Qed.

Example kat_sha256 : BRSHA256 [97; 98; 99] =
  [186; 120; 22; 191; 143; 1; 207; 234; 65; 65; 64; 222; 93; 174; 34; 35; 176; 3; 97; 163; 150; 23; 122; 156; 180; 16; 255; 97; 242; 0; 21; 173].
Proof. vm_compute. reflexivity. Qed.

Example kat_sha256_two_blocks : BRSHA256 [84; 104; 101; 32; 113; 117; 105; 99; 107; 32; 98; 114; 111; 119; 110; 32; 102; 111; 120; 32; 106; 117; 109; 112; 115; 32; 111; 118; 101; 114; 32; 116; 104; 101; 32; 108; 97; 122; 121; 32; 100; 111; 103; 44; 32; 116; 119; 105; 99; 101; 32; 111; 118; 101; 114; 32; 116; 104; 101; 32; 108; 97; 122; 121; 32; 100; 111; 103] =
  [189; 21; 223; 65; 174; 51; 158; 172; 134; 87; 31; 12; 68; 84; 239; 10; 201; 173; 128; 27; 0; 234; 99; 113; 1; 253; 17; 239; 195; 51; 243; 237].
Proof. vm_compute. reflexivity. Qed.

Example kat_sha384 : BRSHA384 [97; 98; 99] =
  [203; 0; 117; 63; 69; 163; 94; 139; 181; 160; 61; 105; 154; 198; 80; 7; 39; 44; 50; 171; 14; 222; 209; 99; 26; 139; 96; 90; 67; 255; 91; 237; 128; 134; 7; 43; 161; 231; 204; 35; 88; 186; 236; 161; 52; 200; 37; 167].
Proof. vm_compute. reflexivity. Qed.

Example kat_sha512 : BRSHA512 [97; 98; 99] =
  [221; 175; 53; 161; 147; 97; 122; 186; 204; 65; 115; 73; 174; 32; 65; 49; 18; 230; 250; 78; 137; 169; 126; 162; 10; 158; 238; 230; 75; 85; 211; 154; 33; 146; 153; 42; 39; 79; 193; 168; 54; 186; 60; 35; 163; 254; 235; 189; 69; 77; 68; 35; 100; 60; 232; 14; 42; 154; 201; 79; 165; 76; 164; 159].
Proof. vm_compute. reflexivity. Qed.

Example kat_rmd160 : BRRMD160 [97; 98; 99] =
  [142; 178; 8; 247; 224; 93; 152; 122; 155; 4; 74; 142; 152; 198; 176; 135; 241; 90; 11; 252].
Proof. vm_compute. reflexivity. Qed.

Example kat_md5 : BRMD5 [97; 98; 99] =
  [144; 1; 80; 152; 60; 210; 79; 176; 214; 150; 63; 125; 40; 225; 127; 114].
Proof. vm_compute. reflexivity. Qed.

Example kat_hmac : BRHMAC BRSHA256 32 [107; 101; 121] [97; 98; 99] =
  [156; 25; 110; 50; 220; 1; 117; 248; 111; 75; 28; 184; 146; 137; 214; 97; 157; 230; 190; 230; 153; 228; 195; 120; 230; 131; 9; 237; 151; 161; 166; 171].
Proof. vm_compute. reflexivity. Qed.

Example kat_pbkdf2 : BRPBKDF2 BRSHA256 32 40 [112; 119] [115; 97; 108; 116] 2 =
  [6; 29; 246; 22; 52; 60; 185; 136; 48; 113; 114; 226; 195; 7; 75; 230; 62; 149; 59; 40; 35; 126; 169; 97; 132; 246; 164; 139; 236; 122; 138; 85; 242; 230; 196; 134; 124; 172; 52; 243].
Proof. vm_compute. reflexivity. Qed.

Example kat_murmur : BRMurmur3_32 [0x21; 0x43; 0x65; 0x87] 0x5082edee = 0x2362f9de /\
  BRMurmur3_32 [0x21; 0x43; 0x65] 0 = 0x7e4a8634.
Proof. vm_compute. auto. Qed.

(** ** The driver computes the fold over the padded message *)

(** The first [k] blocks of [n] elements. *)
Fixpoint blocks {A} (n k : nat) (l : list A) : list (list A) :=
  match k with
  | O => []
  | S k' => take n l :: blocks n k' (drop n l)
  end.

Lemma blocks_add {A} n a b (l : list A) : blocks n (a + b) l = blocks n a l ++ blocks n b (drop (a * n) l).
Proof.
  revert l; induction a as [|a IH]; intros l; simpl; [reflexivity|].
  now rewrite IH, drop_drop.
Qed.

Lemma blocks_app {A} n k (l l' : list A) : (k * n <= length l)%nat -> blocks n k (l ++ l') = blocks n k l.
Proof.
  revert l; induction k as [|k IH]; intros l Hk; simpl in *; [reflexivity|].
  rewrite take_app_le, drop_app_le, IH by (rewrite ?length_drop; lia). reflexivity.
Qed.

(** The padded message of the Merkle-Damgard hashes. *)
Definition md_pad (bs lo : Z) (lenb : Z -> list Z) (data : list Z) : list Z :=
  data ++ [0x80] ++ replicate (Z.to_nat ((lo - 1 - len data) mod bs)) 0 ++ lenb (len data).

Definition md_spec (bs lo : Z) (lenb : Z -> list Z) (compress : list Z -> list Z -> list Z)
    (buf0 data : list Z) : list Z :=
  let m := md_pad bs lo lenb data in
  foldl compress buf0 (blocks (Z.to_nat bs) (length m / Z.to_nat bs) m).

Section driver_spec.
Context (B L : nat) (lenb : Z -> list Z) (compress : list Z -> list Z -> list Z).
Context (HL : (0 < L < B)%nat) (Hlenb : forall n, length (lenb n) = (B - L)%nat).
Notation bs := (Z.of_nat B).
Notation lo := (Z.of_nat L).

(** Both loop conditions of the code: [i < len] and [i <= len]. *)
Definition go_ok (go : Z -> Z -> bool) : Prop :=
  forall i n, (i < n -> go i n = true) /\ (n < i -> go i n = false).

Lemma md_loop_spec go data : go_ok go -> len data + bs < 0x10000000000000000 ->
  forall fuel buf x i, (i <= length data)%nat -> (length data - i < fuel)%nat -> length x = B ->
  exists x', md_loop bs compress fuel go data buf x (Z.of_nat i) =
    (foldl compress buf (blocks B ((length data - i) / B) (drop i data)), x',
     Z.of_nat (i + (length data - i) / B * B)) /\
    length x' = B /\
    take ((length data - i) mod B) x' = drop (i + (length data - i) / B * B) data.
Proof.
  intros Hgo Hlen. induction fuel as [|fuel IH]; intros buf x i Hi Hf Hx; [lia|].
  cbn [md_loop]. destruct (Hgo (Z.of_nat i) (len data)) as [Hgo1 Hgo2].
  rewrite u64_id by lia.
  destruct (decide (i = length data)) as [->|Hne].
  - rewrite Nat.sub_diag, Nat.Div0.div_0_l, Nat.Div0.mod_0_l, Nat.add_0_r, drop_all.
    exists x. destruct (go _ _); [|auto].
    rewrite Z.sub_diag. rewrite (proj2 (Z.ltb_ge (len data + bs) _)) by lia. cbn [Z.to_nat take drop app].
    rewrite (proj2 (Z.ltb_lt (len data) _)) by lia. auto.
  - rewrite Hgo1 by lia. rewrite Nat2Z.id.
    destruct (Z.ltb_spec (len data) (Z.of_nat i + bs)) as [Hb|Hb].
    + (* the last, partial block *)
      rewrite (proj2 (Z.ltb_ge (Z.of_nat i + bs) _)) by lia.
      rewrite Nat.div_small, Nat.mod_small, Nat.mul_0_l, Nat.add_0_r by lia.
      eexists; split; [reflexivity|]. rewrite <- Nat2Z.inj_sub, Nat2Z.id by lia.
      rewrite (take_ge (drop i data)) by (rewrite length_drop; lia).
      rewrite length_app, !length_drop. split; [lia|].
      rewrite take_app_le, take_ge by (rewrite length_drop; lia). reflexivity.
    + (* a full block *)
      assert (En : Z.to_nat (if Z.of_nat i + bs <? len data then bs else len data - Z.of_nat i) = B).
      { destruct (Z.ltb_spec (Z.of_nat i + bs) (len data)); lia. }
      rewrite En, (drop_ge x) by lia. rewrite app_nil_r, <- Nat2Z.inj_add.
      assert (Ed : ((length data - i) / B = S ((length data - (i + B)) / B))%nat).
      { replace (length data - i)%nat with (length data - (i + B) + 1 * B)%nat by lia.
        rewrite Nat.div_add by lia. lia. }
      assert (Em : ((length data - i) mod B = (length data - (i + B)) mod B)%nat).
      { replace (length data - i)%nat with (length data - (i + B) + 1 * B)%nat by lia.
        apply Nat.Div0.mod_add. }
      destruct (IH (compress buf (take B (drop i data))) (take B (drop i data)) (i + B)%nat) as (x' & E & ? & Hx');
        [lia|lia|rewrite length_take, length_drop; lia|].
      exists x'. rewrite E, Ed, Em. cbn [blocks foldl]. rewrite drop_drop, Hx'.
      now replace (i + S ((length data - (i + B)) / B) * B)%nat
        with (i + B + (length data - (i + B)) / B * B)%nat by lia.
Qed.

(** One or two blocks, as the tail leaves room for the length or not. *)
Lemma md_final_spec data buf x q r :
  len data < 0x10000000000000000 -> length data = (q * B + r)%nat -> (r < B)%nat -> length x = B ->
  take r x = drop (q * B) data ->
  md_final bs lo lenb compress data (buf, x, Z.of_nat (q * B)) =
  let tail := drop (q * B) data ++ [0x80] ++ replicate ((2 * B + L - 1 - r) mod B) 0 ++ lenb (len data) in
  foldl compress buf (blocks B (length tail / B) tail).
Proof.
  intros Hlen Hd Hr Hx Ht. unfold md_final. cbv zeta.
  replace (len data - Z.of_nat (q * B)) with (Z.of_nat r) by lia.
  rewrite <- Nat2Z.inj_sub, !Nat2Z.id, Ht by lia.
  set (T := drop (q * B) data). assert (LT : length T = r) by (unfold T; rewrite length_drop; lia).
  assert (Em : exists m, B = (r + S m)%nat) by (exists (B - r - 1)%nat; lia). destruct Em as [m Em].
  replace (<[r:=128]> (T ++ replicate (B - r) 0)) with (T ++ 0x80 :: replicate m 0).
  2:{ replace (B - r)%nat with (S m) by lia. cbn [replicate].
      rewrite <- LT at 1. replace (length T) with (length T + 0)%nat by lia. now rewrite insert_app_r. }
  destruct (Z.leb_spec lo (Z.of_nat r)) as [Hge|Hlt].
  - assert (E : ((2 * B + L - 1 - r) mod B = m + L)%nat).
    { replace (2 * B + L - 1 - r)%nat with (m + L + 1 * B)%nat by lia.
      rewrite Nat.Div0.mod_add. apply Nat.mod_small. lia. }
    rewrite E, !length_app, length_replicate, Hlenb, LT. cbn [length].
    replace (r + (1 + (m + L + (B - L))))%nat with (2 * B)%nat by lia.
    rewrite Nat.div_mul, replicate_add by lia. cbn [blocks foldl app].
    rewrite take_replicate, Nat.min_l, Em, drop_app, take_app, LT, (take_ge T), (drop_ge T) by lia.
    replace (r + S m - r)%nat with (S m) by lia. cbn [take drop app].
    rewrite <- app_assoc, drop_app, take_app, length_replicate, Nat.sub_diag by lia.
    rewrite (take_ge (replicate m 0)), (drop_ge (replicate m 0)) by (rewrite length_replicate; lia).
    cbn [take drop app]. rewrite app_nil_r. f_equal.
    rewrite drop_0, take_ge by (rewrite length_app, length_replicate, Hlenb; lia). reflexivity.
  - assert (E : ((2 * B + L - 1 - r) mod B = L - 1 - r)%nat).
    { replace (2 * B + L - 1 - r)%nat with (L - 1 - r + 2 * B)%nat by lia.
      rewrite Nat.Div0.mod_add. apply Nat.mod_small. lia. }
    rewrite E, !length_app, length_replicate, Hlenb, LT. cbn [length].
    replace (r + (1 + (L - 1 - r + (B - L))))%nat with (1 * B)%nat by lia.
    rewrite Nat.div_mul by lia. cbn [blocks foldl app].
    f_equal. rewrite (take_ge (T ++ 0x80 :: replicate (L - 1 - r) 0 ++ _))
      by (rewrite length_app; cbn [length]; rewrite length_app, length_replicate, Hlenb; lia).
    rewrite take_app, LT, (take_ge T), <- app_assoc by lia. f_equal.
    replace (L - r)%nat with (S (L - 1 - r)) by lia. cbn [take app]. f_equal. rewrite take_replicate.
    f_equal. f_equal. lia.
Qed.

Lemma md_run_spec go buf0 data : go_ok go -> len data + bs < 0x10000000000000000 ->
  md_run bs lo lenb compress go buf0 data = md_spec bs lo lenb compress buf0 data.
Proof.
  intros Hgo Hlen. unfold md_run, md_spec.
  destruct (md_loop_spec go data Hgo Hlen (S (S (length data))) buf0 (replicate (Z.to_nat bs) 0) 0)
    as (x' & E & Hx & Ht); [lia|lia|rewrite length_replicate; lia|].
  rewrite Nat.sub_0_r, Nat.add_0_l in *. change (Z.of_nat 0) with 0 in E. rewrite E, drop_0.
  set (q := (length data / B)%nat) in *. set (r := (length data mod B)%nat) in *.
  assert (Hd : length data = (q * B + r)%nat) by (unfold q, r; pose proof (Nat.div_mod_eq (length data) B); lia).
  assert (Hr : (r < B)%nat) by (apply Nat.mod_upper_bound; lia).
  rewrite (md_final_spec data _ x' q r) by (done || lia). cbv zeta.
  unfold md_pad. rewrite Nat2Z.id.
  replace (Z.to_nat ((lo - 1 - len data) mod bs)) with ((2 * B + L - 1 - r) mod B)%nat.
  2:{ replace (lo - 1 - len data) with (Z.of_nat (2 * B + L - 1 - r) + (- (Z.of_nat q + 2)) * bs) by lia.
      rewrite Z_mod_plus_full, <- Nat2Z.inj_mod, Nat2Z.id. reflexivity. }
  set (P := [128] ++ _). rewrite <- (take_drop (q * B) data) at 4 5.
  rewrite <- !app_assoc. set (T := drop (q * B) data ++ P).
  rewrite length_app, length_take, Nat.min_l by lia.
  rewrite (Nat.add_comm (q * B)), Nat.div_add, (Nat.add_comm _ q), blocks_add, foldl_app by lia.
  rewrite blocks_app, drop_app_length' by (rewrite length_take; lia). f_equal.
  f_equal. rewrite <- (take_drop (q * B) data) at 1. apply blocks_app. rewrite length_take; lia.
Qed.
End driver_spec.

(** ** Output lengths: the interface the other components rely on *)

(** A hash function with [n] bytes of output. *)
Class HashFunction (hash : list Z -> list Z) (n : nat) : Prop := {
  hash_length : forall data, length (hash data) = n;
  hash_bytes : forall data, bytes_ok (hash data);
}.

Lemma md_run_length bs lo lenb compress go buf0 data n :
  (forall r x, length r = n -> length (compress r x) = n) -> length buf0 = n ->
  length (md_run bs lo lenb compress go buf0 data) = n.
Proof.
  intros Hc Hb. unfold md_run.
  assert (Hl : forall fuel buf x i, length buf = n ->
            length (md_loop bs compress fuel go data buf x i).1.1 = n).
  { induction fuel as [|fuel IH]; intros buf x i Hn; simpl; [done|].
    destruct (go i _); [|done]. destruct (_ <? _); simpl; [done|]. apply IH; auto. }
  specialize (Hl (S (S (length data))) buf0 (replicate (Z.to_nat bs) 0) 0 Hb).
  destruct (md_loop _ _ _ _ _ _ _) as [[buf x] i]; simpl in *. unfold md_final.
  destruct (_ <=? _); auto.
Qed.

Lemma length_mjoin_fmap {A} (f : A -> list Z) k l :
  (forall a, length (f a) = k) -> length (mjoin (f <$> l)) = (k * length l)%nat.
Proof. intros Hf. induction l as [|a l IH]; [simpl; lia|].
  rewrite fmap_cons. change (length (f a ++ mjoin (f <$> l)) = (k * S (length l))%nat).
  rewrite length_app, Hf, IH. lia.
Qed.

Lemma bytes_mjoin_fmap {A} (f : A -> list Z) l : (forall a, bytes_ok (f a)) -> bytes_ok (mjoin (f <$> l)).
Proof. intros Hf. induction l; simpl; [constructor|]. apply Forall_app; auto. Qed.

(** A [foldl] of steps that keep the length of the working variables. *)
Lemma foldl_length {A B} (f : list A -> B -> list A) l v n :
  (forall v b, length v = n -> length (f v b) = n) -> length v = n -> length (foldl f v l) = n.
Proof. intros Hf. revert v. induction l; intros; simpl; auto. Qed.

Lemma sha2_step_length wrap ln g1 g0 v kw : length v = 8%nat -> length (sha2_step wrap ln g1 g0 v kw) = 8%nat.
Proof. intros. now split_bytes v. Qed.

Lemma sha256_compress_length r x : length r = 8%nat -> length (_BRSHA256Compress r x) = 8%nat.
Proof.
  intros H. unfold _BRSHA256Compress, add_words. cbv zeta. rewrite length_zip_with, H.
  rewrite (foldl_length _ _ _ 8%nat) by eauto using sha2_step_length. reflexivity.
Qed.

Lemma sha512_compress_length r x : length r = 8%nat -> length (_BRSHA512Compress r x) = 8%nat.
Proof.
  intros H. unfold _BRSHA512Compress, add_words. cbv zeta. rewrite length_zip_with, H.
  rewrite (foldl_length _ _ _ 8%nat) by eauto using sha2_step_length. reflexivity.
Qed.

Lemma rmd_compress_length r x : length r = 5%nat -> length (_BRRMDCompress r x) = 5%nat.
Proof.
  intros H. unfold _BRRMDCompress. cbv zeta.
  generalize (rmd_left (words 4 16 x) r) (rmd_right (words 4 16 x) r). intros l l'.
  repeat (case_match; try done).
Qed.

Ltac hash_instance f k H :=
  constructor; intros data; unfold f;
  [rewrite (length_mjoin_fmap _ k) by (intros; apply length_le_digits);
   erewrite md_run_length; [| |reflexivity]; [reflexivity|apply H]
  |apply bytes_mjoin_fmap; intros; apply le_bytes_ok].

#[export] Instance BRSHA256_hash : HashFunction BRSHA256 32.
Proof. hash_instance BRSHA256 4%nat sha256_compress_length. Qed.

#[export] Instance BRSHA512_hash : HashFunction BRSHA512 64.
Proof. hash_instance BRSHA512 8%nat sha512_compress_length. Qed.

#[export] Instance BRRMD160_hash : HashFunction BRRMD160 20.
Proof. hash_instance BRRMD160 4%nat rmd_compress_length. Qed.

#[export] Instance BRSHA256_2_hash : HashFunction BRSHA256_2 32.
Proof. constructor; intros; apply BRSHA256_hash. Qed.

#[export] Instance BRHash160_hash : HashFunction BRHash160 20.
Proof. constructor; intros; apply BRRMD160_hash. Qed.

Section hmac_length.
Context (hash : list Z -> list Z) (n : nat) `{!HashFunction hash n} (Hn : (0 < n)%nat).
Notation hashLen := (Z.of_nat n).

#[export] Instance BRHMAC_hash key : HashFunction (BRHMAC hash hashLen key) n.
Proof. constructor; intros; unfold BRHMAC; apply HashFunction0. Qed.

Lemma pbkdf2_rounds_length k pw U T :
  length U = n -> length T = n -> length (pbkdf2_rounds hash hashLen k pw U T) = n.
Proof.
  revert U T; induction k as [|k IH]; intros U T HU HT; simpl; [done|].
  pose proof (hash_length (hash := BRHMAC hash hashLen pw) U) as E.
  apply IH; rewrite ?length_zip_with, ?E; lia.
Qed.

(** The blocks copied for [0 <= i < ceil(outLen / hashLen)] are the first [outLen] bytes of the blocks. *)
Lemma block_parts_take (f : Z -> list Z) outLen :
  0 <= outLen -> (forall i, length (f i) = n) ->
  let m := (outLen + hashLen - 1) / hashLen in
  mjoin ((fun i => block_part hashLen outLen i (f i)) <$> seqZ 0 m) =
  take (Z.to_nat outLen) (mjoin (f <$> seqZ 0 m)) /\ outLen <= m * hashLen.
Proof.
  intros Ho Hf m.
  assert (Hm : m * hashLen < outLen + hashLen /\ outLen <= m * hashLen /\ 0 <= m).
  { unfold m. clear m Hf. assert (0 < hashLen) by lia. split; [|split].
    - pose proof (Z.mul_div_le (outLen + hashLen - 1) hashLen). lia.
    - pose proof (Z.mul_succ_div_gt (outLen + hashLen - 1) hashLen). lia.
    - apply Z.div_pos; lia. }
  split; [|lia].
  assert (G : forall j, Z.of_nat j <= m ->
    mjoin ((fun i => block_part hashLen outLen i (f i)) <$> seqZ 0 (Z.of_nat j)) =
    take (Z.to_nat outLen) (mjoin (f <$> seqZ 0 (Z.of_nat j)))).
  { induction j as [|j IH]; intros Hj; [cbn; now destruct (Z.to_nat outLen)|].
    rewrite Nat2Z.inj_succ, <- Z.add_1_r, seqZ_app, !fmap_app, !join_app, IH by lia.
    rewrite take_app, (length_mjoin_fmap f n _ Hf), length_seqZ, Nat2Z.id. f_equal.
    rewrite (seqZ_cons _ 1) by lia. cbn [fmap list_fmap mjoin list_join]. rewrite !app_nil_r, Z.add_0_l.
    unfold block_part. destruct (Z.leb_spec (Z.of_nat j * hashLen + hashLen) outLen).
    - rewrite !take_ge; [done|rewrite Hf; nia|rewrite Hf; lia].
    - f_equal. replace (outLen mod hashLen) with (outLen - Z.of_nat j * hashLen); [nia|].
      apply (Z.mod_unique_pos _ _ (Z.of_nat j)); nia. }
  specialize (G (Z.to_nat m)). rewrite Z2Nat.id in G by lia. apply G; lia.
Qed.

(** [F(P, S, c, i) = U_1 ^ U_2 ^ ... ^ U_c] of RFC 2898, with [U_1 = PRF(P, S || INT(i))]. *)
Definition pbkdf2_U (pw salt : list Z) (i : Z) (k : nat) : list Z :=
  Nat.iter k (BRHMAC hash hashLen pw) (BRHMAC hash hashLen pw (salt ++ reverse (le_bytes 4 i))).

Lemma pbkdf2_U_length pw salt i k : length (pbkdf2_U pw salt i k) = n.
Proof. unfold pbkdf2_U. destruct k; apply BRHMAC_hash. Qed.

Definition pbkdf2_F (pw salt : list Z) (rounds : nat) (i : Z) : list Z :=
  foldl (zip_with Z.lxor) (pbkdf2_U pw salt i 0) (pbkdf2_U pw salt i <$> seq 1 (rounds - 1)).

Lemma pbkdf2_rounds_spec pw salt i k m T :
  pbkdf2_rounds hash hashLen m pw (pbkdf2_U pw salt i k) T =
  foldl (zip_with Z.lxor) T (pbkdf2_U pw salt i <$> seq (S k) m).
Proof.
  revert k T; induction m as [|m IH]; intros k T; [done|].
  cbn [pbkdf2_rounds seq fmap list_fmap foldl]. apply (IH (S k)).
Qed.
End hmac_length.

(** ** Byte order *)

Lemma be32_spec x : 0 <= x < 0x100000000 -> le_bytes 4 (be32 x) = reverse (le_bytes 4 x).
Proof.
  intros Hx. transitivity (UInt32SetBE x); [|apply UInt32SetBE_spec].
  rewrite <- UInt32SetLE_spec.
  assert (E : be32 x = le_val (UInt32SetBE x)).
  { unfold be32, UInt32SetBE.
    change 0xff00 with (Z.shiftl 0xff 8). change 0xff0000 with (Z.shiftl 0xff 16).
    change 0xff000000 with (Z.shiftl 0xff 24). rewrite !land_shifted, !land_0xff by lia.
    rewrite !Z.shiftl_mul_pow2, !shiftr_div by lia. cbn [le_num].
    change (2 ^ 8) with 0x100; change (2 ^ 16) with 0x10000; change (2 ^ 24) with 0x1000000.
    set (a := x / 0x1000000 mod 256). set (b := x / 0x10000 mod 256). set (c := x / 0x100 mod 256).
    assert (0 <= a < 256 /\ 0 <= b < 256 /\ 0 <= c < 256 /\ 0 <= x mod 256 < 256) by (unfold a, b, c; zdiv_lia).
    replace (a * 0x1000000 / 0x1000000) with a by zdiv_lia.
    replace (b * 0x10000 / 0x100) with (b * 0x100) by zdiv_lia.
    clearbody a b c. set (d := x mod 256) in *. clearbody d.
    lane 24. lane 16. lane 8. rewrite u32_id; lia. }
  rewrite E. rewrite UInt32SetLE_spec. change 4%nat with (length (UInt32SetBE x)) at 1.
  apply le_bytes_le_val. rewrite UInt32SetBE_spec. apply Forall_reverse, le_bytes_ok.
Qed.

Lemma le_bytes_8 x : le_bytes 8 x = le_bytes 4 x ++ le_bytes 4 (x / 0x100000000).
Proof. exact (le_digits_app 256 eq_refl 4 4 x). Qed.

Lemma le_bytes_4_u32 x : le_bytes 4 (u32 x) = le_bytes 4 x.
Proof. exact (le_digits_mod 256 eq_refl 4 x). Qed.

Lemma lenb32_le_spec n : 0 <= n < 0x2000000000000000 -> lenb32_le n = le_bytes 8 (8 * n).
Proof.
  intros Hn. unfold lenb32_le. rewrite !le_bytes_4_u32, le_bytes_8, Z.shiftl_mul_pow2, shiftr_div by lia.
  f_equal; f_equal; [lia|]. change (2 ^ 29) with 0x20000000. zdiv_lia.
Qed.

Lemma lenb32_be_spec n : 0 <= n < 0x2000000000000000 -> lenb32_be n = reverse (le_bytes 8 (8 * n)).
Proof.
  intros Hn. rewrite <- lenb32_le_spec by done. unfold lenb32_be, lenb32_le.
  rewrite !be32_spec by apply u32_range. now rewrite reverse_app.
Qed.

Lemma be32_u32_range x : 0 <= be32 x < B32.
Proof. apply u32_range. Qed.

Lemma be64_spec x : 0 <= x < B64 -> le_bytes 8 (be64 x) = reverse (le_bytes 8 x).
Proof.
  intros Hx. unfold be64. rewrite shiftr_div by lia. change (2 ^ 32) with B32. unfold B64 in *.
  set (hi := be32 _). set (lo := be32 (u32 x)). cbn [le_num].
  assert (Hh : 0 <= hi < B32) by apply u32_range. assert (Hl : 0 <= lo < B32) by apply u32_range.
  rewrite le_bytes_8, <- (le_bytes_4_u32 (hi + _)). unfold u32, B32 in *.
  replace ((hi + 0x100000000 * (lo + 0x100000000 * 0)) mod 0x100000000) with hi by zdiv_lia.
  replace ((hi + 0x100000000 * (lo + 0x100000000 * 0)) / 0x100000000) with lo by zdiv_lia.
  unfold hi, lo. rewrite !be32_spec, le_bytes_8, reverse_app by uint. unfold u32.
  f_equal; f_equal; apply le_bytes_4_u32.
Qed.

Lemma lenb64_be_spec n : 0 <= n < 0x2000000000000000 -> lenb64_be n = reverse (le_bytes 16 (8 * n)).
Proof.
  intros Hn. unfold lenb64_be. rewrite be64_spec by (unfold B64; uint).
  rewrite u64_id by lia. change 16%nat with (8 + 8)%nat. rewrite (le_digits_app 256 eq_refl 8 8), reverse_app.
  f_equal. replace (n * 8) with (8 * n) by lia. rewrite Z.div_small by (change (256 ^ Z.of_nat 8) with B64; unfold B64; lia).
  reflexivity. now rewrite Z.mul_comm.
Qed.

(** ** Properties *)

Lemma Zltb_go_ok : go_ok Z.ltb.
Proof. intros i n. split; intros; [now apply Z.ltb_lt|apply Z.ltb_ge; lia]. Qed.

Lemma Zleb_go_ok : go_ok Z.leb.
Proof. intros i n. split; intros; [apply Z.leb_le; lia|now apply Z.leb_gt]. Qed.

(** The blocks of a message and its padding: [0x80], zeros up to offset [lo] of the last block. *)
Definition message_blocks (n : nat) (m : list Z) : list (list Z) := blocks n (length m / n) m.
Definition pad_to (bs lo : Z) (data : list Z) : list Z :=
  data ++ [0x80] ++ replicate (Z.to_nat ((lo - 1 - len data) mod bs)) 0.

(** The in-place block loops of [BRSHA256], [BRSHA512] and [BRRMD160] compute the standard
    hashes' construction: the compression function folded over the message followed by [0x80], zeros
    and the bit length (64-bit big-endian, 128-bit big-endian and 64-bit little-endian). *)
Theorem block_hashes_padded data : len data < 0x1000000000000000 ->
  BRSHA256 data = mjoin ((fun w => le_bytes 4 (be32 w)) <$> (foldl _BRSHA256Compress buf256
    (message_blocks 64 (pad_to 64 56 data ++ reverse (le_bytes 8 (8 * len data)))))) /\
  BRSHA512 data = mjoin ((fun w => le_bytes 8 (be64 w)) <$> (foldl _BRSHA512Compress buf512
    (message_blocks 128 (pad_to 128 112 data ++ reverse (le_bytes 16 (8 * len data)))))) /\
  BRRMD160 data = mjoin (le_bytes 4 <$> (foldl _BRRMDCompress buf160
    (message_blocks 64 (pad_to 64 56 data ++ le_bytes 8 (8 * len data))))).
Proof.
  intros Hd. split; [|split]; unfold BRSHA256, BRSHA512, BRRMD160.
  - rewrite (md_run_spec 64 56 lenb32_be _ ltac:(lia) (fun _ => eq_refl) _ _ _ Zltb_go_ok) by lia.
    unfold md_spec, md_pad. rewrite lenb32_be_spec by lia. unfold pad_to. now rewrite <- !app_assoc.
  - rewrite (md_run_spec 128 112 lenb64_be _ ltac:(lia) (fun _ => eq_refl) _ _ _ Zltb_go_ok) by lia.
    unfold md_spec, md_pad. rewrite lenb64_be_spec by lia. unfold pad_to. now rewrite <- !app_assoc.
  - rewrite (md_run_spec 64 56 lenb32_le _ ltac:(lia) (fun _ => eq_refl) _ _ _ Zleb_go_ok) by lia.
    unfold md_spec, md_pad. rewrite lenb32_le_spec by lia. unfold pad_to. now rewrite <- !app_assoc.
Qed.

Lemma block_hashes_padded_witness :
  len [97; 98; 99] < 0x1000000000000000 /\
  BRSHA256 [97; 98; 99] = mjoin ((fun w => le_bytes 4 (be32 w)) <$> (foldl _BRSHA256Compress buf256
    (message_blocks 64 (pad_to 64 56 [97; 98; 99] ++ reverse (le_bytes 8 24))))).
Proof. split; [reflexivity|]. exact (proj1 (block_hashes_padded [97; 98; 99] eq_refl)). Defined.

Lemma pbkdf2_bytes hash n `{!HashFunction hash n} hashLen dkLen pw salt rounds :
  bytes_ok (BRPBKDF2 hash hashLen dkLen pw salt rounds).
Proof.
  unfold BRPBKDF2. apply bytes_mjoin_fmap. intros i. unfold block_part. set (T := pbkdf2_rounds _ _ _ _ _ _).
  assert (HT : bytes_ok T); [|now apply Forall_take].
  assert (G : forall k U V, bytes_ok V -> bytes_ok (pbkdf2_rounds hash hashLen k pw U V)).
  { induction k as [|k IH]; intros U V HV; cbn [pbkdf2_rounds]; [done|]. apply IH, zip_lxor_bytes; [done|].
    unfold BRHMAC. apply hash_bytes. }
  apply G. unfold BRHMAC. apply hash_bytes.
Qed.

(** [BRPBKDF2] over any hash with an [n]-byte output returns the first [dkLen] bytes of
    [F(1) ++ F(2) ++ ...], where [F(i)] is RFC 2898's xor of the iterated HMACs, and exactly [dkLen]
    bytes of them, whether or not [dkLen] is a multiple of [n]. *)
Theorem BRPBKDF2_spec hash n `{!HashFunction hash n} dkLen pw salt rounds :
  (0 < n)%nat -> 0 <= dkLen < 0x100000000 -> 0 < rounds ->
  let m := (dkLen + Z.of_nat n - 1) / Z.of_nat n in
  BRPBKDF2 hash (Z.of_nat n) dkLen pw salt rounds =
    take (Z.to_nat dkLen) (mjoin (pbkdf2_F hash n pw salt (Z.to_nat rounds) <$> seqZ 1 m)) /\
  len (BRPBKDF2 hash (Z.of_nat n) dkLen pw salt rounds) = dkLen.
Proof.
  intros Hn Hd Hr m.
  assert (Hf : forall i, length (pbkdf2_F hash n pw salt (Z.to_nat rounds) i) = n).
  { intros i. unfold pbkdf2_F. rewrite <- pbkdf2_rounds_spec.
    apply pbkdf2_rounds_length; first [done | apply pbkdf2_U_length; done | lia]. }
  destruct (block_parts_take n Hn (fun i => pbkdf2_F hash n pw salt (Z.to_nat rounds) (i + 1)) dkLen)
    as [E Hm]; [lia|auto|].
  assert (Es : mjoin ((fun i => pbkdf2_F hash n pw salt (Z.to_nat rounds) (i + 1)) <$> seqZ 0 m) =
               mjoin (pbkdf2_F hash n pw salt (Z.to_nat rounds) <$> seqZ 1 m)).
  { f_equal. change (seqZ 1 m) with (seqZ (1 + 0) m). rewrite <- (fmap_add_seqZ 1 0 m), <- list_fmap_compose.
    apply list_fmap_ext. intros i x _. unfold compose. f_equal. lia. }
  assert (E0 : BRPBKDF2 hash (Z.of_nat n) dkLen pw salt rounds =
    take (Z.to_nat dkLen) (mjoin (pbkdf2_F hash n pw salt (Z.to_nat rounds) <$> seqZ 1 m))).
  { rewrite <- Es. unfold m. rewrite <- E. unfold BRPBKDF2. f_equal.
    apply list_fmap_ext. intros i x Hx. apply lookup_seqZ in Hx. f_equal.
    assert (Hi : 0 <= x < dkLen).
    { pose proof (Z.mul_div_le (dkLen + Z.of_nat n - 1) (Z.of_nat n) ltac:(lia)). fold m in Hx. nia. }
    rewrite u32_id, be32_spec by lia. unfold pbkdf2_F. rewrite <- pbkdf2_rounds_spec.
    now replace (Z.to_nat rounds - 1)%nat with (Z.to_nat (rounds - 1)) by lia. }
  split; [done|]. rewrite E0, length_take, (length_mjoin_fmap _ n _ Hf), length_seqZ. fold m in Hm. nia.
Qed.

Lemma BRPBKDF2_spec_witness :
  len (BRPBKDF2 BRSHA256 32 40 [112] [115] 2) = 40 /\
  BRPBKDF2 BRSHA256 32 40 [112] [115] 2 =
    take 40 (mjoin (pbkdf2_F BRSHA256 32 [112] [115] 2 <$> seqZ 1 2)).
Proof.
  destruct (BRPBKDF2_spec BRSHA256 32 40 [112] [115] 2) as [E L]; [lia|lia|lia|].
  split; [exact L|exact E].
Defined.
