(* ===== verification/Scrypt.v ===== *)
(** * Scrypt ([BRCrypto.c]: [_salsa20_8], [_blockmix_salsa8], [BRScrypt])

    The proof-of-work hash of block headers before the switch to timetravel, and the key derivation of
    BIP38.  The [uint64_t] arrays [x], [y], [z] and [v] are kept as the [uint32_t] words they are cast
    to (two little-endian halves per element), so a 128*r byte block is a list of 32*r words. *)
From stdpp Require Import base numbers list.
From Stdlib Require Import ZArith Lia.
From S2P Require Import Prelude Int Crypto.
Local Open Scope Z_scope.

(** One [xd ^= rol32(xa + xb, k)]. *)
Definition salsa_op (x : list Z) (op : Z * Z * Z * Z) : list Z :=
  let '(d, a, b, k) := op in
  upd x d (Z.lxor (wd x d) (rol32 (u32 (wd x a + wd x b)) k)).

(** The statements of the loop body, columns then rows. *)
Definition salsa_ops : list (Z * Z * Z * Z) :=
  [(4, 0, 12, 7); (8, 4, 0, 9); (12, 8, 4, 13); (0, 12, 8, 18);
   (9, 5, 1, 7); (13, 9, 5, 9); (1, 13, 9, 13); (5, 1, 13, 18);
   (14, 10, 6, 7); (2, 14, 10, 9); (6, 2, 14, 13); (10, 6, 2, 18);
   (3, 15, 11, 7); (7, 3, 15, 9); (11, 7, 3, 13); (15, 11, 7, 18);
   (1, 0, 3, 7); (2, 1, 0, 9); (3, 2, 1, 13); (0, 3, 2, 18);
   (6, 5, 4, 7); (7, 6, 5, 9); (4, 7, 6, 13); (5, 4, 7, 18);
   (11, 10, 9, 7); (8, 11, 10, 9); (9, 8, 11, 13); (10, 9, 8, 18);
   (12, 15, 14, 7); (13, 12, 15, 9); (14, 13, 12, 13); (15, 14, 13, 18)].

(** Four double rounds ([i = 0, 2, 4, 6]), then [b[i] += xi]. *)
Definition _salsa20_8 (b : list Z) : list Z :=
  add_words u32 b (Nat.iter 4 (fun x => foldl salsa_op x salsa_ops) b).

(** The [j]-th 64-byte sub-block of [src]. *)
Definition sub_block (src : list Z) (j : Z) : list Z := take 16 (drop (Z.to_nat (16 * j)) src).

(** [for (i = 0; i < 2*r; i += 2)]: [dest] is filled from two ends, the even sub-blocks in its first
    half and the odd ones in the second.  [n] counts the iterations left. *)
Fixpoint blockmix_loop (n : nat) (i : Z) (src b : list Z) : list Z * list Z :=
  match n with
  | O => ([], [])
  | S n' =>
      let b0 := _salsa20_8 (zip_with Z.lxor b (sub_block src i)) in
      let b1 := _salsa20_8 (zip_with Z.lxor b0 (sub_block src (i + 1))) in
      let '(lo, hi) := blockmix_loop n' (i + 2) src b1 in
      (b0 ++ lo, b1 ++ hi)
  end.

Definition _blockmix_salsa8 (src : list Z) (r : Z) : list Z :=
  let '(lo, hi) := blockmix_loop (Z.to_nat r) 0 src (sub_block src (2 * r - 1)) in lo ++ hi.

(** [for (j = 0; j < n; j += 2)]: [x] and [y] appended to [v]; [k] counts the iterations left. *)
Fixpoint fill_v (k : nat) (r : Z) (x : list Z) (v : list (list Z)) : list (list Z) * list Z :=
  match k with
  | O => (v, x)
  | S k' =>
      let y := _blockmix_salsa8 x r in
      fill_v k' r (_blockmix_salsa8 y r) (v ++ [x; y])
  end.

(** [m = le64(x[(2*r - 1)*8]) & (n - 1)] *)
Definition integerify (x : list Z) (r n : Z) : Z :=
  let i := 16 * (2 * r - 1) in
  Z.land (Z.lor (wd x i) (Z.shiftl (wd x (i + 1)) 32)) (n - 1).

(** [x[k] ^= v[m*(16*r) + k]] then one block mix. *)
Definition mix_v (v : list (list Z)) (r n : Z) (x : list Z) : list Z :=
  _blockmix_salsa8 (zip_with Z.lxor x (default [] (v !! Z.to_nat (integerify x r n)))) r.

(** The body of the loop over [p] on one 128*r byte chunk of [b]; [(n + 1) / 2] iterations each. *)
Definition romix (r n : Z) (x : list Z) : list Z :=
  let k := Z.to_nat ((n + 1) / 2) in
  let '(v, x) := fill_v k r x [] in
  Nat.iter k (fun x => mix_v v r n (mix_v v r n x)) x.

Definition BRScrypt (dkLen : Z) (pw salt : list Z) (n r p : Z) : list Z :=
  let b := BRPBKDF2 BRSHA256 32 (128 * r * p) pw salt 1 in
  let chunk i := words 4 (Z.to_nat (32 * r)) (drop (Z.to_nat (i * 128 * r)) b) in
  let b := mjoin ((fun i => mjoin (le_bytes 4 <$> romix r n (chunk i))) <$> seqZ 0 p) in
  BRPBKDF2 BRSHA256 32 dkLen pw b 1.

(** The first test vector of RFC 7914. *)
Example scrypt_rfc7914 :
  BRScrypt 64 [] [] 16 1 1 =
  reverse (le_bytes 64 0x77d6576238657b203b19ca42c18a0497f16b4844e3074ae8dfdffa3fede21442fcd0069ded0948f8326a753a0fc81f17e8d3e0fb2e0d3628cf35e20c38d18906).
Proof. vm_compute. reflexivity. Qed.

Lemma scrypt_ok dkLen pw salt n r p : 0 <= dkLen < 0x100000000 ->
  bytes_ok (BRScrypt dkLen pw salt n r p) /\ len (BRScrypt dkLen pw salt n r p) = dkLen.
Proof.
  intros Hd. unfold BRScrypt. cbv zeta. split; [apply (pbkdf2_bytes BRSHA256 32)|].
  apply (BRPBKDF2_spec BRSHA256 32); lia.
Qed.
