(* ===== verification/Aead.v ===== *)
(** * Poly1305, ChaCha20 and their AEAD ([BRCrypto.c])

    [_BRPoly1305Compress] on five 26-bit limbs held in [uint32_t], with its [uint64_t] products and the
    final reduction; [BRChacha20] with the 64-bit counter in words 12 and 13 of the state; the
    authenticated encryption of RFC 7539 built from them.  The machine is little-endian, so [le32] and
    [le64] are identities.  The theorems: the limbs never overflow and the tag is the polynomial of the
    specification; byte [i] of the cipher is byte [i mod 64] of block [i / 64] of the key stream;
    decryption accepts exactly the tag of the ciphertext and undoes encryption. *)
From stdpp Require Import base numbers list.
From Stdlib Require Import ZArith Lia.
From S2P Require Import Prelude CMem Int Crypto.
Local Open Scope Z_scope.

(** ** Poly1305 *)

(** [uint32_t h[5]] (and [r0] to [r4], [t0] to [t4]) *)
Definition limbs : Type := Z * Z * Z * Z * Z.

(** [r0] to [r4]: the first half of the key, masked. *)
Definition poly_r (key : list Z) : limbs :=
  let x := words 4 4 key in
  let t0 := wd x 0 in let t1 := wd x 1 in let t2 := wd x 2 in let t3 := wd x 3 in
  (Z.land t0 0x03ffffff,
   Z.land (Z.lor (Z.shiftr t0 26) (u32 (Z.shiftl t1 6))) 0x03ffff03,
   Z.land (Z.lor (Z.shiftr t1 20) (u32 (Z.shiftl t2 12))) 0x03ffc0ff,
   Z.land (Z.lor (Z.shiftr t2 14) (u32 (Z.shiftl t3 18))) 0x03f03fff,
   Z.land (Z.shiftr t3 8) 0x000fffff).

(** The block at [i] as [x[4]]: sixteen bytes, or the rest with its padding. *)
Definition poly_load (data : list Z) (i : Z) : list Z :=
  let b := take 16 (drop (Z.to_nat i) data) in
  if len data <? i + 16 then words 4 4 (b ++ [1] ++ replicate (15 - length b) 0) else words 4 4 b.

(** [h += x] *)
Definition poly_add (h : limbs) (x : list Z) (hibit : Z) : limbs :=
  let '(h0, h1, h2, h3, h4) := h in
  let t0 := wd x 0 in let t1 := wd x 1 in let t2 := wd x 2 in let t3 := wd x 3 in
  (u32 (h0 + Z.land t0 0x03ffffff),
   u32 (h1 + Z.land (Z.lor (Z.shiftr t0 26) (u32 (Z.shiftl t1 6))) 0x03ffffff),
   u32 (h2 + Z.land (Z.lor (Z.shiftr t1 20) (u32 (Z.shiftl t2 12))) 0x03ffffff),
   u32 (h3 + Z.land (Z.lor (Z.shiftr t2 14) (u32 (Z.shiftl t3 18))) 0x03ffffff),
   u32 (h4 + Z.lor (Z.shiftr t3 8) hibit)).

(** [h *= r], the [uint64_t] sums [d0] to [d4] *)
Definition poly_mul (h r : limbs) : limbs :=
  let '(h0, h1, h2, h3, h4) := h in
  let '(r0, r1, r2, r3, r4) := r in
  (u64 (h0 * r0 + h1 * r4 * 5 + h2 * r3 * 5 + h3 * r2 * 5 + h4 * r1 * 5),
   u64 (h0 * r1 + h1 * r0 + h2 * r4 * 5 + h3 * r3 * 5 + h4 * r2 * 5),
   u64 (h0 * r2 + h1 * r1 + h2 * r0 + h3 * r4 * 5 + h4 * r3 * 5),
   u64 (h0 * r3 + h1 * r2 + h2 * r1 + h3 * r0 + h4 * r4 * 5),
   u64 (h0 * r4 + h1 * r3 + h2 * r2 + h3 * r1 + h4 * r0)).

(** [(partial) h %= p] *)
Definition poly_reduce (d : limbs) : limbs :=
  let '(d0, d1, d2, d3, d4) := d in
  let d1 := u64 (d1 + u32 (Z.shiftr d0 26)) in
  let h1 := u32 (Z.land d1 0x03ffffff) in
  let d2 := u64 (d2 + u32 (Z.shiftr d1 26)) in
  let h2 := u32 (Z.land d2 0x03ffffff) in
  let d3 := u64 (d3 + u32 (Z.shiftr d2 26)) in
  let h3 := u32 (Z.land d3 0x03ffffff) in
  let d4 := u64 (d4 + u32 (Z.shiftr d3 26)) in
  let h4 := u32 (Z.land d4 0x03ffffff) in
  let h0 := u32 (Z.land d0 0x03ffffff + u32 (u32 (Z.shiftr d4 26) * 5)) in
  let h1 := u32 (h1 + Z.shiftr h0 26) in
  (Z.land h0 0x03ffffff, h1, h2, h3, h4).

(** The loop body for the block at [i]. *)
Definition poly_block (r : limbs) (data : list Z) (h : limbs) (i : Z) : limbs :=
  poly_reduce (poly_mul (poly_add h (poly_load data i) (if i + 16 <=? len data then Z.shiftl 1 24 else 0)) r).

(** [for (size_t i = 0; i < len; i += 16)] *)
Definition poly_loop (r : limbs) (data : list Z) (h : limbs) : limbs :=
  foldl (fun h k => poly_block r data h (16 * k)) h (seqZ 0 ((len data + 15) / 16)).

(** [// fully carry h] *)
Definition poly_carry (h : limbs) : limbs :=
  let '(h0, h1, h2, h3, h4) := h in
  let h2 := u32 (h2 + Z.shiftr h1 26) in let h1 := Z.land h1 0x03ffffff in
  let h3 := u32 (h3 + Z.shiftr h2 26) in let h2 := Z.land h2 0x03ffffff in
  let h4 := u32 (h4 + Z.shiftr h3 26) in let h3 := Z.land h3 0x03ffffff in
  let h0 := u32 (h0 + u32 (Z.shiftr h4 26 * 5)) in let h4 := Z.land h4 0x03ffffff in
  let h1 := u32 (h1 + Z.shiftr h0 26) in let h0 := Z.land h0 0x03ffffff in
  (h0, h1, h2, h3, h4).

(** [h] if [h < p], [h - p] otherwise, chosen by the mask [b]. *)
Definition poly_select (h : limbs) : limbs :=
  let '(h0, h1, h2, h3, h4) := h in
  let t0 := u32 (h0 + 5) in
  let t1 := u32 (h1 + Z.shiftr t0 26) in let t0 := Z.land t0 0x03ffffff in
  let t2 := u32 (h2 + Z.shiftr t1 26) in let t1 := Z.land t1 0x03ffffff in
  let t3 := u32 (h3 + Z.shiftr t2 26) in let t2 := Z.land t2 0x03ffffff in
  let t4 := u32 (h4 + Z.shiftr t3 26 - Z.shiftl 1 26) in let t3 := Z.land t3 0x03ffffff in
  let b := u32 (Z.shiftr t4 31 - 1) in
  let sel h t := Z.lor (Z.land h (not32 b)) (Z.land t b) in
  (sel h0 t0, sel h1 t1, sel h2 t2, sel h3 t3, sel h4 t4).

(** [h % (2^128)] as four 32-bit words *)
Definition poly_pack (h : limbs) : Z * Z * Z * Z :=
  let '(h0, h1, h2, h3, h4) := h in
  (Z.land (Z.lor h0 (u32 (Z.shiftl h1 26))) 0xffffffff,
   Z.land (Z.lor (Z.shiftr h1 6) (u32 (Z.shiftl h2 20))) 0xffffffff,
   Z.land (Z.lor (Z.shiftr h2 12) (u32 (Z.shiftl h3 14))) 0xffffffff,
   Z.land (Z.lor (Z.shiftr h3 18) (u32 (Z.shiftl h4 8))) 0xffffffff).

(** [mac = (h + pad) % (2^128)]; the pad is the second half of the key. *)
Definition poly_final (key : list Z) (h : limbs) : limbs :=
  let '(_, _, _, _, h4) := poly_select (poly_carry h) in
  let '(h0, h1, h2, h3) := poly_pack (poly_select (poly_carry h)) in
  let x := words 4 4 (drop 16 key) in
  let d0 := u64 (h0 + wd x 0) in
  let d1 := u64 (h1 + wd x 1 + Z.shiftr d0 32) in
  let d2 := u64 (h2 + wd x 2 + Z.shiftr d1 32) in
  let d3 := u64 (h3 + wd x 3 + Z.shiftr d2 32) in
  (u32 d0, u32 d1, u32 d2, u32 d3, h4).

Definition _BRPoly1305Compress (h : limbs) (key data : list Z) (final : bool) : limbs :=
  let h := poly_loop (poly_r key) data h in
  if final then poly_final key h else h.

(** [uint32_t h[5] = { 0, 0, 0, 0, 0 }] *)
Definition poly_init : limbs := (0, 0, 0, 0, 0).

(** The first 16 bytes of [h]. *)
Definition mac_bytes (h : limbs) : list Z :=
  let '(h0, h1, h2, h3, _) := h in le_bytes 4 h0 ++ le_bytes 4 h1 ++ le_bytes 4 h2 ++ le_bytes 4 h3.

Definition BRPoly1305 (key data : list Z) : list Z := mac_bytes (_BRPoly1305Compress poly_init key data true).

(** ** ChaCha20 *)

Definition qr (x : list Z) (op : Z * Z * Z * Z) : list Z :=
  let '(a, b, c, d) := op in
  let x := upd x a (u32 (wd x a + wd x b)) in
  let x := upd x d (rol32 (Z.lxor (wd x d) (wd x a)) 16) in
  let x := upd x c (u32 (wd x c + wd x d)) in
  let x := upd x b (rol32 (Z.lxor (wd x b) (wd x c)) 12) in
  let x := upd x a (u32 (wd x a + wd x b)) in
  let x := upd x d (rol32 (Z.lxor (wd x d) (wd x a)) 8) in
  let x := upd x c (u32 (wd x c + wd x d)) in
  upd x b (rol32 (Z.lxor (wd x b) (wd x c)) 7).

Definition chacha_ops : list (Z * Z * Z * Z) :=
  [(0, 4, 8, 12); (1, 5, 9, 13); (2, 6, 10, 14); (3, 7, 11, 15);
   (0, 5, 10, 15); (1, 6, 11, 12); (2, 7, 8, 13); (3, 4, 9, 14)].

(** [b], the bytes of the key stream block of the state [s] *)
Definition chacha_block (s : list Z) : list Z :=
  mjoin (le_bytes 4 <$> add_words u32 s (Nat.iter 10 (fun x => foldl qr x chacha_ops) s)).

(** [s[12]++; if (s[12] == 0) s[13]++;] *)
Definition chacha_bump (s : list Z) : list Z :=
  let s := upd s 12 (u32 (wd s 12 + 1)) in
  if wd s 12 =? 0 then upd s 13 (u32 (wd s 13 + 1)) else s.

(** "expand 32-byte k" *)
Definition sigma : list Z := [101; 120; 112; 97; 110; 100; 32; 51; 50; 45; 98; 121; 116; 101; 32; 107].

(** The initial state. *)
Definition chacha_state (key iv : list Z) (counter : Z) : list Z :=
  words 4 4 sigma ++ words 4 8 key ++ [u32 counter; u32 (Z.shiftr counter 32)] ++ words 4 2 iv.

(** [for (i = 0; i < len; i++)]; [b] is the current block. *)
Fixpoint chacha_loop (data : list Z) (i : Z) (s b : list Z) : list Z :=
  match data with
  | [] => []
  | d :: data' =>
      let '(s, b) := if i mod 64 =? 0 then (chacha_bump s, chacha_block s) else (s, b) in
      Z.lxor d (wd b (i mod 64)) :: chacha_loop data' (i + 1) s b
  end.

(** The bytes written to [out]; byte [i] depends on byte [i] of [data] only, so they may be the same object. *)
Definition BRChacha20 (key iv data : list Z) (counter : Z) : list Z :=
  chacha_loop data 0 (chacha_state key iv counter) [].

(** ** Authenticated encryption *)

(** [counter]: its high word is the first word of the nonce. *)
Definition aead_counter (nonce : list Z) : Z := le_val ([0; 0; 0; 0] ++ take 4 nonce).

(** [macKey] *)
Definition aead_mac_key (key nonce : list Z) : list Z :=
  BRChacha20 key (drop 4 nonce) (replicate 32 0) (aead_counter nonce).

(** The whole blocks of [data], then the rest zero-padded to a block. *)
Definition poly_padded (h : limbs) (macKey data : list Z) : limbs :=
  let n := (len data / 16) * 16 in
  let h := _BRPoly1305Compress h macKey (take (Z.to_nat n) data) false in
  if c_true (len data mod 16) then
    let rest := drop (Z.to_nat n) data in
    _BRPoly1305Compress h macKey (rest ++ replicate (16 - length rest) 0) false
  else h.

(** [h] after the associated data, the ciphertext and the lengths *)
Definition aead_mac (key nonce cipher ad : list Z) : limbs :=
  let macKey := aead_mac_key key nonce in
  let h := poly_padded poly_init macKey ad in
  let h := poly_padded h macKey cipher in
  _BRPoly1305Compress h macKey (le_bytes 8 (len ad) ++ le_bytes 8 (len cipher)) true.

Definition BRChacha20Poly1305AEADEncrypt (out : ptr) (outLen : Z) (key nonce data ad : list Z) : option (ptr * Z) :=
  let dataLen := len data in
  match out with
  | None => Some (None, u64 (dataLen + 16))
  | Some m =>
      if (outLen <? u64 (dataLen + 16)) || (UINT32_MAX <=? dataLen / 64) then Some (Some m, 0)
      else
        let cipher := BRChacha20 key (drop 4 nonce) data (u64 (aead_counter nonce + 1)) in
        m ← mem_write m 0 cipher;
        m ← mem_write m dataLen (mac_bytes (aead_mac key nonce cipher ad));
        Some (Some m, dataLen + 16)
  end.

Definition BRChacha20Poly1305AEADDecrypt (out : ptr) (outLen : Z) (key nonce data ad : list Z) : option (ptr * Z) :=
  let dataLen := len data in
  match out with
  | None => Some (None, if dataLen <? 16 then 0 else dataLen - 16)
  | Some m =>
      if (dataLen <? 16) || (UINT32_MAX <=? (dataLen - 16) / 64) || (u64 (outLen + 16) <? dataLen)
      then Some (Some m, 0)
      else
        let outLen := dataLen - 16 in
        let cipher := take (Z.to_nat outLen) data in
        let '(h0, h1, h2, h3, _) := aead_mac key nonce cipher ad in
        let mac := words 4 4 (drop (Z.to_nat outLen) data) in
        let diff := Z.lor (Z.lor (Z.lor (Z.lxor (wd mac 0) h0) (Z.lxor (wd mac 1) h1)) (Z.lxor (wd mac 2) h2))
                          (c_bool (c_true (Z.lxor (wd mac 3) h3))) in
        let outLen := if c_true diff then 0 else outLen in
        m ← mem_write m 0
              (BRChacha20 key (drop 4 nonce) (take (Z.to_nat outLen) data) (u64 (aead_counter nonce + 1)));
        Some (Some m, outLen)
  end.

(** ** The vectors of [test.c] *)

Definition twas_key : list Z :=
  [28; 146; 64; 165; 235; 85; 211; 138; 243; 51; 136; 134; 4; 246; 181; 240; 71; 57; 23; 193; 64;
   43; 128; 9; 157; 202; 92; 188; 32; 112; 117; 192].

Definition twas_msg : list Z :=
  [39; 84; 119; 97; 115; 32; 98; 114; 105; 108; 108; 105; 103; 44; 32; 97; 110; 100; 32; 116; 104;
   101; 32; 115; 108; 105; 116; 104; 121; 32; 116; 111; 118; 101; 115; 10; 68; 105; 100; 32; 103;
   121; 114; 101; 32; 97; 110; 100; 32; 103; 105; 109; 98; 108; 101; 32; 105; 110; 32; 116; 104;
   101; 32; 119; 97; 98; 101; 58; 10; 65; 108; 108; 32; 109; 105; 109; 115; 121; 32; 119; 101; 114;
   101; 32; 116; 104; 101; 32; 98; 111; 114; 111; 103; 111; 118; 101; 115; 44; 10; 65; 110; 100; 32;
   116; 104; 101; 32; 109; 111; 109; 101; 32; 114; 97; 116; 104; 115; 32; 111; 117; 116; 103; 114;
   97; 98; 101; 46].

Example poly1305_kat : BRPoly1305 twas_key twas_msg =
  [69; 65; 102; 154; 126; 170; 238; 97; 231; 8; 220; 124; 188; 197; 235; 98].
Proof. vm_compute. reflexivity. Qed.

Example chacha20_kat : take 20 (BRChacha20 twas_key [0; 0; 0; 0; 0; 0; 0; 2] twas_msg 42) =
  [98; 230; 52; 127; 149; 237; 135; 164; 95; 250; 231; 66; 111; 39; 161; 223; 95; 182; 145; 16].
Proof. vm_compute. reflexivity. Qed.

Definition aead_msg1 : list Z :=
  [76; 97; 100; 105; 101; 115; 32; 97; 110; 100; 32; 71; 101; 110; 116; 108; 101; 109; 101; 110; 32;
   111; 102; 32; 116; 104; 101; 32; 99; 108; 97; 115; 115; 32; 111; 102; 32; 39; 57; 57; 58; 32; 73;
   102; 32; 73; 32; 99; 111; 117; 108; 100; 32; 111; 102; 102; 101; 114; 32; 121; 111; 117; 32; 111;
   110; 108; 121; 32; 111; 110; 101; 32; 116; 105; 112; 32; 102; 111; 114; 32; 116; 104; 101; 32;
   102; 117; 116; 117; 114; 101; 44; 32; 115; 117; 110; 115; 99; 114; 101; 101; 110; 32; 119; 111;
   117; 108; 100; 32; 98; 101; 32; 105; 116; 46].

Definition aead_ad1 : list Z :=
  [80; 81; 82; 83; 192; 193; 194; 195; 196; 197; 198; 199].

Definition aead_key1 : list Z :=
  [128; 129; 130; 131; 132; 133; 134; 135; 136; 137; 138; 139; 140; 141; 142; 143; 144; 145; 146;
   147; 148; 149; 150; 151; 152; 153; 154; 155; 156; 157; 158; 159].

Definition aead_nonce1 : list Z :=
  [7; 0; 0; 0; 64; 65; 66; 67; 68; 69; 70; 71].

Definition aead_cypher1 : list Z :=
  [211; 26; 141; 52; 100; 142; 96; 219; 123; 134; 175; 188; 83; 239; 126; 194; 164; 173; 237; 81;
   41; 110; 8; 254; 169; 226; 181; 167; 54; 238; 98; 214; 61; 190; 164; 94; 140; 169; 103; 18; 130;
   250; 251; 105; 218; 146; 114; 139; 26; 113; 222; 10; 158; 6; 11; 41; 5; 214; 165; 182; 126; 205;
   59; 54; 146; 221; 189; 127; 45; 119; 139; 140; 152; 3; 174; 227; 40; 9; 27; 88; 250; 179; 36;
   228; 250; 214; 117; 148; 85; 133; 128; 139; 72; 49; 215; 188; 63; 244; 222; 240; 142; 75; 122;
   157; 229; 118; 210; 101; 134; 206; 198; 75; 97; 22; 26; 225; 11; 89; 79; 9; 226; 106; 126; 144;
   46; 203; 208; 96; 6; 145].

Example aead_kat :
  BRChacha20Poly1305AEADEncrypt (Some (replicate 130 0)) 130 aead_key1 aead_nonce1 aead_msg1 aead_ad1 =
  Some (Some aead_cypher1, 130).
Proof. vm_compute. reflexivity. Qed.

(** ** Poly1305 computes the polynomial

    The value of the limbs, the prime, and the invariant the loop keeps: every limb below 2^26, the
    second one up to 2^6 above it. *)
Definition P1305 : Z := 2 ^ 130 - 5.

Definition limb_val (h : limbs) : Z :=
  let '(h0, h1, h2, h3, h4) := h in
  h0 + 0x4000000 * (h1 + 0x4000000 * (h2 + 0x4000000 * (h3 + 0x4000000 * h4))).

Definition limb_range (e : Z) (h : limbs) : Prop :=
  let '(h0, h1, h2, h3, h4) := h in
  0 <= h0 < 0x4000000 /\ 0 <= h1 < 0x4000000 + e /\ 0 <= h2 < 0x4000000 /\ 0 <= h3 < 0x4000000 /\
  0 <= h4 < 0x4000000.

Lemma land_26 x : Z.land x 0x3ffffff = x mod 0x4000000.
Proof. exact (Z.land_ones x 26 ltac:(lia)). Qed.

Lemma land_32 x : Z.land x 0xffffffff = x mod 0x100000000.
Proof. exact (Z.land_ones x 32 ltac:(lia)). Qed.

(** Bits [32 - s] and up of a word followed by the low bits of the next one. *)
Lemma straddle s t0 t1 : 0 < s < 32 -> 0 <= t0 < 2 ^ 32 ->
  Z.lor (Z.shiftr t0 (32 - s)) (u32 (Z.shiftl t1 s)) = ((t0 + 2 ^ 32 * t1) / 2 ^ (32 - s)) mod 2 ^ 32.
Proof.
  intros Hs Ht. rewrite shiftr_div, Z.shiftl_mul_pow2 by lia. unfold u32.
  change 0x100000000 with (2 ^ 32).
  assert (E : 2 ^ 32 = 2 ^ (32 - s) * 2 ^ s) by (rewrite <- Z.pow_add_r by lia; f_equal; lia).
  assert (0 < 2 ^ (32 - s)) by (apply Z.pow_pos_nonneg; lia).
  assert (0 < 2 ^ s) by (apply Z.pow_pos_nonneg; lia).
  assert (Hq : 0 <= t0 / 2 ^ (32 - s) < 2 ^ s).
  { split; [apply Z.div_pos; lia|apply Z.div_lt_upper_bound; nia]. }
  rewrite E, Z.mul_mod_distr_r by lia.
  rewrite Z.lor_comm, (lor_disjoint (t1 mod 2 ^ (32 - s))) by lia.
  replace (t0 + 2 ^ (32 - s) * 2 ^ s * t1) with (t0 + (2 ^ s * t1) * 2 ^ (32 - s)) by lia.
  rewrite Z.div_add by lia. rewrite (Z.mul_comm (2 ^ (32 - s)) (2 ^ s)), Z.rem_mul_r by lia.
  generalize dependent (t0 / 2 ^ (32 - s)). intros q Hq.
  rewrite (Z.mul_comm (2 ^ s) t1), Z.div_add, Z.div_small, Z.mod_add, (Z.mod_small q), Z.add_0_l by lia. lia.
Qed.

(** [Z.land] digit by digit. *)
Lemma land_digits k a b c d : 0 <= k -> 0 <= a < 2 ^ k -> 0 <= c < 2 ^ k ->
  Z.land (a + 2 ^ k * b) (c + 2 ^ k * d) = Z.land a c + 2 ^ k * Z.land b d.
Proof.
  intros Hk Ha Hc. rewrite (Z.add_comm a), (Z.add_comm c), (Z.add_comm (Z.land a c)).
  rewrite !(Z.mul_comm (2 ^ k)).
  assert (Hac : 0 <= Z.land a c < 2 ^ k).
  { split; [apply Z.land_nonneg; lia|].
    rewrite <- (Z.mod_small a (2 ^ k) Ha), <- Z.land_ones, <- Z.land_assoc, (Z.land_comm (Z.ones k)),
      Z.land_assoc, Z.land_ones by lia. apply Z.mod_pos_bound. lia. }
  rewrite <- !(lor_disjoint _ _ k) by lia. rewrite <- !Z.shiftl_mul_pow2 by lia.
  apply Z.bits_inj'; intros i Hi. rewrite Z.land_spec, !Z.lor_spec, !Z.shiftl_spec, !Z.land_spec by lia.
  destruct (Z.ltb_spec i k).
  - rewrite !(Z.testbit_neg_r _ (i - k)) by lia. reflexivity.
  - assert (Hh : forall x, 0 <= x < 2 ^ k -> Z.testbit x i = false).
    { intros x Hx. rewrite <- (Z.mod_small x (2 ^ k) Hx). apply Z.mod_pow2_bits_high. lia. }
    rewrite !Hh by lia. now rewrite !orb_false_r.
Qed.

(** A masked limb is masked by the low 26 bits first. *)
Lemma land_mask x m : 0 <= m < 2 ^ 26 -> Z.land x m = Z.land (x mod 2 ^ 26) m.
Proof.
  intros Hm. rewrite <- Z.land_ones by lia. rewrite <- Z.land_assoc. f_equal.
  rewrite Z.land_comm, Z.land_ones, Z.mod_small by lia. reflexivity.
Qed.

Lemma words4 l : length l = 16%nat ->
  words 4 4 l = [le_val (take 4 l); le_val (take 4 (drop 4 l)); le_val (take 4 (drop 8 l));
                 le_val (take 4 (drop 12 l))].
Proof. intros _. cbn [words]. now rewrite !drop_drop. Qed.

(** The four words of sixteen bytes and their value. *)
Lemma words4_val l : bytes_ok l -> length l = 16%nat ->
  exists t0 t1 t2 t3, words 4 4 l = [t0; t1; t2; t3] /\
  0 <= t0 < 2 ^ 32 /\ 0 <= t1 < 2 ^ 32 /\ 0 <= t2 < 2 ^ 32 /\ 0 <= t3 < 2 ^ 32 /\
  le_val l = t0 + 2 ^ 32 * (t1 + 2 ^ 32 * (t2 + 2 ^ 32 * t3)).
Proof.
  intros Hb Hl. exists (le_val (take 4 l)), (le_val (take 4 (drop 4 l))), (le_val (take 4 (drop 8 l))),
    (le_val (take 4 (drop 12 l))). split; [now apply words4|].
  assert (R : forall n, (n + 4 <= 16)%nat -> 0 <= le_val (take 4 (drop n l)) < 2 ^ 32).
  { intros n Hn. pose proof (le_val_range (take 4 (drop n l))) as H.
    rewrite length_take, length_drop, Hl in H. replace (4 `min` (16 - n))%nat with 4%nat in H by lia.
    apply H. now apply Forall_take, Forall_drop. }
  split_and!; try (apply (R 0%nat); lia); try (apply R; lia).
  assert (E : forall m, (m + 4 <= 16)%nat ->
    le_val (drop m l) = le_val (take 4 (drop m l)) + 2 ^ 32 * le_val (drop (m + 4) l)).
  { intros m Hm. rewrite <- (take_drop 4 (drop m l)) at 1. rewrite le_num_app, drop_drop.
    rewrite length_take, length_drop, Hl. now replace (4 `min` (16 - m))%nat with 4%nat by lia. }
  pose proof (E 0%nat) as E0. pose proof (E 4%nat) as E1. pose proof (E 8%nat) as E2. pose proof (E 12%nat) as E3.
  cbn [Nat.add] in *. rewrite drop_0 in E0. rewrite E0, E1, E2, E3 by lia.
  rewrite (drop_ge l 16) by lia. cbn [le_num]. lia.
Qed.

(** The limbs of a 128-bit number given by its words. *)
Lemma limbs_of t0 t1 t2 t3 :
  0 <= t0 < 2 ^ 32 -> 0 <= t1 < 2 ^ 32 -> 0 <= t2 < 2 ^ 32 -> 0 <= t3 < 2 ^ 32 ->
  let f a b s := Z.lor (Z.shiftr a (32 - s)) (u32 (Z.shiftl b s)) mod 0x4000000 in
  limb_val (t0 mod 0x4000000, f t0 t1 6, f t1 t2 12, f t2 t3 18, Z.shiftr t3 8) =
  t0 + 2 ^ 32 * (t1 + 2 ^ 32 * (t2 + 2 ^ 32 * t3)).
Proof.
  intros H0 H1 H2 H3 f. subst f. cbv beta. rewrite !straddle, shiftr_div by lia.
  change (32 - 6) with 26. change (32 - 12) with 20. change (32 - 18) with 14.
  change (2 ^ 32) with 0x100000000 in *. change (2 ^ 26) with 0x4000000.
  change (2 ^ 20) with 0x100000. change (2 ^ 14) with 0x4000. change (2 ^ 8) with 0x100.
  unfold limb_val. zdiv_lia.
Qed.

(** The mask of the specification. *)
Definition poly_clamp (x : Z) : Z := Z.land x 0x0ffffffc0ffffffc0ffffffc0fffffff.

(** The value of a block: its bytes followed by a one. *)
Definition poly_num (b : list Z) : Z := le_val (b ++ [1]).

Lemma key_words key : bytes_ok key -> length key = 32%nat ->
  bytes_ok (take 16 key) /\ length (take 16 key) = 16%nat /\ words 4 4 key = words 4 4 (take 16 key).
Proof.
  intros Hb Hl. split_and!; [now apply Forall_take|rewrite length_take; lia|].
  cbn [words]. rewrite !drop_drop. now rewrite !skipn_firstn_comm, !take_take.
Qed.

Ltac wd_cons t0 t1 t2 t3 :=
  change (wd [t0; t1; t2; t3] 0) with t0; change (wd [t0; t1; t2; t3] 1) with t1;
  change (wd [t0; t1; t2; t3] 2) with t2; change (wd [t0; t1; t2; t3] 3) with t3; cbv beta zeta.

Lemma poly_r_spec key : bytes_ok key -> length key = 32%nat ->
  exists r0 r1 r2 r3 r4, poly_r key = (r0, r1, r2, r3, r4) /\
  0 <= r0 < 2 ^ 26 /\ 0 <= r1 < 2 ^ 26 /\ 0 <= r2 < 2 ^ 26 /\ 0 <= r3 < 2 ^ 26 /\ 0 <= r4 < 2 ^ 20 /\
  limb_val (r0, r1, r2, r3, r4) = poly_clamp (le_val (take 16 key)).
Proof.
  intros Hb Hl. destruct (key_words key Hb Hl) as (Hb' & Hl' & Ew).
  destruct (words4_val _ Hb' Hl') as (t0 & t1 & t2 & t3 & Et & R0 & R1 & R2 & R3 & Ev).
  unfold poly_r. rewrite Ew, Et. wd_cons t0 t1 t2 t3.
  rewrite Ev, <- (limbs_of t0 t1 t2 t3) by assumption.
  rewrite (land_mask t0), (land_mask (Z.lor (Z.shiftr t0 26) _)), (land_mask (Z.lor (Z.shiftr t1 20) _)),
    (land_mask (Z.lor (Z.shiftr t2 14) _)) by lia.
  cbv beta zeta. change (32 - 6) with 26. change (32 - 12) with 20. change (32 - 18) with 14.
  change (2 ^ 26) with 0x4000000 in *.
  pose proof (Z.mod_pos_bound t0 0x4000000 eq_refl) as B0.
  pose proof (Z.mod_pos_bound (Z.lor (Z.shiftr t0 26) (u32 (Z.shiftl t1 6))) 0x4000000 eq_refl) as B1.
  pose proof (Z.mod_pos_bound (Z.lor (Z.shiftr t1 20) (u32 (Z.shiftl t2 12))) 0x4000000 eq_refl) as B2.
  pose proof (Z.mod_pos_bound (Z.lor (Z.shiftr t2 14) (u32 (Z.shiftl t3 18))) 0x4000000 eq_refl) as B3.
  assert (B4 : 0 <= Z.shiftr t3 8) by (apply Z.shiftr_nonneg; lia).
  clear R0 R1 R2 R3 Ev Et. revert B0 B1 B2 B3 B4.
  generalize (t0 mod 0x4000000) as a0, (Z.shiftr t3 8) as a4.
  generalize (Z.lor (Z.shiftr t0 26) (u32 (Z.shiftl t1 6)) mod 0x4000000) as a1.
  generalize (Z.lor (Z.shiftr t1 20) (u32 (Z.shiftl t2 12)) mod 0x4000000) as a2.
  generalize (Z.lor (Z.shiftr t2 14) (u32 (Z.shiftl t3 18)) mod 0x4000000) as a3.
  intros a3 a2 a1 a0 a4 B0 B1 B2 B3 B4.
  assert (LB : forall a m k, 0 <= a -> 0 <= k -> 0 <= m < 2 ^ k -> 0 <= Z.land a m < 2 ^ k).
  { intros a m k Ha Hk Hm. split; [apply Z.land_nonneg; lia|].
    rewrite <- (Z.mod_small m (2 ^ k) Hm), <- Z.land_ones, Z.land_assoc, Z.land_ones by lia.
    apply Z.mod_pos_bound. lia. }
  eexists _, _, _, _, _. split; [reflexivity|].
  split_and!; try (apply (LB _ _ 26); lia); try (apply (LB _ _ 20); lia).
  unfold limb_val, poly_clamp.
  change 0x0ffffffc0ffffffc0ffffffc0fffffff with
    (0x3ffffff + 2 ^ 26 * (0x3ffff03 + 2 ^ 26 * (0x3ffc0ff + 2 ^ 26 * (0x3f03fff + 2 ^ 26 * 0xfffff)))).
  change 0x4000000 with (2 ^ 26). rewrite !land_digits by lia. reflexivity.
Qed.

Lemma le_val_zeros n : le_val (replicate n 0) = 0.
Proof. induction n as [|n IH]; cbn [replicate le_num]; lia. Qed.

Lemma poly_load_spec data i : bytes_ok data -> 0 <= i < len data ->
  exists t0 t1 t2 t3, poly_load data i = [t0; t1; t2; t3] /\
  0 <= t0 < 2 ^ 32 /\ 0 <= t1 < 2 ^ 32 /\ 0 <= t2 < 2 ^ 32 /\ 0 <= t3 < 2 ^ 32 /\
  poly_num (take 16 (drop (Z.to_nat i) data)) =
    t0 + 2 ^ 32 * (t1 + 2 ^ 32 * (t2 + 2 ^ 32 * t3)) + (if i + 16 <=? len data then 2 ^ 128 else 0).
Proof.
  intros Hb Hi. unfold poly_load, poly_num.
  assert (Hbb : bytes_ok (take 16 (drop (Z.to_nat i) data))) by now apply Forall_take, Forall_drop.
  pose proof (length_take (drop (Z.to_nat i) data) 16) as Hl. rewrite length_drop in Hl.
  destruct (Z.ltb_spec (len data) (i + 16)).
  - destruct (words4_val (take 16 (drop (Z.to_nat i) data) ++ [1] ++
      replicate (15 - length (take 16 (drop (Z.to_nat i) data))) 0)) as (t0 & t1 & t2 & t3 & E & R0 & R1 & R2 & R3 & Ev).
    + rewrite !Forall_app, Forall_singleton. split_and!; [done|unfold is_byte; lia|].
      apply Forall_replicate. unfold is_byte; lia.
    + rewrite !length_app, length_replicate. cbn [length]. lia.
    + exists t0, t1, t2, t3. rewrite E, <- Ev. split_and!; try lia; [reflexivity|].
      rewrite (proj2 (Z.leb_gt _ _)) by lia. rewrite !le_num_app, le_val_zeros. cbn [le_num]. lia.
  - destruct (words4_val (take 16 (drop (Z.to_nat i) data))) as (t0 & t1 & t2 & t3 & E & R0 & R1 & R2 & R3 & Ev);
      [done|lia|].
    exists t0, t1, t2, t3. rewrite E, <- Ev. split_and!; try lia; [reflexivity|].
    rewrite (proj2 (Z.leb_le _ _)) by lia. rewrite !le_num_app. rewrite Hl.
    replace (16 `min` (length data - Z.to_nat i))%nat with 16%nat by lia. cbn [le_num]. lia.
Qed.

Lemma poly_add_spec h t0 t1 t2 t3 (c : bool) : limb_range 64 h ->
  0 <= t0 < 2 ^ 32 -> 0 <= t1 < 2 ^ 32 -> 0 <= t2 < 2 ^ 32 -> 0 <= t3 < 2 ^ 32 ->
  exists a0 a1 a2 a3 a4, poly_add h [t0; t1; t2; t3] (if c then Z.shiftl 1 24 else 0) = (a0, a1, a2, a3, a4) /\
  0 <= a0 < 0x8000000 /\ 0 <= a1 < 0x8000040 /\ 0 <= a2 < 0x8000000 /\ 0 <= a3 < 0x8000000 /\
  0 <= a4 < 0x8000000 /\
  limb_val (a0, a1, a2, a3, a4) =
    limb_val h + (t0 + 2 ^ 32 * (t1 + 2 ^ 32 * (t2 + 2 ^ 32 * t3)) + (if c then 2 ^ 128 else 0)).
Proof.
  destruct h as [[[[h0 h1] h2] h3] h4]. intros (H0 & H1 & H2 & H3 & H4) R0 R1 R2 R3.
  unfold poly_add. wd_cons t0 t1 t2 t3. rewrite !land_26.
  rewrite <- (limbs_of t0 t1 t2 t3) by assumption. cbv beta zeta.
  change (32 - 6) with 26. change (32 - 12) with 20. change (32 - 18) with 14.
  pose proof (Z.mod_pos_bound t0 0x4000000 eq_refl) as B0.
  pose proof (Z.mod_pos_bound (Z.lor (Z.shiftr t0 26) (u32 (Z.shiftl t1 6))) 0x4000000 eq_refl) as B1.
  pose proof (Z.mod_pos_bound (Z.lor (Z.shiftr t1 20) (u32 (Z.shiftl t2 12))) 0x4000000 eq_refl) as B2.
  pose proof (Z.mod_pos_bound (Z.lor (Z.shiftr t2 14) (u32 (Z.shiftl t3 18))) 0x4000000 eq_refl) as B3.
  assert (B4 : 0 <= Z.shiftr t3 8 < 2 ^ 24) by (rewrite shiftr_div by lia; zdiv_lia).
  clear R0 R1 R2 R3. revert B0 B1 B2 B3 B4.
  generalize (t0 mod 0x4000000) as a0, (Z.shiftr t3 8) as a4.
  generalize (Z.lor (Z.shiftr t0 26) (u32 (Z.shiftl t1 6)) mod 0x4000000) as a1.
  generalize (Z.lor (Z.shiftr t1 20) (u32 (Z.shiftl t2 12)) mod 0x4000000) as a2.
  generalize (Z.lor (Z.shiftr t2 14) (u32 (Z.shiftl t3 18)) mod 0x4000000) as a3.
  intros a3 a2 a1 a0 a4 B0 B1 B2 B3 B4.
  assert (Hor : Z.lor a4 (if c then Z.shiftl 1 24 else 0) = a4 + (if c then 2 ^ 24 else 0)).
  { destruct c; [|rewrite Z.lor_0_r; lia]. rewrite Z.lor_comm.
    change (Z.shiftl 1 24) with (1 * 2 ^ 24). rewrite lor_disjoint by lia. lia. }
  rewrite Hor.
  assert (0 <= (if c then 2 ^ 24 else 0) <= 2 ^ 24) by (destruct c; lia).
  eexists _, _, _, _, _. split; [reflexivity|].
  rewrite !u32_id by lia. split_and!; try lia. unfold limb_val. destruct c; lia.
Qed.

Lemma prod_range a b A B : 0 <= a < A -> 0 <= b < B -> 0 <= a * b <= (A - 1) * (B - 1).
Proof. nia. Qed.

(** Bounds of the products in the goal from those of their factors. *)
Ltac prods :=
  repeat match goal with
  | A : 0 <= ?a < ?x, B : 0 <= ?b < ?y |- context [?a * ?b] =>
      lazymatch goal with
      | _ : 0 <= a * b <= _ |- _ => fail
      | _ => pose proof (prod_range a b x y A B)
      end
  end;
  repeat match goal with |- context [?a * ?b] => is_var a; is_var b; generalize dependent (a * b); intros end;
  repeat match goal with H : _ <= ?a < _ |- _ => clear H end.

(** The products do not overflow, and what they leave out is a multiple of the prime. *)
Lemma poly_mul_spec a0 a1 a2 a3 a4 r0 r1 r2 r3 r4 :
  0 <= a0 < 0x8000000 -> 0 <= a1 < 0x8000040 -> 0 <= a2 < 0x8000000 -> 0 <= a3 < 0x8000000 ->
  0 <= a4 < 0x8000000 ->
  0 <= r0 < 2 ^ 26 -> 0 <= r1 < 2 ^ 26 -> 0 <= r2 < 2 ^ 26 -> 0 <= r3 < 2 ^ 26 -> 0 <= r4 < 2 ^ 20 ->
  exists d0 d1 d2 d3 d4 k, poly_mul (a0, a1, a2, a3, a4) (r0, r1, r2, r3, r4) = (d0, d1, d2, d3, d4) /\
  0 <= d0 < 3 * 2 ^ 56 /\ 0 <= d1 < 3 * 2 ^ 56 /\ 0 <= d2 < 3 * 2 ^ 56 /\ 0 <= d3 < 3 * 2 ^ 56 /\ 0 <= d4 < 2 ^ 55 + 2 ^ 48 /\
  limb_val (a0, a1, a2, a3, a4) * limb_val (r0, r1, r2, r3, r4) = limb_val (d0, d1, d2, d3, d4) + k * P1305.
Proof.
  intros A0 A1 A2 A3 A4 R0 R1 R2 R3 R4.
  assert (D0 : 0 <= a0 * r0 + a1 * r4 * 5 + a2 * r3 * 5 + a3 * r2 * 5 + a4 * r1 * 5 < 3 * 2 ^ 56) by (prods; lia).
  assert (D1 : 0 <= a0 * r1 + a1 * r0 + a2 * r4 * 5 + a3 * r3 * 5 + a4 * r2 * 5 < 3 * 2 ^ 56) by (prods; lia).
  assert (D2 : 0 <= a0 * r2 + a1 * r1 + a2 * r0 + a3 * r4 * 5 + a4 * r3 * 5 < 3 * 2 ^ 56) by (prods; lia).
  assert (D3 : 0 <= a0 * r3 + a1 * r2 + a2 * r1 + a3 * r0 + a4 * r4 * 5 < 3 * 2 ^ 56) by (prods; lia).
  assert (D4 : 0 <= a0 * r4 + a1 * r3 + a2 * r2 + a3 * r1 + a4 * r0 < 2 ^ 55 + 2 ^ 48) by (prods; lia).
  unfold poly_mul. rewrite !u64_id by (revert D0 D1 D2 D3 D4; clear; lia). eexists _, _, _, _, _, _. split; [reflexivity|].
  do 5 (split; [assumption|]). unfold limb_val, P1305.
  instantiate (1 := a1 * r4 + a2 * r3 + a3 * r2 + a4 * r1 + 0x4000000 * (a2 * r4 + a3 * r3 + a4 * r2) +
    0x4000000 ^ 2 * (a3 * r4 + a4 * r3) + 0x4000000 ^ 3 * (a4 * r4)).
  change (2 ^ 130) with (0x4000000 ^ 5). ring.
Qed.

Lemma poly_reduce_spec d0 d1 d2 d3 d4 :
  0 <= d0 < 3 * 2 ^ 56 -> 0 <= d1 < 3 * 2 ^ 56 -> 0 <= d2 < 3 * 2 ^ 56 -> 0 <= d3 < 3 * 2 ^ 56 -> 0 <= d4 < 2 ^ 55 + 2 ^ 48 ->
  limb_range 64 (poly_reduce (d0, d1, d2, d3, d4)) /\
  exists k, limb_val (d0, d1, d2, d3, d4) = limb_val (poly_reduce (d0, d1, d2, d3, d4)) + k * P1305.
Proof.
  intros H0 H1 H2 H3 H4. unfold poly_reduce. rewrite !land_26, !shiftr_div by lia.
  change (2 ^ 26) with 0x4000000.
  assert (R : forall x, 0 <= x mod 0x4000000 < 0x4000000) by (intros; apply Z.mod_pos_bound; lia).
  rewrite (u32_id (d0 / _)), (u64_id (d1 + _)) by zdiv_lia.
  set (e1 := d1 + d0 / 0x4000000). assert (E1 : 0 <= e1 < 2 ^ 58) by (subst e1; zdiv_lia).
  rewrite (u32_id (e1 mod _)), (u32_id (e1 / _)), (u64_id (d2 + _)) by (clear H0; zdiv_lia).
  set (e2 := d2 + e1 / 0x4000000). assert (E2 : 0 <= e2 < 2 ^ 58) by (subst e2; clearbody e1; zdiv_lia).
  rewrite (u32_id (e2 mod _)), (u32_id (e2 / _)), (u64_id (d3 + _)) by (clearbody e1; zdiv_lia).
  set (e3 := d3 + e2 / 0x4000000). assert (E3 : 0 <= e3 < 2 ^ 58) by (subst e3; clearbody e2; zdiv_lia).
  rewrite (u32_id (e3 mod _)), (u32_id (e3 / _)), (u64_id (d4 + _)) by (clearbody e2; zdiv_lia).
  set (e4 := d4 + e3 / 0x4000000).
  assert (E4 : 0 <= e4 < 2 ^ 55 + 2 ^ 49) by (subst e4; clearbody e3; zdiv_lia).
  rewrite (u32_id (e4 mod _)), (u32_id (e4 / _)), (u32_id (e4 / _ * 5)) by (clearbody e4; zdiv_lia).
  rewrite (u32_id (d0 mod _ + _)) by (clearbody e4; zdiv_lia).
  set (f0 := d0 mod 0x4000000 + e4 / 0x4000000 * 5).
  assert (F0 : 0 <= f0 < 0x100000000) by (subst f0; clearbody e4; zdiv_lia).
  rewrite (u32_id (e1 mod _ + _)) by (clearbody f0 e1; zdiv_lia).
  unfold limb_range, limb_val. split; [clearbody f0 e1; split_and!; zdiv_lia|].
  exists (e4 / 0x4000000). unfold P1305. change (2 ^ 130) with (0x4000000 * 0x4000000 * 0x4000000 * 0x4000000 * 0x4000000).
  subst f0 e4 e3 e2 e1. zdiv_lia.
Qed.

(** The specification of RFC 7539: the polynomial of the blocks at the clamped key, modulo the prime. *)
Definition poly_chunks (data : list Z) : list (list Z) := blocks 16 ((length data + 15) / 16) data.

Definition poly_eval (key : list Z) (acc : Z) (l : list (list Z)) : Z :=
  foldl (fun a b => ((a + poly_num b) * poly_clamp (le_val (take 16 key))) mod P1305) acc l.

Lemma poly_block_spec key data h i : bytes_ok key -> length key = 32%nat -> bytes_ok data ->
  0 <= i < len data -> limb_range 64 h ->
  limb_range 64 (poly_block (poly_r key) data h i) /\
  limb_val (poly_block (poly_r key) data h i) mod P1305 =
    ((limb_val h mod P1305 + poly_num (take 16 (drop (Z.to_nat i) data))) *
     poly_clamp (le_val (take 16 key))) mod P1305.
Proof.
  intros Hk Hkl Hd Hi Hh. unfold poly_block.
  destruct (poly_load_spec data i Hd Hi) as (t0 & t1 & t2 & t3 & -> & R0 & R1 & R2 & R3 & ->).
  destruct (poly_r_spec key Hk Hkl) as (r0 & r1 & r2 & r3 & r4 & -> & Q0 & Q1 & Q2 & Q3 & Q4 & <-).
  destruct (poly_add_spec h t0 t1 t2 t3 (i + 16 <=? len data)) as (a0 & a1 & a2 & a3 & a4 & -> & A0 & A1 & A2 & A3 & A4 & Ha);
    [assumption..|].
  destruct (poly_mul_spec a0 a1 a2 a3 a4 r0 r1 r2 r3 r4) as (d0 & d1 & d2 & d3 & d4 & k & -> & D0 & D1 & D2 & D3 & D4 & Hm);
    [assumption..|].
  destruct (poly_reduce_spec d0 d1 d2 d3 d4) as [Hr [k' Hv]]; [assumption..|].
  split; [exact Hr|].
  rewrite <- Zmult_mod_idemp_l, Zplus_mod_idemp_l, Zmult_mod_idemp_l, <- Ha, Hm, Z_mod_plus_full, Hv, Z_mod_plus_full.
  reflexivity.
Qed.

Lemma poly_loop_spec key data h : bytes_ok key -> length key = 32%nat -> bytes_ok data -> limb_range 64 h ->
  limb_range 64 (poly_loop (poly_r key) data h) /\
  limb_val (poly_loop (poly_r key) data h) mod P1305 = poly_eval key (limb_val h mod P1305) (poly_chunks data).
Proof.
  intros Hk Hkl Hd. unfold poly_loop, poly_chunks, poly_eval.
  replace ((len data + 15) / 16) with (Z.of_nat ((length data + 15) / 16)) by (rewrite Nat2Z.inj_div; f_equal; lia).
  assert (Hn : (16 * ((length data + 15) / 16) <= length data + 15)%nat) by apply Nat.Div0.mul_div_le.
  revert Hn. generalize ((length data + 15) / 16)%nat as n. intros n Hn.
  assert (G : forall a h, (16 * (a + n) <= length data + 15)%nat -> limb_range 64 h ->
    let h' := foldl (fun h k => poly_block (poly_r key) data h (16 * k)) h (seqZ (Z.of_nat a) (Z.of_nat n)) in
    limb_range 64 h' /\ limb_val h' mod P1305 =
      foldl (fun a b => ((a + poly_num b) * poly_clamp (le_val (take 16 key))) mod P1305) (limb_val h mod P1305)
        (blocks 16 n (drop (16 * a) data))).
  2: { intros Hh. destruct (G 0%nat h) as [G1 G2]; [lia|done|]. now rewrite drop_0 in G2. }
  clear Hn h. induction n as [|n IH]; intros a h Hn Hh; [done|].
  rewrite seqZ_cons by lia. cbn [foldl blocks].
  replace (Z.succ (Z.of_nat a)) with (Z.of_nat (S a)) by lia.
  replace (Z.pred (Z.of_nat (S n))) with (Z.of_nat n) by lia.
  destruct (poly_block_spec key data h (16 * Z.of_nat a)) as [B1 B2]; [assumption..|lia|assumption|].
  destruct (IH (S a) (poly_block (poly_r key) data h (16 * Z.of_nat a))) as [I1 I2]; [lia|exact B1|].
  split; [exact I1|]. rewrite I2, B2, drop_drop.
  replace (Z.to_nat (16 * Z.of_nat a)) with (16 * a)%nat by lia.
  replace (16 * S a)%nat with (16 * a + 16)%nat by lia. reflexivity.
Qed.

Lemma poly_carry_spec h : limb_range 64 h ->
  limb_range 0 (poly_carry h) /\ exists k, limb_val h = limb_val (poly_carry h) + k * P1305.
Proof.
  destruct h as [[[[h0 h1] h2] h3] h4]. intros (H0 & H1 & H2 & H3 & H4).
  unfold poly_carry. rewrite !land_26, !shiftr_div by lia. change (2 ^ 26) with 0x4000000.
  rewrite (u32_id (h2 + _)) by zdiv_lia. set (g2 := h2 + h1 / 0x4000000).
  assert (G2 : 0 <= g2 <= 0x4000000) by (subst g2; zdiv_lia).
  rewrite (u32_id (h3 + _)) by (clearbody g2; zdiv_lia). set (g3 := h3 + g2 / 0x4000000).
  assert (G3 : 0 <= g3 <= 0x4000000) by (subst g3; clearbody g2; zdiv_lia).
  rewrite (u32_id (h4 + _)) by (clearbody g3; zdiv_lia). set (g4 := h4 + g3 / 0x4000000).
  assert (G4 : 0 <= g4 <= 0x4000000) by (subst g4; clearbody g3; zdiv_lia).
  rewrite (u32_id (_ * 5)) by (clearbody g4; zdiv_lia).
  rewrite (u32_id (h0 + _)) by (clearbody g4; zdiv_lia). set (g0 := h0 + g4 / 0x4000000 * 5).
  assert (G0 : 0 <= g0 < 0x4000000 + 5) by (subst g0; clearbody g4; zdiv_lia).
  rewrite (u32_id (h1 mod _ + _)) by (clearbody g0; zdiv_lia).
  assert (G1 : h1 mod 0x4000000 + g0 / 0x4000000 < 0x4000000).
  { subst g0. destruct (Z.eq_dec g4 0x4000000) as [E|E].
    - assert (0x4000000 <= h1) by (subst g4 g3 g2; clear - E H1 H2 H3 H4; zdiv_lia). clearbody g4. zdiv_lia.
    - clearbody g4. zdiv_lia. }
  unfold limb_range, limb_val. split; [clearbody g0 g2 g3 g4; split_and!; zdiv_lia|].
  exists (g4 / 0x4000000). unfold P1305. change (2 ^ 130) with (0x4000000 * 0x4000000 * 0x4000000 * 0x4000000 * 0x4000000).
  subst g0 g4 g3 g2. zdiv_lia.
Qed.

Lemma sel_low x y : 0 <= x < 2 ^ 32 -> Z.lor (Z.land x (not32 0)) (Z.land y 0) = x.
Proof.
  intros H. change (not32 0) with 0xffffffff. rewrite land_32, Z.land_0_r, Z.lor_0_r. now apply Z.mod_small.
Qed.

Lemma sel_high x y : 0 <= y < 2 ^ 32 -> Z.lor (Z.land x (not32 0xffffffff)) (Z.land y 0xffffffff) = y.
Proof.
  intros H. change (not32 0xffffffff) with 0. rewrite land_32, Z.land_0_r, Z.lor_0_l. now apply Z.mod_small.
Qed.

Lemma poly_select_spec h : limb_range 0 h ->
  limb_range 0 (poly_select h) /\ limb_val (poly_select h) = limb_val h mod P1305.
Proof.
  destruct h as [[[[h0 h1] h2] h3] h4]. intros (H0 & H1 & H2 & H3 & H4).
  unfold poly_select. rewrite !land_26, !shiftr_div by lia. change (2 ^ 26) with 0x4000000.
  rewrite (u32_id (h0 + 5)) by lia. set (t0 := h0 + 5).
  rewrite (u32_id (h1 + _)) by (subst t0; zdiv_lia). set (t1 := h1 + t0 / 0x4000000).
  assert (T1 : 0 <= t1 <= 0x4000000) by (subst t1 t0; zdiv_lia).
  rewrite (u32_id (h2 + _)) by (clearbody t1; zdiv_lia). set (t2 := h2 + t1 / 0x4000000).
  assert (T2 : 0 <= t2 <= 0x4000000) by (subst t2; clearbody t1; zdiv_lia).
  rewrite (u32_id (h3 + _)) by (clearbody t2; zdiv_lia). set (t3 := h3 + t2 / 0x4000000).
  assert (T3 : 0 <= t3 <= 0x4000000) by (subst t3; clearbody t2; zdiv_lia).
  change (Z.shiftl 1 26) with 0x4000000.
  assert (V : limb_val (h0, h1, h2, h3, h4) + 5 =
    limb_val (t0 mod 0x4000000, t1 mod 0x4000000, t2 mod 0x4000000, t3 mod 0x4000000, h4 + t3 / 0x4000000)).
  { unfold limb_val. subst t3 t2 t1 t0. zdiv_lia. }
  assert (M : forall x, 0 <= x mod 0x4000000 < 0x4000000) by (intros; apply Z.mod_pos_bound; lia).
  pose proof (M t0). pose proof (M t1). pose proof (M t2). pose proof (M t3).
  assert (L : 0 <= h4 + t3 / 0x4000000 <= 0x4000000) by (clearbody t3; zdiv_lia).
  clearbody t0 t1 t2 t3. unfold limb_val in V.
  destruct (Z.eq_dec (h4 + t3 / 0x4000000) 0x4000000) as [E|E].
  - rewrite E. change (u32 (Z.sub 0x4000000 0x4000000)) with 0. change (u32 (0 / 2 ^ 31 - 1)) with 0xffffffff.
    rewrite !sel_high by lia. split; [unfold limb_range; lia|]. unfold limb_val, P1305 in *.
    apply (Z.mod_unique _ _ 1); lia.
  - assert (S : u32 (u32 (h4 + t3 / 0x4000000 - 0x4000000) / 2 ^ 31 - 1) = 0).
    { replace (u32 (h4 + t3 / 0x4000000 - 0x4000000)) with (2 ^ 32 + (h4 + t3 / 0x4000000 - 0x4000000)).
      - replace (_ / 2 ^ 31) with 1; [reflexivity|]. generalize dependent (h4 + t3 / 0x4000000). intros. zdiv_lia.
      - generalize dependent (h4 + t3 / 0x4000000). intros. uint. }
    rewrite S, !sel_low by lia. split; [unfold limb_range; lia|]. unfold limb_val, P1305 in *.
    symmetry. apply Z.mod_small. lia.
Qed.

Lemma poly_pack_spec h : limb_range 0 h ->
  exists w0 w1 w2 w3, poly_pack h = (w0, w1, w2, w3) /\
  0 <= w0 < 2 ^ 32 /\ 0 <= w1 < 2 ^ 32 /\ 0 <= w2 < 2 ^ 32 /\ 0 <= w3 < 2 ^ 32 /\
  w0 + 2 ^ 32 * (w1 + 2 ^ 32 * (w2 + 2 ^ 32 * w3)) = limb_val h mod 2 ^ 128.
Proof.
  destruct h as [[[[h0 h1] h2] h3] h4]. intros (H0 & H1 & H2 & H3 & H4). unfold poly_pack.
  rewrite <- (Z.shiftr_0_r h0). rewrite !land_32.
  assert (S : forall a b n, 0 <= n < 26 -> 0 <= a < 0x4000000 -> 0 <= b ->
    Z.lor (Z.shiftr a n) (u32 (Z.shiftl b (26 - n))) mod 0x100000000 = a / 2 ^ n + (b * 2 ^ (26 - n)) mod 0x100000000).
  { intros a b n Hn Ha Hb. rewrite shiftr_div, Z.shiftl_mul_pow2 by lia. unfold u32.
    assert (E : 0x100000000 = 2 ^ (6 + n) * 2 ^ (26 - n)) by (rewrite <- Z.pow_add_r by lia; now replace (6 + n + (26 - n)) with 32 by lia).
    assert (0 < 2 ^ (26 - n)) by (apply Z.pow_pos_nonneg; lia).
    assert (0 < 2 ^ (6 + n)) by (apply Z.pow_pos_nonneg; lia).
    assert (E2 : 0x4000000 = 2 ^ n * 2 ^ (26 - n)) by (rewrite <- Z.pow_add_r by lia; now replace (n + (26 - n)) with 26 by lia).
    assert (Hq : 0 <= a / 2 ^ n < 2 ^ (26 - n)).
    { assert (0 < 2 ^ n) by (apply Z.pow_pos_nonneg; lia).
      split; [apply Z.div_pos; lia|apply Z.div_lt_upper_bound; lia]. }
    rewrite E, Z.mul_mod_distr_r by lia. rewrite Z.lor_comm, (lor_disjoint _ _ (26 - n)) by lia.
    pose proof (Z.mod_pos_bound b (2 ^ (6 + n)) ltac:(lia)).
    rewrite Z.mod_small; [lia|]. nia. }
  pose proof (S h0 h1 0) as S0. pose proof (S h1 h2 6) as S1. pose proof (S h2 h3 12) as S2. pose proof (S h3 h4 18) as S3.
  change (26 - 0) with 26 in S0. change (26 - 6) with 20 in S1. change (26 - 12) with 14 in S2. change (26 - 18) with 8 in S3.
  rewrite S0, S1, S2, S3 by lia. clear S S0 S1 S2 S3.
  eexists _, _, _, _. split; [reflexivity|].
  change (2 ^ 0) with 1. change (2 ^ 6) with 0x40. change (2 ^ 12) with 0x1000. change (2 ^ 18) with 0x40000.
  change (2 ^ 26) with 0x4000000. change (2 ^ 20) with 0x100000. change (2 ^ 14) with 0x4000. change (2 ^ 8) with 0x100.
  change (2 ^ 32) with 0x100000000.
  rewrite Z.shiftr_0_r, Z.div_1_r.
  split_and!; try zdiv_lia. unfold limb_val.
  apply (Z.mod_unique _ _ (h4 / 0x1000000)); zdiv_lia.
Qed.

Lemma mac_bytes_val w0 w1 w2 w3 w4 :
  0 <= w0 < 2 ^ 32 -> 0 <= w1 < 2 ^ 32 -> 0 <= w2 < 2 ^ 32 -> 0 <= w3 < 2 ^ 32 ->
  mac_bytes (w0, w1, w2, w3, w4) = le_bytes 16 (w0 + 2 ^ 32 * (w1 + 2 ^ 32 * (w2 + 2 ^ 32 * w3))).
Proof.
  intros. unfold mac_bytes. change 16%nat with (4 + (4 + (4 + 4)))%nat. rewrite !(le_digits_app 256) by lia.
  change (256 ^ Z.of_nat 4) with (2 ^ 32).
  set (x := w0 + _).
  assert (E1 : x / 2 ^ 32 = w1 + 2 ^ 32 * (w2 + 2 ^ 32 * w3)) by (subst x; symmetry; apply (Z.div_unique _ _ _ w0); lia).
  assert (E2 : (w1 + 2 ^ 32 * (w2 + 2 ^ 32 * w3)) / 2 ^ 32 = w2 + 2 ^ 32 * w3) by (symmetry; apply (Z.div_unique _ _ _ w1); lia).
  assert (E3 : (w2 + 2 ^ 32 * w3) / 2 ^ 32 = w3) by (symmetry; apply (Z.div_unique _ _ _ w2); lia).
  rewrite E1, E2, E3. f_equal; [|f_equal; [|f_equal]].
  - rewrite <- (le_digits_mod 256 ltac:(lia) 4 x). f_equal. subst x. change (256 ^ Z.of_nat 4) with (2 ^ 32).
    apply (Z.mod_unique _ _ (w1 + 2 ^ 32 * (w2 + 2 ^ 32 * w3))); lia.
  - rewrite <- (le_digits_mod 256 ltac:(lia) 4 (w1 + _)). f_equal. change (256 ^ Z.of_nat 4) with (2 ^ 32).
    apply (Z.mod_unique _ _ (w2 + 2 ^ 32 * w3)); lia.
  - rewrite <- (le_digits_mod 256 ltac:(lia) 4 (w2 + _)). f_equal. change (256 ^ Z.of_nat 4) with (2 ^ 32).
    apply (Z.mod_unique _ _ w3); lia.
Qed.

Lemma poly_final_spec key h : bytes_ok key -> length key = 32%nat -> limb_range 64 h ->
  mac_bytes (poly_final key h) = le_bytes 16 (limb_val h mod P1305 + le_val (drop 16 key)).
Proof.
  intros Hk Hl Hh. destruct (poly_carry_spec h Hh) as [Hc [k ->]]. rewrite Z_mod_plus_full.
  destruct (poly_select_spec _ Hc) as [Hs <-]. unfold poly_final.
  generalize dependent (poly_select (poly_carry h)). intros s Hs. clear Hc.
  destruct (poly_pack_spec s Hs) as (w0 & w1 & w2 & w3 & -> & W0 & W1 & W2 & W3 & Hw).
  destruct (words4_val (drop 16 key)) as (t0 & t1 & t2 & t3 & -> & R0 & R1 & R2 & R3 & Ht);
    [now apply Forall_drop|rewrite length_drop; lia|].
  destruct s as [[[[s0 s1] s2] s3] s4]. wd_cons t0 t1 t2 t3. rewrite !shiftr_div by lia.
  rewrite mac_bytes_val by apply u32_range.
  rewrite <- (le_digits_mod 256 ltac:(lia) 16 (limb_val _ + _)). change (256 ^ Z.of_nat 16) with (2 ^ 128).
  rewrite <- Zplus_mod_idemp_l, <- Hw, Ht. clear Hw Ht Hs. f_equal. unfold u32.
  change (2 ^ 32) with 0x100000000 in *.
  rewrite (u64_id (w0 + t0)) by lia. set (d0 := w0 + t0).
  rewrite (u64_id (w1 + _ + _)) by (subst d0; zdiv_lia). set (d1 := w1 + t1 + d0 / 0x100000000).
  assert (D1 : 0 <= d1 < 0x200000000) by (subst d1 d0; zdiv_lia).
  rewrite (u64_id (w2 + _ + _)) by (clearbody d1; zdiv_lia). set (d2 := w2 + t2 + d1 / 0x100000000).
  assert (D2 : 0 <= d2 < 0x200000000) by (subst d2; clearbody d1; zdiv_lia).
  rewrite (u64_id (w3 + _ + _)) by (clearbody d2; zdiv_lia). set (d3 := w3 + t3 + d2 / 0x100000000).
  assert (D3 : 0 <= d3 < 0x200000000) by (subst d3; clearbody d2; zdiv_lia).
  apply (Z.mod_unique _ _ (d3 / 0x100000000)); [clearbody d0 d1 d2 d3; zdiv_lia|].
  change (2 ^ 128) with (0x100000000 * 0x100000000 * 0x100000000 * 0x100000000).
  subst d3 d2 d1 d0. zdiv_lia.
Qed.

(** ** Streaming *)

(** The limbs after some blocks hold the polynomial of them. *)
Definition poly_state (key : list Z) (l : list (list Z)) (h : limbs) : Prop :=
  limb_range 64 h /\ limb_val h mod P1305 = poly_eval key 0 l.

Definition poly_tag (key : list Z) (l : list (list Z)) : list Z :=
  le_bytes 16 (poly_eval key 0 l + le_val (drop 16 key)).

Lemma poly_state_init key : poly_state key [] poly_init.
Proof. split; [unfold limb_range, poly_init; lia|reflexivity]. Qed.

Section poly_stream.
Context (key : list Z) (Hk : bytes_ok key) (Hl : length key = 32%nat).

Lemma poly_state_step l h data : poly_state key l h -> bytes_ok data ->
  poly_state key (l ++ poly_chunks data) (_BRPoly1305Compress h key data false).
Proof.
  intros [Hr Hv] Hd. destruct (poly_loop_spec key data h) as [L1 L2]; [assumption..|].
  split; [exact L1|]. unfold _BRPoly1305Compress. rewrite L2, Hv. unfold poly_eval. now rewrite foldl_app.
Qed.

Lemma poly_state_final l h data : poly_state key l h -> bytes_ok data ->
  mac_bytes (_BRPoly1305Compress h key data true) = poly_tag key (l ++ poly_chunks data).
Proof.
  intros H Hd. destruct (poly_state_step l h data H Hd) as [S1 S2]. unfold _BRPoly1305Compress in *.
  unfold poly_tag. now rewrite poly_final_spec, S2.
Qed.
End poly_stream.

(** C39. [BRPoly1305] computes the authenticator of RFC 7539: the polynomial whose coefficients are the
    16-byte blocks (each with a one appended), evaluated at the clamped first half of the key modulo
    2^130 - 5, plus the second half modulo 2^128.  In particular no limb, product or carry of the 32- and
    64-bit computation overflows, whatever the key and the data. *)
Theorem poly1305_spec (key data : list Z) :
  bytes_ok key -> length key = 32%nat -> bytes_ok data ->
  BRPoly1305 key data =
  le_bytes 16 (foldl (fun a b => ((a + le_val (b ++ [1])) * Z.land (le_val (take 16 key)) 0x0ffffffc0ffffffc0ffffffc0fffffff)
                                 mod (2 ^ 130 - 5)) 0 (blocks 16 ((length data + 15) / 16) data) +
               le_val (drop 16 key)).
Proof. intros Hk Hl Hd. exact (poly_state_final key Hk Hl [] poly_init data (poly_state_init key) Hd). Qed.

Lemma poly1305_spec_witness :
  bytes_ok twas_key /\ length twas_key = 32%nat /\ bytes_ok twas_msg /\
  BRPoly1305 twas_key twas_msg =
  le_bytes 16 (poly_eval twas_key 0 (poly_chunks twas_msg) + le_val (drop 16 twas_key)).
Proof.
  assert (Hk : bytes_ok twas_key) by (apply (bool_decide_unpack _); reflexivity).
  assert (Hd : bytes_ok twas_msg) by (apply (bool_decide_unpack _); reflexivity).
  split_and!; [exact Hk|reflexivity|exact Hd|exact (poly1305_spec twas_key twas_msg Hk eq_refl Hd)].
Defined.

(** ** ChaCha20 is the key stream of consecutive counters *)

(** Byte [i] of the stream that starts at block [counter]. *)
Definition keystream (key iv : list Z) (counter i : Z) : Z :=
  wd (chacha_block (chacha_state key iv (u64 (counter + i / 64)))) (i mod 64).

Lemma keystream_eq key iv c i :
  keystream key iv c i = wd (chacha_block (chacha_state key iv (u64 (c + i / 64)))) (i mod 64).
Proof. reflexivity. Qed.

Lemma chacha_block_bytes s : bytes_ok (chacha_block s).
Proof. apply bytes_mjoin_fmap. intros. apply le_bytes_ok. Qed.

#[local] Opaque chacha_block.

Lemma upd_app_r (a b : list Z) i x : i = len a -> upd (a ++ b) i x = a ++ upd b 0 x.
Proof. intros ->. unfold upd. rewrite Nat2Z.id, insert_app_r_alt, Nat.sub_diag by lia. reflexivity. Qed.

Lemma wd_app_r (a b : list Z) i : i = len a -> wd (a ++ b) i = wd b 0.
Proof. intros ->. unfold wd. rewrite Nat2Z.id, lookup_app_r, Nat.sub_diag by lia. reflexivity. Qed.

Lemma chacha_bump_spec key iv c : 0 <= c < 2 ^ 64 ->
  chacha_bump (chacha_state key iv c) = chacha_state key iv (u64 (c + 1)).
Proof.
  intros Hc. unfold chacha_state, chacha_bump. set (b := words 4 2 iv).
  assert (Hl : length (words 4 4 sigma ++ words 4 8 key) = 12%nat) by reflexivity.
  rewrite !(app_assoc (words 4 4 sigma)). revert Hl. generalize (words 4 4 sigma ++ words 4 8 key) as a. intros a Hl.
  rewrite !shiftr_div by lia. rewrite (wd_app_r a _ 12), upd_app_r by lia.
  change (wd ([u32 c; u32 (c / 2 ^ 32)] ++ b) 0) with (u32 c).
  change (upd ([u32 c; u32 (c / 2 ^ 32)] ++ b) 0 (u32 (u32 c + 1))) with ([u32 (u32 c + 1)] ++ u32 (c / 2 ^ 32) :: b).
  rewrite (wd_app_r a _ 12) by lia.
  change (wd ([u32 (u32 c + 1)] ++ u32 (c / 2 ^ 32) :: b) 0) with (u32 (u32 c + 1)).
  rewrite app_assoc. rewrite (wd_app_r _ _ 13), upd_app_r by (rewrite length_app, Hl; reflexivity).
  change (wd (u32 (c / 2 ^ 32) :: b) 0) with (u32 (c / 2 ^ 32)).
  change (upd (u32 (c / 2 ^ 32) :: b) 0 (u32 (u32 (c / 2 ^ 32) + 1))) with (u32 (u32 (c / 2 ^ 32) + 1) :: b).
  change (2 ^ 32) with 0x100000000. change (2 ^ 64) with 0x10000000000000000 in Hc.
  assert (E1 : u32 (u32 c + 1) = u32 (u64 (c + 1))) by uint.
  rewrite E1. destruct (Z.eqb_spec (u32 (u64 (c + 1))) 0) as [E|E].
  - replace (u32 (u32 (c / 0x100000000) + 1)) with (u32 (u64 (c + 1) / 0x100000000)) by uint.
    now rewrite <- app_assoc.
  - replace (u32 (c / 0x100000000)) with (u32 (u64 (c + 1) / 0x100000000)) by uint.
    now rewrite <- app_assoc.
Qed.

Lemma block_index i : 0 <= i ->
  (i + 1 + 63) / 64 = i / 64 + 1 /\ (i + 63) / 64 = (if i mod 64 =? 0 then i / 64 else i / 64 + 1) /\
  ((i + 1) mod 64 <> 0 -> (i + 1) / 64 = i / 64).
Proof. intros. split_and!; [|destruct (Z.eqb_spec (i mod 64) 0)|intros]; zdiv_lia. Qed.

Lemma chacha_loop_spec key iv c data : forall i b, 0 <= i ->
  (i mod 64 <> 0 -> b = chacha_block (chacha_state key iv (u64 (c + i / 64)))) ->
  chacha_loop data i (chacha_state key iv (u64 (c + (i + 63) / 64))) b =
  imap (fun n d => Z.lxor d (keystream key iv c (i + Z.of_nat n))) data.
Proof.
  induction data as [|d data IH]; intros i b Hi Hb; [reflexivity|]. cbn [chacha_loop imap].
  destruct (block_index i Hi) as (E1 & E2 & E3). rewrite E2.
  assert (N : forall b', b' = chacha_block (chacha_state key iv (u64 (c + i / 64))) ->
    Z.lxor d (wd b' (i mod 64)) :: chacha_loop data (i + 1) (chacha_state key iv (u64 (c + (i + 1 + 63) / 64))) b' =
    Z.lxor d (keystream key iv c (i + 0)) ::
      imap ((fun n d => Z.lxor d (keystream key iv c (i + Z.of_nat n))) ∘ S) data).
  { intros b' ->. rewrite Z.add_0_r, keystream_eq. apply f_equal. rewrite IH.
    - apply imap_ext. intros n x _. unfold compose. now replace (i + 1 + Z.of_nat n) with (i + Z.of_nat (S n)) by lia.
    - lia.
    - intros Hm. now rewrite E3. }
  rewrite E1 in N. destruct (Z.eqb_spec (i mod 64) 0) as [E|E].
  - rewrite chacha_bump_spec by apply u64_range. rewrite u64_add_l, <- Z.add_assoc. now apply N.
  - apply N. now apply Hb.
Qed.

Lemma chacha20_ok key iv data c : 0 <= c < 2 ^ 64 ->
  BRChacha20 key iv data c = imap (fun i d => Z.lxor d (keystream key iv c (Z.of_nat i))) data.
Proof.
  intros Hc. unfold BRChacha20. rewrite <- (u64_id c Hc) at 1. rewrite <- (Z.add_0_r c) at 1.
  apply (chacha_loop_spec key iv c data 0 []); [lia|]. intros H. now destruct H.
Qed.

Lemma chacha20_length key iv data c : 0 <= c < 2 ^ 64 -> length (BRChacha20 key iv data c) = length data.
Proof. intros. rewrite chacha20_ok by done. apply length_imap. Qed.

Lemma chacha20_inv key iv data c : 0 <= c < 2 ^ 64 ->
  BRChacha20 key iv (BRChacha20 key iv data c) c = data.
Proof.
  intros Hc. rewrite !chacha20_ok by done. apply list_eq. intros i. rewrite !list_lookup_imap.
  destruct (data !! i) as [d|]; [|reflexivity]. cbn [fmap option_fmap option_map]. generalize (keystream key iv c (Z.of_nat i)).
  intros z. now rewrite Z.lxor_assoc, Z.lxor_nilpotent, Z.lxor_0_r.
Qed.

Lemma chacha20_bytes key iv data c : 0 <= c < 2 ^ 64 -> bytes_ok data -> bytes_ok (BRChacha20 key iv data c).
Proof.
  intros Hc Hd. rewrite chacha20_ok by done. apply Forall_lookup. intros i x.
  rewrite list_lookup_imap. destruct (data !! i) as [d|] eqn:E; [|discriminate]. cbn [fmap option_fmap option_map].
  intros H. apply (inj Some) in H as <-.
  apply lxor_byte; [now apply (proj1 (Forall_lookup _ _) Hd i)|]. apply wd_byte, chacha_block_bytes.
Qed.

(** [BRChacha20] xors byte [i] of the data with byte [i mod 64] of the ChaCha20 block of counter
    [counter + i / 64] modulo 2^64, so a stream can be resumed at any block, and enciphering twice gives the
    data back. *)
Theorem chacha20_spec (key iv data : list Z) (counter : Z) : 0 <= counter < 2 ^ 64 ->
  BRChacha20 key iv data counter =
    imap (fun i d => Z.lxor d (wd (chacha_block (chacha_state key iv (u64 (counter + Z.of_nat i / 64))))
                                  (Z.of_nat i mod 64))) data /\
  (forall rest k, length data = (64 * k)%nat ->
    BRChacha20 key iv (data ++ rest) counter =
    BRChacha20 key iv data counter ++ BRChacha20 key iv rest (u64 (counter + Z.of_nat k))) /\
  BRChacha20 key iv (BRChacha20 key iv data counter) counter = data.
Proof.
  intros Hc. split_and!; [now apply chacha20_ok| |now apply chacha20_inv].
  intros rest k Hk. rewrite !chacha20_ok by (exact Hc || apply u64_range). rewrite imap_app.
  apply (f_equal (app _)), imap_ext. intros i d _. unfold compose, keystream. rewrite u64_add_l, Hk.
  replace (Z.of_nat (64 * k + i) / 64) with (Z.of_nat k + Z.of_nat i / 64) by zdiv_lia.
  replace (Z.of_nat (64 * k + i) mod 64) with (Z.of_nat i mod 64) by zdiv_lia. now rewrite Z.add_assoc.
Qed.

#[local] Transparent chacha_block.

Lemma chacha20_spec_witness : exists c,
  BRChacha20 twas_key [0; 0; 0; 0; 0; 0; 0; 2] twas_msg 42 = c /\ c <> twas_msg /\
  BRChacha20 twas_key [0; 0; 0; 0; 0; 0; 0; 2] c 42 = twas_msg.
Proof.
  destruct (chacha20_spec twas_key [0; 0; 0; 0; 0; 0; 0; 2] twas_msg 42) as (_ & _ & H); [lia|].
  eexists. split; [reflexivity|]. split; [vm_compute; discriminate|exact H].
Defined.

(** ** The AEAD construction *)

(** Zero padding to a multiple of 16 bytes, and the message the tag authenticates. *)
Definition pad16 (l : list Z) : list Z := l ++ replicate ((16 - length l mod 16) mod 16) 0.

Definition aead_message (cipher ad : list Z) : list Z :=
  pad16 ad ++ pad16 cipher ++ le_bytes 8 (len ad) ++ le_bytes 8 (len cipher).

Definition aead_cipher (key nonce data : list Z) : list Z :=
  BRChacha20 key (drop 4 nonce) data (u64 (aead_counter nonce + 1)).

Definition aead_tag (key nonce cipher ad : list Z) : list Z :=
  BRPoly1305 (aead_mac_key key nonce) (aead_message cipher ad).

Lemma length_pad16 l : (length (pad16 l) mod 16 = 0)%nat.
Proof.
  unfold pad16. rewrite length_app, length_replicate.
  pose proof (Nat.mod_upper_bound (length l) 16 ltac:(lia)).
  pose proof (Nat.div_mod_eq (length l) 16).
  destruct (Nat.eq_dec (length l mod 16) 0) as [E|E].
  - rewrite E. change ((16 - 0) mod 16)%nat with 0%nat. now rewrite Nat.add_0_r.
  - rewrite (Nat.mod_small (16 - _)) by lia.
    replace (length l + (16 - length l mod 16))%nat with ((length l / 16 + 1) * 16)%nat by lia.
    apply Nat.Div0.mod_mul.
Qed.

Lemma poly_chunks_app a b : (length a mod 16 = 0)%nat -> poly_chunks (a ++ b) = poly_chunks a ++ poly_chunks b.
Proof.
  intros Ha. pose proof (Nat.div_mod_eq (length a) 16) as E. rewrite Ha, Nat.add_0_r in E.
  unfold poly_chunks. rewrite length_app.
  replace ((length a + length b + 15) / 16)%nat with (length a / 16 + (length b + 15) / 16)%nat.
  - rewrite blocks_add, (blocks_app _ _ a b) by lia. replace (length a / 16 * 16)%nat with (length a) by lia.
    rewrite drop_app_len. f_equal. f_equal.
    rewrite E at 2. rewrite (Nat.mul_comm 16), Nat.div_add_l by lia. now rewrite Nat.add_0_r.
  - rewrite E at 2. rewrite (Nat.mul_comm 16), <- Nat.add_assoc, Nat.div_add_l by lia. reflexivity.
Qed.

Lemma pad16_bytes l : bytes_ok l -> bytes_ok (pad16 l).
Proof. intros H. apply Forall_app. split; [exact H|]. apply Forall_replicate. unfold is_byte; lia. Qed.

Lemma poly_padded_state key l h data : bytes_ok key -> length key = 32%nat -> bytes_ok data ->
  poly_state key l h -> poly_state key (l ++ poly_chunks (pad16 data)) (poly_padded h key data).
Proof.
  intros Hk Hl Hd H. unfold poly_padded. cbv zeta. set (n := Z.to_nat _).
  pose proof (Nat.div_mod_eq (length data) 16) as E. pose proof (Nat.mod_upper_bound (length data) 16 ltac:(lia)) as B.
  assert (En : n = (length data / 16 * 16)%nat) by (subst n; zdiv_lia).
  assert (Et : length (take n data) = n) by (rewrite length_take; lia).
  assert (Em : (length (take n data) mod 16 = 0)%nat) by (rewrite Et, En; apply Nat.Div0.mod_mul).
  pose proof (poly_state_step key Hk Hl l h (take n data) H (Forall_take _ _ _ Hd)) as H1.
  unfold pad16, c_true. destruct (Z.eqb_spec (len data mod 16) 0) as [Z0|Z0]; cbn [negb].
  - assert (M : (length data mod 16 = 0)%nat) by zdiv_lia. rewrite M. change ((16 - 0) mod 16)%nat with 0%nat.
    cbn [replicate]. rewrite app_nil_r. rewrite take_ge in H1 |- * by lia. exact H1.
  - assert (M : (length data mod 16 <> 0)%nat) by zdiv_lia. rewrite (Nat.mod_small (16 - _)) by lia.
    replace (16 - length data mod 16)%nat with (16 - length (drop n data))%nat by (rewrite length_drop; lia).
    rewrite <- (take_drop n data) at 1. rewrite <- (app_assoc (take n data)), poly_chunks_app by exact Em. rewrite app_assoc.
    apply poly_state_step; [done..|]. apply Forall_app. split; [now apply Forall_drop|].
    apply Forall_replicate. unfold is_byte; lia.
Qed.

Lemma aead_counter_range nonce : 0 <= aead_counter nonce mod 2 ^ 64 < 2 ^ 64.
Proof. apply Z.mod_pos_bound. lia. Qed.

Section aead.
Context (key nonce : list Z) (Hn : bytes_ok nonce) (Hnl : length nonce = 12%nat).

Lemma aead_counter_ok : 0 <= aead_counter nonce < 2 ^ 64.
Proof.
  unfold aead_counter. pose proof (le_val_range ([0; 0; 0; 0] ++ take 4 nonce)) as H.
  rewrite length_app, length_take, Hnl in H. apply H. rewrite Forall_app. split; [|now apply Forall_take].
  rewrite !Forall_cons. unfold is_byte. split_and!; try lia. apply Forall_nil_2.
Qed.

Lemma aead_mac_key_ok : bytes_ok (aead_mac_key key nonce) /\ length (aead_mac_key key nonce) = 32%nat.
Proof.
  unfold aead_mac_key. pose proof aead_counter_ok. split.
  - apply chacha20_bytes; [exact H|]. apply Forall_replicate. unfold is_byte; lia.
  - rewrite chacha20_length by exact H. apply length_replicate.
Qed.

Lemma aead_mac_spec cipher ad : bytes_ok cipher -> bytes_ok ad ->
  mac_bytes (aead_mac key nonce cipher ad) = aead_tag key nonce cipher ad.
Proof.
  intros Hc Ha. destruct aead_mac_key_ok as [Hk Hl]. unfold aead_mac, aead_tag, BRPoly1305, aead_message. cbv zeta.
  pose proof (poly_padded_state _ [] _ ad Hk Hl Ha (poly_state_init _)) as H1.
  pose proof (poly_padded_state _ _ _ cipher Hk Hl Hc H1) as H2. cbn [app] in H2.
  assert (Hb : bytes_ok (le_bytes 8 (len ad) ++ le_bytes 8 (len cipher))) by (apply Forall_app; split; apply le_bytes_ok).
  rewrite (poly_state_final _ Hk Hl _ _ _ H2 Hb).
  rewrite (poly_state_final _ Hk Hl [] _ _ (poly_state_init _)).
  - f_equal. cbn [app]. rewrite (poly_chunks_app (pad16 ad)), (poly_chunks_app (pad16 cipher)) by apply length_pad16.
    now rewrite app_assoc.
  - rewrite !Forall_app. split_and!; try apply pad16_bytes; auto; apply le_bytes_ok.
Qed.

Lemma aead_cipher_ok data : length (aead_cipher key nonce data) = length data /\
  (bytes_ok data -> bytes_ok (aead_cipher key nonce data)) /\
  aead_cipher key nonce (aead_cipher key nonce data) = data.
Proof.
  unfold aead_cipher. pose proof (u64_range (aead_counter nonce + 1)).
  split_and!; [apply chacha20_length; exact H|intros Hd; apply chacha20_bytes; [exact H|exact Hd]|apply chacha20_inv; exact H].
Qed.

Lemma mac_bytes_length h : length (mac_bytes h) = 16%nat.
Proof. now destruct h as [[[[? ?] ?] ?] ?]. Qed.

Lemma encrypt_writes data ad : bytes_ok data -> bytes_ok ad -> len data / 64 < UINT32_MAX ->
  writes (fun out n => BRChacha20Poly1305AEADEncrypt out n key nonce data ad)
    (aead_cipher key nonce data ++ aead_tag key nonce (aead_cipher key nonce data) ad).
Proof.
  intros Hd Ha Hlen p n Hroom. destruct (aead_cipher_ok data) as (Cl & Cb & _).
  rewrite <- aead_mac_spec in Hroom |- * by auto. fold (aead_cipher key nonce data).
  assert (Hl : len (aead_cipher key nonce data ++ mac_bytes (aead_mac key nonce (aead_cipher key nonce data) ad)) = len data + 16)
    by (rewrite length_app, Cl, mac_bytes_length; lia).
  unfold BRChacha20Poly1305AEADEncrypt, cursor. rewrite Hl. destruct p as [m|]; [|reflexivity].
  unfold room in Hroom. rewrite Hl in Hroom. rewrite u64_id by lia.
  rewrite (proj2 (Z.ltb_ge _ _)), (proj2 (Z.leb_gt _ _)) by lia. cbn [orb]. cbv zeta.
  change (BRChacha20 key (drop 4 nonce) data (u64 (aead_counter nonce + 1))) with (aead_cipher key nonce data).
  generalize dependent (aead_cipher key nonce data). intros c Cl Cb Hl.
  generalize dependent (mac_bytes (aead_mac key nonce c ad)). intros t Hl. rewrite length_app in Hl.
  rewrite mem_write_0 by lia. rewrite bind_Some_l.
  rewrite <- (take_drop (length t) (drop (length c) m)).
  rewrite (mem_write_mid c _ t) by (rewrite ?length_take, ?length_drop; lia). rewrite bind_Some_l.
  cbn [fmap option_fmap option_map]. rewrite drop_drop, length_app, <- app_assoc. reflexivity.
Qed.
End aead.

(** The comparison of [mac] with [h] is the comparison of their bytes. *)
Lemma mac_compare h t : bytes_ok t -> length t = 16%nat ->
  (let '(h0, h1, h2, h3, _) := h in
   0 <= h0 < 2 ^ 32 /\ 0 <= h1 < 2 ^ 32 /\ 0 <= h2 < 2 ^ 32 /\ 0 <= h3 < 2 ^ 32) ->
  let '(h0, h1, h2, h3, _) := h in
  let mac := words 4 4 t in
  c_true (Z.lor (Z.lor (Z.lor (Z.lxor (wd mac 0) h0) (Z.lxor (wd mac 1) h1)) (Z.lxor (wd mac 2) h2))
                (c_bool (c_true (Z.lxor (wd mac 3) h3)))) = negb (bool_decide (t = mac_bytes h)).
Proof.
  intros Ht Htl. destruct h as [[[[h0 h1] h2] h3] h4]. intros (H0 & H1 & H2 & H3). cbv zeta.
  destruct (words4_val t Ht Htl) as (t0 & t1 & t2 & t3 & -> & R0 & R1 & R2 & R3 & Ev).
  wd_cons t0 t1 t2 t3. unfold c_true at 1. f_equal. rewrite mac_bytes_val by assumption.
  assert (E3 : forall b, c_bool (c_true b) = 0 <-> b = 0).
  { intros b. unfold c_bool, c_true. destruct (Z.eqb_spec b 0); cbn; split; lia. }
  assert (Q : t = le_bytes 16 (h0 + 2 ^ 32 * (h1 + 2 ^ 32 * (h2 + 2 ^ 32 * h3))) <->
    t0 = h0 /\ t1 = h1 /\ t2 = h2 /\ t3 = h3).
  { rewrite <- (le_bytes_le_val t Ht), Htl, Ev. split.
    - intros E. apply (f_equal (le_num 256)) in E. rewrite !le_val_le_bytes_id in E by (change (256 ^ Z.of_nat 16) with (2 ^ 128); lia).
      lia.
    - now intros (-> & -> & -> & ->). }
  apply eq_true_iff_eq. rewrite Z.eqb_eq, bool_decide_eq_true, Q, !Z.lor_eq_0_iff, E3, !Z.lxor_eq_0_iff. tauto.
Qed.

Lemma aead_mac_range key nonce cipher ad :
  let '(h0, h1, h2, h3, _) := aead_mac key nonce cipher ad in
  0 <= h0 < 2 ^ 32 /\ 0 <= h1 < 2 ^ 32 /\ 0 <= h2 < 2 ^ 32 /\ 0 <= h3 < 2 ^ 32.
Proof.
  unfold aead_mac. cbv zeta. generalize (aead_mac_key key nonce) as k. intros k.
  generalize (poly_padded (poly_padded poly_init k ad) k cipher) as h. intros h.
  unfold _BRPoly1305Compress. cbv zeta iota beta.
  generalize (poly_loop (poly_r k) (le_bytes 8 (len ad) ++ le_bytes 8 (len cipher)) h) as h'. intros h'.
  unfold poly_final. destruct (poly_select (poly_carry h')) as [[[[? ?] ?] ?] ?].
  destruct (poly_pack _) as [[[? ?] ?] ?]. cbv zeta. split_and!; apply u32_range.
Qed.

(** Decryption, its comparison abstracted. *)
Lemma decrypt_ok key nonce cipher tag ad m n :
  bytes_ok nonce -> length nonce = 12%nat -> bytes_ok cipher -> bytes_ok ad -> bytes_ok tag -> length tag = 16%nat ->
  len cipher / 64 < UINT32_MAX -> len cipher <= n <= len m -> n + 16 < 2 ^ 64 ->
  BRChacha20Poly1305AEADDecrypt (Some m) n key nonce (cipher ++ tag) ad =
  if bool_decide (tag = aead_tag key nonce cipher ad)
  then Some (Some (aead_cipher key nonce cipher ++ drop (length cipher) m), len cipher)
  else Some (Some m, 0).
Proof.
  intros Hn Hnl Hc Ha Ht Htl Hlen Hroom Hw. unfold BRChacha20Poly1305AEADDecrypt.
  assert (El : len (cipher ++ tag) = len cipher + 16) by (rewrite length_app, Htl; lia). rewrite El.
  replace (len cipher + 16 - 16) with (len cipher) by lia. rewrite (u64_id (n + 16)) by lia.
  rewrite (proj2 (Z.ltb_ge _ _)), (proj2 (Z.leb_gt _ _)), (proj2 (Z.ltb_ge _ _)) by lia. cbn [orb]. cbv zeta.
  rewrite Nat2Z.id, take_app_len, drop_app_len, <- aead_mac_spec by assumption.
  pose proof (mac_compare _ tag Ht Htl (aead_mac_range key nonce cipher ad)) as M.
  destruct (aead_mac key nonce cipher ad) as [[[[h0 h1] h2] h3] h4]. cbv zeta in M. rewrite M.
  destruct (bool_decide (tag = mac_bytes (h0, h1, h2, h3, h4))); cbn [negb].
  - rewrite Nat2Z.id, take_app_len.
    change (BRChacha20 key (drop 4 nonce) cipher (u64 (aead_counter nonce + 1))) with (aead_cipher key nonce cipher).
    destruct (aead_cipher_ok key nonce cipher) as (Cl & _ & _).
    rewrite mem_write_0 by lia. now rewrite bind_Some_l, Cl.
  - change (take (Z.to_nat 0) (cipher ++ tag)) with (@nil Z). unfold BRChacha20, chacha_loop.
    rewrite mem_write_0 by (cbn [length]; lia). now rewrite bind_Some_l.
Qed.

(** Authenticated encryption (RFC 7539).  With a buffer of [dataLen + 16] bytes or NULL,
    [BRChacha20Poly1305AEADEncrypt] behaves as a serializer of the ciphertext (ChaCha20 from counter 1)
    followed by the Poly1305 tag, under the one-time key of counter 0, of the padded associated data, the
    padded ciphertext and both lengths.  Decryption of any ciphertext and tag gives the plaintext when the
    tag is that one, and otherwise returns 0 and leaves the buffer alone; decrypting an encryption gives the
    message back. *)
Theorem aead_spec (key nonce data ad : list Z) :
  bytes_ok nonce -> length nonce = 12%nat -> bytes_ok data -> bytes_ok ad -> len data / 64 < UINT32_MAX ->
  let tag c := BRPoly1305 (aead_mac_key key nonce) (pad16 ad ++ pad16 c ++ le_bytes 8 (len ad) ++ le_bytes 8 (len c)) in
  let cipher := BRChacha20 key (drop 4 nonce) data (u64 (aead_counter nonce + 1)) in
  writes (fun out n => BRChacha20Poly1305AEADEncrypt out n key nonce data ad) (cipher ++ tag cipher) /\
  (forall t m n, bytes_ok t -> length t = 16%nat -> len data <= n <= len m -> n + 16 < 2 ^ 64 ->
    (BRChacha20Poly1305AEADDecrypt (Some m) n key nonce (cipher ++ t) ad =
     if bool_decide (t = tag cipher) then Some (Some (data ++ drop (length data) m), len data) else Some (Some m, 0)) /\
    (BRChacha20Poly1305AEADDecrypt (Some m) n key nonce (data ++ t) ad =
     if bool_decide (t = tag data) then Some (Some (cipher ++ drop (length data) m), len data) else Some (Some m, 0))).
Proof.
  intros Hn Hnl Hd Ha Hlen tag cipher. destruct (aead_cipher_ok key nonce data) as (Cl & Cb & Ci).
  split; [now apply encrypt_writes|]. intros t m n Ht Htl Hm Hw.
  pose proof (decrypt_ok key nonce (aead_cipher key nonce data) t ad m n Hn Hnl (Cb Hd) Ha Ht Htl) as D.
  rewrite Cl, Ci in D. split; [exact (D Hlen Hm Hw)|]. exact (decrypt_ok key nonce data t ad m n Hn Hnl Hd Ha Ht Htl Hlen Hm Hw).
Qed.

Lemma aead_spec_witness :
  writes (fun out n => BRChacha20Poly1305AEADEncrypt out n aead_key1 aead_nonce1 aead_msg1 aead_ad1) aead_cypher1.
Proof.
  replace aead_cypher1 with
    (BRChacha20 aead_key1 (drop 4 aead_nonce1) aead_msg1 (u64 (aead_counter aead_nonce1 + 1)) ++
     BRPoly1305 (aead_mac_key aead_key1 aead_nonce1)
       (aead_message (BRChacha20 aead_key1 (drop 4 aead_nonce1) aead_msg1 (u64 (aead_counter aead_nonce1 + 1))) aead_ad1))
    by (vm_compute; reflexivity).
  assert (Hn : bytes_ok aead_nonce1) by (apply (bool_decide_unpack _); reflexivity).
  assert (Hd : bytes_ok aead_msg1) by (apply (bool_decide_unpack _); reflexivity).
  assert (Ha : bytes_ok aead_ad1) by (apply (bool_decide_unpack _); reflexivity).
  exact (proj1 (aead_spec aead_key1 aead_nonce1 aead_msg1 aead_ad1 Hn eq_refl Hd Ha eq_refl)).
Defined.
