(* ===== verification/SetTable.v ===== *)
(** * SetTable: the linear-probed hash set of BRSet.c

    A set is the bucket array, its size and the item count.  Items are pointers: they are compared by
    identity ([t == item]) and by the [eq] callback.  Operations return [None] where the C code has no
    defined result: a probe that never ends, or a growth past the last entry of [tableSizes].

    The second half of the file shows that, for callbacks that agree on a key, every operation
    refines the corresponding operation of a finite map from keys to items. *)
From stdpp Require Import base numbers list gmap fin_maps.
From Stdlib Require Import ZArith Lia.
From S2P Require Import Prelude.
Local Open Scope Z_scope.

(** ** The table sizes *)

Definition tableSizes : list Z :=
  [1; 3; 7; 13; 23; 37; 59; 97; 149; 227; 347; 523; 787; 1187; 1783; 2677; 4019; 6037; 9059; 13591;
   20389; 30593; 45887; 68863; 103307; 154981; 232487; 348739; 523129; 784697; 1177067; 1765609;
   2648419; 3972643; 5958971; 8938469; 13407707; 20111563; 30167359; 45251077; 67876637; 101814991;
   152722489; 229083739; 343625629; 515438447; 773157683; 1159736527; 1739604799; 2609407319; 3914111041].

(** [while (i < TABLE_SIZES_LEN && tableSizes[i] < capacity) i++;] *)
Fixpoint size_index (sizes : list Z) (capacity : Z) : nat :=
  match sizes with
  | s :: sizes' => if s <? capacity then S (size_index sizes' capacity) else O
  | [] => O
  end.

(** Largest item count that does not make [BRSetAdd] grow the table. *)
Definition max_load (size : Z) : Z := (size + 2) / 3 * 2.

(** Runs [f] over a list, threading the state; [None] as soon as one step has no result. *)
Fixpoint foldM {S B} (f : S -> B -> option S) (s : S) (l : list B) : option S :=
  match l with
  | [] => Some s
  | b :: l' => s ← f s b; foldM f s l'
  end.

Record BRSet (A : Type) := mkSet { table : list (option A); size : Z; itemCount : Z }.
Arguments mkSet {A}. Arguments table {A}. Arguments size {A}. Arguments itemCount {A}.

Section set.
Context {A : Type} `{EqDecision A} (hash : A -> Z) (eq : A -> A -> bool).
Notation set := (BRSet A).

(** ** Operations *)

Definition _BRSetInit (set : set) (capacity : Z) : BRSet A :=
  match tableSizes !! S (size_index tableSizes capacity) with
  | Some n => mkSet (replicate (Z.to_nat n) None) n 0
  | None => mkSet (table set) (size set) 0
  end.

Definition BRSetNew (capacity : Z) : set := _BRSetInit (mkSet [] 0 0) capacity.

Definition bucket (set : set) (i : Z) : option (option A) := table set !! Z.to_nat i.

(** [! (t && t != item && ! eq(t, item))] *)
Definition stop (item : A) (t : option A) : bool :=
  match t with
  | None => true
  | Some t => bool_decide (t = item) || eq t item
  end.

(** The probe loop common to all operations: index of the bucket it ends at. *)
Fixpoint probe (fuel : nat) (set : set) (item : A) (i : Z) : option Z :=
  match fuel with
  | O => None
  | S fuel' =>
      t ← bucket set i;
      if stop item t then Some i else probe fuel' set item ((i + 1) mod size set)
  end.

Definition find_bucket (set : set) (item : A) : option Z :=
  probe (Z.to_nat (size set)) set item (hash item mod size set).

Definition set_bucket (set : set) (i : Z) (t : option A) (count : Z) : BRSet A :=
  mkSet (<[Z.to_nat i := t]> (table set)) (size set) (u64 count).

(** [if (t) add(set, t)] for each bucket [t] of [otherSet]. *)
Definition each_item (f : set -> A -> option set) (set : set) (otherSet : BRSet A) : option (BRSet A) :=
  foldM (fun s t => match t with Some a => f s a | None => Some s end) set (table otherSet).

(** [newSet] is uninitialised storage: when no table size is left it has no usable table. *)
Definition _BRSetGrow (add : set -> A -> option set) (set : set) (capacity : Z) : option (BRSet A) :=
  each_item add (_BRSetInit (mkSet [] 0 0) capacity) set.

(** Adding grows the table, which adds to the new table: [depth] bounds that recursion. *)
Fixpoint set_add (depth : nat) (set : set) (item : A) : option (BRSet A * option A) :=
  i ← find_bucket set item;
  t ← bucket set i;
  let set := set_bucket set i (Some item)
               (match t with None => itemCount set + 1 | Some _ => itemCount set end) in
  if max_load (size set) <? itemCount set then
    match depth with
    | O => None
    | S depth' => set ← _BRSetGrow (fun s a => fst <$> set_add depth' s a) set (size set); Some (set, t)
    end
  else Some (set, t).

(** Every growth moves to a later entry of [tableSizes]. *)
Definition BRSetAdd (set : set) (item : A) : option (BRSet A * option A) :=
  set_add (length tableSizes) set item.

Definition BRSetGet (set : set) (item : A) : option (option A) :=
  i ← find_bucket set item; bucket set i.

(** [while (t)]: take the item of the next bucket out and add it again; [size] is read once. *)
Fixpoint cleanup (fuel : nat) (size : Z) (set : set) (i : Z) : option (BRSet A) :=
  match fuel with
  | O => None
  | S fuel' =>
      t ← bucket set i;
      match t with
      | None => Some set
      | Some a =>
          '(set, _) ← BRSetAdd (set_bucket set i None (itemCount set - 1)) a;
          cleanup fuel' size set ((i + 1) mod size)
      end
  end.

Definition BRSetRemove (set : set) (item : A) : option (BRSet A * option A) :=
  i ← find_bucket set item;
  r ← bucket set i;
  match r with
  | None => Some (set, None)
  | Some _ =>
      let n := size set in
      set ← cleanup (Z.to_nat n) n (set_bucket set i None (itemCount set - 1)) ((i + 1) mod n);
      Some (set, r)
  end.

Definition BRSetClear (set : set) : BRSet A :=
  mkSet (replicate (length (table set)) None) (size set) 0.

Definition BRSetCount (set : set) : Z := itemCount set.

Definition BRSetContains (set : set) (item : A) : option bool :=
  t ← BRSetGet set item; Some (bool_decide (is_Some t)).

Fixpoint intersects_loop (set : set) (l : list (option A)) : option bool :=
  match l with
  | [] => Some false
  | None :: l' => intersects_loop set l'
  | Some t :: l' => r ← BRSetGet set t;
                    if bool_decide (is_Some r) then Some true else intersects_loop set l'
  end.

Definition BRSetIntersects (set otherSet : set) : option bool := intersects_loop set (table otherSet).

(** [while (! r && i < size) r = table[i++];] *)
Fixpoint first_item (l : list (option A)) : option A :=
  match l with
  | [] => None
  | Some a :: _ => Some a
  | None :: l' => first_item l'
  end.

Definition BRSetIterate (set : set) (previous : option A) : option (option A) :=
  match previous with
  | None => Some (first_item (table set))
  | Some p => i ← find_bucket set p; Some (first_item (drop (Z.to_nat (i + 1)) (table set)))
  end.

(** The items written to [allItems]. *)
Fixpoint all_items (l : list (option A)) (count : nat) : list A :=
  match l, count with
  | Some a :: l', S c => a :: all_items l' c
  | None :: l', S c => all_items l' count
  | _, _ => []
  end.

Definition BRSetAll (set : set) (count : Z) : list A := all_items (table set) (Z.to_nat count).

(** [apply(info, t)] for every item, in bucket order. *)
Definition BRSetApply {S} (set : set) (apply : S -> A -> S) (info : S) : S :=
  foldl apply info (omap id (table set)).

Definition BRSetUnion (set otherSet : set) : option (BRSet A) :=
  each_item (fun s a => fst <$> BRSetAdd s a) set otherSet.

Definition BRSetMinus (set otherSet : set) : option (BRSet A) :=
  each_item (fun s a => fst <$> BRSetRemove s a) set otherSet.

(** The index stays when an item is removed: the bucket may have been refilled. *)
Fixpoint intersect_loop (fuel : nat) (set otherSet : set) (i : Z) : option (BRSet A) :=
  match fuel with
  | O => None
  | S fuel' =>
      if i <? size set then
        t ← bucket set i;
        match t with
        | Some a =>
            c ← BRSetContains otherSet a;
            if c : bool then intersect_loop fuel' set otherSet (i + 1)
            else '(set, _) ← BRSetRemove set a; intersect_loop fuel' set otherSet i
        | None => intersect_loop fuel' set otherSet (i + 1)
        end
      else Some set
  end.

Definition BRSetIntersect (set otherSet : set) : option (BRSet A) :=
  intersect_loop (Z.to_nat (size set) + Z.to_nat (itemCount set) + 1) set otherSet 0.
End set.

(** ** Buckets as positions modulo the table size *)

Section slots.
Context {A : Type}.
Implicit Types (T : list (option A)) (p q : Z).

Definition slot T p : option A := mjoin (T !! Z.to_nat (p mod len T)).
Definition occ T p : Prop := slot T p <> None.

Lemma slot_mod T p q : p mod len T = q mod len T -> slot T p = slot T q.
Proof. intros E. unfold slot. now rewrite E. Qed.

Lemma lookup_slot T i : 0 <= i < len T -> T !! Z.to_nat i = Some (slot T i).
Proof.
  intros Hi. unfold slot. rewrite Z.mod_small by done.
  destruct (lookup_lt_is_Some_2 T (Z.to_nat i)) as [t Ht]; [lia|]. rewrite Ht. reflexivity.
Qed.

Lemma slot_insert T i x p :
  0 <= i < len T -> slot (<[Z.to_nat i := x]> T) p = if decide (p mod len T = i) then x else slot T p.
Proof.
  intros Hi. unfold slot. rewrite length_insert.
  pose proof (Z.mod_pos_bound p (len T) ltac:(lia)).
  destruct (decide _) as [<-|Hn].
  - now rewrite list_lookup_insert_eq by lia.
  - now rewrite list_lookup_insert_ne by lia.
Qed.

Lemma slot_insert_eq T i x p : 0 <= i < len T -> p mod len T = i -> slot (<[Z.to_nat i := x]> T) p = x.
Proof. intros. rewrite slot_insert by done. now rewrite decide_True. Qed.

Lemma slot_insert_ne T i x p : 0 <= i < len T -> p mod len T <> i -> slot (<[Z.to_nat i := x]> T) p = slot T p.
Proof. intros. rewrite slot_insert by done. now rewrite decide_False. Qed.

Lemma elem_of_omap_slot T a : 0 < len T -> a ∈ omap id T <-> exists p, slot T p = Some a.
Proof.
  intros Hn. rewrite list_elem_of_omap. split.
  - intros (t & Ht & E). cbn in E; subst t. apply list_elem_of_lookup in Ht as [i Hi].
    exists (Z.of_nat i). unfold slot. pose proof (lookup_lt_Some _ _ _ Hi).
    rewrite Z.mod_small, Nat2Z.id, Hi by lia. reflexivity.
  - intros [p Hp]. exists (Some a). split; [|reflexivity]. unfold slot in Hp.
    destruct (T !! _) as [t|] eqn:E; simplify_eq/=. eapply list_elem_of_lookup_2; eauto.
Qed.

Definition occ1 (t : option A) : nat := if t is Some _ then 1%nat else 0%nat.

Lemma count_insert T i t x :
  T !! i = Some t -> (length (omap id (<[i := x]> T)) + occ1 t = length (omap id T) + occ1 x)%nat.
Proof.
  revert i; induction T as [|u T IH]; intros [|i]; simpl; intros E; simplify_eq.
  - destruct t, x; simpl; lia.
  - specialize (IH _ E). unfold omap in IH. destruct u; simpl; lia.
Qed.

(** A table that is not full has an empty bucket. *)
Lemma empty_slot T : (length (omap id T) < length T)%nat -> exists p, 0 <= p < len T /\ slot T p = None.
Proof.
  intros Hl. assert (E : exists i, T !! i = Some None).
  { unfold omap in Hl. induction T as [|[a|] T IH]; simpl in *; [lia| |].
    - destruct IH as [i Hi]; [lia|]. now exists (S i).
    - now exists 0%nat. }
  destruct E as [i Hi]. pose proof (lookup_lt_Some _ _ _ Hi). exists (Z.of_nat i). split; [lia|].
  unfold slot. now rewrite Z.mod_small, Nat2Z.id, Hi by lia.
Qed.

Lemma count_le T : (length (omap id T) <= length T)%nat.
Proof. unfold omap. induction T as [|[?|] ? ?]; simpl; lia. Qed.
End slots.

Lemma mod_shift a b c n : a mod n = b mod n -> (a + c) mod n = (b + c) mod n.
Proof. intros E. rewrite <- (Zplus_mod_idemp_l a), E. apply Zplus_mod_idemp_l. Qed.

Lemma mod_eq_window a b n : 0 < n -> a mod n = b mod n -> a <= b < a + n -> a = b.
Proof.
  intros Hn E H. pose proof (Z.div_mod a n). pose proof (Z.div_mod b n).
  assert (Ek : n * (b / n - a / n) = b - a) by lia. assert (b / n - a / n = 0) by nia. lia.
Qed.

(** ** The representation invariant *)

(** What the callbacks promise: two items are equal when their keys are, and then have the same hash. *)
Class SetKey {A K} (hash : A -> Z) (eq : A -> A -> bool) (key : A -> K) : Prop := {
  eq_key : forall a b, eq a b = true <-> key a = key b;
  hash_key : forall a b, key a = key b -> hash a = hash b;
}.

Section refinement.
Context {A K : Type} `{EqDecision A} `{Countable K} (hash : A -> Z) (eq : A -> A -> bool) (key : A -> K).
Context `{!SetKey hash eq key}.
Implicit Types (s : BRSet A) (m : gmap K A) (T : list (option A)).

(** The item [a] of position [P] is found from its home bucket: every bucket on the way is occupied. *)
Definition reach T (P : Z) (a : A) : Prop :=
  exists d, 0 <= d < len T /\ (P - d) mod len T = hash a mod len T /\ forall d', 0 <= d' <= d -> occ T (P - d').

(** The table holds the items of [m]; those at the positions of [G] can be found. *)
Record table_ok_on (G : Z -> Prop) T m : Prop := {
  ok_reach : forall P a, G P -> slot T P = Some a -> reach T P a;
  ok_unique : forall P Q a b, slot T P = Some a -> slot T Q = Some b -> key a = key b -> P mod len T = Q mod len T;
  ok_abs : forall k a, m !! k = Some a <-> exists P, slot T P = Some a /\ key a = k;
}.

Notation everywhere := (fun _ : Z => True).
Notation table_ok := (table_ok_on everywhere).

Lemma table_ok_weaken (G G' : Z -> Prop) T m :
  (forall P a, G' P -> slot T P = Some a -> G P) -> table_ok_on G T m -> table_ok_on G' T m.
Proof. intros HG [Hr Hu Ha]. constructor; eauto. Qed.

(** [s] represents [m]; [repr] adds the load bound kept between calls. *)
Record repr_on (G : Z -> Prop) s m : Prop := {
  r_len : len (table s) = size s;
  r_size : exists k, tableSizes !! S k = Some (size s);
  r_count : itemCount s = len (omap id (table s));
  r_card : Z.of_nat (base.size m) = itemCount s;
  r_table : table_ok_on G (table s) m;
}.
Notation repr0 := (repr_on everywhere).

Definition repr s m : Prop := repr0 s m /\ itemCount s <= max_load (size s).

Lemma stop_key x a : stop eq x (Some a) = bool_decide (key a = key x).
Proof.
  unfold stop. destruct (eq a x) eqn:E.
  - rewrite orb_true_r. symmetry. apply bool_decide_eq_true. now apply eq_key.
  - rewrite orb_false_r. apply bool_decide_ext. split; [now intros ->|].
    intros Hk. apply eq_key in Hk. congruence.
Qed.

Lemma sizes_props :
  forallb (fun n => (3 <=? n) && (max_load n <? n) && (n <=? 3914111041)) (tail tableSizes) = true.
Proof. reflexivity. Qed.

Lemma size_props s : (exists k, tableSizes !! S k = Some (size s)) ->
  3 <= size s /\ max_load (size s) < size s /\ size s <= 3914111041.
Proof.
  intros [k Hk]. pose proof sizes_props as F. rewrite forallb_forall in F.
  assert (Hin : In (size s) (tail tableSizes)).
  { apply list_elem_of_In. apply list_elem_of_lookup_2 with k. exact Hk. }
  specialize (F _ Hin). rewrite !andb_true_iff, Z.leb_le, Z.ltb_lt, Z.leb_le in F. lia.
Qed.

Lemma bucket_slot s i : len (table s) = size s -> 0 <= i < size s -> bucket s i = Some (slot (table s) i).
Proof. intros E Hi. apply lookup_slot. lia. Qed.

Lemma probe_spec s x : len (table s) = size s -> 0 < size s ->
  forall fuel h, (exists d, 0 <= d < Z.of_nat fuel /\ stop eq x (slot (table s) (h + d)) = true) ->
  exists d, 0 <= d < Z.of_nat fuel /\ probe eq fuel s x (h mod size s) = Some ((h + d) mod size s) /\
    stop eq x (slot (table s) (h + d)) = true /\
    forall d', 0 <= d' < d -> stop eq x (slot (table s) (h + d')) = false.
Proof.
  intros Hl Hn. induction fuel as [|fuel IH]; intros h (d & Hd & Hs); [lia|].
  pose proof (Z.mod_pos_bound h (size s) Hn).
  assert (E0 : slot (table s) (h mod size s) = slot (table s) h).
  { apply slot_mod. rewrite Hl, Zmod_mod. reflexivity. }
  cbn [probe]. rewrite bucket_slot by done. cbn [mbind option_bind]. rewrite E0.
  destruct (stop eq x (slot (table s) h)) eqn:Eh.
  - exists 0. rewrite Z.add_0_r. repeat split; (done || lia).
  - rewrite Zplus_mod_idemp_l. destruct (IH (h + 1)) as (e & He & Hp & Hse & Hlt).
    { exists (d - 1). assert (d <> 0) by (intros ->; rewrite Z.add_0_r in Hs; congruence).
      replace (h + 1 + (d - 1)) with (h + d) by lia. split; [lia|done]. }
    exists (e + 1). replace (h + (e + 1)) with (h + 1 + e) by lia. repeat split; [lia|lia|done|done|].
    intros d' Hd'. destruct (Z.eq_dec d' 0) as [->|]; [now rewrite Z.add_0_r|].
    replace (h + d') with (h + 1 + (d' - 1)) by lia. apply Hlt. lia.
Qed.

(** The probe ends at the item with the same key, or at an empty bucket if there is none. *)
Lemma find_bucket_spec G s m x :
  len (table s) = size s -> 0 < size s -> (length (omap id (table s)) < length (table s))%nat ->
  table_ok_on G (table s) m -> (forall P a, slot (table s) P = Some a -> key a = key x -> reach (table s) P a) ->
  exists d, 0 <= d < size s /\ find_bucket hash eq s x = Some ((hash x + d) mod size s) /\
    slot (table s) (hash x + d) = m !! key x /\
    forall d', 0 <= d' < d -> exists b, slot (table s) (hash x + d') = Some b /\ key b <> key x.
Proof.
  intros Hl Hn Hc [_ Hu Ha] Hr. set (h := hash x).
  destruct (empty_slot (table s) Hc) as (p & Hp & Ep). rewrite Hl in Hp.
  destruct (probe_spec s x Hl Hn (Z.to_nat (size s)) h) as (d & Hd & E & Hs & Hb).
  { exists ((p - h) mod size s). pose proof (Z.mod_pos_bound (p - h) (size s) Hn). split; [lia|].
    rewrite (slot_mod _ _ p), Ep; [done|].
    rewrite Hl, Zplus_mod_idemp_r. f_equal. lia. }
  exists d. split; [lia|]. split; [exact E|].
  assert (Hbs : forall d', 0 <= d' < d -> exists b, slot (table s) (h + d') = Some b /\ key b <> key x).
  { intros d' Hd'. specialize (Hb _ Hd'). destruct (slot (table s) (h + d')) as [b|] eqn:Eb; [|done].
    rewrite stop_key in Hb. apply bool_decide_eq_false in Hb. eauto. }
  split; [|exact Hbs].
  destruct (slot (table s) (h + d)) as [b|] eqn:Eb.
  - rewrite stop_key in Hs. apply bool_decide_eq_true in Hs. symmetry. apply Ha. eauto.
  - destruct (m !! key x) as [a|] eqn:Em; [exfalso|done].
    apply Ha in Em as (P & HP & Ek). destruct (Hr _ _ HP Ek) as (d1 & Hd1 & Emod & Hocc).
    rewrite (hash_key (hash:=hash) (eq:=eq) a x Ek) in Emod. fold h in Emod.
    assert (Esl : forall k, slot (table s) (h + k) = slot (table s) (P - (d1 - k))).
    { intros k. apply slot_mod. replace (P - (d1 - k)) with (P - d1 + k) by lia. now apply mod_shift. }
    destruct (Z.le_gt_cases d d1) as [Hle|Hgt].
    + apply (Hocc (d1 - d)); [lia|]. now rewrite <- Esl.
    + destruct (Hbs d1) as (b & Eb' & Hne); [lia|]. rewrite Esl, Z.sub_diag, Z.sub_0_r in Eb'. congruence.
Qed.
(** ** Adding *)

Lemma table_ok_insert G T m x d :
  0 < len T -> table_ok_on G T m -> 0 <= d < len T -> slot T (hash x + d) = m !! key x ->
  (forall d', 0 <= d' < d -> occ T (hash x + d')) ->
  table_ok_on (fun P => G P \/ P mod len T = (hash x + d) mod len T)
    (<[Z.to_nat ((hash x + d) mod len T) := Some x]> T) (<[key x := x]> m).
Proof.
  intros Hn [Hr Hu Ha] Hd Hm Hocc. set (j := (hash x + d) mod len T).
  assert (Hj : 0 <= j < len T) by (apply Z.mod_pos_bound; lia).
  assert (Hj' : slot T j = m !! key x) by (rewrite <- Hm; apply slot_mod, Zmod_mod).
  set (T' := <[Z.to_nat j := Some x]> T).
  assert (HlT : length T' = length T) by apply length_insert.
  assert (Heq : forall P, P mod len T = j -> slot T' P = Some x) by (intros; now apply slot_insert_eq).
  assert (Hne : forall P, P mod len T <> j -> slot T' P = slot T P) by (intros; now apply slot_insert_ne).
  assert (Hmono : forall P, occ T P -> occ T' P).
  { intros P HP. unfold occ. destruct (decide (P mod len T = j)); [now rewrite Heq|now rewrite Hne]. }
  assert (Hother : forall P a, slot T' P = Some a -> P mod len T <> j -> slot T P = Some a /\ key a <> key x).
  { intros P a HP HPj. rewrite Hne in HP by done. split; [done|]. intros Ek. apply HPj.
    assert (Ex : m !! key x = Some a) by (apply Ha; eauto). rewrite Ex in Hj'.
    rewrite (Hu _ _ _ _ HP Hj' eq_refl). now apply Z.mod_small. }
  constructor.
  - intros P a HG HP. destruct (decide (P mod len T = j)) as [HPj|HPj].
    + rewrite Heq in HP by done. injection HP as <-. exists d. rewrite HlT. split; [lia|]. split.
      * replace (hash x) with (hash x + d - d) by lia. apply (mod_shift _ _ (- d)). exact HPj.
      * intros d' Hd'. destruct (Z.eq_dec d' 0) as [->|].
        { unfold occ. rewrite Z.sub_0_r, Heq by done. done. }
        apply Hmono. unfold occ. rewrite (slot_mod T _ (hash x + (d - d'))).
        { apply Hocc. lia. }
        replace (hash x + (d - d')) with (hash x + d + - d') by lia. now apply mod_shift.
    + destruct HG as [HG|]; [|done].
      destruct (Hother P a HP HPj) as [HP' _]. destruct (Hr _ _ HG HP') as (e & He & Em & Ho).
      exists e. rewrite HlT. repeat split; auto; lia.
  - intros P Q a b HP HQ Ek. rewrite HlT.
    destruct (decide (P mod len T = j)) as [HPj|HPj], (decide (Q mod len T = j)) as [HQj|HQj]; try congruence.
    + rewrite Heq in HP by done. injection HP as <-. destruct (Hother Q b HQ HQj). congruence.
    + rewrite Heq in HQ by done. injection HQ as <-. destruct (Hother P a HP HPj). congruence.
    + destruct (Hother P a HP HPj), (Hother Q b HQ HQj). eauto.
  - intros k a. destruct (decide (k = key x)) as [->|Hk].
    + rewrite lookup_insert_eq. split.
      * intros [= <-]. exists j. split; [|done]. apply Heq. now apply Z.mod_small.
      * intros (P & HP & Ek). destruct (decide (P mod len T = j)) as [HPj|HPj].
        { rewrite Heq in HP by done. congruence. }
        now destruct (Hother P a HP HPj).
    + rewrite lookup_insert_ne by done. rewrite Ha. split; intros (P & HP & Ek); exists P; (split; [|done]).
      * rewrite Hne; [done|]. intros HPj. assert (E : slot T P = slot T j).
        { apply slot_mod. now rewrite HPj, Z.mod_small by done. }
        rewrite E, Hj' in HP. apply Ha in HP as (Q & HQ & EQ). congruence.
      * destruct (decide (P mod len T = j)) as [HPj|HPj].
        { rewrite Heq in HP by done. congruence. }
        now rewrite Hne in HP.
Qed.
(** The store of [BRSetAdd], before the growth test. *)
Definition set_store s (i : Z) (t : option A) (x : A) : BRSet A :=
  set_bucket s i (Some x) (match t with None => itemCount s + 1 | Some _ => itemCount s end).

Lemma card_insert m k a :
  Z.of_nat (base.size (<[k := a]> m)) = Z.of_nat (base.size m) + (if m !! k then 0 else 1).
Proof. rewrite map_size_insert. destruct (m !! k); cbn; lia. Qed.

Lemma set_store_on G s m x :
  repr_on G s m -> itemCount s < size s ->
  (forall P a, slot (table s) P = Some a -> key a = key x -> reach (table s) P a) ->
  exists d, let i := (hash x + d) mod size s in
    0 <= d < size s /\ find_bucket hash eq s x = Some i /\ bucket s i = Some (m !! key x) /\
    (forall d', 0 <= d' < d -> occ (table s) (hash x + d')) /\
    repr_on (fun P => G P \/ P mod size s = i) (set_store s i (m !! key x) x) (<[key x := x]> m) /\
    itemCount (set_store s i (m !! key x) x) = Z.of_nat (base.size (<[key x := x]> m)).
Proof.
  intros [Hl Hsz Hc Hm Ht] Hlt Hx. destruct (size_props s Hsz) as (Hn & _ & Hmax).
  destruct (find_bucket_spec G s m x) as (d & Hd & Ef & Es & Hb); [done|lia|lia|done|done|].
  exists d. set (i := (hash x + d) mod size s) in *. cbv zeta.
  assert (Hi : 0 <= i < size s) by (apply Z.mod_pos_bound; lia).
  assert (Esl : slot (table s) i = m !! key x).
  { rewrite <- Es. apply slot_mod. rewrite Hl. apply Zmod_mod. }
  assert (Hocc : forall d', 0 <= d' < d -> occ (table s) (hash x + d')).
  { intros d' Hd'. destruct (Hb d' Hd') as (b & E & _). unfold occ. now rewrite E. }
  split; [done|]. split; [done|]. rewrite bucket_slot, Esl by done. split; [done|]. split; [done|].
  assert (Hcount : itemCount (set_store s i (m !! key x) x) = Z.of_nat (base.size (<[key x := x]> m))).
  { rewrite card_insert, Hm. unfold set_store; simpl. destruct (m !! key x); rewrite u64_id; lia. }
  split; [|done]. constructor; simpl.
  - now rewrite length_insert.
  - done.
  - change (u64 _) with (itemCount (set_store s i (m !! key x) x)). rewrite Hcount, card_insert, Hm, Hc.
    assert (El : table s !! Z.to_nat i = Some (m !! key x)) by (rewrite <- Esl; apply lookup_slot; lia).
    pose proof (count_insert _ _ _ (Some x) El) as E. destruct (m !! key x); simpl in E; lia.
  - symmetry. exact Hcount.
  - unfold i. rewrite <- Hl. apply table_ok_insert; try done; lia.
Qed.

Lemma set_store_spec s m x :
  repr0 s m -> itemCount s < size s ->
  exists i, find_bucket hash eq s x = Some i /\ bucket s i = Some (m !! key x) /\
    repr0 (set_store s i (m !! key x) x) (<[key x := x]> m) /\
    itemCount (set_store s i (m !! key x) x) = Z.of_nat (base.size (<[key x := x]> m)).
Proof.
  intros Hr Hlt. destruct (set_store_on _ s m x Hr Hlt) as (d & _ & Ef & Eb & _ & [] & Ec).
  { intros P a HP _. exact (ok_reach _ _ _ (r_table _ _ _ Hr) P a I HP). }
  exists ((hash x + d) mod size s). split; [done|]. split; [done|]. split; [|done].
  constructor; try done. eapply table_ok_weaken; [|eassumption]. now left.
Qed.

(** An addition that does not exceed the load stops after the store. *)
Lemma set_add_stored depth s i t x :
  find_bucket hash eq s x = Some i -> bucket s i = Some t ->
  itemCount (set_store s i t x) <= max_load (size s) ->
  set_add hash eq depth s x = Some (set_store s i t x, t).
Proof.
  intros Ef Eb Hc. destruct depth; cbn [set_add]; rewrite Ef; cbn [mbind option_bind]; rewrite Eb;
    cbn [mbind option_bind]; fold (set_store s i t x); change (size (set_store s i t x)) with (size s);
    now rewrite (proj2 (Z.ltb_ge _ _)).
Qed.

Lemma set_add_fits depth s m x :
  repr s m -> Z.of_nat (base.size (<[key x := x]> m)) <= max_load (size s) ->
  exists s', set_add hash eq depth s x = Some (s', m !! key x) /\ repr s' (<[key x := x]> m) /\ size s' = size s.
Proof.
  intros [Hr Hload] Hfit. destruct (size_props s (r_size _ _ _ Hr)) as (Hn & Hml & Hmax).
  destruct (set_store_spec s m x Hr) as (i & Ef & Eb & Hr' & Ec); [lia|].
  exists (set_store s i (m !! key x) x).
  split; [apply set_add_stored; try done; lia|]. split; [|done]. split; [done|]. rewrite Ec. exact Hfit.
Qed.

(** ** Adding the items of a table *)

Definition insert_all m (l : list A) : gmap K A := foldl (fun m a => <[key a := a]> m) m l.

Lemma foldM_items {St} (f : St -> A -> option St) (st : St) (l : list (option A)) :
  foldM (fun st t => match t with Some a => f st a | None => Some st end) st l = foldM f st (omap id l).
Proof.
  revert st; induction l as [|[a|] l IH]; intros st; cbn; [done| |].
  - destruct (f st a); [|done]. apply IH.
  - apply IH.
Qed.

(** Adding a list of items that fits the table. *)
Lemma add_all_fits depth l s m :
  repr s m -> Z.of_nat (base.size m) + len l <= max_load (size s) ->
  exists s', foldM (fun s a => fst <$> set_add hash eq depth s a) s l = Some s' /\
    repr s' (insert_all m l) /\ size s' = size s.
Proof.
  revert s m; induction l as [|a l IH]; intros s m Hr Hfit; cbn [foldM insert_all foldl]; [eauto|].
  cbn [length] in Hfit. pose proof (card_insert m (key a) a) as Ec.
  assert (Hc : Z.of_nat (base.size (<[key a := a]> m)) <= Z.of_nat (base.size m) + 1) by (rewrite Ec; destruct (m !! key a); lia).
  destruct (set_add_fits depth s m a Hr) as (s1 & E1 & Hr1 & Es1); [lia|].
  rewrite E1. cbn. destruct (IH s1 _ Hr1) as (s' & E & Hr' & Es'); [rewrite Es1; lia|].
  exists s'. split; [exact E|]. split; [exact Hr'|congruence].
Qed.
Lemma insert_all_notin m l k : (forall a, a ∈ l -> key a <> k) -> insert_all m l !! k = m !! k.
Proof.
  unfold insert_all. revert m; induction l as [|c l IH]; intros m Hl; cbn; [done|].
  rewrite IH by (intros; apply Hl; now right). apply lookup_insert_ne. apply Hl. now left.
Qed.

Lemma insert_all_in m l a :
  a ∈ l -> (forall b, b ∈ l -> key b = key a -> b = a) -> insert_all m l !! key a = Some a.
Proof.
  revert m; induction l as [|c l IH]; intros m Ha Hl; [now apply not_elem_of_nil in Ha|].
  destruct (decide (a ∈ l)) as [Hin|Hn].
  - apply IH; [done|]. intros b Hb. apply Hl. now right.
  - apply elem_of_cons in Ha as [->|]; [|done].
    change (insert_all (<[key c := c]> m) l !! key c = Some c).
    rewrite insert_all_notin; [apply lookup_insert_eq|].
    intros b Hb Ek. apply Hn. rewrite <- (Hl b); [done|now right|done].
Qed.

(** Adding the items of a table adds its map. *)
Lemma insert_all_table T m0 m : 0 < len T -> table_ok T m -> insert_all m0 (omap id T) = m ∪ m0.
Proof.
  intros Hn [Hr Hu Ha]. apply map_eq. intros k.
  assert (Hel : forall a, a ∈ omap id T <-> m !! key a = Some a).
  { intros a. rewrite elem_of_omap_slot by done. rewrite Ha. split; intros [P HP]; exists P; tauto. }
  destruct (m !! k) as [a|] eqn:Em.
  - rewrite (lookup_union_Some_l _ _ _ _ Em). pose proof Em as E. apply Ha in E as (P & HP & <-).
    apply insert_all_in; [apply Hel; done|].
    intros b Hb Ek. apply Hel in Hb. rewrite Ek in Hb. congruence.
  - rewrite lookup_union_r by done. apply insert_all_notin.
    intros a Ha' Ek. apply Hel in Ha'. congruence.
Qed.

(** ** Growing *)

Lemma sizes_index k n : tableSizes !! k = Some n -> size_index tableSizes n = k.
Proof.
  intros Hk. assert (F : forallb (fun i => match tableSizes !! i with
                      | Some n => Nat.eqb (size_index tableSizes n) i | None => true end)
                    (seq 0 (length tableSizes)) = true) by (vm_compute; reflexivity).
  rewrite forallb_forall in F. specialize (F k). rewrite Hk in F. apply Nat.eqb_eq, F, in_seq.
  apply lookup_lt_Some in Hk. lia.
Qed.

Lemma sizes_next k n n' :
  tableSizes !! S k = Some n -> tableSizes !! S (S k) = Some n' -> max_load n + 1 <= max_load n'.
Proof.
  intros Hk Hk'. assert (F : forallb (fun i => match tableSizes !! S i, tableSizes !! S (S i) with
                      | Some n, Some n' => max_load n + 1 <=? max_load n' | _, _ => true end)
                    (seq 0 (length tableSizes)) = true) by (vm_compute; reflexivity).
  rewrite forallb_forall in F. specialize (F k). rewrite Hk, Hk' in F. apply Z.leb_le, F, in_seq.
  apply lookup_lt_Some in Hk. lia.
Qed.

Lemma repr_empty n : (exists k, tableSizes !! S k = Some n) -> repr (mkSet (replicate (Z.to_nat n) None) n 0) ∅.
Proof.
  intros Hk. destruct (size_props (mkSet [] n 0) Hk) as (Hn & _ & _); simpl in Hn.
  assert (Hs : forall p, slot (replicate (Z.to_nat n) None : list (option A)) p = None).
  { intros p. unfold slot. destruct (_ !! _) as [t|] eqn:E; [|done].
    apply lookup_replicate in E as [-> _]. done. }
  assert (Ho : forall j, omap id (replicate j (None : option A)) = []) by (induction j; cbn; auto).
  split; [|unfold max_load; simpl; zdiv_lia].
  constructor; cbn [table size itemCount]; rewrite ?Ho; try done.
  - rewrite length_replicate. lia.
  - constructor.
    + intros P a. now rewrite Hs.
    + intros P Q a b. now rewrite Hs.
    + intros k a. rewrite lookup_empty. split; [done|]. intros (P & HP & _). now rewrite Hs in HP.
Qed.

Lemma grow_spec depth s m k n' :
  repr0 s m -> itemCount s <= max_load (size s) + 1 ->
  tableSizes !! S k = Some (size s) -> tableSizes !! S (S k) = Some n' ->
  exists s', _BRSetGrow (fun s a => fst <$> set_add hash eq depth s a) s (size s) = Some s' /\
    repr s' m /\ size s' = n'.
Proof.
  intros Hr Hc Hk Hk'. unfold _BRSetGrow, each_item, _BRSetInit. rewrite (sizes_index _ _ Hk), Hk'.
  rewrite foldM_items. pose proof (sizes_next _ _ _ Hk Hk').
  destruct (size_props s (r_size _ _ _ Hr)) as (? & _).
  destruct (add_all_fits depth (omap id (table s)) (mkSet (replicate (Z.to_nat n') None) n' 0) ∅)
    as (s' & E & Hr' & Es).
  - apply repr_empty. eauto.
  - rewrite map_size_empty. simpl. rewrite <- (r_count _ _ _ Hr). lia.
  - exists s'. split; [exact E|]. split; [|exact Es].
    rewrite (insert_all_table (table s) ∅ m), map_union_empty in Hr'; [done| |apply Hr].
    rewrite (r_len _ _ _ Hr). lia.
Qed.

(** Items the largest table can hold. *)
Definition set_max : Z := max_load 3914111041.

Lemma last_size k n : tableSizes !! S k = Some n -> tableSizes !! S (S k) = None -> n = 3914111041.
Proof.
  intros Hk Hk'. apply lookup_ge_None in Hk'. pose proof (lookup_lt_Some _ _ _ Hk) as Hl.
  change (length tableSizes) with 51%nat in *. assert (k = 49)%nat as -> by lia. simpl in Hk. congruence.
Qed.

Lemma set_add_grows depth s x i t :
  find_bucket hash eq s x = Some i -> bucket s i = Some t ->
  max_load (size s) < itemCount (set_store s i t x) ->
  set_add hash eq (S depth) s x =
  (s' ← _BRSetGrow (fun s a => fst <$> set_add hash eq depth s a) (set_store s i t x) (size s); Some (s', t)).
Proof.
  intros Ef Eb Hc. cbn [set_add]. rewrite Ef; cbn [mbind option_bind]; rewrite Eb; cbn [mbind option_bind].
  fold (set_store s i t x). change (size (set_store s i t x)) with (size s).
  now rewrite (proj2 (Z.ltb_lt _ _) Hc).
Qed.

Lemma add_refines s m x :
  repr s m -> Z.of_nat (base.size (<[key x := x]> m)) <= set_max ->
  exists s', BRSetAdd hash eq s x = Some (s', m !! key x) /\ repr s' (<[key x := x]> m).
Proof.
  intros Hr Hmax. destruct (Z.le_gt_cases (Z.of_nat (base.size (<[key x := x]> m))) (max_load (size s))) as [Hf|Hg].
  { destruct (set_add_fits (length tableSizes) s m x Hr Hf) as (s' & ? & ? & _). eauto. }
  pose proof Hr as [Hr0 Hload]. destruct (size_props s (r_size _ _ _ Hr0)) as (Hn & Hml & _).
  destruct (set_store_spec s m x Hr0) as (i & Ef & Eb & Hr' & Ec); [lia|].
  destruct (r_size _ _ _ Hr0) as [k Hk].
  destruct (tableSizes !! S (S k)) as [n'|] eqn:Hk'.
  2:{ pose proof (last_size _ _ Hk Hk') as En. rewrite En in Hg. unfold set_max in Hmax. lia. }
  destruct (grow_spec 50 (set_store s i (m !! key x) x) _ k n' Hr') as (s' & Es & Hrs & _); [|exact Hk|exact Hk'|].
  { change (size (set_store s i (m !! key x) x)) with (size s).
    pose proof (card_insert m (key x) x). rewrite Ec. rewrite (r_card _ _ _ Hr0) in *. destruct (m !! key x); lia. }
  exists s'. split; [|exact Hrs]. unfold BRSetAdd. change (length tableSizes) with 51%nat.
  rewrite (set_add_grows 50 s x i _ Ef Eb); change (size (set_store s i (m !! key x) x)) with (size s) in *.
  - rewrite Es. reflexivity.
  - rewrite Ec. lia.
Qed.
(** ** Lookup *)

Lemma get_refines s m x : repr s m -> BRSetGet hash eq s x = Some (m !! key x).
Proof.
  intros [Hr Hload]. destruct (size_props s (r_size _ _ _ Hr)) as (Hn & Hml & _).
  destruct Hr as [Hl Hsz Hc Hm Ht].
  destruct (find_bucket_spec everywhere s m x) as (d & Hd & Ef & Es & _); [done|lia|lia|done| |].
  { intros P a HP _. exact (ok_reach _ _ _ Ht P a I HP). }
  unfold BRSetGet. rewrite Ef. cbn [mbind option_bind].
  rewrite bucket_slot by (done || apply Z.mod_pos_bound; lia).
  f_equal. rewrite <- Es. apply slot_mod. rewrite Hl. apply Zmod_mod.
Qed.

(** ** Removing *)

(** The first empty bucket after position [j]. *)
Lemma first_empty T j :
  (exists p, 0 <= p < len T /\ slot T p = None) -> occ T j ->
  exists e, 1 <= e < len T /\ slot T (j + e) = None /\ forall k, 0 <= k < e -> occ T (j + k).
Proof.
  intros (p & Hp & Ep) Hj.
  assert (G : forall n : nat, (exists e, 0 <= e < Z.of_nat n /\ slot T (j + e) = None /\ forall k, 0 <= k < e -> occ T (j + k)) \/
                forall k, 0 <= k < Z.of_nat n -> occ T (j + k)).
  { induction n as [|n [(e & He & H')|IH]]; [right; lia|left; exists e; split; [lia|done]|].
    destruct (slot T (j + Z.of_nat n)) eqn:E.
    - right. intros k Hk. destruct (Z.eq_dec k (Z.of_nat n)) as [->|]; [unfold occ; congruence|apply IH; lia].
    - left. exists (Z.of_nat n). split; [lia|]. split; [done|]. exact IH. }
  destruct (G (length T)) as [(e & He & E0 & Ho)|Hall].
  - exists e. split; [|done]. destruct (Z.eq_dec e 0) as [->|]; [|lia]. rewrite Z.add_0_r in E0. done.
  - exfalso. pose proof (Z.mod_pos_bound (p - j) (len T) ltac:(lia)) as Hb. apply (Hall _ Hb).
    rewrite <- Ep. apply slot_mod. rewrite Zplus_mod_idemp_r. f_equal. lia.
Qed.

Lemma window_slot T T' j p :
  len T' = len T -> 0 < len T -> (exists q, 0 <= q < len T /\ (j + q) mod len T = p mod len T /\ slot T' (j + q) = slot T (j + q)) ->
  slot T' p = slot T p.
Proof.
  intros Hl Hn (q & Hq & Em & Es). rewrite (slot_mod T p (j + q)) by done.
  rewrite <- Es. apply slot_mod. now rewrite Hl.
Qed.

Lemma window_pos n j p : 0 < n -> exists q, 0 <= q < n /\ (j + q) mod n = p mod n /\ q = (p - j) mod n.
Proof.
  intros Hn. exists ((p - j) mod n). split; [now apply Z.mod_pos_bound|]. split; [|done].
  rewrite Zplus_mod_idemp_r. f_equal. lia.
Qed.

(** Taking the item of a bucket out keeps the others' keys. *)
Lemma table_ok_delete G T m i a :
  0 <= i < len T -> table_ok_on G T m -> slot T i = Some a ->
  table_ok_on (fun _ => False) (<[Z.to_nat i := None]> T) (delete (key a) m).
Proof.
  intros Hi [Hr Hu Ha] Hsl.
  assert (Hslot : forall P b, slot (<[Z.to_nat i := None]> T) P = Some b -> P mod len T <> i /\ slot T P = Some b).
  { intros P b. rewrite slot_insert by done. destruct (decide _); [done|]. auto. }
  constructor.
  - intros P b [].
  - intros P Q b c HP HQ Ek. rewrite length_insert. destruct (Hslot _ _ HP), (Hslot _ _ HQ). eauto.
  - intros k b. destruct (decide (k = key a)) as [->|Hk].
    + rewrite lookup_delete_eq. split; [done|]. intros (P & HP & Ek). destruct (Hslot _ _ HP) as [Hne HP'].
      exfalso. apply Hne. rewrite (Hu _ _ _ _ HP' Hsl Ek). now apply Z.mod_small.
    + rewrite lookup_delete_ne by done. rewrite Ha. split; intros (P & HP & Ek); exists P; (split; [|done]).
      * rewrite slot_insert_ne; [done|done|]. intros E. apply Hk. rewrite <- Ek.
        rewrite (slot_mod T P i), Hsl in HP by (rewrite E; symmetry; now apply Z.mod_small). congruence.
      * now destruct (Hslot _ _ HP).
Qed.

(** ** The cleanup loop *)

Section cleanup.
(** The table [T0] before the removal, the emptied position [j], the end [e] of its cluster. *)
Context (T0 : list (option A)) (m0 : gmap K A) (j e : Z).
Notation n := (len T0).
Context (Hok : table_ok T0 m0) (Hj : 0 <= j < n) (He : 1 <= e < n) (Hend : slot T0 (j + e) = None)
  (Hocc : forall k, 0 <= k < e -> occ T0 (j + k)).

(** Positions whose items are in order before round [k]. *)
Definition settled (k P : Z) : Prop := let q := (P - j) mod n in q < k \/ e <= q.

(** [T] is the table before round [k]: from offset [k] on it is still [T0]. *)
Record in_cleanup (k : Z) T m : Prop := {
  ic_len : len T = n;
  ic_ok : table_ok_on (settled k) T m;
  ic_same : forall q, k <= q < n -> slot T (j + q) = slot T0 (j + q);
}.

Lemma offset_pos q : 0 <= q < n -> (j + q - j) mod n = q.
Proof. intros. replace (j + q - j) with q by lia. now apply Z.mod_small. Qed.

(** Emptying position [j + k] breaks the way to no settled item: such a way would cross [j + e]. *)
Lemma settled_avoids k T m P a :
  in_cleanup k T m -> 0 <= k < e -> slot T P = Some a -> settled k P -> P mod n <> (j + k) mod n ->
  reach (<[Z.to_nat ((j + k) mod n) := None]> T) P a.
Proof.
  intros [Hl Ht Hs] Hk HP Hset Hne. destruct (ok_reach _ _ _ Ht P a Hset HP) as (d & Hd & Em & Ho).
  rewrite Hl in *. destruct (window_pos n j P ltac:(lia)) as (q & Hq & Eq & Eqd).
  unfold settled in Hset. rewrite <- Eqd in Hset.
  assert (Hto : forall d', slot T (j + q - d') = slot T (P - d')).
  { intros d'. apply slot_mod. rewrite Hl. exact (mod_shift _ _ (- d') _ Eq). }
  assert (Hend' : slot T (j + e) = None) by (rewrite Hs by lia; exact Hend).
  assert (Hcross : forall d', 0 <= d' <= d -> (j + q - d') mod n <> (j + e) mod n).
  { intros d' Hd' E. apply (Ho d' Hd'). rewrite <- Hto, <- Hend'. apply slot_mod. now rewrite Hl. }
  exists d. rewrite length_insert, Hl. split; [done|]. split; [done|].
  intros d' Hd'. unfold occ. rewrite slot_insert_ne; rewrite ?Hl.
  - exact (Ho d' Hd').
  - apply Z.mod_pos_bound. lia.
  - change (P - d') with (P + - d'). rewrite <- (mod_shift _ _ (- d') _ Eq). change (j + q + - d') with (j + q - d'). intros E.
    destruct Hset as [Hlt|Hge].
    + assert (d < q + n - e).
      { destruct (Z.lt_ge_cases d (q + n - e)); [done|]. exfalso. apply (Hcross (q + n - e)); [lia|].
        replace (j + q - (q + n - e)) with (j + e + (-1) * n) by lia. apply Z_mod_plus_full. }
      destruct (Z.le_gt_cases (j + k) (j + q - d')).
      * lia.
      * apply mod_eq_window in E; lia.
    + assert (d < q - e).
      { destruct (Z.lt_ge_cases d (q - e)); [done|]. exfalso. apply (Hcross (q - e)); [lia|]. f_equal. lia. }
      symmetry in E. apply mod_eq_window in E; lia.
Qed.

(** The item of position [j + k] finds its new bucket at [j + k] or before it, inside the cluster. *)
Lemma new_position k T1 t d :
  len T1 = n -> 1 <= k < e -> slot T0 (j + k) = Some t -> slot T1 (j + k) = None ->
  (forall q, k < q < n -> slot T1 (j + q) = slot T0 (j + q)) ->
  0 <= d < n -> (forall d', 0 <= d' < d -> occ T1 (hash t + d')) -> slot T1 (hash t + d) = None ->
  forall q, k < q < n -> (j + q) mod n <> (hash t + d) mod n.
Proof.
  intros Hl1 Hk Ht Hk1 Hs Hd Hocc1 Hnone q Hq E.
  destruct (ok_reach _ _ _ Hok _ _ I Ht) as (d0 & Hd0 & Em & Ho).
  assert (Hpos : forall x, (hash t + x) mod n = (j + k - (d0 - x)) mod n).
  { intros x. replace (j + k - (d0 - x)) with (j + k - d0 + x) by lia. symmetry. now apply mod_shift. }
  assert (Hdle : d <= d0).
  { destruct (Z.le_gt_cases d d0) as [|Hgt]; [done|exfalso].
    apply (Hocc1 d0); [lia|]. rewrite (slot_mod T1 _ (j + k)); [done|].
    rewrite Hl1, Hpos. f_equal. lia. }
  rewrite Hpos in E. set (x := d0 - d) in *.
  assert (Hx : d0 < k + n - e).
  { destruct (Z.lt_ge_cases d0 (k + n - e)); [done|exfalso]. apply (Ho (k + n - e)); [lia|].
    rewrite <- Hend. apply slot_mod. replace (j + k - (k + n - e)) with (j + e + (-1) * n) by lia.
    apply Z_mod_plus_full. }
  destruct (Z.le_gt_cases x k).
  - symmetry in E. apply mod_eq_window in E; lia.
  - assert (Eq : q = k - x + n).
    { replace (j + k - x) with (j + (k - x + n) + (-1) * n) in E by lia. rewrite Z_mod_plus_full in E.
      destruct (Z.le_gt_cases q (k - x + n)).
      - apply mod_eq_window in E; lia.
      - symmetry in E. apply mod_eq_window in E; lia. }
    apply (Ho x); [lia|]. rewrite (slot_mod T0 _ (j + q)) by exact (eq_sym E).
    rewrite <- Hs by lia. rewrite <- Hnone. apply slot_mod. rewrite Hl1, Hpos. exact E.
Qed.

Record cleaning (k : Z) s m : Prop := {
  cl_repr : repr_on (settled k) s m;
  cl_size : size s = n;
  cl_same : forall q, k <= q < n -> slot (table s) (j + q) = slot T0 (j + q);
  cl_load : itemCount s <= max_load (size s);
}.

Lemma cleaning_take k s m t :
  cleaning k s m -> 1 <= k < e -> slot T0 (j + k) = Some t ->
  let s1 := set_bucket s ((j + k) mod n) None (itemCount s - 1) in
  repr_on (settled k) s1 (delete (key t) m) /\ m !! key t = Some t.
Proof.
  intros [[Hl Hsz Hc Hm Ht] Hsn Hs Hload] Hk Hsl s1. rewrite Hsn in Hl.
  destruct (size_props s Hsz) as (Hn & Hml & Hmax).
  set (i := (j + k) mod n). assert (Hi : 0 <= i < n) by (apply Z.mod_pos_bound; lia).
  assert (Hti : slot (table s) i = Some t).
  { rewrite <- Hsl, <- Hs by lia. apply slot_mod. rewrite Hl. apply Zmod_mod. }
  assert (Hmt : m !! key t = Some t) by (apply (ok_abs _ _ _ Ht); eauto).
  split; [|done].
  assert (El : table s !! Z.to_nat i = Some (Some t)) by (rewrite <- Hti; apply lookup_slot; lia).
  pose proof (count_insert _ _ _ None El) as Ec. simpl in Ec.
  assert (Hd : (base.size m = S (base.size (delete (key t) m)))%nat).
  { rewrite map_size_delete, Hmt. assert (base.size m <> 0%nat); [|lia].
    intros E0. apply map_size_empty_iff in E0. subst m. rewrite lookup_empty in Hmt. done. }
  constructor; unfold s1; cbn [set_bucket table size itemCount]; fold i.
  - rewrite length_insert. congruence.
  - done.
  - rewrite u64_id by lia. lia.
  - rewrite u64_id by lia. lia.
  - destruct (table_ok_delete (settled k) (table s) m i t) as [_ Hu Ha]; [lia|exact Ht|exact Hti|]. constructor; [|done|done].
    intros P a HP. rewrite slot_insert by lia. destruct (decide _) as [|HPi]; [done|]. intros Ha'.
    apply (settled_avoids k (table s) m); [constructor; auto|lia|done|done|]. rewrite Hl in HPi. exact HPi.
Qed.

Lemma cleaning_step k s m t :
  cleaning k s m -> 1 <= k < e -> slot T0 (j + k) = Some t ->
  exists s' r, BRSetAdd hash eq (set_bucket s ((j + k) mod n) None (itemCount s - 1)) t = Some (s', r) /\
    cleaning (k + 1) s' m.
Proof.
  intros Hcl Hk Hsl. destruct (cleaning_take k s m t Hcl Hk Hsl) as (Hr1 & Hmt).
  destruct Hcl as [[Hl Hsz Hc Hm Ht] Hsn Hs Hload]. rewrite Hsn in Hl.
  set (s1 := set_bucket _ _ _ _) in *. set (i0 := (j + k) mod n) in *.
  destruct (size_props s Hsz) as (Hn & Hml & Hmax).
  assert (Hi0 : 0 <= i0 < n) by (apply Z.mod_pos_bound; lia).
  assert (Hl1 : len (table s1) = n) by (unfold s1; cbn; rewrite length_insert; lia).
  assert (Hc1 : itemCount s1 = itemCount s - 1).
  { unfold s1; cbn. apply u64_id. pose proof (r_card _ _ _ Hr1) as E. unfold s1 in E; cbn in E.
    assert (base.size m <> 0%nat); [|lia].
    intros E0. apply map_size_empty_iff in E0. subst m. rewrite lookup_empty in Hmt. done. }
  destruct (set_store_on _ s1 (delete (key t) m) t Hr1) as (d & Hd & Ef & Eb & Ho & Hr' & Ec);
    [change (size s1) with (size s); lia| |].
  { intros P a HP Ek. assert (E : delete (key t) m !! key t = Some a).
    { apply (ok_abs _ _ _ (r_table _ _ _ Hr1)). eauto. }
    rewrite lookup_delete_eq in E. done. }
  rewrite lookup_delete_eq, insert_delete_id in * by done.
  change (size s1) with (size s) in *. rewrite Hsn in *.
  assert (Hcount : itemCount (set_store s1 ((hash t + d) mod n) None t) = itemCount s) by lia.
  exists (set_store s1 ((hash t + d) mod n) None t), None.
  assert (Hi : 0 <= (hash t + d) mod n < n) by (apply Z.mod_pos_bound; lia).
  rewrite bucket_slot in Eb by (change (size s1) with (size s); lia). injection Eb as Eb.
  assert (Hnone : slot (table s1) (hash t + d) = None).
  { transitivity (slot (table s1) ((hash t + d) mod n)); [|exact Eb].
    apply slot_mod. rewrite Hl1. symmetry. apply Zmod_mod. }
  assert (Hs1 : forall q, 0 <= q < n -> slot (table s1) (j + q) = if decide (q = k) then None else slot (table s) (j + q)).
  { intros q Hq. unfold s1; cbn. rewrite slot_insert by lia. rewrite Hl.
    destruct (decide (q = k)) as [->|Hne]; [now rewrite decide_True|].
    rewrite decide_False; [done|]. intros E. unfold i0 in E.
    destruct (Z.le_gt_cases q k); [|symmetry in E]; apply mod_eq_window in E; lia. }
  assert (Hnew : forall q, k < q < n -> (j + q) mod n <> (hash t + d) mod n).
  { apply (new_position k (table s1)); try done; try lia.
    - rewrite Hs1 by lia. now rewrite decide_True.
    - intros q Hq. rewrite Hs1, decide_False by lia. apply Hs. lia. }
  split; [apply set_add_stored; [done| |]; [rewrite bucket_slot by (change (size s1) with (size s); lia); exact (f_equal Some Eb)|
          rewrite Hcount; change (size s1) with (size s); rewrite Hsn; exact Hload]|].
  constructor.
  - destruct Hr' as [R1 R2 R3 R4 R5]. constructor; try done. eapply table_ok_weaken; [|exact R5].
    intros P a [Hq|Hq] HP; [|now left; right].
    destruct (window_pos n j P ltac:(lia)) as (q & Hqn & Eq & Eqd). rewrite <- Eqd in Hq.
    destruct (decide (q = k)) as [Eqk|]; [|left; left; rewrite <- Eqd; lia].
    right. rewrite <- Eq. destruct (decide ((j + q) mod n = (hash t + d) mod n)) as [|Hpq]; [done|exfalso].
    assert (HP' : slot (table (set_store s1 ((hash t + d) mod n) None t)) (j + q) = Some a).
    { rewrite <- HP. apply slot_mod. unfold set_store; cbn [set_bucket table].
      rewrite length_insert, Hl1. exact Eq. }
    unfold set_store in HP'; cbn [set_bucket table] in HP'.
    rewrite slot_insert_ne in HP' by (rewrite Hl1; done).
    rewrite Hs1, decide_True in HP' by (lia || done). done.
  - done.
  - intros q Hq. unfold set_store; cbn [set_bucket table]. rewrite slot_insert_ne by (rewrite ?Hl1; auto; apply Hnew; lia).
    rewrite Hs1, decide_False by lia. apply Hs. lia.
  - change (size (set_store _ _ _ _)) with (size s). rewrite Hcount, Hsn. exact Hload.
Qed.

(** The loop runs to the end of the cluster, where every position is settled. *)
Lemma cleanup_loop m : forall fuel k s,
  cleaning k s m -> 1 <= k <= e -> e - k < Z.of_nat fuel ->
  exists s', cleanup hash eq fuel n s ((j + k) mod n) = Some s' /\ repr s' m.
Proof.
  induction fuel as [|fuel IH]; intros k s Hcl Hk Hf; [lia|].
  pose proof (Z.mod_pos_bound (j + k) n ltac:(lia)) as Hi.
  assert (Eb : bucket s ((j + k) mod n) = Some (slot T0 (j + k))).
  { rewrite bucket_slot; [|apply Hcl|rewrite (cl_size _ _ _ Hcl); done].
    f_equal. rewrite <- (cl_same _ _ _ Hcl) by lia. apply slot_mod.
    rewrite (r_len _ _ _ (cl_repr _ _ _ Hcl)), (cl_size _ _ _ Hcl). apply Zmod_mod. }
  cbn [cleanup]. rewrite Eb. cbn [mbind option_bind].
  destruct (decide (k = e)) as [->|Hne].
  - rewrite Hend. exists s. split; [done|]. destruct Hcl as [[R1 R2 R3 R4 R5] Hs _ Hload]. split; [|done].
    constructor; try done. eapply table_ok_weaken; [|exact R5]. intros P a _ _. unfold settled. lia.
  - pose proof (Hocc k ltac:(lia)) as Ho. unfold occ in Ho.
    destruct (slot T0 (j + k)) as [t|] eqn:Et; [|done].
    destruct (cleaning_step k s m t Hcl ltac:(lia) Et) as (s' & r & Ea & Hcl').
    rewrite Ea. cbn [mbind option_bind]. rewrite Zplus_mod_idemp_l, <- Z.add_assoc.
    apply IH; [done|lia|lia].
Qed.
End cleanup.

Lemma remove_refines s m x :
  repr s m -> exists s', BRSetRemove hash eq s x = Some (s', m !! key x) /\ repr s' (delete (key x) m).
Proof.
  intros [Hr Hload]. destruct (size_props s (r_size _ _ _ Hr)) as (Hn & Hml & Hmax).
  pose proof Hr as [Hl Hsz Hc Hm Ht].
  destruct (find_bucket_spec everywhere s m x) as (d & Hd & Ef & Es & _); [done|lia|lia|done| |].
  { intros P a HP _. exact (ok_reach _ _ _ Ht P a I HP). }
  set (j := (hash x + d) mod size s) in *. assert (Hj : 0 <= j < size s) by (apply Z.mod_pos_bound; lia).
  assert (Ej : slot (table s) j = m !! key x).
  { rewrite <- Es. apply slot_mod. rewrite Hl. apply Zmod_mod. }
  unfold BRSetRemove. rewrite Ef. cbn [mbind option_bind]. rewrite bucket_slot, Ej by done. cbn [mbind option_bind].
  destruct (m !! key x) as [r|] eqn:Em.
  2:{ exists s. split; [done|]. rewrite delete_id by done. split; done. }
  assert (Hoccj : occ (table s) j) by (unfold occ; congruence).
  destruct (first_empty (table s) j) as (e & He & Hend & Hocc); [apply empty_slot; lia|done|].
  rewrite Hl in He. set (s1 := set_bucket s j None (itemCount s - 1)).
  (* the table with the bucket emptied is round 1 of the cleanup *)
  assert (Hek : key r = key x) by (apply (ok_abs _ _ _ Ht) in Em as (P & _ & E); exact E).
  assert (El : table s !! Z.to_nat j = Some (Some r)) by (rewrite <- Ej; apply lookup_slot; lia).
  pose proof (count_insert _ _ _ None El) as Ec. simpl in Ec.
  assert (Hdel : (base.size m = S (base.size (delete (key x) m)))%nat).
  { rewrite map_size_delete, Em. assert (base.size m <> 0%nat); [|lia].
    intros E0. apply map_size_empty_iff in E0. subst m. rewrite lookup_empty in Em. done. }
  assert (Hcl : cleaning (table s) j e 1 s1 (delete (key x) m)).
  { constructor; unfold s1; cbn [set_bucket table size itemCount]; try done.
    - constructor; cbn [set_bucket table size itemCount]; try done.
      + rewrite length_insert. exact Hl.
      + rewrite u64_id by lia. lia.
      + rewrite u64_id by lia. lia.
      + destruct (table_ok_delete everywhere (table s) m j r) as [_ Hu Ha]; [lia|done|done|].
        rewrite Hek in Ha. constructor; [|done|done].
        intros P a HP. rewrite slot_insert by lia. destruct (decide _) as [|HPj]; [done|]. intros Ha'.
        pose proof (settled_avoids (table s) j e) as Hav.
        specialize (Hav ltac:(lia) Hend 0 (table s) m P a).
        rewrite Z.add_0_r, Hl in Hav. replace (j mod size s) with j in Hav by (symmetry; now apply Z.mod_small).
        apply Hav; try lia; try done.
        * constructor; [done| |done]. eapply table_ok_weaken; [|exact Ht]. done.
        * unfold settled in *. rewrite Hl in *.
          destruct (window_pos (size s) j P ltac:(lia)) as (q & Hq & Eq & Eqd). rewrite <- Eqd in *.
          destruct (decide (q = 0)) as [->|]; [|lia]. exfalso. apply HPj. rewrite <- Eq, Z.add_0_r. now apply Z.mod_small.
        * rewrite Hl in HPj. exact HPj.
    - intros q Hq. rewrite slot_insert_ne; [done|lia|]. rewrite Hl in *. intros E.
      rewrite <- (Z.mod_small j (size s)) in E at 2 by lia. symmetry in E. apply mod_eq_window in E; lia.
    - rewrite u64_id by lia. lia. }
  destruct (cleanup_loop (table s) m j e Ht ltac:(lia) Hend Hocc (delete (key x) m) (Z.to_nat (size s)) 1 s1 Hcl)
    as (s' & E & Hr'); [lia|lia|].
  rewrite Hl in E. exists s'. split; [|done]. fold s1. rewrite E. reflexivity.
Qed.
(** ** Union, difference, clear *)

Lemma insert_all_size m l : (base.size m <= base.size (insert_all m l))%nat.
Proof.
  unfold insert_all. revert m; induction l as [|a l IH]; intros m; cbn; [done|].
  specialize (IH (<[key a := a]> m)). rewrite map_size_insert in IH. destruct (m !! key a); cbn in IH; lia.
Qed.

Lemma add_all_refines l s m :
  repr s m -> Z.of_nat (base.size (insert_all m l)) <= set_max ->
  exists s', foldM (fun s a => fst <$> BRSetAdd hash eq s a) s l = Some s' /\ repr s' (insert_all m l).
Proof.
  revert s m; induction l as [|a l IH]; intros s m Hr Hmax; cbn [foldM insert_all foldl]; [eauto|].
  change (insert_all m (a :: l)) with (insert_all (<[key a := a]> m) l) in Hmax.
  pose proof (insert_all_size (<[key a := a]> m) l).
  destruct (add_refines s m a Hr) as (s1 & E1 & Hr1); [lia|].
  rewrite E1. cbn. apply IH; [exact Hr1|exact Hmax].
Qed.

Lemma remove_all_refines l s m :
  repr s m -> exists s', foldM (fun s a => fst <$> BRSetRemove hash eq s a) s l = Some s' /\
    repr s' (foldl (fun m a => delete (key a) m) m l).
Proof.
  revert s m; induction l as [|a l IH]; intros s m Hr; cbn [foldM foldl]; [eauto|].
  destruct (remove_refines s m a Hr) as (s1 & E1 & Hr1). rewrite E1. cbn. apply IH. exact Hr1.
Qed.

Lemma lookup_delete_all m l k :
  foldl (fun m a => delete (key a) m) m l !! k = if decide (k ∈ key <$> l) then None else m !! k.
Proof.
  revert m; induction l as [|a l IH]; intros m; cbn [foldl].
  - rewrite decide_False; [done|]. apply not_elem_of_nil.
  - rewrite IH, fmap_cons. destruct (decide (k ∈ key <$> l)) as [Hin|Hin].
    + rewrite decide_True; [done|]. now right.
    + destruct (decide (k = key a)) as [->|Hk].
      * rewrite lookup_delete_eq, decide_True; [done|]. now left.
      * rewrite lookup_delete_ne, decide_False; [done| |done]. intros [?|?]%elem_of_cons; done.
Qed.

Lemma delete_all_table T m0 m : 0 < len T -> table_ok T m ->
  foldl (fun m a => delete (key a) m) m0 (omap id T) = m0 ∖ m.
Proof.
  intros Hn [_ _ Ha]. apply map_eq. intros k. rewrite lookup_delete_all, lookup_difference.
  destruct (m !! k) as [a|] eqn:Em.
  - rewrite decide_True; [done|]. apply Ha in Em as (P & HP & <-).
    apply list_elem_of_fmap_2. apply elem_of_omap_slot; eauto.
  - rewrite decide_False; [done|]. intros (a & -> & Hin)%list_elem_of_fmap.
    apply elem_of_omap_slot in Hin as [P HP]; [|done].
    assert (E : m !! key a = Some a) by (apply Ha; eauto). congruence.
Qed.

Lemma repr_len s m : repr s m -> 0 < len (table s).
Proof. intros [Hr _]. rewrite (r_len _ _ _ Hr). destruct (size_props s (r_size _ _ _ Hr)). lia. Qed.

Lemma repr_table s m : repr s m -> table_ok (table s) m.
Proof. intros [Hr _]. apply Hr. Qed.

Lemma repr_clear s m : repr s m -> repr (BRSetClear s) ∅.
Proof.
  intros [Hr _]. destruct (size_props s (r_size _ _ _ Hr)) as [Hn _].
  pose proof (repr_empty (size s) (r_size _ _ _ Hr)) as He. unfold BRSetClear.
  replace (length (table s)) with (Z.to_nat (size s)); [exact He|].
  rewrite <- (r_len _ _ _ Hr). lia.
Qed.

Lemma new_repr capacity : capacity <= 2609407319 -> repr (BRSetNew capacity) ∅.
Proof.
  intros Hc. unfold BRSetNew, _BRSetInit.
  assert (Hi : (size_index tableSizes capacity < 50)%nat).
  { assert (G : forall l, Exists (fun n => capacity <= n) l -> (size_index l capacity < length l)%nat).
    { induction 1 as [n l Hn|n l _ IH]; cbn [size_index length].
      - rewrite (proj2 (Z.ltb_ge _ _)) by lia. lia.
      - destruct (n <? capacity); lia. }
    assert (E : Exists (fun n => capacity <= n) (take 50 tableSizes)).
    { apply Exists_exists. exists 2609407319. split; [|done]. vm_compute. do 49 right. now left. }
    apply G in E. assert (Gt : forall l, (size_index (take 50 l) capacity < 50)%nat ->
      (size_index (take 50 l) capacity < length (take 50 l))%nat -> size_index l capacity = size_index (take 50 l) capacity).
    { generalize 50%nat. clear. intros n l. revert n. induction l as [|x l IH]; intros [|n]; cbn; try lia.
      destruct (x <? capacity); [|done]. intros. f_equal. apply IH; lia. }
    rewrite Gt; [|exact E|exact E]. exact E. }
  destruct (tableSizes !! S (size_index tableSizes capacity)) as [n|] eqn:En.
  - apply repr_empty. eauto.
  - apply lookup_ge_None in En. change (length tableSizes) with 51%nat in En. lia.
Qed.
End refinement.

Arguments repr {A K _ _} _ _ _ _.

(** ** Properties *)

Section properties.
Context {A K : Type} `{EqDecision A} `{Countable K} (hash : A -> Z) (eq : A -> A -> bool) (key : A -> K).
Context `{!SetKey hash eq key}.
Implicit Types (s : BRSet A) (m : gmap K A).

(** C26. [BRSetAdd], growth of the table included, implements map insertion: on a set that represents
    [m] it returns the item it replaces, if any, and the new set represents [m] with the item added. *)
Theorem BRSetAdd_refines s m x :
  repr hash key s m -> Z.of_nat (base.size (<[key x := x]> m)) <= set_max ->
  exists s', BRSetAdd hash eq s x = Some (s', m !! key x) /\ repr hash key s' (<[key x := x]> m).
Proof. apply add_refines. exact _. Qed.

(** C27. [BRSetRemove], with the cleanup loop that re-adds the rest of the probe cluster, implements
    map deletion: it terminates, returns the removed item and leaves every other item reachable. *)
Theorem BRSetRemove_refines s m x :
  repr hash key s m ->
  exists s', BRSetRemove hash eq s x = Some (s', m !! key x) /\ repr hash key s' (delete (key x) m).
Proof. apply remove_refines. exact _. Qed.

(** Lookups: [BRSetGet], [BRSetContains] and [BRSetCount] answer as the represented map does, and
    [BRSetIntersects] tells whether the two maps share a key. *)
Theorem BRSetGet_refines s m s2 m2 x :
  repr hash key s m -> repr hash key s2 m2 ->
  BRSetGet hash eq s x = Some (m !! key x) /\
  BRSetContains hash eq s x = Some (bool_decide (key x ∈ dom m)) /\
  BRSetCount s = Z.of_nat (base.size m) /\
  exists b, BRSetIntersects hash eq s s2 = Some b /\ (b = true <-> exists k, k ∈ dom m /\ k ∈ dom m2).
Proof.
  intros Hr Hr2. pose proof (get_refines hash eq key s m) as Hget.
  split; [auto|]. split; [|split].
  - unfold BRSetContains. rewrite Hget by done. cbn. f_equal. apply bool_decide_ext.
    now rewrite elem_of_dom.
  - destruct Hr as [Hr _]. symmetry. apply (r_card _ _ _ _ _ Hr).
  - pose proof (repr_table _ _ _ _ Hr2) as [_ _ Ha].
    assert (Hel : forall a, a ∈ omap id (table s2) <-> m2 !! key a = Some a).
    { intros a. rewrite elem_of_omap_slot by (eapply repr_len; eauto). rewrite Ha.
      split; intros [P HP]; exists P; tauto. }
    assert (G : forall l, exists b, intersects_loop hash eq s l = Some b /\
              (b = true <-> exists a, a ∈ omap id l /\ is_Some (m !! key a))).
    { induction l as [|[a|] l (b & IH & IHb)]; cbn [intersects_loop].
      - exists false. split; [done|]. split; [done|]. intros (a & Hin & _). now apply not_elem_of_nil in Hin.
      - rewrite Hget by done. cbn [mbind option_bind]. destruct (m !! key a) as [c|] eqn:E.
        + rewrite bool_decide_eq_true_2 by eauto. exists true. split; [done|]. split; [|done]. intros _.
          exists a. rewrite E. split; [left|]; eauto.
        + rewrite bool_decide_eq_false_2 by (intros [? ?]; done). exists b. split; [done|]. rewrite IHb.
          split; intros (c & Hc & Hs); exists c; (split; [|done]); [now right|].
          apply elem_of_cons in Hc as [->|]; [|done]. rewrite E in Hs. destruct Hs; done.
      - eauto. }
    destruct (G (table s2)) as (b & E & Hb). exists b. split; [exact E|]. rewrite Hb. split.
    + intros (a & Hin & Hs). exists (key a). rewrite !elem_of_dom. apply Hel in Hin. rewrite Hin. eauto.
    + intros (k & Hk & Hk2). apply elem_of_dom in Hk2 as [a Hk2]. pose proof Hk2 as E'.
      apply Ha in E' as (P & _ & <-). exists a. rewrite Hel. split; [done|]. now apply elem_of_dom.
Qed.

(** [BRSetUnion] and [BRSetMinus], which walk the buckets of the other set while changing their
    own, implement the union (the other set's items win) and the difference of the maps, and
    [BRSetClear] the empty map. *)
Theorem BRSetUnion_Minus_refine s m s2 m2 :
  repr hash key s m -> repr hash key s2 m2 -> Z.of_nat (base.size (m2 ∪ m)) <= set_max ->
  (exists s', BRSetUnion hash eq s s2 = Some s' /\ repr hash key s' (m2 ∪ m)) /\
  (exists s', BRSetMinus hash eq s s2 = Some s' /\ repr hash key s' (m ∖ m2)) /\
  repr hash key (BRSetClear s) ∅.
Proof.
  intros Hr Hr2 Hmax. pose proof (repr_len _ _ _ _ Hr2) as Hl. pose proof (repr_table _ _ _ _ Hr2) as Ht.
  split; [|split].
  - unfold BRSetUnion, each_item. rewrite foldM_items.
    destruct (add_all_refines hash eq key (omap id (table s2)) s m Hr) as (s' & E & Hr').
    + rewrite (insert_all_table _ _ _ _ m2) by done. exact Hmax.
    + rewrite (insert_all_table _ _ _ _ m2) in Hr' by done. eauto.
  - unfold BRSetMinus, each_item. rewrite foldM_items.
    destruct (remove_all_refines hash eq key (omap id (table s2)) s m Hr) as (s' & E & Hr').
    rewrite (delete_all_table _ _ _ m m2) in Hr' by done. eauto.
  - eapply repr_clear; eauto.
Qed.
End properties.

(** A concrete set of integers: items are equal when they agree modulo 100. *)
Definition ex_hash (a : Z) : Z := a mod 100.
Definition ex_eq (a b : Z) : bool := a mod 100 =? b mod 100.

#[export] Instance ex_key : SetKey ex_hash ex_eq ex_hash.
Proof. constructor; intros a b; unfold ex_eq, ex_hash; [apply Z.eqb_eq|done]. Qed.

Definition ex_set : BRSet Z := BRSetNew 2.
Definition ex_repr : repr ex_hash ex_hash ex_set ∅ := new_repr ex_hash ex_hash 2 ltac:(lia).

Lemma BRSetAdd_refines_witness :
  exists s', BRSetAdd ex_hash ex_eq ex_set 107 = Some (s', None) /\ repr ex_hash ex_hash s' {[ 7 := 107 ]}.
Proof.
  apply (BRSetAdd_refines ex_hash ex_eq ex_hash ex_set ∅ 107 ex_repr). vm_compute. discriminate.
Defined.

Lemma BRSetRemove_refines_witness :
  exists s', BRSetRemove ex_hash ex_eq ex_set 7 = Some (s', None) /\ repr ex_hash ex_hash s' (delete 7 ∅).
Proof. exact (BRSetRemove_refines ex_hash ex_eq ex_hash ex_set ∅ 7 ex_repr). Defined.

Lemma BRSetGet_refines_witness : BRSetGet ex_hash ex_eq ex_set 7 = Some None.
Proof. exact (proj1 (BRSetGet_refines ex_hash ex_eq ex_hash ex_set ∅ ex_set ∅ 7 ex_repr ex_repr)). Defined.

Lemma BRSetUnion_Minus_refine_witness :
  exists s', BRSetMinus ex_hash ex_eq ex_set ex_set = Some s' /\ repr ex_hash ex_hash s' (∅ ∖ ∅).
Proof.
  refine (proj1 (proj2 (BRSetUnion_Minus_refine ex_hash ex_eq ex_hash ex_set ∅ ex_set ∅ ex_repr ex_repr _))).
  vm_compute. discriminate.
Defined.

(** A run with growth, collisions and a removal that closes a gap in a probe cluster. *)
Example set_run :
  (s ← foldM (fun s a => fst <$> BRSetAdd ex_hash ex_eq s a) (BRSetNew 0) [7; 14; 21; 28; 107; 35; 1; 2];
   '(s, r) ← BRSetRemove ex_hash ex_eq s 14;
   g ← BRSetGet ex_hash ex_eq s 28;
   g2 ← BRSetGet ex_hash ex_eq s 14;
   Some (size s, itemCount s, r, g, g2, BRSetAll s 10)) =
  Some (13, 6, Some 14, Some 28, None, [1; 28; 2; 107; 21; 35]).
Proof. vm_compute. reflexivity. Qed.
