(* ===== verification/Base58.v ===== *)
(** * Base58: base58 and base58check (BRBase58.c)

    Strings are lists of character codes without the terminating NUL.  The digit buffers of the code
    are big-endian, and each input byte or character is multiplied in from the last digit to the
    first.  The encoder and the decoder are serializers in the sense of CMem: on NULL they return the
    size needed. *)
From stdpp Require Import base numbers list.
From Stdlib Require Import ZArith Lia.
From S2P Require Import Prelude CMem Int Crypto.
Local Open Scope Z_scope.

Definition base58chars : list Z :=
  [49; 50; 51; 52; 53; 54; 55; 56; 57; 65; 66; 67; 68; 69; 70; 71; 72; 74; 75; 76; 77; 78; 80; 81; 82; 83;
   84; 85; 86; 87; 88; 89; 90; 97; 98; 99; 100; 101; 102; 103; 104; 105; 106; 107; 109; 110; 111; 112; 113;
   114; 115; 116; 117; 118; 119; 120; 121; 122].

(** Number of leading elements equal to [z]. *)
Fixpoint leading (z : Z) (l : list Z) : nat :=
  match l with
  | x :: l' => if x =? z then S (leading z l') else O
  | [] => O
  end.

(** [if (p && len <= n) memcpy(p, bs, len); return (! p || len <= n) ? len : 0;] *)
Definition write_result (p : ptr) (n : Z) (bs : list Z) : option (ptr * Z) :=
  match p with
  | None => Some (None, u64 (len bs))
  | Some m => if len bs <=? n then m' ← mem_write m 0 bs; Some (Some m', len bs) else Some (Some m, 0)
  end.

(** ** Encoding *)

(** [for (j = sizeof(buf); j > 0; j--)] of [BRBase58Encode]. *)
Fixpoint encode_step (buf : list Z) (carry : Z) : list Z * Z :=
  match buf with
  | [] => ([], carry)
  | b :: buf' =>
      let '(r, carry) := encode_step buf' carry in
      let carry := u32 (carry + u32 (Z.shiftl b 8)) in
      (carry mod 58 :: r, carry / 58)
  end.

Definition encode_digits (data : list Z) : list Z :=
  foldl (fun buf b => fst (encode_step buf b)) (replicate (Z.to_nat (len data * 138 / 100 + 1)) 0) data.

(** The characters written, without the terminator. *)
Definition base58_string (data : list Z) : list Z :=
  let zcount := leading 0 data in
  let buf := encode_digits (drop zcount data) in
  let i := leading 0 buf in
  replicate zcount (wd base58chars 0) ++ ((fun d => wd base58chars d) <$> drop i buf).

Definition BRBase58Encode (str : ptr) (strLen : Z) (data : list Z) : option (ptr * Z) :=
  write_result str strLen (base58_string data ++ [0]).

(** ** Decoding *)

(** The [switch]: digit value of a character, [UINT32_MAX] if there is none. *)
Definition char_digit (c : Z) : Z :=
  if (49 <=? c) && (c <=? 57) then u32 (c - 49)
  else if (65 <=? c) && (c <=? 72) then u32 (c + (9 - 65))
  else if (74 <=? c) && (c <=? 78) then u32 (c + (17 - 74))
  else if (80 <=? c) && (c <=? 90) then u32 (c + (22 - 80))
  else if (97 <=? c) && (c <=? 107) then u32 (c + (33 - 97))
  else if (109 <=? c) && (c <=? 122) then u32 (c + (44 - 109))
  else UINT32_MAX.

Fixpoint decode_step (buf : list Z) (carry : Z) : list Z * Z :=
  match buf with
  | [] => ([], carry)
  | b :: buf' =>
      let '(r, carry) := decode_step buf' carry in
      let carry := u32 (carry + u32 (b * 58)) in
      (Z.land carry 0xff :: r, Z.shiftr carry 8)
  end.

Fixpoint decode_chars (buf : list Z) (str : list Z) : list Z :=
  match str with
  | [] => buf
  | c :: str' =>
      let carry := char_digit c in
      if 58 <=? carry then buf else decode_chars (fst (decode_step buf carry)) str'
  end.

(** The bytes written. *)
Definition base58_bytes (str : list Z) : list Z :=
  let zcount := leading (wd base58chars 0) str in
  let str := drop zcount str in
  let buf := decode_chars (replicate (Z.to_nat (len str * 733 / 1000 + 1)) 0) str in
  replicate zcount 0 ++ drop (leading 0 buf) buf.

Definition BRBase58Decode (data : ptr) (dataLen : Z) (str : list Z) : option (ptr * Z) :=
  write_result data dataLen (base58_bytes str).

(** ** Base58check *)

(** The checksum follows the payload; four of its bytes are encoded. *)
Definition BRBase58CheckEncode (str : ptr) (strLen : Z) (data : list Z) : option (ptr * Z) :=
  let buf := data ++ BRSHA256_2 data in
  BRBase58Encode str strLen (take (length data + 4) buf).

(** The final copy and return are those of [write_result], but copying [len] bytes out of [buf]. *)
Definition BRBase58CheckDecode (data : ptr) (dataLen : Z) (str : list Z) : option (ptr * Z) :=
  let bufLen := len str in
  '(buf, n) ← BRBase58Decode (Some (replicate (Z.to_nat bufLen) 0)) bufLen str;
  let buf := default [] buf in
  if 4 <=? n then
    let n := n - 4 in
    let md := BRSHA256_2 (take (Z.to_nat n) buf) in
    chk ← mem_read buf n 4;
    let n := if bool_decide (chk = take 4 md) then n else 0 in
    write_result data dataLen (take (Z.to_nat n) buf)
  else write_result data dataLen [].

(** ** Big-endian numerals *)

Definition be_num (B : Z) (l : list Z) : Z := le_num B (reverse l).

Lemma be_num_cons B d l : be_num B (d :: l) = d * B ^ len l + be_num B l.
Proof.
  unfold be_num. rewrite reverse_cons, le_num_app, length_reverse. cbn [le_num]. lia.
Qed.

Lemma be_num_nil B : be_num B [] = 0.
Proof. reflexivity. Qed.

Lemma be_num_zeros B n l : be_num B (replicate n 0 ++ l) = be_num B l.
Proof. induction n as [|n IH]; [done|]. cbn [replicate app]. rewrite be_num_cons, IH. lia. Qed.

Section be_digits.
Context (B : Z) (HB : 1 < B).
Notation digits := (Forall (fun d => 0 <= d < B)).

Lemma be_num_range l : digits l -> 0 <= be_num B l < B ^ len l.
Proof.
  intros H. unfold be_num. rewrite <- (length_reverse l). apply le_num_range; [done|]. now apply Forall_reverse.
Qed.

(** Minimal representations are unique. *)
Lemma be_num_lt a d l :
  digits a -> digits (d :: l) -> 0 < d -> (length a < length (d :: l))%nat -> be_num B a < be_num B (d :: l).
Proof.
  intros Ha Hl Hd Hlen. rewrite be_num_cons. apply be_num_range in Ha.
  apply Forall_cons in Hl as [Hd' Hl]. apply be_num_range in Hl. cbn in Hlen.
  assert (B ^ len a <= B ^ len l) by (apply Z.pow_le_mono_r; lia). nia.
Qed.

Lemma be_num_minimal a b :
  digits a -> digits b -> leading 0 a = O -> leading 0 b = O -> be_num B a = be_num B b -> a = b.
Proof.
  intros Ha Hb La Lb E. destruct (Nat.lt_trichotomy (length a) (length b)) as [H|[H|H]].
  - exfalso. destruct b as [|d b]; [cbn in H; lia|]. cbn in Lb. destruct (Z.eqb_spec d 0); [done|].
    pose proof (be_num_lt a d b Ha Hb ltac:(apply Forall_cons in Hb; lia) H). lia.
  - rewrite <- (reverse_involutive a), <- (reverse_involutive b). f_equal.
    apply (le_num_inj B HB); try (now apply Forall_reverse); [|exact E].
    now rewrite !length_reverse.
  - exfalso. destruct a as [|d a]; [cbn in H; lia|]. cbn in La. destruct (Z.eqb_spec d 0); [done|].
    pose proof (be_num_lt b d a Hb Ha ltac:(apply Forall_cons in Ha; lia) H). lia.
Qed.
End be_digits.

Lemma leading_spec z l : l = replicate (leading z l) z ++ drop (leading z l) l.
Proof.
  induction l as [|x l IH]; cbn [leading]; [done|]. destruct (Z.eqb_spec x z) as [->|]; [|done].
  cbn. now f_equal.
Qed.

Lemma leading_drop z l : leading z (drop (leading z l) l) = O.
Proof.
  induction l as [|x l IH]; cbn [leading]; [done|]. destruct (Z.eqb_spec x z) as [->|]; [done|].
  cbn. now rewrite (proj2 (Z.eqb_neq _ _)).
Qed.

Lemma leading_replicate z n l : leading z l = O -> leading z (replicate n z ++ l) = n.
Proof. intros H. induction n; cbn; [done|]. now rewrite Z.eqb_refl, IHn. Qed.

Lemma be_num_strip B l : be_num B (drop (leading 0 l) l) = be_num B l.
Proof. rewrite (leading_spec 0 l) at 3. now rewrite be_num_zeros. Qed.

(** ** The multiply-and-add steps *)

Lemma encode_step_spec buf carry :
  Forall (fun d => 0 <= d < 58) buf -> 0 <= carry < 256 ->
  let '(r, c) := encode_step buf carry in
  length r = length buf /\ Forall (fun d => 0 <= d < 58) r /\ 0 <= c < 256 /\
  be_num 58 r + c * 58 ^ len buf = be_num 58 buf * 256 + carry.
Proof.
  intros Hb Hc. induction Hb as [|b buf Hb Hbuf IH]; cbn [encode_step].
  - repeat split; try lia; [constructor|]. rewrite be_num_nil. cbn. lia.
  - destruct (encode_step buf carry) as [r c]. destruct IH as (Hl & Hr & Hc' & E).
    rewrite Z.shiftl_mul_pow2 by lia. change (2 ^ 8) with 256. rewrite !u32_id by (try rewrite u32_id; lia).
    rewrite !be_num_cons. cbn [length]. rewrite Hl, pow_nat_S.
    set (P := 58 ^ len buf) in *. set (t := c + b * 256).
    pose proof (Z.div_mod t 58 ltac:(lia)). pose proof (Z.mod_pos_bound t 58 ltac:(lia)).
    split; [lia|]. split; [constructor; [lia|done]|]. split; [unfold t in *; zdiv_lia|].
    set (q := t / 58) in *. set (m := t mod 58) in *. nia.
Qed.

Lemma decode_step_spec buf carry :
  bytes_ok buf -> 0 <= carry < 58 ->
  let '(r, c) := decode_step buf carry in
  length r = length buf /\ bytes_ok r /\ 0 <= c < 58 /\
  be_num 256 r + c * 256 ^ len buf = be_num 256 buf * 58 + carry.
Proof.
  intros Hb Hc. induction Hb as [|b buf Hb Hbuf IH]; cbn [decode_step].
  - repeat split; try lia; [constructor|]. rewrite be_num_nil. cbn. lia.
  - destruct (decode_step buf carry) as [r c]. destruct IH as (Hl & Hr & Hc' & E). unfold is_byte in Hb.
    rewrite !u32_id by (try rewrite u32_id; lia). rewrite land_0xff, shiftr_div by lia. change (2 ^ 8) with 256.
    rewrite !be_num_cons. cbn [length]. rewrite Hl, pow_nat_S.
    set (P := 256 ^ len buf) in *. set (t := c + b * 58).
    pose proof (Z.div_mod t 256 ltac:(lia)). pose proof (Z.mod_pos_bound t 256 ltac:(lia)).
    split; [lia|]. split; [constructor; [unfold is_byte; lia|done]|]. split; [unfold t in *; zdiv_lia|].
    set (q := t / 256) in *. set (m := t mod 256) in *. nia.
Qed.

(** ** The buffers are large enough *)

Lemma buffer_capacity A B p q n :
  0 < A -> 0 < B -> 0 <= p -> 0 < q -> 0 <= n -> A ^ q <= B ^ p -> A ^ n <= B ^ (n * p / q + 1).
Proof.
  intros HA HB Hp Hq Hn Hle.
  assert (Hk : 0 <= n * p / q) by (apply Z.div_pos; nia).
  apply (Z.pow_le_mono_l_iff _ _ q); try (apply Z.pow_nonneg; lia); [lia|]. rewrite <- !Z.pow_mul_r by lia.
  apply Z.le_trans with (B ^ (p * n)).
  - rewrite (Z.mul_comm n q), !Z.pow_mul_r by lia. apply Z.pow_le_mono_l. split; [apply Z.pow_nonneg|]; lia.
  - apply Z.pow_le_mono_r; [lia|]. pose proof (Z.mul_succ_div_gt (n * p) q Hq). lia.
Qed.

Lemma encode_capacity n : 0 <= n -> 256 ^ n <= 58 ^ (n * 138 / 100 + 1).
Proof. intros. apply buffer_capacity; try lia. Qed.

Lemma decode_capacity n : 0 <= n -> 58 ^ n <= 256 ^ (n * 733 / 1000 + 1).
Proof. intros. apply buffer_capacity; lia. Qed.

Notation digits58 := (Forall (fun d => 0 <= d < 58)).

Lemma encode_fold data : bytes_ok data -> forall buf, digits58 buf ->
  be_num 58 buf * 256 ^ len data + be_num 256 data < 58 ^ len buf ->
  let r := foldl (fun buf b => fst (encode_step buf b)) buf data in
  length r = length buf /\ digits58 r /\ be_num 58 r = be_num 58 buf * 256 ^ len data + be_num 256 data.
Proof.
  induction 1 as [|b data Hb Hd IH]; intros buf Hbuf Hcap; cbn [foldl].
  - rewrite be_num_nil. cbn [length]. rewrite Z.pow_0_r. repeat split; [done|lia].
  - pose proof (encode_step_spec buf b Hbuf Hb) as Hs. destruct (encode_step buf b) as [r c].
    destruct Hs as (Hl & Hr & Hc & E). cbn [fst]. rewrite be_num_cons in *. cbn [length] in *. rewrite pow_nat_S in *.
    pose proof (be_num_range 256 eq_refl data Hd). pose proof (be_num_range 58 eq_refl r Hr).
    pose proof (pow_nat_pos 256 eq_refl (length data)).
    set (P := 256 ^ len data) in *. set (Q := 58 ^ len buf) in *.
    assert (Hc0 : c = 0).
    { destruct (Z.eq_dec c 0); [done|exfalso]. assert (Q <= c * Q) by nia. nia. }
    subst c. destruct (IH r Hr) as (Hl' & Hr' & E'); [rewrite Hl; fold Q; nia|].
    rewrite Hl', E'. repeat split; [done|done|]. nia.
Qed.

Lemma be_num_replicate B n : be_num B (replicate n 0) = 0.
Proof. rewrite <- (app_nil_r (replicate n 0)), be_num_zeros. reflexivity. Qed.

Lemma encode_digits_spec data : bytes_ok data ->
  digits58 (encode_digits data) /\ be_num 58 (encode_digits data) = be_num 256 data.
Proof.
  intros Hd. unfold encode_digits. set (n := Z.to_nat _).
  destruct (encode_fold data Hd (replicate n 0)) as (_ & Hr & E).
  - apply Forall_replicate. lia.
  - rewrite be_num_replicate, length_replicate. unfold n.
    pose proof (be_num_range 256 eq_refl data Hd) as Hrg.
    pose proof (encode_capacity (len data) ltac:(lia)).
    assert (0 <= len data * 138 / 100) by (apply Z.div_pos; lia).
    rewrite Z2Nat.id by lia. lia.
  - split; [exact Hr|]. rewrite E, be_num_replicate. lia.
Qed.

(** Characters of digits. *)
Lemma char_digit_chars d : 0 <= d < 58 ->
  char_digit (wd base58chars d) = d /\ (wd base58chars d = wd base58chars 0 -> d = 0) /\ wd base58chars d <> 0.
Proof.
  intros Hd.
  assert (F : forallb (fun d => (char_digit (wd base58chars d) =? d) && (negb (wd base58chars d =? 0)) &&
                (implb (wd base58chars d =? wd base58chars 0) (d =? 0))) (seqZ 0 58) = true) by (vm_compute; reflexivity).
  rewrite forallb_forall in F. specialize (F d). rewrite <- list_elem_of_In, elem_of_seqZ in F.
  specialize (F ltac:(lia)). rewrite !andb_true_iff, Z.eqb_eq, negb_true_iff, Z.eqb_neq in F.
  destruct F as [[F1 F2] F3]. repeat split; try done. intros E. rewrite (proj2 (Z.eqb_eq _ _) E) in F3.
  now apply Z.eqb_eq in F3.
Qed.

Lemma decode_fold ds : digits58 ds -> forall buf, bytes_ok buf ->
  be_num 256 buf * 58 ^ len ds + be_num 58 ds < 256 ^ len buf ->
  let r := decode_chars buf ((fun d => wd base58chars d) <$> ds) in
  length r = length buf /\ bytes_ok r /\ be_num 256 r = be_num 256 buf * 58 ^ len ds + be_num 58 ds.
Proof.
  induction 1 as [|d ds Hd Hds IH]; intros buf Hbuf Hcap; cbn [fmap list_fmap decode_chars].
  - rewrite be_num_nil. cbn [length]. rewrite Z.pow_0_r. repeat split; [done|lia].
  - destruct (char_digit_chars d Hd) as [-> _]. rewrite (proj2 (Z.leb_gt 58 d)) by lia.
    pose proof (decode_step_spec buf d Hbuf Hd) as Hs. destruct (decode_step buf d) as [r c].
    destruct Hs as (Hl & Hr & Hc & E). cbn [fst]. rewrite be_num_cons in *. cbn [length] in *. rewrite pow_nat_S in *.
    pose proof (be_num_range 58 eq_refl ds Hds). pose proof (be_num_range 256 eq_refl r Hr).
    pose proof (pow_nat_pos 58 eq_refl (length ds)).
    set (P := 58 ^ len ds) in *. set (Q := 256 ^ len buf) in *.
    assert (Hc0 : c = 0).
    { destruct (Z.eq_dec c 0); [done|exfalso]. assert (Q <= c * Q) by nia. nia. }
    subst c. destruct (IH r Hr) as (Hl' & Hr' & E'); [rewrite Hl; fold Q; nia|].
    rewrite Hl', E'. repeat split; [done|done|]. nia.
Qed.

Lemma leading_fmap_chars ds : digits58 ds -> leading 0 ds = O ->
  leading (wd base58chars 0) ((fun d => wd base58chars d) <$> ds) = O.
Proof.
  intros Hds Hl. destruct ds as [|d ds]; [done|]. apply Forall_cons in Hds as [Hd _].
  cbn [leading fmap list_fmap] in *. destruct (Z.eqb_spec d 0); [done|].
  destruct (Z.eqb_spec (wd base58chars d) (wd base58chars 0)) as [E|]; [|done].
  exfalso. apply (char_digit_chars d Hd) in E. done.
Qed.

Lemma base58_bytes_string data : bytes_ok data -> base58_bytes (base58_string data) = data.
Proof.
  intros Hd. unfold base58_string. set (z := leading 0 data). set (data' := drop z data).
  assert (Hd' : bytes_ok data') by now apply Forall_drop.
  destruct (encode_digits_spec data' Hd') as (He & Ee). set (buf := encode_digits data') in *.
  set (ds := drop (leading 0 buf) buf).
  assert (Hds : digits58 ds) by now apply Forall_drop.
  assert (Lds : leading 0 ds = O) by apply leading_drop.
  assert (Eds : be_num 58 ds = be_num 256 data') by (rewrite <- Ee; apply be_num_strip).
  unfold base58_bytes. rewrite leading_replicate, drop_app_length' by
    (rewrite ?length_replicate; auto using leading_fmap_chars).
  rewrite length_fmap. set (n := Z.to_nat _).
  destruct (decode_fold ds Hds (replicate n 0)) as (_ & Hr & Er).
  - apply Forall_replicate. unfold is_byte. lia.
  - rewrite be_num_replicate, length_replicate. unfold n.
    pose proof (be_num_range 58 eq_refl ds Hds). pose proof (decode_capacity (len ds) ltac:(lia)).
    assert (0 <= len ds * 733 / 1000) by (apply Z.div_pos; lia).
    rewrite Z2Nat.id by lia. lia.
  - set (r := decode_chars _ _) in *. rewrite be_num_replicate in Er.
    assert (E : drop (leading 0 r) r = data').
    { apply (be_num_minimal 256 eq_refl); auto using leading_drop.
      - now apply Forall_drop.
      - apply leading_drop.
      - rewrite be_num_strip. lia. }
    rewrite E. unfold data', z. symmetry. apply leading_spec.
Qed.

(** ** Serializer contracts *)

Lemma write_result_writes bs : len bs < 0x10000000000000000 -> writes (fun p n => write_result p n bs) bs.
Proof.
  intros Hlt p0 n Hroom. unfold write_result, cursor. destruct p0 as [m|]; simpl in *; [|done].
  rewrite (proj2 (Z.leb_le _ _)) by lia.
  rewrite <- (take_drop (length bs) m) at 1.
  pose proof (mem_write_mid [] (take (length bs) m) bs (drop (length bs) m) 0 eq_refl) as E. simpl in E.
  rewrite E by (rewrite length_take; lia). simpl. now rewrite u64_id by lia.
Qed.

Lemma write_result_total p n bs : ptr_ok p n -> is_Some (write_result p n bs).
Proof.
  intros Hp. unfold write_result. destruct p as [m|]; [|eauto]. simpl in Hp.
  destruct (Z.leb_spec (len bs) n); [|eauto]. unfold mem_write.
  rewrite (proj2 (Z.leb_le (0 + len bs) _)) by lia. simpl. eauto.
Qed.

Lemma leading_le z l : (leading z l <= length l)%nat.
Proof. induction l as [|x l IH]; cbn; [lia|]. destruct (x =? z); lia. Qed.

Lemma encode_digits_length data : bytes_ok data -> length (encode_digits data) = Z.to_nat (len data * 138 / 100 + 1).
Proof.
  intros Hd. unfold encode_digits. rewrite <- (length_replicate (Z.to_nat (len data * 138 / 100 + 1)) 0) at 2.
  generalize (replicate (Z.to_nat (len data * 138 / 100 + 1)) 0) as buf. intros buf.
  apply (foldl_length (fun buf b => fst (encode_step buf b))); [|done].
  intros l b <-. clear. induction l as [|x l IH]; cbn; [done|].
  destruct (encode_step l b); cbn in *. lia.
Qed.

Lemma base58_string_length data : bytes_ok data -> len (base58_string data) <= len data * 138 / 100 + 1.
Proof.
  intros Hd. unfold base58_string. rewrite length_app, length_replicate, length_fmap, length_drop.
  rewrite encode_digits_length by now apply Forall_drop. rewrite length_drop.
  pose proof (leading_le 0 data). set (z := leading 0 data) in *. set (y := leading 0 (encode_digits _)). zdiv_lia.
Qed.

Lemma base58_string_no_nul data : bytes_ok data -> 0 ∉ base58_string data.
Proof.
  intros Hd Hin. unfold base58_string in Hin. apply elem_of_app in Hin as [Hin|Hin].
  - apply elem_of_replicate in Hin as [E _]. vm_compute in E. discriminate.
  - apply list_elem_of_fmap in Hin as (d & E & Hin). symmetry in E. revert E.
    destruct (encode_digits_spec (drop (leading 0 data) data)) as [He _]; [now apply Forall_drop|].
    apply (Forall_drop _ (leading 0 (encode_digits (drop (leading 0 data) data)))) in He.
    rewrite Forall_forall in He. apply char_digit_chars. auto.
Qed.

(** A base58 string is at least as long as the data it encodes. *)
Lemma base58_string_longer data : bytes_ok data -> len data <= len (base58_string data).
Proof.
  intros Hd. unfold base58_string. set (z := leading 0 data). set (d := drop z data).
  assert (Hd' : bytes_ok d) by now apply Forall_drop.
  destruct (encode_digits_spec d Hd') as (He & Ee). set (buf := encode_digits d) in *.
  rewrite length_app, length_replicate, length_fmap. set (ds := drop (leading 0 buf) buf).
  assert (Hz : (z <= length data)%nat) by apply leading_le.
  assert (Hlen : length d = (length data - z)%nat) by apply length_drop.
  assert (Eds : be_num 58 ds = be_num 256 d) by (rewrite <- Ee; apply be_num_strip).
  pose proof (be_num_range 58 eq_refl ds (Forall_drop _ _ _ He)) as Hr. rewrite Eds in Hr.
  assert (Hle : (length d <= length ds)%nat); [|lia].
  assert (Ld : leading 0 d = O) by apply leading_drop.
  destruct d as [|b d]; [cbn; lia|]. cbn in Ld. destruct (Z.eqb_spec b 0) as [|Hb]; [done|].
  apply Forall_cons in Hd' as [Hb' Hd']. unfold is_byte in Hb'. pose proof (be_num_range 256 eq_refl d Hd').
  rewrite be_num_cons in Hr. cbn [length].
  assert (58 ^ len d <= 256 ^ len d) by (apply Z.pow_le_mono_l; lia).
  assert (H58 : 58 ^ len d < 58 ^ len ds) by nia. apply Z.pow_lt_mono_r_iff in H58; lia.
Qed.

(** ** Properties *)

(** Base58 round trip: for any bytes, [BRBase58Encode] produces a NUL-terminated string without
    inner NULs, returns its size on NULL, and [BRBase58Decode] of that string writes the bytes back,
    leading zeros included. *)
Theorem base58_roundtrip data : bytes_ok data -> len data < 0x100000000 ->
  exists s, 0 ∉ s /\ writes (fun str n => BRBase58Encode str n data) (s ++ [0]) /\
    writes (fun p n => BRBase58Decode p n s) data.
Proof.
  intros Hd Hl. exists (base58_string data). split; [now apply base58_string_no_nul|].
  pose proof (base58_string_length data Hd). split.
  - apply write_result_writes. rewrite length_app. cbn. zdiv_lia.
  - pose proof (write_result_writes data) as Hw. unfold BRBase58Decode. rewrite base58_bytes_string by done.
    apply Hw. lia.
Qed.

Lemma base58_roundtrip_witness :
  exists s, 0 ∉ s /\ writes (fun str n => BRBase58Encode str n [0; 0; 255; 1]) (s ++ [0]) /\
    writes (fun p n => BRBase58Decode p n s) [0; 0; 255; 1].
Proof.
  apply base58_roundtrip; [|reflexivity].
  repeat (apply Forall_cons; split; [unfold is_byte; lia|]). constructor.
Defined.

Lemma checked_take data :
  take (length data + 4) (data ++ BRSHA256_2 data) = data ++ take 4 (BRSHA256_2 data).
Proof. now rewrite take_app_add. Qed.

Lemma sha_checksum_length data : length (take 4 (BRSHA256_2 data)) = 4%nat.
Proof. rewrite length_take, hash_length. lia. Qed.

(** The decoder on a string whose bytes fit its buffer. *)
Lemma check_decode_eq data dataLen str payload chk :
  len str < 0x10000000000000000 -> base58_bytes str = payload ++ chk -> length chk = 4%nat ->
  len (payload ++ chk) <= len str ->
  BRBase58CheckDecode data dataLen str =
    write_result data dataLen (if bool_decide (chk = take 4 (BRSHA256_2 payload)) then payload else []).
Proof.
  intros Hl Hb Hc Hfit. unfold BRBase58CheckDecode, BRBase58Decode. rewrite Hb.
  set (z := replicate (Z.to_nat (len str)) 0).
  assert (Hz : length z = length str) by (unfold z; rewrite length_replicate; lia).
  pose proof (write_result_writes (payload ++ chk) ltac:(lia)) as Hw.
  rewrite (writes_exact _ _ z (len str) Hw) by lia. cbn [mbind option_bind default id].
  rewrite length_app, Hc. rewrite (proj2 (Z.leb_le 4 _)) by lia.
  replace (Z.of_nat (length payload + 4) - 4) with (len payload) by lia.
  rewrite <- app_assoc, Nat2Z.id, take_app_len.
  rewrite (mem_read_mid payload chk) by lia. cbn [mbind option_bind].
  destruct (bool_decide _).
  - now rewrite Nat2Z.id, take_app_len.
  - now rewrite take_0.
Qed.

(** C33. Base58check round trip: [BRBase58CheckDecode] of the string written by
    [BRBase58CheckEncode] writes exactly the encoded payload. *)
Theorem base58check_roundtrip data : bytes_ok data -> len data < 0x100000000 ->
  exists s, 0 ∉ s /\ writes (fun str n => BRBase58CheckEncode str n data) (s ++ [0]) /\
    writes (fun p n => BRBase58CheckDecode p n s) data.
Proof.
  intros Hd Hl. set (full := data ++ take 4 (BRSHA256_2 data)).
  assert (Hf : bytes_ok full) by (apply Forall_app; split; [done|apply Forall_take, hash_bytes]).
  assert (Lf : len full = len data + 4).
  { unfold full. rewrite length_app, sha_checksum_length. lia. }
  exists (base58_string full). split; [now apply base58_string_no_nul|].
  pose proof (base58_string_length full Hf). split.
  - intros p n Hr. unfold BRBase58CheckEncode. rewrite checked_take.
    apply write_result_writes; [|done]. rewrite length_app. cbn. zdiv_lia.
  - intros p n Hr. rewrite (check_decode_eq p n _ data (take 4 (BRSHA256_2 data))).
    + rewrite bool_decide_eq_true_2 by done. apply write_result_writes; [lia|done].
    + zdiv_lia.
    + now apply base58_bytes_string.
    + apply sha_checksum_length.
    + now apply base58_string_longer.
Qed.

Lemma base58check_roundtrip_witness :
  exists s, 0 ∉ s /\ writes (fun str n => BRBase58CheckEncode str n [3; 1; 2]) (s ++ [0]) /\
    writes (fun p n => BRBase58CheckDecode p n s) [3; 1; 2].
Proof.
  apply base58check_roundtrip; [|reflexivity].
  repeat (apply Forall_cons; split; [unfold is_byte; lia|]). constructor.
Defined.

(** ** The decoder as a function of the string *)

(** The verified payload of a base58check string, empty if the string is malformed. *)
Definition check_payload (str : list Z) : list Z :=
  let b := base58_bytes str in
  let payload := take (length b - 4) b in
  if bool_decide (4 <= length b)%nat && bool_decide (drop (length b - 4) b = take 4 (BRSHA256_2 payload))
  then payload else [].

Lemma decode_chars_length str : forall buf, length (decode_chars buf str) = length buf.
Proof.
  induction str as [|c str IH]; intros buf; cbn [decode_chars]; [done|].
  destruct (_ <=? _); [done|]. rewrite IH. generalize (char_digit c) as x. clear. intros x.
  induction buf as [|y buf IH]; cbn; [done|]. destruct (decode_step buf x); cbn in *. lia.
Qed.

Lemma base58_bytes_shorter str : (length (base58_bytes str) <= length str)%nat.
Proof.
  unfold base58_bytes. set (z := leading _ str). pose proof (leading_le (wd base58chars 0) str). fold z in H.
  rewrite length_app, length_replicate, length_drop, decode_chars_length, length_replicate, length_drop.
  set (k := (length str - z)%nat). replace (len (drop z str)) with (Z.of_nat k) by (rewrite length_drop; done).
  destruct (Nat.eq_dec k 0) as [E|].
  - assert (Ek : drop z str = []) by (apply drop_ge; lia). rewrite Ek, E.
    change (Z.to_nat (Z.of_nat 0 * 733 / 1000 + 1)) with 1%nat. cbn. lia.
  - assert (Z.to_nat (Z.of_nat k * 733 / 1000 + 1) <= k)%nat; [|lia]. zdiv_lia.
Qed.

Lemma check_decode_spec p n str :
  len str < 0x10000000000000000 -> BRBase58CheckDecode p n str = write_result p n (check_payload str).
Proof.
  intros Hl. pose proof (base58_bytes_shorter str) as Hs. unfold check_payload.
  destruct (bool_decide_reflect (4 <= length (base58_bytes str))%nat) as [H4|H4]; simpl.
  - set (b := base58_bytes str) in *.
    rewrite (check_decode_eq p n str (take (length b - 4) b) (drop (length b - 4) b)).
    + reflexivity.
    + done.
    + now rewrite take_drop.
    + rewrite length_drop. lia.
    + rewrite take_drop. lia.
  - unfold BRBase58CheckDecode, BRBase58Decode.
    pose proof (write_result_writes (base58_bytes str) ltac:(lia)) as Hw.
    rewrite (writes_exact _ _ (replicate (Z.to_nat (len str)) 0) (len str) Hw) by (rewrite ?length_replicate; lia).
    cbn [mbind option_bind]. rewrite (proj2 (Z.leb_gt 4 _)) by lia. reflexivity.
Qed.

Lemma check_payload_encode data : bytes_ok data ->
  check_payload (base58_string (data ++ take 4 (BRSHA256_2 data))) = data.
Proof.
  intros Hd. unfold check_payload. pose proof (sha_checksum_length data) as Lc.
  rewrite base58_bytes_string by (apply Forall_app; split; [done|apply Forall_take, hash_bytes]).
  rewrite length_app, Lc. replace (length data + 4 - 4)%nat with (length data) by lia.
  rewrite take_app_len, drop_app_len, !bool_decide_eq_true_2 by (done || lia). reflexivity.
Qed.
