(* ===== verification/Address.v ===== *)
(** * Address: varints, scripts and addresses (BRAddress.c, BRAddress.h)

    Scripts are byte lists; a pointer to a script element is its offset.  [BRScriptElements] keeps the
    code's single loop; [BRScriptData] dereferences its argument without a bound, so it reads through
    [mem_read] and may be undefined.  The theorems show that the elements found by the first are safe
    arguments of the second, that varints, pushes and addresses round-trip, and that an address is
    only derived from a scriptPubKey of the three standard forms. *)
From stdpp Require Import base numbers list.
From Stdlib Require Import ZArith Lia.
From S2P Require Import Prelude CMem Int Crypto Base58.
Local Open Scope Z_scope.

(** ** Constants of BRAddress.h *)

Definition BITCOIN_PUBKEY_ADDRESS : Z := 3.
Definition BITCOIN_SCRIPT_ADDRESS : Z := 125.

Definition OP_0 : Z := 0x00.
Definition OP_PUSHDATA1 : Z := 0x4c.
Definition OP_PUSHDATA2 : Z := 0x4d.
Definition OP_PUSHDATA4 : Z := 0x4e.
Definition OP_DUP : Z := 0x76.
Definition OP_EQUAL : Z := 0x87.
Definition OP_EQUALVERIFY : Z := 0x88.
Definition OP_HASH160 : Z := 0xa9.
Definition OP_CHECKSIG : Z := 0xac.

Definition VAR_INT16_HEADER : Z := 0xfd.
Definition VAR_INT32_HEADER : Z := 0xfe.
Definition VAR_INT64_HEADER : Z := 0xff.
Definition MAX_SCRIPT_LENGTH : Z := 0x100.

(** ** Varints *)

(** Value and encoded length of the varint at [buf]; [None] is a read outside [buf]. *)
Definition BRVarInt (buf : list Z) (bufLen : Z) : option (Z * Z) :=
  h ← (if 1 <=? bufLen then b ← mem_read buf 0 1; Some (wd b 0) else Some 0);
  if h =? VAR_INT16_HEADER then
    r ← (if 3 <=? bufLen then UInt16GetLE <$> mem_read buf 1 2 else Some 0); Some (r, 3)
  else if h =? VAR_INT32_HEADER then
    r ← (if 5 <=? bufLen then UInt32GetLE <$> mem_read buf 1 4 else Some 0); Some (r, 5)
  else if h =? VAR_INT64_HEADER then
    r ← (if 9 <=? bufLen then UInt64GetLE <$> mem_read buf 1 8 else Some 0); Some (r, 9)
  else Some (h, 1).

(** [BRVarInt(&buf[off], (off <= bufLen ? bufLen - off : 0), &len)], as the parsers call it. *)
Definition varint_at (buf : list Z) (off : Z) : option (Z * Z) :=
  BRVarInt (drop (Z.to_nat off) buf) (if off <=? len buf then len buf - off else 0).

Definition varint_bytes (i : Z) : list Z :=
  if i <? VAR_INT16_HEADER then [i]
  else if i <=? 0xffff then VAR_INT16_HEADER :: UInt16SetLE i
  else if i <=? 0xffffffff then VAR_INT32_HEADER :: UInt32SetLE i
  else VAR_INT64_HEADER :: UInt64SetLE i.

(** In each of the four branches: write if it fits, return the size if it fits or [buf] is NULL. *)
Definition BRVarIntSet (buf : ptr) (bufLen i : Z) : option (ptr * Z) := write_result buf bufLen (varint_bytes i).

Definition BRVarIntSize (i : Z) : Z := len (varint_bytes i).

(** ** Scripts *)

(** [if (off + n <= scriptLen) len = dec(&script[off]);] *)
Definition read_len (dec : list Z -> Z) (n : Z) (script : list Z) (off l : Z) : option Z :=
  if off + n <=? len script then dec <$> mem_read script off n else Some l.

(** One iteration of the [while] loop: the new [off] and [len]. *)
Definition script_step (script : list Z) (off l : Z) : option (Z * Z) :=
  op ← mem_read script off 1;
  let op := wd op 0 in
  '(off, l) ←
    (if op =? OP_PUSHDATA1 then
       let off := off + 1 in l ← read_len (fun b => wd b 0) 1 script off l; Some (off + 1, l)
     else if op =? OP_PUSHDATA2 then
       let off := off + 1 in l ← read_len UInt16GetLE 2 script off l; Some (off + 2, l)
     else if op =? OP_PUSHDATA4 then
       let off := off + 1 in l ← read_len UInt32GetLE 4 script off l; Some (off + 4, l)
     else Some (off + 1, if OP_PUSHDATA4 <? op then 0 else op));
  Some (off + l, l).

(** The loop: the offsets of the elements and the final [off]. *)
Fixpoint script_loop (fuel : nat) (script : list Z) (off l : Z) : option (list Z * Z) :=
  match fuel with
  | O => Some ([], off)
  | S fuel' =>
      if off <? len script then
        '(off', l') ← script_step script off l;
        '(es, end_) ← script_loop fuel' script off' l';
        Some (off :: es, end_)
      else Some ([], off)
  end.

(** The elements written to an array of [elemsCount] (none if NULL) and the return value. *)
Definition BRScriptElements (elemsCount : option Z) (script : list Z) : option (list Z * Z) :=
  '(es, off) ← script_loop (length script) script 0 0;
  let i := len es in
  let fits := match elemsCount with None => true | Some n => i <=? n end in
  Some (match elemsCount with None => [] | Some n => take (Z.to_nat n) es end,
        if fits && (off =? len script) then i else 0).

(** The calls that count the elements and write them to an array of this size. *)
Definition script_elements (script : list Z) : option (list Z * Z) :=
  '(_, n) ← BRScriptElements None script; BRScriptElements (Some n) script.

(** Offset of the data from [elem] ([None]: NULL) and its length. *)
Definition BRScriptData (elem : list Z) : option (option Z * Z) :=
  op ← mem_read elem 0 1;
  let op := wd op 0 in
  '(off, l) ←
    (if op =? OP_PUSHDATA1 then b ← mem_read elem 1 1; Some (2, wd b 0)
     else if op =? OP_PUSHDATA2 then b ← mem_read elem 1 2; Some (3, UInt16GetLE b)
     else if op =? OP_PUSHDATA4 then b ← mem_read elem 1 4; Some (5, UInt32GetLE b)
     else Some (1, if OP_PUSHDATA4 <? op then 0 else op));
  Some (if 0 <? l then Some off else None, l).

Definition push_bytes (data : list Z) : list Z :=
  let dataLen := len data in
  if dataLen <? OP_PUSHDATA1 then dataLen :: data
  else if dataLen <? 0xff then OP_PUSHDATA1 :: dataLen :: data
  else if dataLen <? 0xffff then OP_PUSHDATA2 :: UInt16SetLE dataLen ++ data
  else OP_PUSHDATA4 :: UInt32SetLE (u32 dataLen) ++ data.

Definition BRScriptPushData (script : ptr) (scriptLen : Z) (data : list Z) : option (ptr * Z) :=
  write_result script scriptLen (push_bytes data).

(** ** Addresses *)

(** [*elems[i]] *)
Definition elem_op (script es : list Z) (i : Z) : option Z :=
  if 0 <=? i then o ← es !! Z.to_nat i; op ← mem_read script o 1; Some (wd op 0) else None.

(** The tests on the opcodes of elements in a chain of [&&], from left to right until one fails. *)
Fixpoint ops_match (script es : list Z) (tests : list (Z * (Z -> bool))) : option bool :=
  match tests with
  | [] => Some true
  | (i, ok) :: tests' => op ← elem_op script es i; if (ok op : bool) then ops_match script es tests' else Some false
  end.

(** [d = BRScriptData(elems[i], &l)]: the suffix of the script at [d], if not NULL, and [l]. *)
Definition elem_data (script es : list Z) (i : Z) : option (option (list Z) * Z) :=
  o ← (if 0 <=? i then es !! Z.to_nat i else None);
  let elem := drop (Z.to_nat o) script in
  r ← BRScriptData elem;
  Some (option_map (fun off => drop (Z.to_nat off) elem) (fst r), snd r).

(** [if (d) return BRBase58CheckEncode(addr, addrLen, version || body(d)); else return 0;] *)
Definition encode_address (addr : ptr) (addrLen version : Z) (body : option (list Z)) : option (ptr * Z) :=
  match body with
  | Some h => BRBase58CheckEncode addr addrLen (version :: h)
  | None => Some (addr, 0)
  end.

(** The twenty bytes at [d] when [l == 20]; their hash when [l] is a public key length. *)
Definition data20 (dl : option (list Z) * Z) : option (option (list Z)) :=
  let '(d, l) := dl in
  match d with
  | Some d => if l =? 20 then Some <$> mem_read d 0 20 else Some None
  | None => Some None
  end.

Definition data_hash (ok : Z -> bool) (dl : option (list Z) * Z) : option (option (list Z)) :=
  let '(d, l) := dl in
  match d with
  | Some d => if ok l then (fun b => Some (BRHash160 b)) <$> mem_read d 0 l else Some None
  | None => Some None
  end.

Definition pubkey_len (l : Z) : bool := (l =? 65) || (l =? 33).

Definition BRAddressFromScriptPubKey (addr : ptr) (addrLen : Z) (script : list Z) : option (ptr * Z) :=
  let scriptLen := len script in
  if (scriptLen =? 0) || (MAX_SCRIPT_LENGTH <? scriptLen) then Some (addr, 0)
  else
    '(es, count) ← script_elements script;
    pubkey_hash ← (if count =? 5 then ops_match script es
                     [(0, Z.eqb OP_DUP); (1, Z.eqb OP_HASH160); (2, Z.eqb 20); (3, Z.eqb OP_EQUALVERIFY); (4, Z.eqb OP_CHECKSIG)]
                   else Some false);
    if (pubkey_hash : bool) then
      dl ← elem_data script es 2; h ← data20 dl;
      encode_address addr addrLen BITCOIN_PUBKEY_ADDRESS h
    else
      script_hash ← (if count =? 3 then ops_match script es [(0, Z.eqb OP_HASH160); (1, Z.eqb 20); (2, Z.eqb OP_EQUAL)]
                     else Some false);
      if (script_hash : bool) then
        dl ← elem_data script es 1; h ← data20 dl;
        encode_address addr addrLen BITCOIN_SCRIPT_ADDRESS h
      else
        pubkey ← (if count =? 2 then ops_match script es [(0, pubkey_len); (1, Z.eqb OP_CHECKSIG)] else Some false);
        if (pubkey : bool) then
          dl ← elem_data script es 0; h ← data_hash pubkey_len dl;
          encode_address addr addrLen BITCOIN_PUBKEY_ADDRESS h
        else Some (addr, 0).

Definition BRAddressFromScriptSig (addr : ptr) (addrLen : Z) (script : list Z) : option (ptr * Z) :=
  let scriptLen := len script in
  if (scriptLen =? 0) || (MAX_SCRIPT_LENGTH <? scriptLen) then Some (addr, 0)
  else
    '(es, count) ← script_elements script;
    pubkey_hash ← (if 2 <=? count then ops_match script es [(count - 2, Z.geb OP_PUSHDATA4); (count - 1, pubkey_len)]
                   else Some false);
    if (pubkey_hash : bool) then
      dl ← elem_data script es (count - 1); h ← data_hash pubkey_len dl;
      encode_address addr addrLen BITCOIN_PUBKEY_ADDRESS h
    else
      script_hash ← (if 2 <=? count then ops_match script es
                       [(count - 2, Z.geb OP_PUSHDATA4); (count - 1, Z.geb OP_PUSHDATA4); (count - 1, Z.ltb 0)]
                     else Some false);
      if (script_hash : bool) then
        dl ← elem_data script es (count - 1); h ← data_hash (fun _ => true) dl;
        encode_address addr addrLen BITCOIN_SCRIPT_ADDRESS h
      else Some (addr, 0).

(** [uint8_t data[21]; BRBase58CheckDecode(data, sizeof(data), addr) == 21]: the array when it is. *)
Definition decode21 (addr : list Z) : option (option (list Z)) :=
  '(p, n) ← BRBase58CheckDecode (Some (replicate 21 0)) 21 addr;
  Some (if n =? 21 then p else None).

Definition BRAddressScriptPubKey (script : ptr) (scriptLen : Z) (addr : list Z) : option (ptr * Z) :=
  d ← decode21 addr;
  match d with
  | Some data =>
      if wd data 0 =? BITCOIN_PUBKEY_ADDRESS then
        write_result script scriptLen
          ([OP_DUP; OP_HASH160; 20] ++ take 20 (drop 1 data) ++ [OP_EQUALVERIFY; OP_CHECKSIG])
      else if wd data 0 =? BITCOIN_SCRIPT_ADDRESS then
        write_result script scriptLen ([OP_HASH160; 20] ++ take 20 (drop 1 data) ++ [OP_EQUAL])
      else Some (script, 0)
  | None => Some (script, 0)
  end.

Definition BRAddressIsValid (addr : list Z) : option bool :=
  d ← decode21 addr;
  Some (match d with
        | Some data => (wd data 0 =? BITCOIN_PUBKEY_ADDRESS) || (wd data 0 =? BITCOIN_SCRIPT_ADDRESS)
        | None => false
        end).

Definition BRAddressHash160 (addr : list Z) : option (option (list Z)) :=
  d ← decode21 addr; Some (option_map (fun data => take 20 (drop 1 data)) d).

(** The hash table callbacks of [BRAddress] ([strlen], [strncmp] over NUL-terminated arrays). *)
Definition BRAddressHash (addr : list Z) : Z := BRMurmur3_32 addr 0.
Definition BRAddressEq (addr otherAddr : list Z) : bool := bool_decide (take 36 addr = take 36 otherAddr).

(** ** Varints *)

Lemma varint_bytes_length i : 0 <= i -> len (varint_bytes i) = 1 \/ len (varint_bytes i) = 3 \/
  len (varint_bytes i) = 5 \/ len (varint_bytes i) = 9.
Proof. intros. unfold varint_bytes. repeat case_match; cbn; lia. Qed.

Lemma BRVarIntSet_writes i : 0 <= i -> writes (fun p n => BRVarIntSet p n i) (varint_bytes i).
Proof. intros. apply write_result_writes. destruct (varint_bytes_length i) as [->|[->|[->| ->]]]; lia. Qed.

Lemma varint_bytes_ok i : 0 <= i < 0x10000000000000000 -> bytes_ok (varint_bytes i).
Proof.
  intros Hi. unfold varint_bytes, VAR_INT16_HEADER.
  destruct (Z.ltb_spec i 0xfd); [repeat constructor; unfold is_byte; lia|].
  destruct (i <=? 0xffff); [rewrite UInt16SetLE_spec|destruct (i <=? 0xffffffff);
    [rewrite UInt32SetLE_spec|rewrite UInt64SetLE_spec]];
    (constructor; [unfold is_byte, VAR_INT32_HEADER, VAR_INT64_HEADER; lia|apply le_bytes_ok]).
Qed.

(** Reading a varint back, whatever follows it. *)
Lemma BRVarInt_spec i rest n :
  0 <= i < 0x10000000000000000 -> len (varint_bytes i) <= n ->
  BRVarInt (varint_bytes i ++ rest) n = Some (i, len (varint_bytes i)).
Proof.
  intros Hi Hn. unfold BRVarInt.
  assert (Hread : forall h v, mem_read ((h :: v) ++ rest) 1 (len v) = Some v).
  { intros h v. exact (mem_read_mid [h] v rest 1 (len v) eq_refl eq_refl). }
  assert (Hhead : forall h v, mem_read ((h :: v) ++ rest) 0 1 = Some [h]).
  { intros h v. exact (mem_read_mid [] [h] (v ++ rest) 0 1 eq_refl eq_refl). }
  unfold varint_bytes in *.
  destruct (Z.ltb_spec i VAR_INT16_HEADER) as [H16|H16];
    [|destruct (Z.leb_spec i 0xffff) as [H32|H32]; [|destruct (Z.leb_spec i 0xffffffff) as [H64|H64]]];
    cbn [length] in *; unfold VAR_INT16_HEADER, VAR_INT32_HEADER, VAR_INT64_HEADER in *;
    rewrite (proj2 (Z.leb_le 1 _)), Hhead by lia; cbn [mbind option_bind wd lookup list_lookup Z.to_nat default].
  - change (wd [i] 0) with i. rewrite !(proj2 (Z.eqb_neq i _)) by lia. reflexivity.
  - change (wd [_] 0) with 0xfd. cbn -[UInt16GetLE UInt16SetLE mem_read app Z.leb].
    rewrite (proj2 (Z.leb_le 3 _)) by (cbn in Hn; lia). rewrite (Hread _ (UInt16SetLE i)). cbn -[UInt16GetLE UInt16SetLE].
    rewrite UInt16Get_Set by lia. reflexivity.
  - change (wd [_] 0) with 0xfe. cbn -[UInt32GetLE UInt32SetLE mem_read app Z.leb].
    rewrite (proj2 (Z.leb_le 5 _)) by (cbn in Hn; lia). rewrite (Hread _ (UInt32SetLE i)). cbn -[UInt32GetLE UInt32SetLE].
    rewrite UInt32Get_Set by lia. reflexivity.
  - change (wd [_] 0) with 0xff. cbn -[UInt64GetLE UInt64SetLE mem_read app Z.leb].
    rewrite (proj2 (Z.leb_le 9 _)) by (cbn in Hn; lia). rewrite (Hread _ (UInt64SetLE i)). cbn -[UInt64GetLE UInt64SetLE].
    rewrite UInt64Get_Set by lia. reflexivity.
Qed.

(** Reading a field of a buffer given by its parts. *)
Section fields.
Context (buf : list Z) (Hbuf : len buf < 0x10000000000000000).

Lemma get_field {A} (dec : list Z -> A) dflt n a b c off :
  buf = a ++ b ++ c -> off = len a -> n = len b -> get_or dec dflt n buf (len buf) off = Some (dec b).
Proof. intros E -> ->. subst buf. now apply get_or_mid. Qed.

Lemma varint_field i a c off :
  buf = a ++ varint_bytes i ++ c -> off = len a -> 0 <= i < 0x10000000000000000 ->
  varint_at buf off = Some (i, len (varint_bytes i)).
Proof.
  intros E -> Hi. unfold varint_at. subst buf. rewrite !length_app in *.
  rewrite (proj2 (Z.leb_le _ _)) by lia. rewrite Nat2Z.id, drop_app_len. apply BRVarInt_spec; [done|lia].
Qed.

Lemma mem_field a b c off n : buf = a ++ b ++ c -> off = len a -> n = len b -> mem_read buf off n = Some b.
Proof. intros E -> ->. subst buf. now apply mem_read_mid. Qed.
End fields.

(** ** Script elements *)

Lemma wd_drop l off : 0 <= off -> wd (drop (Z.to_nat off) l) 0 = wd l off.
Proof. intros. unfold wd. rewrite lookup_drop. repeat f_equal. cbn. lia. Qed.

Lemma UInt16GetLE_take l : (2 <= length l)%nat -> UInt16GetLE (take 2 l) = UInt16GetLE l.
Proof. destruct l as [|a [|b l]]; cbn [length]; try lia. reflexivity. Qed.

Lemma UInt32GetLE_take l : (4 <= length l)%nat -> UInt32GetLE (take 4 l) = UInt32GetLE l.
Proof. destruct l as [|a [|b [|c [|d l]]]]; cbn [length]; try lia. reflexivity. Qed.

Lemma le_val_nonneg l : bytes_ok l -> 0 <= le_val l.
Proof. intros H. apply le_val_range in H. lia. Qed.

Lemma mem_read_in m off n : 0 <= off -> 0 <= n -> off + n <= len m ->
  mem_read m off n = Some (take (Z.to_nat n) (drop (Z.to_nat off) m)).
Proof.
  intros. unfold mem_read. now rewrite (proj2 (Z.leb_le 0 _)), (proj2 (Z.leb_le 0 _)), (proj2 (Z.leb_le _ _)) by lia.
Qed.

(** *** The parser when its reads succeed

    [step_of] and [loop_of] read past the end of a list as 0; every read of [script_step] is guarded, so on a script
    of bytes they are the parser. *)

Definition step_of (script : list Z) (off l : Z) : Z * Z :=
  let scriptLen := len script in
  let op := wd script off in
  let '(off, l) :=
    if op =? OP_PUSHDATA1 then
      let off := off + 1 in
      (off + 1, if off + 1 <=? scriptLen then wd script off else l)
    else if op =? OP_PUSHDATA2 then
      let off := off + 1 in
      (off + 2, if off + 2 <=? scriptLen then UInt16GetLE (drop (Z.to_nat off) script) else l)
    else if op =? OP_PUSHDATA4 then
      let off := off + 1 in
      (off + 4, if off + 4 <=? scriptLen then UInt32GetLE (drop (Z.to_nat off) script) else l)
    else (off + 1, if OP_PUSHDATA4 <? op then 0 else op) in
  (off + l, l).

Fixpoint loop_of (fuel : nat) (script : list Z) (off l : Z) : list Z * Z :=
  match fuel with
  | O => ([], off)
  | S fuel' =>
      if off <? len script then
        let '(off', l') := step_of script off l in
        let '(es, end_) := loop_of fuel' script off' l' in
        (off :: es, end_)
      else ([], off)
  end.

Lemma read_byte script off : 0 <= off < len script -> exists b, mem_read script off 1 = Some [b] /\ wd script off = b.
Proof.
  intros H. rewrite mem_read_in by lia. rewrite <- (wd_drop script off) by lia.
  destruct (drop (Z.to_nat off) script) as [|b t] eqn:E; [|now exists b].
  apply (f_equal (@length Z)) in E. rewrite length_drop in E. cbn in E. lia.
Qed.

Lemma script_step_run script off l : 0 <= off < len script -> script_step script off l = Some (step_of script off l).
Proof.
  intros Hoff. unfold script_step, step_of, read_len. destruct (read_byte script off Hoff) as (op & -> & ->).
  rewrite bind_Some_l. change (wd [op] 0) with op. destruct (op =? OP_PUSHDATA1).
  { destruct (Z.leb_spec (off + 1 + 1) (len script)); [|done].
    destruct (read_byte script (off + 1)) as (b & -> & ->); [lia|done]. }
  destruct (op =? OP_PUSHDATA2); [|destruct (op =? OP_PUSHDATA4); [|done]].
  - destruct (Z.leb_spec (off + 1 + 2) (len script)); [|done]. rewrite mem_read_in by lia. cbn [fmap option_fmap option_map].
    rewrite UInt16GetLE_take by (rewrite length_drop; lia). done.
  - destruct (Z.leb_spec (off + 1 + 4) (len script)); [|done]. rewrite mem_read_in by lia. cbn [fmap option_fmap option_map].
    rewrite UInt32GetLE_take by (rewrite length_drop; lia). done.
Qed.

(** What the parser skips, [BRScriptData] can read. *)
Lemma script_step_spec script off l :
  bytes_ok script -> 0 <= off < len script -> 0 <= l ->
  let '(off', l') := step_of script off l in
  off < off' /\ 0 <= l' /\
  (off' <= len script -> exists hdr, 1 <= hdr /\ off' = off + hdr + l' /\
    BRScriptData (drop (Z.to_nat off) script) = Some (if 0 <? l' then Some hdr else None, l')).
Proof.
  intros Hb Hoff Hl. unfold step_of. set (elem := drop (Z.to_nat off) script).
  assert (He : bytes_ok elem) by now apply Forall_drop.
  assert (Le : len elem = len script - off) by (unfold elem; rewrite length_drop; lia).
  assert (Hop : mem_read elem 0 1 = Some [wd script off]).
  { rewrite mem_read_in by lia. cbn [Z.to_nat drop]. f_equal.
    rewrite <- (wd_drop script off) by lia. fold elem.
    destruct elem as [|b elem]; [cbn in Le; lia|]. reflexivity. }
  assert (Hd : drop (Z.to_nat (off + 1)) script = drop 1 elem).
  { unfold elem. rewrite drop_drop. f_equal. lia. }
  assert (Hw : 0 <= wd script off < 256) by exact (wd_byte script off Hb).
  unfold BRScriptData. rewrite Hop. cbn [mbind option_bind]. change (wd [wd script off] 0) with (wd script off).
  rewrite Hd.
  destruct (wd script off =? OP_PUSHDATA1); [|destruct (wd script off =? OP_PUSHDATA2);
    [|destruct (wd script off =? OP_PUSHDATA4)]].
  - rewrite <- (wd_drop script (off + 1)), Hd by lia.
    assert (0 <= wd (drop 1 elem) 0 < 256) by exact (wd_byte (drop 1 elem) 0 (Forall_drop _ _ _ He)).
    destruct (Z.leb_spec (off + 1 + 1) (len script)); (split; [lia|split; [lia|intros Hle]]); [|lia].
    exists 2. split; [lia|]. split; [lia|]. rewrite mem_read_in by lia. cbn [mbind option_bind].
    change (Z.to_nat 1) with 1%nat. replace (wd (take 1 (drop 1 elem)) 0) with (wd (drop 1 elem) 0); [done|].
    now destruct (drop 1 elem).
  - assert (Hval : off + 1 + 2 <= len script -> UInt16GetLE (drop 1 elem) = UInt16GetLE (take 2 (drop 1 elem)) /\
               0 <= UInt16GetLE (take 2 (drop 1 elem))).
    { intros Hle. split; [symmetry; apply UInt16GetLE_take; rewrite length_drop; lia|].
      rewrite UInt16GetLE_spec; [apply le_val_nonneg| |rewrite length_take, length_drop; lia];
        now apply Forall_take, Forall_drop. }
    destruct (Z.leb_spec (off + 1 + 2) (len script)) as [Hle'|]; [destruct (Hval Hle') as [-> Hp]|];
      (split; [lia|split; [lia|intros Hle]]); [|lia].
    exists 3. split; [lia|]. split; [lia|]. rewrite mem_read_in by lia. reflexivity.
  - assert (Hval : off + 1 + 4 <= len script -> UInt32GetLE (drop 1 elem) = UInt32GetLE (take 4 (drop 1 elem)) /\
               0 <= UInt32GetLE (take 4 (drop 1 elem))).
    { intros Hle. split; [symmetry; apply UInt32GetLE_take; rewrite length_drop; lia|].
      rewrite UInt32GetLE_spec; [apply le_val_nonneg| |rewrite length_take, length_drop; lia];
        now apply Forall_take, Forall_drop. }
    destruct (Z.leb_spec (off + 1 + 4) (len script)) as [Hle'|]; [destruct (Hval Hle') as [-> Hp]|];
      (split; [lia|split; [lia|intros Hle]]); [|lia].
    exists 5. split; [lia|]. split; [lia|]. rewrite mem_read_in by lia. reflexivity.
  - destruct (OP_PUSHDATA4 <? wd script off); (split; [lia|split; [lia|intros Hle]]);
      exists 1; (split; [lia|split; [lia|reflexivity]]).
Qed.

(** An element offset [BRScriptData] may be called on: header and data lie inside the script. *)
Definition elem_ok (script : list Z) (o : Z) : Prop :=
  0 <= o < len script /\ exists hdr l, 1 <= hdr /\ 0 <= l /\ o + hdr + l <= len script /\
    BRScriptData (drop (Z.to_nat o) script) = Some (if 0 <? l then Some hdr else None, l).

Lemma script_loop_spec script : bytes_ok script -> forall fuel off l es end_,
  0 <= off -> 0 <= l -> len script - off <= Z.of_nat fuel -> loop_of fuel script off l = (es, end_) ->
  len script <= end_ /\ off <= end_ /\ (end_ = len script -> Forall (elem_ok script) es).
Proof.
  intros Hb. induction fuel as [|fuel IH]; intros off l es end_ Hoff Hl Hf E; cbn [loop_of] in E.
  - injection E as <- <-. repeat split; [lia|lia|constructor].
  - destruct (Z.ltb_spec off (len script)) as [Hlt|Hge]; [|injection E as <- <-; repeat split; [lia|lia|constructor]].
    pose proof (script_step_spec script off l Hb ltac:(lia) Hl) as Hs.
    destruct (step_of script off l) as [off' l']. destruct Hs as (Hlt' & Hl' & Hd).
    destruct (loop_of fuel script off' l') as [es' e'] eqn:E'. injection E as <- <-.
    destruct (IH off' l' es' e') as (H1 & H2 & H3); [lia|lia|lia|done|]. split; [done|]. split; [lia|].
    intros He. constructor; [|auto]. split; [lia|]. destruct Hd as (hdr & ? & ? & Hdata); [lia|].
    exists hdr, l'. repeat split; try lia. done.
Qed.

Lemma script_loop_cons fuel script off l o es end_ :
  loop_of fuel script off l = (o :: es, end_) ->
  exists fuel', o = off /\ off < len script /\
    loop_of fuel' script (fst (step_of script off l)) (snd (step_of script off l)) = (es, end_).
Proof.
  destruct fuel as [|fuel]; cbn [loop_of]; [done|]. destruct (Z.ltb_spec off (len script)); [|done].
  destruct (step_of script off l) as [off' l'].
  destruct (loop_of fuel script off' l') as [es' e'] eqn:E. intros [= <- <- <-]. exists fuel. auto.
Qed.

Lemma script_loop_nil fuel script off l end_ : loop_of fuel script off l = ([], end_) -> end_ = off.
Proof.
  destruct fuel as [|fuel]; cbn [loop_of]; [now intros [= <-]|].
  destruct (off <? len script); [|now intros [= <-]].
  destruct (step_of script off l) as [off' l']. now destruct (loop_of fuel script off' l').
Qed.

Lemma script_step_op script off l : 
  (OP_PUSHDATA4 < wd script off -> step_of script off l = (off + 1, 0)) /\
  (wd script off < OP_PUSHDATA1 -> step_of script off l = (off + 1 + wd script off, wd script off)).
Proof.
  unfold step_of, OP_PUSHDATA1, OP_PUSHDATA2, OP_PUSHDATA4.
  split; intros Hop; rewrite !(proj2 (Z.eqb_neq (wd script off) _)) by lia.
  - rewrite (proj2 (Z.ltb_lt _ _)) by lia. f_equal. lia.
  - rewrite (proj2 (Z.ltb_ge _ _)) by lia. reflexivity.
Qed.

(** On bytes, the loop only reads inside the script. *)
Lemma script_loop_run script : bytes_ok script -> forall fuel off l, 0 <= off -> 0 <= l ->
  script_loop fuel script off l = Some (loop_of fuel script off l).
Proof.
  intros Hb. induction fuel as [|fuel IH]; intros off l Ho Hl; cbn [script_loop loop_of]; [done|].
  destruct (Z.ltb_spec off (len script)); [|done]. rewrite script_step_run, bind_Some_l by lia.
  pose proof (script_step_spec script off l Hb ltac:(lia) Hl) as Hs. destruct (step_of script off l) as [off' l'].
  destruct Hs as (? & ? & _). rewrite IH, bind_Some_l by lia. by destruct (loop_of fuel script off' l').
Qed.

(** The call with a large enough array: all elements, or a return value of 0. *)
Lemma script_elements_all script : bytes_ok script ->
  script_elements script =
    let '(es, end_) := loop_of (length script) script 0 0 in Some (if end_ =? len script then (es, len es) else ([], 0)).
Proof.
  intros Hb. unfold script_elements, BRScriptElements. rewrite script_loop_run by done.
  destruct (loop_of (length script) script 0 0) as [es end_]. rewrite !bind_Some_l. cbn [andb].
  destruct (end_ =? len script).
  - rewrite Nat2Z.id, firstn_all, (proj2 (Z.leb_le _ _)) by lia. reflexivity.
  - rewrite andb_false_r. reflexivity.
Qed.

(** The tests on elements that were parsed. *)
Lemma elem_op_run script es i : Forall (fun o => 0 <= o < len script) es -> 0 <= i < len es ->
  elem_op script es i = Some (wd script (wd es i)).
Proof.
  intros He Hi. unfold elem_op. rewrite (proj2 (Z.leb_le 0 i)) by lia.
  destruct (lookup_lt_is_Some_2 es (Z.to_nat i)) as [o Ho]; [lia|].
  assert (Ew : wd es i = o) by (unfold wd; now rewrite Ho). rewrite Ew, Ho, bind_Some_l.
  destruct (read_byte script o) as (b & -> & ->); [exact (Forall_lookup_1 _ _ _ _ He Ho)|done].
Qed.

Lemma ops_match_run script es tests : Forall (fun o => 0 <= o < len script) es ->
  Forall (fun t : Z * (Z -> bool) => 0 <= fst t < len es) tests ->
  ops_match script es tests = Some (forallb (fun t : Z * (Z -> bool) => snd t (wd script (wd es (fst t)))) tests).
Proof.
  intros He. induction 1 as [|[i ok] tests Hi _ IH]; cbn [ops_match forallb fst snd]; [done|].
  rewrite elem_op_run, bind_Some_l by done. by destruct (ok _).
Qed.

(** ** Standard scripts *)

Definition p2pkh (h : list Z) : list Z := [OP_DUP; OP_HASH160; 20] ++ h ++ [OP_EQUALVERIFY; OP_CHECKSIG].
Definition p2sh (h : list Z) : list Z := [OP_HASH160; 20] ++ h ++ [OP_EQUAL].
Definition p2pk (k : list Z) : list Z := [len k] ++ k ++ [OP_CHECKSIG].

(** The address string of a version byte and a hash. *)
Definition address_string (version : Z) (h : list Z) : list Z :=
  base58_string ((version :: h) ++ take 4 (BRSHA256_2 (version :: h))).

Definition hash20 (h : list Z) : Prop := bytes_ok h /\ length h = 20%nat.

Lemma check_encode_writes data : bytes_ok data -> len data < 0x100000000 ->
  writes (fun p n => BRBase58CheckEncode p n data) (base58_string (data ++ take 4 (BRSHA256_2 data)) ++ [0]).
Proof.
  intros Hd Hl p n Hr. unfold BRBase58CheckEncode. rewrite checked_take.
  apply write_result_writes; [|done].
  assert (Hf : bytes_ok (data ++ take 4 (BRSHA256_2 data))) by (apply Forall_app; split; [done|apply Forall_take, hash_bytes]).
  pose proof (base58_string_length _ Hf) as Hs. rewrite length_app, sha_checksum_length in Hs.
  rewrite length_app. cbn [length]. zdiv_lia.
Qed.

Lemma version_bytes v h : 0 <= v < 256 -> hash20 h -> bytes_ok (v :: h) /\ len (v :: h) = 21.
Proof. intros Hv [Hb Hl]. split; [now constructor|]. cbn [length]. lia. Qed.

Lemma decode21_address v h : 0 <= v < 256 -> hash20 h -> decode21 (address_string v h) = Some (Some (v :: h)).
Proof.
  intros Hv Hh. destruct (version_bytes v h Hv Hh) as [Hb Hl]. unfold decode21, address_string.
  set (full := (v :: h) ++ _).
  assert (Lf : len full = 25) by (unfold full; rewrite length_app, sha_checksum_length; lia).
  assert (Hf : bytes_ok full) by (apply Forall_app; split; [done|apply Forall_take, hash_bytes]).
  pose proof (base58_string_length full Hf) as Hs. rewrite Lf in Hs. change (25 * 138 / 100 + 1) with 35 in Hs.
  rewrite check_decode_spec by lia. unfold full. rewrite check_payload_encode by done.
  unfold write_result. rewrite Hl. change (21 <=? 21) with true. cbn iota.
  unfold mem_write. rewrite Hl, length_replicate. cbn [Z.to_nat take drop app].
  change ((0 <=? 0) && (0 + 21 <=? Z.of_nat 21)) with true. cbn iota. cbn [mbind option_bind].
  change (21 =? 21) with true. cbn iota. do 2 f_equal.
  rewrite drop_ge, app_nil_r by (rewrite length_replicate; lia). reflexivity.
Qed.

(** Every script either has no address or its elements are read within bounds. *)
Lemma elem_data_ok script o es i hdr l :
  0 <= i -> es !! Z.to_nat i = Some o -> 0 <= o -> 1 <= hdr -> 0 <= l -> o + hdr + l <= len script ->
  BRScriptData (drop (Z.to_nat o) script) = Some (if 0 <? l then Some hdr else None, l) ->
  exists d, elem_data script es i = Some (d, l) /\ (0 < l -> exists t, d = Some t /\ l <= len t).
Proof.
  intros Hi Ei Ho Hh Hl Hb E. unfold elem_data. rewrite (proj2 (Z.leb_le 0 i)), Ei, bind_Some_l, E by done. cbn [mbind option_bind fst snd].
  destruct (Z.ltb_spec 0 l); eexists; (split; [reflexivity|]); [|lia].
  intros _. eexists. split; [reflexivity|]. rewrite !length_drop. lia.
Qed.

Lemma data20_total d l : (0 < l -> exists t, d = Some t /\ l <= len t) -> is_Some (data20 (d, l)).
Proof.
  intros Hd. unfold data20. destruct d as [t|]; [|eauto]. destruct (Z.eqb_spec l 20) as [->|]; [|eauto].
  destruct Hd as (t' & [= <-] & Hl); [lia|]. rewrite mem_read_in by lia. cbn. eauto.
Qed.

Lemma data_hash_total ok d l : 0 <= l -> (0 < l -> exists t, d = Some t /\ l <= len t) -> is_Some (data_hash ok (d, l)).
Proof.
  intros H0 Hd. unfold data_hash. destruct d as [t|]; [|eauto]. destruct (ok l); [|eauto].
  destruct (Z.eq_dec l 0) as [->|].
  - rewrite mem_read_in by lia. cbn. eauto.
  - destruct Hd as (t' & [= <-] & Hl); [lia|]. rewrite mem_read_in by lia. cbn. eauto.
Qed.

(** [elem_data] of a parsed element. *)
Lemma elem_data_elems script es i :
  Forall (elem_ok script) es -> 0 <= i < len es ->
  exists d l, elem_data script es i = Some (d, l) /\ 0 <= l /\ (0 < l -> exists t, d = Some t /\ l <= len t).
Proof.
  intros Hes Hi. destruct (lookup_lt_is_Some_2 es (Z.to_nat i)) as [o Ho]; [lia|].
  pose proof (Forall_lookup_1 _ _ _ _ Hes Ho) as (Hb & hdr & l & ? & ? & ? & E).
  destruct (elem_data_ok script o es i hdr l) as (d & Ed & Hd); [lia|done|lia|lia|lia|lia|done|eauto 6].
Qed.

Lemma encode_address_total p n v h : ptr_ok p n -> is_Some (encode_address p n v h).
Proof. intros. destruct h; cbn; [|eauto]. now apply write_result_total. Qed.

Lemma address_step_total script es i (f : option (list Z) * Z -> option (option (list Z))) p n v :
  Forall (elem_ok script) es -> 0 <= i < len es -> ptr_ok p n ->
  (forall d l, 0 <= l -> (0 < l -> exists t, d = Some t /\ l <= len t) -> is_Some (f (d, l))) ->
  is_Some (dl ← elem_data script es i; h ← f dl; encode_address p n v h).
Proof.
  intros Hok Hi Hp Hf. destruct (elem_data_elems script es i Hok Hi) as (d & l & -> & H0 & Hd). cbn.
  destruct (Hf d l H0 Hd) as [h ->]. cbn. now apply encode_address_total.
Qed.

Lemma elements_or_none script : bytes_ok script ->
  exists es, script_elements script = Some (es, len es) /\ Forall (elem_ok script) es.
Proof.
  intros Hb. rewrite (script_elements_all script Hb).
  destruct (loop_of (length script) script 0 0) as [es end_] eqn:El.
  destruct (script_loop_spec script Hb (length script) 0 0 es end_) as (_ & _ & Hok); [lia|lia|lia|done|].
  destruct (Z.eqb_spec end_ (len script)) as [He|].
  - exists es. auto.
  - exists []. split; [done|constructor].
Qed.

Lemma elem_ok_range script es : Forall (elem_ok script) es -> Forall (fun o => 0 <= o < len script) es.
Proof. intros H. apply (Forall_impl _ _ _ H). by intros o [? _]. Qed.

(** The tests of one kind of script, guarded by the number of elements. *)
Lemma ops_guarded script es (guard : bool) tests : Forall (elem_ok script) es ->
  (guard = true -> Forall (fun t : Z * (Z -> bool) => 0 <= fst t < len es) tests) ->
  exists b, (if guard then ops_match script es tests else Some false) = Some b /\ (b = true -> guard = true).
Proof.
  intros He Ht. destruct guard; [|by exists false]. rewrite ops_match_run by auto using elem_ok_range. by eexists.
Qed.

Lemma from_script_pub_key_total p n script :
  bytes_ok script -> ptr_ok p n -> is_Some (BRAddressFromScriptPubKey p n script).
Proof.
  intros Hb Hp. unfold BRAddressFromScriptPubKey. destruct (_ || _); [eauto|].
  destruct (elements_or_none script Hb) as (es & -> & Hok). rewrite bind_Some_l. cbn iota.
  destruct (ops_guarded script es (len es =? 5)
    [(0, Z.eqb OP_DUP); (1, Z.eqb OP_HASH160); (2, Z.eqb 20); (3, Z.eqb OP_EQUALVERIFY); (4, Z.eqb OP_CHECKSIG)] Hok)
    as (b1 & -> & G1); [intros E%Z.eqb_eq; repeat constructor; cbn; lia|].
  rewrite bind_Some_l. destruct b1; [specialize (G1 eq_refl); apply Z.eqb_eq in G1;
    apply address_step_total; auto using data20_total; lia|].
  destruct (ops_guarded script es (len es =? 3) [(0, Z.eqb OP_HASH160); (1, Z.eqb 20); (2, Z.eqb OP_EQUAL)] Hok)
    as (b2 & -> & G2); [intros E%Z.eqb_eq; repeat constructor; cbn; lia|].
  rewrite bind_Some_l. destruct b2; [specialize (G2 eq_refl); apply Z.eqb_eq in G2;
    apply address_step_total; auto using data20_total; lia|].
  destruct (ops_guarded script es (len es =? 2) [(0, pubkey_len); (1, Z.eqb OP_CHECKSIG)] Hok)
    as (b3 & -> & G3); [intros E%Z.eqb_eq; repeat constructor; cbn; lia|].
  rewrite bind_Some_l. destruct b3; [specialize (G3 eq_refl); apply Z.eqb_eq in G3;
    apply address_step_total; auto using data_hash_total; lia|eauto].
Qed.

Lemma from_script_sig_total p n script :
  bytes_ok script -> ptr_ok p n -> is_Some (BRAddressFromScriptSig p n script).
Proof.
  intros Hb Hp. unfold BRAddressFromScriptSig. destruct (_ || _); [eauto|].
  destruct (elements_or_none script Hb) as (es & -> & Hok). rewrite bind_Some_l. cbn iota.
  destruct (ops_guarded script es (2 <=? len es) [(len es - 2, Z.geb OP_PUSHDATA4); (len es - 1, pubkey_len)] Hok)
    as (b1 & -> & G1); [intros E%Z.leb_le; repeat constructor; cbn; lia|].
  rewrite bind_Some_l. destruct b1; [specialize (G1 eq_refl); apply Z.leb_le in G1;
    apply address_step_total; auto using data_hash_total; lia|].
  destruct (ops_guarded script es (2 <=? len es)
    [(len es - 2, Z.geb OP_PUSHDATA4); (len es - 1, Z.geb OP_PUSHDATA4); (len es - 1, Z.ltb 0)] Hok)
    as (b2 & -> & G2); [intros E%Z.leb_le; repeat constructor; cbn; lia|].
  rewrite bind_Some_l. destruct b2; [specialize (G2 eq_refl); apply Z.leb_le in G2;
    apply address_step_total; auto using data_hash_total; lia|eauto].
Qed.

(** ** Pushes *)

Lemma wd_app_mid pre x post i : i = len pre -> wd (pre ++ x :: post) i = x.
Proof. intros ->. unfold wd. rewrite Nat2Z.id, list_lookup_middle by done. reflexivity. Qed.

Lemma drop_mid pre (x : Z) post i : i = len pre -> drop (Z.to_nat (i + 1)) (pre ++ x :: post) = post.
Proof.
  intros ->. replace (Z.to_nat (len pre + 1)) with (length pre + 1)%nat by lia.
  now rewrite drop_add, drop_app_len.
Qed.

Lemma push_bytes_split d : len d < 0x100000000 ->
  exists hd, push_bytes d = hd ++ d /\ 1 <= len hd.
Proof.
  intros Hd. unfold push_bytes. repeat case_match.
  - exists [len d]. split; [done|cbn; lia].
  - exists [OP_PUSHDATA1; len d]. split; [done|cbn; lia].
  - exists (OP_PUSHDATA2 :: UInt16SetLE (len d)). split; [done|cbn; lia].
  - exists (OP_PUSHDATA4 :: UInt32SetLE (u32 (len d))). split; [done|cbn; lia].
Qed.

Lemma script_step_push pre d post l : len d < 0x100000000 ->
  step_of (pre ++ push_bytes d ++ post) (len pre) l = (len pre + len (push_bytes d), len d).
Proof.
  intros Hd. set (script := pre ++ push_bytes d ++ post).
  assert (Ls : len script = len pre + len (push_bytes d) + len post) by (unfold script; rewrite !length_app; lia).
  revert Ls. unfold script, step_of, push_bytes, OP_PUSHDATA1, OP_PUSHDATA2, OP_PUSHDATA4.
  destruct (Z.ltb_spec (len d) 0x4c); [|destruct (Z.ltb_spec (len d) 0xff); [|destruct (Z.ltb_spec (len d) 0xffff)]];
    cbn [app]; rewrite (wd_app_mid pre) by done; intros Ls.
  - rewrite !(proj2 (Z.eqb_neq (len d) _)), (proj2 (Z.ltb_ge 0x4e _)) by lia. f_equal. cbn [length]. lia.
  - rewrite Z.eqb_refl. change (pre ++ 76 :: len d :: d ++ post) with (pre ++ [76] ++ len d :: d ++ post) in *.
    rewrite app_assoc in *. rewrite wd_app_mid by (rewrite length_app; cbn; lia). cbn [length] in *.
    rewrite (proj2 (Z.leb_le _ _)) by lia. f_equal. lia.
  - change (0x4d =? 0x4c) with false. change (0x4d =? 0x4d) with true. cbn iota.
    rewrite drop_mid by done. assert (Hw : length (UInt16SetLE (len d)) = 2%nat) by reflexivity.
    repeat (rewrite ?length_app in *; cbn [length] in * ). rewrite Hw in *.
    rewrite (proj2 (Z.leb_le _ _)) by lia.
    replace (UInt16GetLE ((UInt16SetLE (len d) ++ d) ++ post)) with (len d).
    + f_equal. lia.
    + rewrite <- app_assoc, <- UInt16GetLE_take by (cbn; lia). symmetry. apply (UInt16Get_Set (len d)). lia.
  - change (0x4e =? 0x4c) with false. change (0x4e =? 0x4d) with false. change (0x4e =? 0x4e) with true. cbn iota.
    rewrite drop_mid by done. rewrite u32_id in * by lia.
    assert (Hw : length (UInt32SetLE (len d)) = 4%nat) by reflexivity.
    repeat (rewrite ?length_app in *; cbn [length] in * ). rewrite Hw in *.
    rewrite (proj2 (Z.leb_le _ _)) by lia.
    replace (UInt32GetLE ((UInt32SetLE (len d) ++ d) ++ post)) with (len d).
    + f_equal. lia.
    + rewrite <- app_assoc, <- UInt32GetLE_take by (cbn; lia). symmetry. apply (UInt32Get_Set (len d)). lia.
Qed.

Lemma push_bytes_ok d : bytes_ok d -> bytes_ok (push_bytes d).
Proof.
  intros Hd. unfold push_bytes, OP_PUSHDATA1, OP_PUSHDATA2, OP_PUSHDATA4.
  destruct (Z.ltb_spec (len d) 0x4c); [|destruct (Z.ltb_spec (len d) 0xff); [|destruct (len d <? 0xffff)]];
    rewrite ?UInt16SetLE_spec, ?UInt32SetLE_spec;
    repeat (apply Forall_cons; split; [unfold is_byte; lia|]); try done;
    apply Forall_app; split; auto using le_bytes_ok.
Qed.

(** Offsets of consecutive pushes. *)
Fixpoint push_offsets (off : Z) (ds : list (list Z)) : list Z :=
  match ds with
  | [] => []
  | d :: ds' => off :: push_offsets (off + len (push_bytes d)) ds'
  end.

Definition push_script (ds : list (list Z)) : list Z := mjoin (push_bytes <$> ds).

Notation pushable := (Forall (fun d => len d < 0x100000000)).

Lemma push_bytes_pos d : 1 <= len (push_bytes d).
Proof. unfold push_bytes. repeat case_match; cbn; lia. Qed.

Lemma script_loop_pushes ds : pushable ds -> forall fuel pre l,
  (length (push_script ds) <= fuel)%nat ->
  loop_of fuel (pre ++ push_script ds) (len pre) l =
  (push_offsets (len pre) ds, len (pre ++ push_script ds)).
Proof.
  induction 1 as [|d ds Hd Hds IH]; intros fuel pre l Hf.
  - rewrite app_nil_r. destruct fuel; cbn [loop_of]; [done|]. now rewrite Z.ltb_irrefl.
  - change (push_script (d :: ds)) with (push_bytes d ++ push_script ds) in *.
    pose proof (push_bytes_pos d). rewrite length_app in Hf.
    destruct fuel as [|fuel]; [lia|]. cbn [loop_of].
    rewrite (proj2 (Z.ltb_lt _ _)) by (rewrite !length_app; lia).
    rewrite script_step_push by done. rewrite app_assoc.
    replace (len pre + len (push_bytes d)) with (len (pre ++ push_bytes d)) by (rewrite length_app; lia).
    rewrite IH by lia. cbn [push_offsets]. do 3 f_equal. rewrite length_app. lia.
Qed.

Lemma push_offsets_length off ds : length (push_offsets off ds) = length ds.
Proof. revert off; induction ds; intros; cbn; auto. Qed.

Lemma push_offsets_lookup ds i d : forall pre, ds !! i = Some d ->
  exists pre' post, push_offsets (len pre) ds !! i = Some (len pre') /\
    pre ++ push_script ds = pre' ++ push_bytes d ++ post.
Proof.
  revert i; induction ds as [|d0 ds IH]; intros [|i] pre E; simplify_eq/=.
  - exists pre, (push_script ds). split; [done|]. reflexivity.
  - destruct (IH i (pre ++ push_bytes d0) E) as (pre' & post & E1 & E2).
    exists pre', post. rewrite length_app, Nat2Z.inj_add in E1. split; [done|].
    rewrite <- E2, <- app_assoc. reflexivity.
Qed.

(** ** Properties *)

(** Varint round trip: [BRVarIntSet] writes the 1, 3, 5 or 9 byte encoding of any [uint64_t] (and
    returns its size on NULL, which is [BRVarIntSize]), and [BRVarInt] reads value and length back
    from the start of any longer buffer. *)
Theorem varint_roundtrip i rest n :
  0 <= i < 0x10000000000000000 -> BRVarIntSize i <= n ->
  writes (fun p n => BRVarIntSet p n i) (varint_bytes i) /\
  BRVarInt (varint_bytes i ++ rest) n = Some (i, BRVarIntSize i).
Proof. intros Hi Hn. split; [apply BRVarIntSet_writes; lia|now apply BRVarInt_spec]. Qed.

Lemma varint_roundtrip_witness :
  0 <= 0x12345 < 0x10000000000000000 /\
  BRVarInt (varint_bytes 0x12345 ++ [7; 7]) 7 = Some (0x12345, 5).
Proof.
  split; [lia|]. refine (proj2 (varint_roundtrip 0x12345 [7; 7] 7 _ _)); [lia|vm_compute; discriminate].
Defined.

(** A script made of data pushes written by [BRScriptPushData] parses back: [BRScriptElements]
    finds exactly one element per push, and [BRScriptData] of the i-th element is the i-th data. *)
Theorem script_push_roundtrip ds n :
  Forall bytes_ok ds -> pushable ds -> len ds <= n ->
  BRScriptElements (Some n) (push_script ds) = Some (push_offsets 0 ds, len ds) /\
  forall i d, ds !! i = Some d ->
    writes (fun p k => BRScriptPushData p k d) (push_bytes d) /\
    exists o hdr, push_offsets 0 ds !! i = Some o /\
      BRScriptData (drop (Z.to_nat o) (push_script ds)) = Some (if 0 <? len d then Some hdr else None, len d) /\
      take (length d) (drop (Z.to_nat (o + hdr)) (push_script ds)) = d.
Proof.
  intros Hb Hp Hn.
  pose proof (script_loop_pushes ds Hp (length (push_script ds)) [] 0 ltac:(lia)) as El.
  cbn [app length] in El. change (Z.of_nat 0) with 0 in El.
  assert (Hbs : bytes_ok (push_script ds)).
  { clear -Hb Hp. unfold push_script. induction Hb as [|d ds Hd Hds IH]; [constructor|].
    apply Forall_cons in Hp as [Hl Hp]. rewrite fmap_cons. apply Forall_app. split; [|now apply IH].
    apply push_bytes_ok. exact Hd. }
  split.
  { unfold BRScriptElements. rewrite script_loop_run, El, bind_Some_l, push_offsets_length, Z.eqb_refl, (proj2 (Z.leb_le _ _)) by (done || lia).
    rewrite firstn_all2 by (rewrite push_offsets_length; lia). reflexivity. }
  intros i d Hi. pose proof (Forall_lookup_1 _ _ _ _ Hp Hi) as Hd. cbn in Hd.
  destruct (push_bytes_split d Hd) as (hd & Eh & Hh).
  split.
  { apply write_result_writes. rewrite Eh, length_app. assert (len hd <= 5); [|lia].
    apply (f_equal (@length Z)) in Eh. rewrite length_app in Eh. revert Eh. unfold push_bytes.
    repeat case_match; cbn [length UInt16SetLE UInt32SetLE app]; lia. }
  destruct (push_offsets_lookup ds i d [] Hi) as (pre & post & Eo & Es). cbn [app length] in Eo, Es.
  exists (len pre), (len hd). split; [exact Eo|].
  pose proof (script_step_spec (push_script ds) (len pre) 0 Hbs) as Hs.
  rewrite Es in *. rewrite script_step_push in Hs by done.
  pose proof (push_bytes_pos d) as Hpos.
  destruct Hs as (_ & _ & Hs); [rewrite !length_app; lia|lia|].
  destruct Hs as (hdr & H1 & H2 & E); [rewrite !length_app; lia|].
  assert (hdr = len hd) as ->. { rewrite Eh, length_app in H2. lia. }
  split; [exact E|].
  rewrite Eh, <- app_assoc. replace (Z.to_nat (len pre + len hd)) with (length pre + length hd)%nat by lia.
  rewrite drop_add, drop_app_len, drop_app_len, take_app_len. reflexivity.
Qed.

Lemma script_push_roundtrip_witness :
  BRScriptElements (Some 2) (push_script [[1; 2; 3]; replicate 80 9]) = Some ([0; 4], 2).
Proof.
  refine (proj1 (script_push_roundtrip [[1; 2; 3]; replicate 80 9] 2 _ _ _)).
  - repeat (apply Forall_cons; split); try apply Forall_replicate; unfold is_byte; try lia; constructor.
  - repeat (apply Forall_cons; split); try done.
  - vm_compute. discriminate.
Defined.

(** C32. Memory safety of script parsing, for every script (any bytes): [BRScriptElements] reads no byte outside the
    script, with and without an array; when it accepts the script, every element it reports lies inside it with
    its data, so that [BRScriptData] on it reads no byte outside; [BRAddressFromScriptPubKey] and
    [BRAddressFromScriptSig], with any buffer, read only inside the script and write only inside the buffer. *)
Theorem script_elements_safe script : bytes_ok script ->
  (forall elemsCount, exists es count, BRScriptElements elemsCount script = Some (es, count) /\
     forall n, elemsCount = Some n -> count <> 0 -> len es = count /\ Forall (elem_ok script) es) /\
  forall addr addrLen, ptr_ok addr addrLen ->
    is_Some (BRAddressFromScriptPubKey addr addrLen script) /\ is_Some (BRAddressFromScriptSig addr addrLen script).
Proof.
  intros Hb. split; [|auto using from_script_pub_key_total, from_script_sig_total].
  intros elemsCount. unfold BRScriptElements. rewrite script_loop_run by done.
  destruct (loop_of (length script) script 0 0) as [es end_] eqn:El. rewrite bind_Some_l.
  do 2 eexists. split; [reflexivity|]. intros n ->.
  destruct (Z.leb_spec (len es) n); [|done]. destruct (Z.eqb_spec end_ (len script)); [|done]. intros _.
  rewrite firstn_all2 by lia. split; [done|].
  destruct (script_loop_spec script Hb (length script) 0 0 es end_) as (_ & _ & H'); auto; lia.
Qed.

Lemma script_elements_safe_witness :
  Forall (elem_ok [2; 7; 7; 0xac]) [0; 3] /\ is_Some (BRAddressFromScriptPubKey None 0 [2; 7; 7; 0xac]).
Proof.
  destruct (script_elements_safe [2; 7; 7; 0xac]) as [He Ha].
  { repeat (apply Forall_cons; split; [unfold is_byte; lia|]). constructor. }
  split; [|refine (proj1 (Ha None 0 _)); exact I].
  destruct (He (Some 2)) as (es & count & E & H). injection E as <- <-. exact (proj2 (H 2 eq_refl ltac:(discriminate))).
Defined.

Lemma from_script_p2pkh h p n : hash20 h ->
  BRAddressFromScriptPubKey p n (p2pkh h) = BRBase58CheckEncode p n (BITCOIN_PUBKEY_ADDRESS :: h).
Proof. intros [_ Hl]. split_bytes h. reflexivity. Qed.

Lemma from_script_p2sh h p n : hash20 h ->
  BRAddressFromScriptPubKey p n (p2sh h) = BRBase58CheckEncode p n (BITCOIN_SCRIPT_ADDRESS :: h).
Proof. intros [_ Hl]. split_bytes h. reflexivity. Qed.

(** C31. Address round trip: for a 20-byte hash, the pay-to-pubkey-hash and pay-to-script-hash scripts
    each have an address; [BRAddressScriptPubKey] turns that address back into the script,
    [BRAddressIsValid] accepts it and [BRAddressHash160] returns the hash. *)
Theorem address_roundtrip h version script :
  hash20 h ->
  (version = BITCOIN_PUBKEY_ADDRESS /\ script = p2pkh h \/ version = BITCOIN_SCRIPT_ADDRESS /\ script = p2sh h) ->
  let s := address_string version h in
  writes (fun p n => BRAddressFromScriptPubKey p n script) (s ++ [0]) /\
  writes (fun p n => BRAddressScriptPubKey p n s) script /\
  BRAddressIsValid s = Some true /\ BRAddressHash160 s = Some (Some h).
Proof.
  intros Hh Hv s.
  assert (Hver : 0 <= version < 256) by (unfold BITCOIN_PUBKEY_ADDRESS, BITCOIN_SCRIPT_ADDRESS in Hv; lia).
  destruct (version_bytes version h Hver Hh) as [Hb Hl].
  pose proof (check_encode_writes (version :: h) Hb ltac:(lia)) as Hw.
  pose proof (decode21_address version h Hver Hh) as Hd. fold s in Hd.
  assert (Et : take 20 h = h) by (apply take_ge; destruct Hh; lia).
  assert (Ls : forall a b, len (a ++ h ++ b) < 0x10000000000000000 <-> len a + 20 + len b < 0x10000000000000000).
  { intros. rewrite !length_app. destruct Hh as [_ ->]. lia. }
  unfold BRAddressScriptPubKey, BRAddressIsValid, BRAddressHash160. rewrite Hd.
  cbn [mbind option_bind option_map]. change (wd (version :: h) 0) with version.
  change (drop 1 (version :: h)) with h. rewrite Et.
  destruct Hv as [[-> ->]|[-> ->]].
  - split; [|split; [|auto]].
    + intros p n Hr. rewrite from_script_p2pkh by done. now apply Hw.
    + change (BITCOIN_PUBKEY_ADDRESS =? BITCOIN_PUBKEY_ADDRESS) with true. cbn iota.
      apply write_result_writes. unfold p2pkh. rewrite Ls. cbn. lia.
  - split; [|split; [|auto]].
    + intros p n Hr. rewrite from_script_p2sh by done. now apply Hw.
    + change (BITCOIN_SCRIPT_ADDRESS =? BITCOIN_PUBKEY_ADDRESS) with false.
      change (BITCOIN_SCRIPT_ADDRESS =? BITCOIN_SCRIPT_ADDRESS) with true. cbn iota.
      apply write_result_writes. unfold p2sh. rewrite Ls. cbn. lia.
Qed.

Lemma address_roundtrip_witness :
  BRAddressIsValid (address_string BITCOIN_SCRIPT_ADDRESS (replicate 20 7)) = Some true /\
  BRAddressHash160 (address_string BITCOIN_SCRIPT_ADDRESS (replicate 20 7)) = Some (Some (replicate 20 7)).
Proof.
  refine (proj2 (proj2 (address_roundtrip (replicate 20 7) BITCOIN_SCRIPT_ADDRESS (p2sh (replicate 20 7)) _ _))); [|auto].
  split; [|reflexivity]. apply Forall_replicate. unfold is_byte. lia.
Defined.

(** ** Scripts with an address *)

(** Unrolls a parse whose opcodes are known. *)
Ltac parse_op H Hop :=
  let f := fresh "f" in let Hlt := fresh "Hlt" in
  apply script_loop_cons in H as (f & -> & Hlt & H);
  first [rewrite (proj1 (script_step_op _ _ _)) in H by (rewrite Hop; reflexivity)
        |rewrite (proj2 (script_step_op _ _ _)) in H by (rewrite Hop; reflexivity); rewrite Hop in H];
  cbn [fst snd Z.add Pos.add] in H.

Lemma split_at (l : list Z) a b : length l = (a + b)%nat -> exists x y, l = x ++ y /\ length x = a /\ length y = b.
Proof.
  intros Hl. exists (take a l), (drop a l). rewrite take_drop, length_take, length_drop. split; [done|]. lia.
Qed.

Lemma wd_head (x : Z) l i : wd (x :: l) (Z.of_nat (S i)) = wd l (Z.of_nat i).
Proof. unfold wd. rewrite !Nat2Z.id. reflexivity. Qed.

Lemma p2pkh_shape script :
  len script = 25 -> wd script 0 = OP_DUP -> wd script 1 = OP_HASH160 -> wd script 2 = 20 ->
  wd script 23 = OP_EQUALVERIFY -> wd script 24 = OP_CHECKSIG -> exists h, length h = 20%nat /\ script = p2pkh h.
Proof.
  intros Hl H0 H1 H2 H3 H4. destruct (split_at script 3 22) as (x & y & -> & Hx & Hy); [lia|].
  destruct (split_at y 20 2) as (h & z & -> & Hh & Hz); [lia|].
  exists h. split; [done|]. split_bytes x. split_bytes z. split_bytes h.
  vm_compute in H0, H1, H2, H3, H4. subst. reflexivity.
Qed.

Lemma p2sh_shape script :
  len script = 23 -> wd script 0 = OP_HASH160 -> wd script 1 = 20 -> wd script 22 = OP_EQUAL ->
  exists h, length h = 20%nat /\ script = p2sh h.
Proof.
  intros Hl H0 H1 H2. destruct (split_at script 2 21) as (x & y & -> & Hx & Hy); [lia|].
  destruct (split_at y 20 1) as (h & z & -> & Hh & Hz); [lia|].
  exists h. split; [done|]. split_bytes x. split_bytes z. split_bytes h.
  vm_compute in H0, H1, H2. subst. reflexivity.
Qed.

Lemma p2pk_shape script k :
  len script = k + 2 -> wd script 0 = k -> wd script (k + 1) = OP_CHECKSIG -> 0 < k ->
  exists key, len key = k /\ script = p2pk key.
Proof.
  intros Hl H0 H1 Hk. destruct (split_at script 1 (Z.to_nat k + 1)) as (x & y & -> & Hx & Hy); [lia|].
  destruct (split_at y (Z.to_nat k) 1) as (key & z & -> & Hkey & Hz); [lia|].
  exists key. split; [lia|]. destruct x as [|b [|? ?]]; try discriminate Hx. destruct z as [|c [|? ?]]; try discriminate Hz.
  change (b = k) in H0. subst b.
  assert (Ec : wd (k :: key ++ [c]) (k + 1) = c).
  { change (k :: key ++ [c]) with ((k :: key) ++ c :: []). apply wd_app_mid. cbn [length]. lia. }
  change ([k] ++ key ++ [c]) with (k :: key ++ [c]) in H1. rewrite Ec in H1. subst c.
  unfold p2pk. replace (len key) with k by lia. reflexivity.
Qed.

(** Strictness of [BRAddressFromScriptPubKey]: it only returns an address for a script that is,
    byte for byte, a pay-to-pubkey-hash, pay-to-script-hash or pay-to-pubkey output; in particular no
    non-minimal push of the hash and no trailing opcode is accepted. *)
Theorem address_script_strict script r : bytes_ok script ->
  BRAddressFromScriptPubKey None 0 script = Some (None, r) -> r <> 0 ->
  (exists h, length h = 20%nat /\ script = p2pkh h) \/ (exists h, length h = 20%nat /\ script = p2sh h) \/
  (exists k, pubkey_len (len k) = true /\ script = p2pk k).
Proof.
  intros Hb E Hr. unfold BRAddressFromScriptPubKey in E.
  destruct (_ || _); [congruence|]. rewrite (script_elements_all script Hb) in E.
  destruct (loop_of (length script) script 0 0) as [es end_] eqn:El.
  destruct (script_loop_spec script Hb (length script) 0 0 es end_) as (_ & _ & Hes); [lia|lia|lia|done|].
  destruct (Z.eqb_spec end_ (len script)) as [Hend|Hend]; [rewrite Hend in El|cbn in E; congruence].
  specialize (Hes Hend). apply elem_ok_range in Hes. rewrite bind_Some_l in E.
  destruct (Z.eqb_spec (len es) 5) as [Hn|H5]; [|rewrite bind_Some_l in E;
    destruct (Z.eqb_spec (len es) 3) as [Hn|H3]; [|rewrite bind_Some_l in E; destruct (Z.eqb_spec (len es) 2) as [Hn|H2]]].
  4: { rewrite bind_Some_l in E. congruence. }
  all: match type of E with ops_match _ _ ?tests ≫= _ = _ => rewrite (ops_match_run script es tests Hes), bind_Some_l in E
      by (repeat (apply Forall_cons; split; [cbn [fst]; lia|]); apply Forall_nil; exact I) end;
    cbn [forallb fst snd] in E; destruct (_ && _) eqn:E1; [clear E|rewrite ?Hn in E; cbn in E; congruence];
    rewrite !andb_true_iff in E1.
  - left. rewrite !Z.eqb_eq in E1. destruct E1 as (H0 & H1 & H2 & H3 & H4 & _). symmetry in H0, H1, H2, H3, H4.
    destruct es as [|o0 [|o1 [|o2 [|o3 [|o4 [|? ?]]]]]]; cbn [length] in Hn; try lia.
    change (wd [o0; o1; o2; o3; o4] 0) with o0 in *. change (wd [o0; o1; o2; o3; o4] 1) with o1 in *.
    change (wd [o0; o1; o2; o3; o4] 2) with o2 in *. change (wd [o0; o1; o2; o3; o4] 3) with o3 in *.
    change (wd [o0; o1; o2; o3; o4] 4) with o4 in *.
    parse_op El H0. parse_op El H1. parse_op El H2. parse_op El H3. parse_op El H4.
    apply script_loop_nil in El. now apply p2pkh_shape.
  - right; left. rewrite !Z.eqb_eq in E1. destruct E1 as (H0 & H1 & H2 & _). symmetry in H0, H1, H2.
    destruct es as [|o0 [|o1 [|o2 [|? ?]]]]; cbn [length] in Hn; try lia.
    change (wd [o0; o1; o2] 0) with o0 in *. change (wd [o0; o1; o2] 1) with o1 in *.
    change (wd [o0; o1; o2] 2) with o2 in *.
    parse_op El H0. parse_op El H1. parse_op El H2. apply script_loop_nil in El. now apply p2sh_shape.
  - right; right. unfold pubkey_len in E1. rewrite orb_true_iff, !Z.eqb_eq in E1. destruct E1 as (H0 & H1 & _). symmetry in H1.
    destruct es as [|o0 [|o1 [|? ?]]]; cbn [length] in Hn; try lia.
    change (wd [o0; o1] 0) with o0 in *. change (wd [o0; o1] 1) with o1 in *.
    destruct H0 as [H0|H0]; parse_op El H0; parse_op El H1; apply script_loop_nil in El;
      [destruct (p2pk_shape script 65) as (k & Hk & ->)|destruct (p2pk_shape script 33) as (k & Hk & ->)];
      try done; try lia; exists k; rewrite Hk; auto.
Qed.

Lemma address_script_strict_witness :
  exists k, pubkey_len (len k) = true /\ p2pk (replicate 33 2) = p2pk k.
Proof.
  destruct (address_script_strict (p2pk (replicate 33 2)) 35) as [(h & Hh & E)|[(h & Hh & E)|Hk]].
  - apply (Forall_impl (fun b => b = 33 \/ b = 2 \/ b = OP_CHECKSIG)); [|unfold is_byte, OP_CHECKSIG; intuition lia].
    repeat (apply Forall_cons; split; [auto|]). apply Forall_nil; exact I.
  - vm_compute. reflexivity.
  - discriminate.
  - apply (f_equal (@length Z)) in E. unfold p2pkh in E. rewrite !length_app, Hh in E. discriminate.
  - apply (f_equal (@length Z)) in E. unfold p2sh in E. rewrite !length_app, Hh in E. discriminate.
  - exact Hk.
Defined.
