(* ===== verification/Transaction.v ===== *)
(** * Transaction: transactions and their wire format (BRTransaction.c, BRTransaction.h)

    Scripts and signatures are optional byte strings ([None] is a NULL pointer; the lengths stored
    next to the pointers are their lengths).  The serializers follow the pattern of CMem; the parser
    threads the offset [off] through the option monad, where [None] is a read outside the buffer, and
    returns [Some None] for NULL.  Random numbers and keys are arguments: [BRRand] draws from a
    stream of [rand()] values, [BRTransactionSign] uses the operations of the [KeyOps] interface. *)
From stdpp Require Import base numbers list.
From Stdlib Require Import ZArith Lia.
From S2P Require Import Prelude CMem Int Crypto Base58 Address.
Local Open Scope Z_scope.

(** ** Constants *)

Definition TX_VERSION : Z := 1.
Definition TX_LOCKTIME : Z := 0.
Definition SIGHASH_ALL : Z := 0x01.
Definition SIGHASH_NONE : Z := 0x02.
Definition SIGHASH_SINGLE : Z := 0x03.
Definition SIGHASH_ANYONECANPAY : Z := 0x80.
Definition SIGHASH_FORKID : Z := 0x40.

Definition TX_FEE_PER_KB : Z := 10000.
Definition TX_OUTPUT_SIZE : Z := 34.
Definition TX_INPUT_SIZE : Z := 148.
Definition TX_MIN_OUTPUT_AMOUNT : Z := TX_FEE_PER_KB * 3 * (TX_OUTPUT_SIZE + TX_INPUT_SIZE) / 1000.
Definition TX_MAX_SIZE : Z := 100000.
Definition TX_UNCONFIRMED : Z := INT32_MAX.
Definition TX_MAX_LOCK_HEIGHT : Z := 500000000.
Definition TXIN_SEQUENCE : Z := UINT32_MAX.
Definition SATOSHIS : Z := 100000000.
Definition MAX_MONEY : Z := 21000000 * SATOSHIS.

(** ** Data *)

Record BRTxInput := mkInput {
  in_txHash : Z; in_index : Z; in_address : list Z; in_amount : Z;
  in_script : option (list Z); in_signature : option (list Z); in_sequence : Z }.

Record BRTxOutput := mkOutput { out_address : list Z; out_amount : Z; out_script : option (list Z) }.

Record BRTransaction := mkTx {
  txHash : Z; version : Z; inputs : list BRTxInput; outputs : list BRTxOutput;
  lockTime : Z; blockHeight : Z; timestamp : Z }.

#[export] Instance BRTxInput_eq_dec : EqDecision BRTxInput.
Proof. solve_decision. Defined.
#[export] Instance BRTxOutput_eq_dec : EqDecision BRTxOutput.
Proof. solve_decision. Defined.
#[export] Instance BRTransaction_eq_dec : EqDecision BRTransaction.
Proof. solve_decision. Defined.

Definition bytes_of (s : option (list Z)) : list Z := match s with Some b => b | None => [] end.
Definition inCount (tx : BRTransaction) : Z := len (inputs tx).
Definition outCount (tx : BRTransaction) : Z := len (outputs tx).

(** ** Random numbers *)

Definition RAND_MAX : Z := 0x7fffffff.
Definition BR_RAND_MAX : Z := if 0x7fffffff <? RAND_MAX then 0x7fffffff else RAND_MAX.

(** The [do] loop over the values [rand()] returns, and the values left for later calls. *)
Fixpoint rand_loop (rands : list Z) (upperBound : Z) : option (Z * list Z) :=
  match rands with
  | [] => None
  | r :: rands' =>
      if r <? u32 (u32 (0xffffffff - u32 (upperBound * 2)) + 1) mod upperBound
      then rand_loop rands' upperBound else Some (r mod upperBound, rands')
  end.

Definition BRRand (rands : list Z) (upperBound : Z) : option (Z * list Z) :=
  let upperBound := if (upperBound =? 0) || (BR_RAND_MAX <? upperBound) then BR_RAND_MAX else upperBound in
  rand_loop rands upperBound.

(** ** Inputs and outputs *)

(** The characters of a [char] array up to its NUL. *)
Fixpoint c_str (m : list Z) : list Z :=
  match m with
  | c :: m' => if c =? 0 then [] else c :: c_str m'
  | [] => []
  end.

(** [memset(address, 0, 36); f(address, sizeof(address), script);] *)
Definition address_field (f : ptr -> Z -> list Z -> option (ptr * Z)) (script : list Z) : option (list Z) :=
  '(p, _) ← f (Some (replicate 36 0)) 36 script; Some (c_str (default [] p)).

(** [scriptLen = BRAddressScriptPubKey(NULL, 0, address)], then the script is written. *)
Definition address_script (address : list Z) : option (list Z) :=
  '(_, n) ← BRAddressScriptPubKey None 0 address;
  '(p, _) ← BRAddressScriptPubKey (Some (replicate (Z.to_nat n) 0)) n address;
  Some (default [] p).

(** [assert(address == NULL || BRAddressIsValid(address))] *)
Definition assert_address (address : option (list Z)) : option unit :=
  match address with
  | Some addr => valid ← BRAddressIsValid addr; if (valid : bool) then Some tt else None
  | None => Some tt
  end.

Definition BRTxInputSetAddress (input : BRTxInput) (address : option (list Z)) : option BRTxInput :=
  let '(mkInput h i _ a _ sig seq) := input in
  _ ← assert_address address;
  match address with
  | None => Some (mkInput h i [] a None sig seq)
  | Some addr => script ← address_script addr; Some (mkInput h i (take 35 addr) a (Some script) sig seq)
  end.

Definition BRTxInputSetScript (input : BRTxInput) (script : option (list Z)) : option BRTxInput :=
  let '(mkInput h i _ a _ sig seq) := input in
  match script with
  | None => Some (mkInput h i [] a None sig seq)
  | Some s => addr ← address_field BRAddressFromScriptPubKey s; Some (mkInput h i addr a (Some s) sig seq)
  end.

Definition BRTxInputSetSignature (input : BRTxInput) (signature : option (list Z)) : option BRTxInput :=
  let '(mkInput h i addr a scr _ seq) := input in
  match signature with
  | None => Some (mkInput h i addr a scr None seq)
  | Some s =>
      addr ← (if bool_decide (addr = []) then address_field BRAddressFromScriptSig s else Some addr);
      Some (mkInput h i addr a scr (Some s) seq)
  end.

Definition BRTxOutputSetAddress (output : BRTxOutput) (address : option (list Z)) : option BRTxOutput :=
  _ ← assert_address address;
  match address with
  | None => Some (mkOutput [] (out_amount output) None)
  | Some addr => script ← address_script addr; Some (mkOutput (take 35 addr) (out_amount output) (Some script))
  end.

Definition BRTxOutputSetScript (output : BRTxOutput) (script : option (list Z)) : option BRTxOutput :=
  match script with
  | None => Some (mkOutput [] (out_amount output) None)
  | Some s => addr ← address_field BRAddressFromScriptPubKey s; Some (mkOutput addr (out_amount output) (Some s))
  end.

(** ** Serializers *)

(** [off += BRVarIntSet((data ? &data[off] : NULL), (off <= dataLen ? dataLen - off : 0), i);] *)
Definition put_varint (dataLen i : Z) (st : ptr * Z) : option (ptr * Z) :=
  call_at dataLen (fun p n => BRVarIntSet p n i) st.

Definition _BRTxInputData (input : BRTxInput) (data : ptr) (dataLen : Z) : option (ptr * Z) :=
  let st := (data, 0) in
  st ← put dataLen (UInt256Set (in_txHash input)) st;
  st ← put dataLen (UInt32SetLE (in_index input)) st;
  st ← put_varint dataLen (len (bytes_of (in_signature input))) st;
  st ← put dataLen (bytes_of (in_signature input)) st;
  st ← (if negb (in_amount input =? 0) then put dataLen (UInt64SetLE (in_amount input)) st else Some st);
  st ← put dataLen (UInt32SetLE (in_sequence input)) st;
  finish dataLen st.

Fixpoint outputs_loop (dataLen : Z) (outs : list BRTxOutput) (st : ptr * Z) : option (ptr * Z) :=
  match outs with
  | [] => Some st
  | output :: outs' =>
      st ← put dataLen (UInt64SetLE (out_amount output)) st;
      st ← put_varint dataLen (len (bytes_of (out_script output))) st;
      st ← put dataLen (bytes_of (out_script output)) st;
      outputs_loop dataLen outs' st
  end.

(** The outputs the [for] loop visits. *)
Definition outputs_at (tx : BRTransaction) (index : Z) : list BRTxOutput :=
  if index =? SIZE_MAX then outputs tx
  else match outputs tx !! Z.to_nat index with Some o => [o] | None => [] end.

Definition _BRTransactionOutputData (tx : BRTransaction) (index : Z) (data : ptr) (dataLen : Z) : option (ptr * Z) :=
  st ← outputs_loop dataLen (outputs_at tx index) (data, 0);
  finish dataLen st.

Definition set_signature (input : BRTxInput) (sig : option (list Z)) : BRTxInput :=
  mkInput (in_txHash input) (in_index input) (in_address input) (in_amount input) (in_script input) sig (in_sequence input).

Definition set_amount (input : BRTxInput) (a : Z) : BRTxInput :=
  mkInput (in_txHash input) (in_index input) (in_address input) a (in_script input) (in_signature input) (in_sequence input).

Definition set_sequence (input : BRTxInput) (s : Z) : BRTxInput :=
  mkInput (in_txHash input) (in_index input) (in_address input) (in_amount input) (in_script input) (in_signature input) s.

(** [sigHash != SIGHASH_SINGLE && sigHash != SIGHASH_NONE] *)
Definition covers_outputs (sigHash : Z) : bool := negb (sigHash =? SIGHASH_SINGLE) && negb (sigHash =? SIGHASH_NONE).

Definition _BRTransactionWitnessData (tx : BRTransaction) (index hashType : Z) (data : ptr) (dataLen : Z) : option (ptr * Z) :=
  let anyoneCanPay := c_true (Z.land hashType SIGHASH_ANYONECANPAY) in
  let sigHash := Z.land hashType 0x1f in
  if inCount tx <=? index then Some (data, 0)
  else
      let st := (data, 0) in
      st ← put dataLen (UInt32SetLE (version tx)) st;
      let prevouts := mjoin ((fun i => UInt256Set (in_txHash i) ++ UInt32SetLE (in_index i)) <$> inputs tx) in
      st ← put dataLen (if negb anyoneCanPay then BRSHA256_2 prevouts else UInt256Set UINT256_ZERO) st;
      let sequences := mjoin ((fun i => UInt32SetLE (in_sequence i)) <$> inputs tx) in
      st ← put dataLen (if negb anyoneCanPay && covers_outputs sigHash then BRSHA256_2 sequences
                        else UInt256Set UINT256_ZERO) st;
      input ← inputs tx !! Z.to_nat index;
      st ← call_at dataLen (_BRTxInputData (set_signature input (in_script input))) st;
      st ← (if covers_outputs sigHash then
              buf ← filled (_BRTransactionOutputData tx SIZE_MAX); put dataLen (BRSHA256_2 buf) st
            else if (sigHash =? SIGHASH_SINGLE) && (index <? outCount tx) then
              buf ← filled (_BRTransactionOutputData tx index); put dataLen (BRSHA256_2 buf) st
            else put dataLen (UInt256Set UINT256_ZERO) st);
      st ← put dataLen (UInt32SetLE (lockTime tx)) st;
      st ← put dataLen (UInt32SetLE (u32 hashType)) st;
      finish dataLen st.

(** The input as it is written for the signature of input [index] (all of them for [SIZE_MAX]). *)
Definition sighash_input (index sigHash i : Z) (input : BRTxInput) : BRTxInput :=
  if (index =? i) || ((index =? SIZE_MAX) && bool_decide (in_signature input = None)) then
    let input := set_signature input (in_script input) in
    if index =? i then set_amount input 0 else input
  else if negb (index =? SIZE_MAX) then
    let input := set_signature input (Some []) in
    let input := if (sigHash =? SIGHASH_NONE) || (sigHash =? SIGHASH_SINGLE) then set_sequence input 0 else input in
    set_amount input 0
  else set_amount input 0.

Fixpoint inputs_loop (dataLen index sigHash i : Z) (ins : list BRTxInput) (st : ptr * Z) : option (ptr * Z) :=
  match ins with
  | [] => Some st
  | input :: ins' =>
      st ← call_at dataLen (_BRTxInputData (sighash_input index sigHash i input)) st;
      inputs_loop dataLen index sigHash (i + 1) ins' st
  end.

(** [for (i = 0; i < index; i++)]: blank outputs before the one of SIGHASH_SINGLE. *)
Fixpoint blank_outputs (dataLen : Z) (n : nat) (st : ptr * Z) : option (ptr * Z) :=
  match n with
  | O => Some st
  | S n' => st ← put dataLen (UInt64SetLE (u64 (-1))) st; st ← put_varint dataLen 0 st; blank_outputs dataLen n' st
  end.

Definition _BRTransactionData (tx : BRTransaction) (index hashType : Z) (data : ptr) (dataLen : Z) : option (ptr * Z) :=
  let anyoneCanPay := c_true (Z.land hashType SIGHASH_ANYONECANPAY) in
  let sigHash := Z.land hashType 0x1f in
  if c_true (Z.land hashType SIGHASH_FORKID) then _BRTransactionWitnessData tx index hashType data dataLen
  else if anyoneCanPay && (inCount tx <=? index) then Some (data, 0)
  else
    let st := (data, 0) in
    st ← put dataLen (UInt32SetLE (version tx)) st;
    st ← (if negb anyoneCanPay then
            st ← put_varint dataLen (inCount tx) st;
            inputs_loop dataLen index sigHash 0 (inputs tx) st
          else
            st ← put_varint dataLen 1 st;
            input ← inputs tx !! Z.to_nat index;
            call_at dataLen (_BRTxInputData (set_amount (set_signature input (in_script input)) 0)) st);
    st ← (if covers_outputs sigHash then
            st ← put_varint dataLen (outCount tx) st;
            call_at dataLen (_BRTransactionOutputData tx SIZE_MAX) st
          else if (sigHash =? SIGHASH_SINGLE) && (index <? outCount tx) then
            st ← put_varint dataLen (index + 1) st;
            st ← blank_outputs dataLen (Z.to_nat index) st;
            call_at dataLen (_BRTransactionOutputData tx index) st
          else put_varint dataLen 0 st);
    st ← put dataLen (UInt32SetLE (lockTime tx)) st;
    st ← (if negb (index =? SIZE_MAX) then put dataLen (UInt32SetLE (u32 hashType)) st else Some st);
    finish dataLen st.

Definition BRTransactionSerialize (tx : BRTransaction) (buf : ptr) (bufLen : Z) : option (ptr * Z) :=
  _BRTransactionData tx SIZE_MAX SIGHASH_ALL buf bufLen.

(** ** Operations *)

Definition BRTransactionNew : BRTransaction := mkTx 0 TX_VERSION [] [] TX_LOCKTIME TX_UNCONFIRMED 0.

Definition BRTransactionAddInput (tx : BRTransaction) (hash index amount : Z) (script signature : option (list Z))
    (sequence : Z) : option BRTransaction :=
  let input := mkInput hash index [] amount None None sequence in
  _ ← (if hash =? UINT256_ZERO then None else Some tt);
  input ← (if bool_decide (is_Some script) then BRTxInputSetScript input script else Some input);
  input ← (if bool_decide (is_Some signature) then BRTxInputSetSignature input signature else Some input);
  Some (mkTx (txHash tx) (version tx) (inputs tx ++ [input]) (outputs tx) (lockTime tx) (blockHeight tx) (timestamp tx)).

Definition BRTransactionAddOutput (tx : BRTransaction) (amount : Z) (script : option (list Z)) : option BRTransaction :=
  output ← BRTxOutputSetScript (mkOutput [] amount None) script;
  Some (mkTx (txHash tx) (version tx) (inputs tx) (outputs tx ++ [output]) (lockTime tx) (blockHeight tx) (timestamp tx)).

(** Runs [f] over a list, threading the state. *)
Fixpoint for_each {S A} (f : S -> A -> option S) (s : S) (l : list A) : option S :=
  match l with
  | [] => Some s
  | a :: l' => s ← f s a; for_each f s l'
  end.

Definition BRTransactionCopy (tx : BRTransaction) : option BRTransaction :=
  let cpy := mkTx (txHash tx) (version tx) [] [] (lockTime tx) (blockHeight tx) (timestamp tx) in
  cpy ← for_each (fun cpy i => BRTransactionAddInput cpy (in_txHash i) (in_index i) (in_amount i) (in_script i)
                                (in_signature i) (in_sequence i)) cpy (inputs tx);
  for_each (fun cpy o => BRTransactionAddOutput cpy (out_amount o) (out_script o)) cpy (outputs tx).

(** *** Parsing *)

Definition size_add (a b : Z) : Z := u64 (a + b).

(** One iteration of the input loop: the input, the new [off] and [isSigned]. *)
Definition parse_input (buf : list Z) (off : Z) (isSigned : bool) : option (BRTxInput * Z * bool) :=
  let bufLen := len buf in
  hash ← get_or UInt256Get UINT256_ZERO 32 buf bufLen off;
  let off := size_add off 32 in
  index ← get_or UInt32GetLE 0 4 buf bufLen off;
  let off := size_add off 4 in
  '(sLen, l) ← varint_at buf off;
  let off := size_add off l in
  let input := mkInput hash index [] 0 None None 0 in
  '(input, off, isSigned) ←
    (if size_add off sLen <=? bufLen then
       script ← mem_read buf off sLen;
       '(_, r) ← BRAddressFromScriptPubKey None 0 script;
       if 0 <? r then
         input ← BRTxInputSetScript input (Some script);
         amount ← get_or UInt64GetLE 0 8 buf bufLen (size_add off sLen);
         Some (set_amount input amount, size_add off 8, false)
       else
         input ← BRTxInputSetSignature input (Some script); Some (input, off, isSigned)
     else Some (input, off, isSigned));
  let off := size_add off sLen in
  sequence ← get_or UInt32GetLE 0 4 buf bufLen off;
  Some (set_sequence input sequence, size_add off 4, isSigned).

(** [for (i = 0; off <= bufLen && i < tx->inCount; i++)]; every iteration advances [off]. *)
Fixpoint parse_inputs (fuel : nat) (buf : list Z) (off i count : Z) (isSigned : bool) : option (list BRTxInput * Z * bool) :=
  if (off <=? len buf) && (i <? count) then
    match fuel with
    | O => None
    | S fuel' =>
        '(input, off, isSigned) ← parse_input buf off isSigned;
        '(ins, off, isSigned) ← parse_inputs fuel' buf off (i + 1) count isSigned;
        Some (input :: ins, off, isSigned)
    end
  else Some ([], off, isSigned).

Definition parse_output (buf : list Z) (off : Z) : option (BRTxOutput * Z) :=
  let bufLen := len buf in
  amount ← get_or UInt64GetLE 0 8 buf bufLen off;
  let off := size_add off 8 in
  '(sLen, l) ← varint_at buf off;
  let off := size_add off l in
  let output := mkOutput [] amount None in
  output ← (if size_add off sLen <=? bufLen
            then script ← mem_read buf off sLen; BRTxOutputSetScript output (Some script)
            else Some output);
  Some (output, size_add off sLen).

Fixpoint parse_outputs (fuel : nat) (buf : list Z) (off i count : Z) : option (list BRTxOutput * Z) :=
  if (off <=? len buf) && (i <? count) then
    match fuel with
    | O => None
    | S fuel' =>
        '(output, off) ← parse_output buf off;
        '(outs, off) ← parse_outputs fuel' buf off (i + 1) count;
        Some (output :: outs, off)
    end
  else Some ([], off).

(** [Some None] is NULL.  The arrays hold the elements the loops filled: when a loop stops early, [off]
    is past the buffer and the transaction is freed. *)
Definition BRTransactionParse (buf : list Z) : option (option BRTransaction) :=
  let bufLen := len buf in
  let off := 0 in
  version ← get_or UInt32GetLE 0 4 buf bufLen off;
  let off := size_add off 4 in
  '(inCount, l) ← varint_at buf off;
  let off := size_add off l in
  '(ins, off, isSigned) ← parse_inputs (S (length buf)) buf off 0 inCount true;
  '(outCount, l) ← varint_at buf off;
  let off := size_add off l in
  '(outs, off) ← parse_outputs (S (length buf)) buf off 0 outCount;
  lock ← get_or UInt32GetLE 0 4 buf bufLen off;
  let off := size_add off 4 in
  if (inCount =? 0) || (bufLen <? off) then Some None
  else
    let hash := if isSigned : bool then UInt256Get (BRSHA256_2 (take (Z.to_nat off) buf)) else 0 in
    Some (Some (mkTx hash version ins outs lock TX_UNCONFIRMED 0)).

(** *** Shuffling *)

(** [t = outputs[i]; outputs[i] = outputs[j]; outputs[j] = t;] *)
Definition swap {A} (l : list A) (i j : nat) : list A :=
  match l !! i, l !! j with
  | Some x, Some y => <[j := x]> (<[i := y]> l)
  | _, _ => l
  end.

(** The loop for [i], ..., with [n] iterations left. *)
Fixpoint shuffle_loop (n : nat) (outs : list BRTxOutput) (i : Z) (rands : list Z) : option (list BRTxOutput * list Z) :=
  match n with
  | O => Some (outs, rands)
  | S n' =>
      if i + 1 <? len outs then
        '(r, rands) ← BRRand rands (u32 (u32 (len outs) - i));
        let j := u32 (i + r) in
        let outs := if negb (j =? i) then swap outs (Z.to_nat i) (Z.to_nat j) else outs in
        shuffle_loop n' outs (u32 (i + 1)) rands
      else Some (outs, rands)
  end.

Definition set_outputs (tx : BRTransaction) (outs : list BRTxOutput) : BRTransaction :=
  mkTx (txHash tx) (version tx) (inputs tx) outs (lockTime tx) (blockHeight tx) (timestamp tx).

Definition BRTransactionShuffleOutputs (tx : BRTransaction) (rands : list Z) : option (BRTransaction * list Z) :=
  '(outs, rands) ← shuffle_loop (length (outputs tx)) (outputs tx) 0 rands;
  Some (set_outputs tx outs, rands).

(** *** Size, fee, signatures *)

Definition input_size (input : BRTxInput) : Z :=
  match in_signature input with
  | Some sig => 32 + 4 + BRVarIntSize (len sig) + len sig + 4
  | None => TX_INPUT_SIZE
  end.

Definition output_size (output : BRTxOutput) : Z :=
  8 + BRVarIntSize (len (bytes_of (out_script output))) + len (bytes_of (out_script output)).

Definition BRTransactionSize (tx : BRTransaction) : Z :=
  let size := 8 + BRVarIntSize (inCount tx) + BRVarIntSize (outCount tx) in
  let size := foldl (fun size i => size_add size (input_size i)) size (inputs tx) in
  foldl (fun size o => size_add size (output_size o)) size (outputs tx).

Definition BRTransactionStandardFee (tx : BRTransaction) : Z :=
  u64 (u64 (BRTransactionSize tx + 999) / 1000 * TX_FEE_PER_KB).

Definition BRTransactionIsSigned (tx : BRTransaction) : bool :=
  forallb (fun i => bool_decide (is_Some (in_signature i))) (inputs tx).

(** What signing uses of BRKey.c: the address string of a key, its serialized public key, and a
    signature of a 32-byte digest. *)
Class KeyOps (BRKey : Type) := {
  key_address : BRKey -> list Z;
  key_pubkey : BRKey -> list Z;
  key_sign : BRKey -> list Z -> list Z;
}.

Section sign.
Context {BRKey : Type} `{KeyOps BRKey}.

(** [while (j < keysCount && ! BRAddressEq(&addrs[j], &address)) j++;] *)
Fixpoint find_key (keys : list BRKey) (address : list Z) : option BRKey :=
  match keys with
  | [] => None
  | k :: keys' => if BRAddressEq (key_address k) address then Some k else find_key keys' address
  end.

(** The sigScript for input [i]: the signature, and the public key for pay-to-pubkey-hash. *)
Definition sign_script (tx : BRTransaction) (forkId i : Z) (key : BRKey) (script : list Z) : option (list Z) :=
  '(es, count) ← script_elements script;
  data ← filled (_BRTransactionData tx i (Z.lor forkId SIGHASH_ALL));
  let sig := key_sign key (BRSHA256_2 data) ++ [u8 (Z.lor forkId SIGHASH_ALL)] in
  let pubKey := key_pubkey key in
  let scriptSize := 1 + 73 + 1 + len pubKey in
  '(p, n) ← BRScriptPushData (Some (replicate (Z.to_nat scriptSize) 0)) scriptSize sig;
  let m := default [] p in
  pubkey_hash ← (if 2 <=? count then ops_match script es [(count - 2, Z.eqb OP_EQUALVERIFY)] else Some false);
  if (pubkey_hash : bool) then
    '(p', n') ← BRScriptPushData (Some (drop (Z.to_nat n) m)) (scriptSize - n) pubKey;
    Some (take (Z.to_nat (n + n')) (take (Z.to_nat n) m ++ default [] p'))
  else Some (take (Z.to_nat n) m).

Definition set_input (tx : BRTransaction) (i : Z) (input : BRTxInput) : BRTransaction :=
  mkTx (txHash tx) (version tx) (<[Z.to_nat i := input]> (inputs tx)) (outputs tx) (lockTime tx) (blockHeight tx)
    (timestamp tx).

(** One iteration of the loop over the inputs. *)
Definition sign_input (forkId : Z) (keys : list BRKey) (tx : BRTransaction) (i : Z) : option BRTransaction :=
  input ← inputs tx !! Z.to_nat i;
  let script := bytes_of (in_script input) in
  '(p, r) ← BRAddressFromScriptPubKey (Some (replicate 36 0)) 36 script;
  if r =? 0 then Some tx
  else
    match find_key keys (c_str (default [] p)) with
    | None => Some tx
    | Some key =>
        sigScript ← sign_script tx forkId i key script;
        input ← BRTxInputSetSignature input (Some sigScript);
        Some (set_input tx i input)
    end.

(** The signed transaction and the return value. *)
Definition BRTransactionSign (tx : BRTransaction) (forkId : Z) (keys : list BRKey) : option (BRTransaction * bool) :=
  tx ← for_each (sign_input forkId keys) tx (seqZ 0 (inCount tx));
  if BRTransactionIsSigned tx then
    data ← filled (_BRTransactionData tx SIZE_MAX 0);
    Some (mkTx (UInt256Get (BRSHA256_2 data)) (version tx) (inputs tx) (outputs tx) (lockTime tx) (blockHeight tx)
            (timestamp tx), true)
  else Some (tx, false).
End sign.

Definition BRTransactionIsStandard (tx : BRTransaction) : bool := true.

(** Hash table callbacks. *)
Definition BRTransactionHash (tx : BRTransaction) : Z := wd (u32s (txHash tx)) 0.
Definition BRTransactionEq (tx otherTx : BRTransaction) : bool := UInt256Eq (txHash tx) (txHash otherTx).

(** ** The bytes written *)

Definition input_bytes (input : BRTxInput) : list Z :=
  UInt256Set (in_txHash input) ++ UInt32SetLE (in_index input) ++ varint_bytes (len (bytes_of (in_signature input))) ++
  bytes_of (in_signature input) ++ (if in_amount input =? 0 then [] else UInt64SetLE (in_amount input)) ++
  UInt32SetLE (in_sequence input).

Definition output_bytes (output : BRTxOutput) : list Z :=
  UInt64SetLE (out_amount output) ++ varint_bytes (len (bytes_of (out_script output))) ++ bytes_of (out_script output).

Definition outputs_bytes (outs : list BRTxOutput) : list Z := mjoin (output_bytes <$> outs).

Fixpoint inputs_bytes (index sigHash i : Z) (ins : list BRTxInput) : list Z :=
  match ins with
  | [] => []
  | input :: ins' => input_bytes (sighash_input index sigHash i input) ++ inputs_bytes index sigHash (i + 1) ins'
  end.

(** The preimage of the signature of input [index] under [SIGHASH_ALL]; the whole transaction for [SIZE_MAX]. *)
Definition data_bytes (tx : BRTransaction) (index hashType : Z) : list Z :=
  UInt32SetLE (version tx) ++ varint_bytes (inCount tx) ++ inputs_bytes index (Z.land hashType 0x1f) 0 (inputs tx) ++
  varint_bytes (outCount tx) ++ outputs_bytes (outputs tx) ++ UInt32SetLE (lockTime tx) ++
  (if index =? SIZE_MAX then [] else UInt32SetLE (u32 hashType)).

Definition tx_bytes (tx : BRTransaction) : list Z := data_bytes tx SIZE_MAX SIGHASH_ALL.

Lemma input_writes input : writes (_BRTxInputData input) (input_bytes input).
Proof.
  intros p0 n Hroom. unfold _BRTxInputData, put_varint. unfold input_bytes in *. rewrite <- cursor_nil.
  pose proof (BRVarIntSet_writes (len (bytes_of (in_signature input))) ltac:(lia)) as Hv.
  field Hroom. field Hroom. sub_field Hroom Hv. field Hroom.
  destruct (in_amount input =? 0); cbn [negb].
  - cbn [mbind option_bind]. field Hroom. cbn [app] in *. rewrite <- !app_assoc. now apply finish_cursor.
  - rewrite put_cursor by fits Hroom. cbn [mbind option_bind]. field Hroom. cbn [app]. rewrite <- !app_assoc.
    now apply finish_cursor.
Qed.

Lemma outputs_loop_cursor n outs : forall p0 pre, room p0 n (pre ++ outputs_bytes outs) ->
  outputs_loop n outs (cursor p0 pre) = Some (cursor p0 (pre ++ outputs_bytes outs)).
Proof.
  induction outs as [|o outs IH]; intros p0 pre Hroom; cbn [outputs_loop]; [now rewrite app_nil_r|].
  change (outputs_bytes (o :: outs)) with (output_bytes o ++ outputs_bytes outs) in *. unfold output_bytes in *.
  pose proof (BRVarIntSet_writes (len (bytes_of (out_script o))) ltac:(lia)) as Hv. unfold put_varint.
  field Hroom. sub_field Hroom Hv. field Hroom. rewrite <- !app_assoc in *. rewrite !app_assoc in *. now apply IH.
Qed.

Lemma outputs_writes tx index : writes (_BRTransactionOutputData tx index) (outputs_bytes (outputs_at tx index)).
Proof.
  intros p0 n Hroom. unfold _BRTransactionOutputData. rewrite <- cursor_nil.
  rewrite outputs_loop_cursor by exact Hroom. cbn [mbind option_bind]. now apply finish_cursor.
Qed.

Lemma inputs_loop_cursor n index sh ins : forall i p0 pre, room p0 n (pre ++ inputs_bytes index sh i ins) ->
  inputs_loop n index sh i ins (cursor p0 pre) = Some (cursor p0 (pre ++ inputs_bytes index sh i ins)).
Proof.
  induction ins as [|input ins IH]; intros i p0 pre Hroom; cbn [inputs_loop inputs_bytes] in *; [now rewrite app_nil_r|].
  pose proof (input_writes (sighash_input index sh i input)) as Hi.
  sub_field Hroom Hi. rewrite app_assoc in *. now apply IH.
Qed.

(** The plain serializer under [SIGHASH_ALL] (also with hash type 0, as the signer uses it). *)
Lemma data_writes tx index hashType :
  Z.land hashType SIGHASH_FORKID = 0 -> Z.land hashType SIGHASH_ANYONECANPAY = 0 ->
  covers_outputs (Z.land hashType 0x1f) = true ->
  writes (_BRTransactionData tx index hashType) (data_bytes tx index hashType).
Proof.
  intros Hf Ha Hc p0 n Hroom. unfold _BRTransactionData, put_varint. rewrite Hf, Ha, Hc.
  change (c_true 0) with false. cbn [negb andb]. unfold data_bytes in *. rewrite <- cursor_nil.
  pose proof (BRVarIntSet_writes (inCount tx) ltac:(unfold inCount; lia)) as Hvi.
  pose proof (BRVarIntSet_writes (outCount tx) ltac:(unfold outCount; lia)) as Hvo.
  pose proof (outputs_writes tx SIZE_MAX) as Ho. unfold outputs_at in Ho. rewrite Z.eqb_refl in Ho.
  field Hroom. sub_field Hroom Hvi. rewrite inputs_loop_cursor by fits Hroom. cbn [mbind option_bind].
  sub_field Hroom Hvo. rewrite (call_at_cursor _ _ _ _ _ Ho) by fits Hroom. cbn [mbind option_bind].
  field Hroom. destruct (index =? SIZE_MAX); cbn [negb].
  - cbn [mbind option_bind]. rewrite app_nil_r in *. cbn [app]. rewrite <- !app_assoc. now apply finish_cursor.
  - rewrite put_cursor by fits Hroom. cbn [mbind option_bind app]. rewrite <- !app_assoc. now apply finish_cursor.
Qed.

Lemma for_each_app {S A} (f : S -> A -> option S) l1 l2 s : for_each f s (l1 ++ l2) = (s' ← for_each f s l1; for_each f s' l2).
Proof.
  revert s. induction l1 as [|a l1 IH]; intros s; cbn [for_each app]; [now rewrite bind_Some_l|].
  destruct (f s a) as [s1|]; [now rewrite !bind_Some_l|done].
Qed.

Lemma serialize_writes tx : writes (BRTransactionSerialize tx) (tx_bytes tx).
Proof. apply data_writes; reflexivity. Qed.

(** ** Size *)

Definition signed_input (input : BRTxInput) : Prop := is_Some (in_signature input).

Lemma UInt256Set_length u : length (UInt256Set u) = 32%nat.
Proof. apply length_le_digits. Qed.

Lemma sighash_input_signed sh i input :
  signed_input input -> i <> SIZE_MAX -> sighash_input SIZE_MAX sh i input = set_amount input 0.
Proof.
  intros [s Hs] Hi. unfold sighash_input. rewrite (proj2 (Z.eqb_neq SIZE_MAX i)) by done.
  rewrite Z.eqb_refl, bool_decide_eq_false_2 by congruence. reflexivity.
Qed.

Lemma input_size_bytes sh i input : signed_input input -> i <> SIZE_MAX ->
  input_size input = len (input_bytes (sighash_input SIZE_MAX sh i input)).
Proof.
  intros Hs Hi. rewrite sighash_input_signed by done. destruct Hs as [s Hs]. unfold input_size, input_bytes.
  rewrite Hs. cbn [set_amount in_txHash in_index in_signature in_amount in_sequence]. rewrite Hs.
  cbn [Z.eqb bytes_of default]. rewrite !length_app, UInt256Set_length. unfold BRVarIntSize. cbn. lia.
Qed.

Lemma output_size_bytes o : output_size o = len (output_bytes o).
Proof. unfold output_size, output_bytes, BRVarIntSize. rewrite !length_app. cbn. lia. Qed.

Lemma fold_sizes {A} (f : A -> Z) (b : A -> list Z) l : (forall a, a ∈ l -> f a = len (b a)) -> forall s,
  0 <= s -> s + len (mjoin (b <$> l)) < 0x10000000000000000 ->
  foldl (fun size a => size_add size (f a)) s l = s + len (mjoin (b <$> l)).
Proof.
  induction l as [|a l IH]; intros Hf s Hs Hl; cbn [foldl]; [cbn; lia|].
  rewrite fmap_cons in *. change (mjoin (b a :: (b <$> l))) with (b a ++ mjoin (b <$> l)) in *.
  rewrite length_app in *. rewrite Hf by now left. unfold size_add at 2. rewrite u64_id by lia.
  rewrite IH; [lia| |lia|lia]. intros; apply Hf; now right.
Qed.

Lemma inputs_bytes_signed sh ins : forall i, Forall signed_input ins -> 0 <= i -> i + len ins < SIZE_MAX ->
  inputs_bytes SIZE_MAX sh i ins = mjoin ((fun a => input_bytes (set_amount a 0)) <$> ins).
Proof.
  induction ins as [|a ins IH]; intros i Hs Hi Hl; cbn [inputs_bytes]; [done|].
  apply Forall_cons in Hs as [Ha Hs]. cbn [length] in Hl.
  rewrite sighash_input_signed, (IH (i + 1)) by (done || lia). reflexivity.
Qed.

(** ** Shuffling *)

Lemma swap_split {A} (a b c : list A) x y :
  <[(length a + S (length b))%nat := x]> (<[length a := y]> (a ++ x :: b ++ y :: c)) = a ++ y :: b ++ x :: c /\
  <[length a := y]> (<[(length a + S (length b))%nat := x]> (a ++ x :: b ++ y :: c)) = a ++ y :: b ++ x :: c.
Proof.
  assert (E : forall (a : list A) z y l, <[length a := y]> (a ++ z :: l) = a ++ y :: l).
  { intros a'. induction a' as [|? ? IH]; intros; cbn; [done|]. f_equal. apply IH. }
  assert (E' : forall z, <[(length a + S (length b))%nat := x]> (a ++ z :: b ++ y :: c) = a ++ z :: b ++ x :: c).
  { intros. rewrite insert_app_r. cbn. do 2 f_equal. apply E. }
  split; [now rewrite E, E'|now rewrite E', E].
Qed.

Lemma split_two {A} (l : list A) i j x y : (i < j)%nat -> l !! i = Some x -> l !! j = Some y ->
  exists a b c, l = a ++ x :: b ++ y :: c /\ i = length a /\ j = (length a + S (length b))%nat.
Proof.
  intros Hij Hi Hj. pose proof (lookup_lt_Some _ _ _ Hi). pose proof (lookup_lt_Some _ _ _ Hj).
  rewrite <- (take_drop_middle l i x Hi) in Hj. rewrite lookup_app_r in Hj by (rewrite length_take; lia).
  rewrite length_take, Nat.min_l in Hj by lia.
  destruct (j - i)%nat as [|k] eqn:E; [lia|]. cbn in Hj.
  exists (take i l), (take k (drop (S i) l)), (drop (S k) (drop (S i) l)).
  rewrite take_drop_middle by done. rewrite take_drop_middle by done.
  pose proof (lookup_lt_Some _ _ _ Hj) as Hk. rewrite length_drop in Hk.
  split; [done|]. rewrite !length_take, length_drop. lia.
Qed.

Lemma swap_perm {A} (l : list A) i j : swap l i j ≡ₚ l.
Proof.
  unfold swap. destruct (l !! i) as [x|] eqn:Ei; [|done]. destruct (l !! j) as [y|] eqn:Ej; [|done].
  assert (P : forall a b c, (a ++ y :: b ++ x :: c ≡ₚ a ++ x :: b ++ y :: c)).
  { intros. apply Permutation_app_head. transitivity (y :: x :: b ++ c).
    - apply perm_skip. symmetry. apply Permutation_middle.
    - transitivity (x :: y :: b ++ c); [apply perm_swap|]. apply perm_skip, Permutation_middle. }
  destruct (Nat.lt_trichotomy i j) as [H|[->|H]].
  - destruct (split_two l i j x y H Ei Ej) as (a & b & c & -> & -> & ->).
    rewrite (proj1 (swap_split a b c x y)). apply P.
  - simplify_eq. rewrite list_insert_insert_eq, list_insert_id; done.
  - destruct (split_two l j i y x H Ej Ei) as (a & b & c & -> & -> & ->).
    rewrite (proj2 (swap_split a b c y x)). symmetry. apply P.
Qed.

Lemma length_swap {A} (l : list A) i j : length (swap l i j) = length l.
Proof. now rewrite swap_perm. Qed.

(** The rejection bound is the remainder of 2^32, so that accepted values are below the bound asked for. *)
Lemma rand_bound u : 0 < u <= 0x7fffffff ->
  u32 (u32 (0xffffffff - u32 (u * 2)) + 1) mod u = 0x100000000 mod u.
Proof.
  intros Hu. rewrite (u32_id (u * 2)) by lia. rewrite (u32_id (0xffffffff - u * 2)) by lia.
  rewrite u32_id by lia. replace (0xffffffff - u * 2 + 1) with (0x100000000 + (-2) * u) by lia.
  apply Z_mod_plus_full.
Qed.

Lemma rand_loop_spec rands u r rest : 0 < u -> Forall (fun x => 0 <= x) rands ->
  rand_loop rands u = Some (r, rest) -> 0 <= r < u /\ Forall (fun x => 0 <= x) rest.
Proof.
  intros Hu Hp. induction Hp as [|x rands Hx Hp IH]; cbn [rand_loop]; [done|].
  destruct (x <? _); [auto|]. intros [= <- <-]. split; [apply Z.mod_pos_bound; lia|done].
Qed.

Lemma rand_spec rands u r rest : 0 <= u -> Forall (fun x => 0 <= x) rands ->
  BRRand rands u = Some (r, rest) ->
  0 <= r < (if (u =? 0) || (BR_RAND_MAX <? u) then BR_RAND_MAX else u) /\ Forall (fun x => 0 <= x) rest.
Proof.
  intros Hu Hp. unfold BRRand. apply rand_loop_spec; [|done]. change BR_RAND_MAX with 0x7fffffff.
  destruct (Z.eqb_spec u 0); cbn [orb]; [lia|]. destruct (_ <? u); lia.
Qed.

Lemma shuffle_loop_perm n : forall outs i rands outs' rest,
  shuffle_loop n outs i rands = Some (outs', rest) -> outs' ≡ₚ outs.
Proof.
  induction n as [|n IH]; intros outs i rands outs' rest; cbn [shuffle_loop]; [now intros [= <- _]|].
  destruct (_ <? _); [|now intros [= <- _]].
  destruct (BRRand _ _) as [[r rands']|]; [|done]. cbn [mbind option_bind]. intros E.
  rewrite (IH _ _ _ _ _ E). destruct (negb _); [apply swap_perm|done].
Qed.

(** ** Parsing what was written *)

Lemma size_add_id (buf : list Z) (Hbuf : len buf < 0x10000000000000000) a b :
  0 <= a -> 0 <= b -> a + b <= len buf -> size_add a b = a + b.
Proof. intros. apply u64_id. lia. Qed.


Definition has_address (s : list Z) : Prop := exists r, BRAddressFromScriptPubKey None 0 s = Some (None, r) /\ 0 < r.
Definition no_address (s : list Z) : Prop := BRAddressFromScriptPubKey None 0 s = Some (None, 0).

(** Inputs whose wire format can be read back: a signature that is not itself a standard scriptPubKey,
    or (unsigned) a script with an address and a non-zero amount. *)
Record input_wire_ok (input : BRTxInput) : Prop := {
  w_hash : is_u256 (in_txHash input);
  w_index : 0 <= in_index input < 0x100000000;
  w_sequence : 0 <= in_sequence input < 0x100000000;
  w_sig : match in_signature input with
          | Some s => bytes_ok s /\ no_address s
          | None => 0 < in_amount input < 0x10000000000000000 /\
              match in_script input with Some s => bytes_ok s /\ has_address s | None => False end
          end;
}.

(** What the wire keeps of an input: a signed one loses its script and amount. *)
Definition wire_form (input : BRTxInput) : option BRTxInput :=
  let i := mkInput (in_txHash input) (in_index input) [] 0 None None (in_sequence input) in
  match in_signature input with
  | Some s => BRTxInputSetSignature i (Some s)
  | None => i ← BRTxInputSetScript i (in_script input); Some (set_amount i (in_amount input))
  end.

Definition is_signed (input : BRTxInput) : bool := bool_decide (is_Some (in_signature input)).

(** The input as serialized for [SIZE_MAX]. *)
Definition wire_input (input : BRTxInput) : BRTxInput :=
  if is_signed input then set_amount input 0 else set_signature input (in_script input).

Lemma sighash_wire sh i input : i <> SIZE_MAX -> sighash_input SIZE_MAX sh i input = wire_input input.
Proof.
  intros Hi. unfold sighash_input, wire_input, is_signed. rewrite (proj2 (Z.eqb_neq SIZE_MAX i)) by done.
  rewrite Z.eqb_refl. destruct (in_signature input) as [s|].
  - rewrite bool_decide_eq_false_2, bool_decide_eq_true_2 by eauto. reflexivity.
  - rewrite bool_decide_eq_true_2, bool_decide_eq_false_2 by (done || intros [? ?]; done). reflexivity.
Qed.

Lemma set_signature_address f i s : address_field BRAddressFromScriptSig s = Some f ->
  BRTxInputSetSignature (mkInput (in_txHash i) (in_index i) [] 0 None None 0) (Some s) =
  Some (mkInput (in_txHash i) (in_index i) f 0 None (Some s) 0).
Proof. intros E. unfold BRTxInputSetSignature. rewrite bool_decide_eq_true_2 by done. now rewrite E. Qed.

Lemma field_total f s : bytes_ok s -> (forall p n s, bytes_ok s -> ptr_ok p n -> is_Some (f p n s)) ->
  exists a, address_field f s = Some a.
Proof.
  intros Hs Hf. unfold address_field. destruct (Hf (Some (replicate 36 0)) 36 s Hs) as [[p n] E].
  - simpl. lia.
  - rewrite E. cbn. eauto.
Qed.

(** The end of [parse_input], once the script [S] at [off] has been read. *)
Definition parse_tail (buf : list Z) (h i : Z) (S : list Z) (off : Z) (sg : bool) : option (BRTxInput * Z * bool) :=
  let input := mkInput h i [] 0 None None 0 in
  '(input, off, sg) ←
    ('(_, r) ← BRAddressFromScriptPubKey None 0 S;
     if 0 <? r then
       input ← BRTxInputSetScript input (Some S);
       amount ← get_or UInt64GetLE 0 8 buf (len buf) (size_add off (len S));
       Some (set_amount input amount, size_add off 8, false)
     else input ← BRTxInputSetSignature input (Some S); Some (input, off, sg));
  let off := size_add off (len S) in
  sequence ← get_or UInt32GetLE 0 4 buf (len buf) off;
  Some (set_sequence input sequence, size_add off 4, sg).

Lemma parse_input_head pre H I S rest sg buf :
  buf = pre ++ H ++ I ++ varint_bytes (len S) ++ S ++ rest -> len buf < 0x10000000000000000 ->
  len H = 32 -> len I = 4 ->
  parse_input buf (len pre) sg =
  parse_tail buf (UInt256Get H) (UInt32GetLE I) S (len pre + 36 + len (varint_bytes (len S))) sg.
Proof.
  intros E Hbuf LH LI. set (V := varint_bytes (len S)) in *.
  assert (Lb : len buf = len pre + (32 + 4 + len V + len S) + len rest) by (rewrite E, !length_app; lia).
  unfold parse_input.
  rewrite (get_field buf Hbuf UInt256Get _ 32 pre H (I ++ V ++ S ++ rest)) by done. cbn [mbind option_bind].
  rewrite (size_add_id buf Hbuf (len pre) 32), (size_add_id buf Hbuf (len pre + 32) 4) by lia.
  rewrite (get_field buf Hbuf UInt32GetLE _ 4 (pre ++ H) I (V ++ S ++ rest));
    [|rewrite <- app_assoc; exact E|rewrite length_app; lia|lia]. cbn [mbind option_bind].
  rewrite (varint_field buf Hbuf (len S) (pre ++ H ++ I) (S ++ rest));
    [|rewrite <- !app_assoc; exact E|rewrite !length_app; lia|lia]. cbn [mbind option_bind]. fold V.
  rewrite (size_add_id buf Hbuf (len pre + 32 + 4)), (size_add_id buf Hbuf (len pre + 32 + 4 + len V)) by lia.
  rewrite (proj2 (Z.leb_le _ _)) by lia.
  rewrite (mem_field buf Hbuf (pre ++ H ++ I ++ V) S rest);
    [|rewrite <- !app_assoc; exact E|rewrite !length_app; lia|lia]. cbn [mbind option_bind].
  replace (len pre + 32 + 4 + len V) with (len pre + 36 + len V) by lia.
  unfold parse_tail. rewrite (size_add_id buf Hbuf (len pre + 36 + len V) (len S)) by lia.
  destruct (BRAddressFromScriptPubKey None 0 S) as [[p r]|]; [|done]. cbn [mbind option_bind].
  destruct (0 <? r).
  - destruct (BRTxInputSetScript _ _); [|done]. reflexivity.
  - destruct (BRTxInputSetSignature _ _); [|done]. reflexivity.
Qed.

Lemma parse_input_spec pre input rest sg :
  input_wire_ok input -> len (pre ++ input_bytes (wire_input input) ++ rest) < 0x10000000000000000 ->
  exists i, wire_form input = Some i /\
    parse_input (pre ++ input_bytes (wire_input input) ++ rest) (len pre) sg =
      Some (i, len pre + len (input_bytes (wire_input input)), sg && is_signed input).
Proof.
  intros [Hh Hix Hsq Hsig] Hbuf. set (Q := UInt32SetLE (in_sequence input)).
  assert (Hq : UInt32GetLE Q = in_sequence input) by now apply UInt32Get_Set.
  unfold wire_form, wire_input, is_signed in *. destruct (in_signature input) as [s|] eqn:Es.
  - (* signed *)
    destruct Hsig as [Hs Hno]. rewrite bool_decide_eq_true_2 in * by eauto.
    destruct (field_total BRAddressFromScriptSig s Hs) as [a Ea]; [intros; now apply from_script_sig_total|].
    set (buf := _ ++ _ ++ rest) in *. unfold input_bytes in buf, Hbuf |- *.
    cbn [set_amount in_txHash in_index in_signature in_amount in_sequence Z.eqb app] in *. rewrite Es in *. cbn [bytes_of] in *.
    assert (Eb : buf = pre ++ UInt256Set (in_txHash input) ++ UInt32SetLE (in_index input) ++
                   varint_bytes (len s) ++ s ++ (Q ++ rest)).
    { unfold buf. rewrite Es. cbn [bytes_of]. now rewrite <- !app_assoc. }
    clearbody buf.
    cbn [BRTxInputSetSignature]. rewrite bool_decide_eq_true_2, Ea by done. cbn [mbind option_bind].
    eexists; split; [reflexivity|].
    rewrite (parse_input_head _ _ _ _ _ _ _ Eb) by (done || (rewrite UInt256Set_length; done)).
    rewrite UInt256Get_Set, UInt32Get_Set by done. unfold parse_tail. rewrite Hno. cbn [mbind option_bind].
    change (0 <? 0) with false. cbn iota. cbn [BRTxInputSetSignature].
    rewrite bool_decide_eq_true_2, Ea by done. cbn [mbind option_bind].
    assert (Lb : len buf = len pre + 36 + len (varint_bytes (len s)) + len s + 4 + len rest).
    { rewrite Eb, !length_app, UInt256Set_length. cbn [length UInt32SetLE Q]. unfold Q; cbn [length UInt32SetLE]. lia. }
    rewrite (size_add_id buf Hbuf _ (len s)) by lia.
    rewrite (get_field buf Hbuf UInt32GetLE _ 4 (pre ++ UInt256Set (in_txHash input) ++ UInt32SetLE (in_index input) ++
              varint_bytes (len s) ++ s) Q rest);
      [|rewrite <- !app_assoc; exact Eb|rewrite !length_app, UInt256Set_length; cbn [length UInt32SetLE]; lia|done].
    cbn [mbind option_bind]. rewrite (size_add_id buf Hbuf _ 4), Hq by lia.
    rewrite !length_app, UInt256Set_length. cbn [length UInt32SetLE set_sequence in_txHash in_index in_address in_amount in_script in_signature].
    rewrite andb_true_r. do 3 f_equal. lia.
  - (* unsigned *)
    destruct Hsig as [Ham Hs]. destruct (in_script input) as [s|] eqn:Esc; [|done]. destruct Hs as [Hs (r & Hr & Hr0)].
    rewrite bool_decide_eq_false_2 in * by (intros [? ?]; done).
    destruct (field_total BRAddressFromScriptPubKey s Hs) as [a Ea]; [intros; now apply from_script_pub_key_total|].
    set (Am := UInt64SetLE (in_amount input)).
    assert (HAm : UInt64GetLE Am = in_amount input) by (apply UInt64Get_Set; lia).
    assert (Ein : input_bytes (set_signature input (Some s)) =
      UInt256Set (in_txHash input) ++ UInt32SetLE (in_index input) ++ varint_bytes (len s) ++ s ++ Am ++ Q).
    { unfold input_bytes. cbn [set_signature in_txHash in_index in_signature in_amount in_sequence bytes_of].
      now rewrite (proj2 (Z.eqb_neq _ 0)) by lia. }
    rewrite Ein in *. set (buf := _ ++ _ ++ rest) in *.
    assert (Eb : buf = pre ++ UInt256Set (in_txHash input) ++ UInt32SetLE (in_index input) ++
                   varint_bytes (len s) ++ s ++ (Am ++ Q ++ rest)) by (unfold buf; now rewrite <- !app_assoc).
    clearbody buf. cbn [BRTxInputSetScript]. rewrite Ea. cbn [mbind option_bind].
    eexists; split; [reflexivity|].
    rewrite (parse_input_head _ _ _ _ _ _ _ Eb) by (done || (rewrite UInt256Set_length; done)).
    rewrite UInt256Get_Set, UInt32Get_Set by done. unfold parse_tail. rewrite Hr. cbn [mbind option_bind].
    rewrite (proj2 (Z.ltb_lt 0 r) Hr0). cbn [BRTxInputSetScript]. rewrite Ea. cbn [mbind option_bind].
    assert (Lb : len buf = len pre + 36 + len (varint_bytes (len s)) + len s + 8 + 4 + len rest).
    { rewrite Eb, !length_app, UInt256Set_length. unfold Q, Am; cbn [length UInt32SetLE UInt64SetLE]. lia. }
    set (pre' := pre ++ UInt256Set (in_txHash input) ++ UInt32SetLE (in_index input) ++ varint_bytes (len s) ++ s).
    assert (Lp : len pre' = len pre + 36 + len (varint_bytes (len s)) + len s).
    { unfold pre'. rewrite !length_app, UInt256Set_length. cbn [length UInt32SetLE]. lia. }
    assert (Eb' : buf = pre' ++ Am ++ Q ++ rest) by (unfold pre'; rewrite <- !app_assoc; exact Eb).
    rewrite (size_add_id buf Hbuf _ (len s)) by lia.
    rewrite (get_field buf Hbuf UInt64GetLE _ 8 pre' Am (Q ++ rest) _ Eb') by (lia || done). cbn [mbind option_bind].
    rewrite (size_add_id buf Hbuf _ 8) by lia. rewrite (size_add_id buf Hbuf _ (len s)) by lia.
    rewrite (get_field buf Hbuf UInt32GetLE _ 4 (pre' ++ Am) Q rest);
      [|rewrite <- app_assoc; exact Eb'|rewrite length_app; unfold Am; cbn [length UInt64SetLE]; lia|done].
    cbn [mbind option_bind]. rewrite (size_add_id buf Hbuf _ 4), Hq, HAm by lia.
    rewrite !length_app, UInt256Set_length. unfold Am, Q.
    cbn [length UInt32SetLE UInt64SetLE set_amount set_sequence in_txHash in_index in_address in_amount in_script in_signature in_sequence].
    rewrite andb_false_r. do 3 f_equal. lia.
Qed.

(** *** The loops *)

Lemma parse_inputs_spec buf ins : Forall input_wire_ok ins ->
  forall sh fuel pre rest i count sg,
  buf = pre ++ inputs_bytes SIZE_MAX sh i ins ++ rest -> len buf < 0x10000000000000000 -> 0 <= i ->
  i + len ins < SIZE_MAX -> count = i + len ins -> (length ins <= fuel)%nat ->
  exists ins', mapM wire_form ins = Some ins' /\
    parse_inputs fuel buf (len pre) i count sg =
      Some (ins', len pre + len (inputs_bytes SIZE_MAX sh i ins), sg && forallb is_signed ins).
Proof.
  induction 1 as [|input ins Hin Hins IH]; intros sh fuel pre rest i count sg Eb Hbuf Hi Hm Hc Hf.
  - exists []. split; [done|]. cbn [length inputs_bytes forallb] in *.
    assert (E : parse_inputs fuel buf (len pre) i count sg = Some ([], len pre, sg)).
    { destruct fuel; cbn [parse_inputs]; rewrite (proj2 (Z.ltb_ge i count)), andb_false_r by lia; done. }
    rewrite E, andb_true_r. do 3 f_equal. lia.
  - cbn [length inputs_bytes] in *. rewrite sighash_wire in * by lia.
    set (bs := input_bytes (wire_input input)) in *.
    set (more := inputs_bytes SIZE_MAX sh (i + 1) ins) in *.
    destruct fuel as [|fuel]; [lia|]. cbn [parse_inputs].
    assert (Lb : len pre <= len buf) by (rewrite Eb, length_app; lia).
    rewrite (proj2 (Z.leb_le _ _) Lb), (proj2 (Z.ltb_lt i count)) by lia. cbn [andb].
    assert (Eb1 : buf = pre ++ bs ++ (more ++ rest)) by (rewrite Eb, <- app_assoc; done).
    destruct (parse_input_spec pre input (more ++ rest) sg Hin) as (i' & Ew & Ep); fold bs; rewrite <- ?Eb1; [done|].
    fold bs in Ep. rewrite <- Eb1 in Ep. rewrite Ep. cbn [mbind option_bind].
    destruct (IH sh fuel (pre ++ bs) rest (i + 1) count (sg && is_signed input)) as (ins' & Em & Er);
      [rewrite <- app_assoc; exact Eb1|done|lia|lia|lia|lia|].
    rewrite length_app, Nat2Z.inj_add in Er. rewrite Er. cbn [mbind option_bind].
    exists (i' :: ins'). cbn [mapM]. rewrite Ew. cbn [mbind option_bind]. rewrite Em. cbn [mbind option_bind].
    split; [done|]. rewrite length_app. cbn [forallb]. rewrite andb_assoc. do 3 f_equal. fold more. lia.
Qed.

Record output_wire_ok (o : BRTxOutput) : Prop := {
  wo_amount : 0 <= out_amount o < 0x10000000000000000;
  wo_script : bytes_ok (bytes_of (out_script o));
}.

Definition wire_output (o : BRTxOutput) : option BRTxOutput :=
  BRTxOutputSetScript (mkOutput [] (out_amount o) None) (Some (bytes_of (out_script o))).

Lemma parse_output_spec pre o rest buf :
  output_wire_ok o -> buf = pre ++ output_bytes o ++ rest -> len buf < 0x10000000000000000 ->
  exists o', wire_output o = Some o' /\ parse_output buf (len pre) = Some (o', len pre + len (output_bytes o)).
Proof.
  intros [Ha Hs] Eb Hbuf. unfold output_bytes in *. set (s := bytes_of (out_script o)) in *.
  set (A := UInt64SetLE (out_amount o)) in *. set (V := varint_bytes (len s)) in *.
  destruct (field_total BRAddressFromScriptPubKey s Hs) as [a Ea]; [intros; now apply from_script_pub_key_total|].
  assert (LA : len A = 8) by done.
  assert (Lb : len buf = len pre + 8 + len V + len s + len rest) by (rewrite Eb, !length_app; lia).
  unfold parse_output, wire_output. fold s. cbn [BRTxOutputSetScript out_amount]. rewrite Ea. cbn [mbind option_bind].
  eexists; split; [reflexivity|]. rewrite <- !app_assoc in Eb.
  rewrite (get_field buf Hbuf UInt64GetLE _ 8 pre A (V ++ s ++ rest) _ Eb) by done. cbn [mbind option_bind].
  rewrite (size_add_id buf Hbuf (len pre) 8) by lia.
  rewrite (varint_field buf Hbuf (len s) (pre ++ A) (s ++ rest));
    [|rewrite <- app_assoc; exact Eb|rewrite length_app; lia|lia]. cbn [mbind option_bind]. fold V.
  rewrite (size_add_id buf Hbuf _ (len V)), (size_add_id buf Hbuf _ (len s)) by lia.
  rewrite (proj2 (Z.leb_le _ _)) by lia.
  rewrite (mem_field buf Hbuf (pre ++ A ++ V) s rest);
    [|rewrite <- !app_assoc; exact Eb|rewrite !length_app; lia|lia]. cbn [mbind option_bind].
  cbn [BRTxOutputSetScript out_amount]. rewrite Ea. cbn [mbind option_bind].
  unfold A at 1. rewrite UInt64Get_Set by done. rewrite !length_app. do 2 f_equal. lia.
Qed.

Lemma parse_outputs_spec buf outs : Forall output_wire_ok outs ->
  forall fuel pre rest i count,
  buf = pre ++ outputs_bytes outs ++ rest -> len buf < 0x10000000000000000 -> 0 <= i ->
  count = i + len outs -> (length outs <= fuel)%nat ->
  exists outs', mapM wire_output outs = Some outs' /\
    parse_outputs fuel buf (len pre) i count = Some (outs', len pre + len (outputs_bytes outs)).
Proof.
  induction 1 as [|o outs Ho Houts IH]; intros fuel pre rest i count Eb Hbuf Hi Hc Hf.
  - exists []. split; [done|]. cbn [length] in *.
    assert (E : parse_outputs fuel buf (len pre) i count = Some ([], len pre)).
    { destruct fuel; cbn [parse_outputs]; rewrite (proj2 (Z.ltb_ge i count)), andb_false_r by lia; done. }
    rewrite E. cbn. do 2 f_equal. lia.
  - change (outputs_bytes (o :: outs)) with (output_bytes o ++ outputs_bytes outs) in *. cbn [length] in *.
    destruct fuel as [|fuel]; [lia|]. cbn [parse_outputs].
    assert (Lb : len pre <= len buf) by (rewrite Eb, length_app; lia).
    rewrite (proj2 (Z.leb_le _ _) Lb), (proj2 (Z.ltb_lt i count)) by lia. cbn [andb].
    rewrite <- app_assoc in Eb. destruct (parse_output_spec pre o _ buf Ho Eb Hbuf) as (o' & Ew & Ep).
    rewrite Ep. cbn [mbind option_bind].
    destruct (IH fuel (pre ++ output_bytes o) rest (i + 1) count) as (outs' & Em & Er);
      [rewrite <- app_assoc; exact Eb|done|lia|lia|lia|].
    rewrite length_app, Nat2Z.inj_add in Er. rewrite Er. cbn [mbind option_bind].
    exists (o' :: outs'). cbn [mapM]. rewrite Ew. cbn [mbind option_bind]. rewrite Em. cbn [mbind option_bind].
    split; [done|]. rewrite length_app. do 2 f_equal. lia.
Qed.

Lemma input_bytes_pos i : (1 <= length (input_bytes i))%nat.
Proof. unfold input_bytes. rewrite length_app, UInt256Set_length. lia. Qed.

Lemma inputs_bytes_count idx sh ins : forall i, (length ins <= length (inputs_bytes idx sh i ins))%nat.
Proof.
  induction ins as [|a ins IH]; intros i; cbn [inputs_bytes length]; [lia|].
  rewrite length_app. pose proof (input_bytes_pos (sighash_input idx sh i a)). specialize (IH (i + 1)). lia.
Qed.

Lemma outputs_bytes_count outs : (length outs <= length (outputs_bytes outs))%nat.
Proof.
  induction outs as [|o outs IH]; [done|]. change (outputs_bytes (o :: outs)) with (output_bytes o ++ outputs_bytes outs).
  rewrite length_app. unfold output_bytes. rewrite length_app. cbn [length UInt64SetLE] in *. lia.
Qed.

Record tx_wire_ok (tx : BRTransaction) : Prop := {
  wt_version : 0 <= version tx < 0x100000000;
  wt_lock : 0 <= lockTime tx < 0x100000000;
  wt_inputs : Forall input_wire_ok (inputs tx);
  wt_outputs : Forall output_wire_ok (outputs tx);
  wt_nonempty : inputs tx <> [];
}.

(** ** Signature preimages *)

(** Two transactions that differ only in the signatures (and the addresses derived from them). *)
Definition same_but_signatures (i j : BRTxInput) : Prop :=
  in_txHash i = in_txHash j /\ in_index i = in_index j /\ in_amount i = in_amount j /\
  in_script i = in_script j /\ in_sequence i = in_sequence j.

#[export] Instance same_but_signatures_equiv : Equivalence same_but_signatures.
Proof.
  split.
  - intros x. repeat split.
  - intros x y (?&?&?&?&?). repeat split; congruence.
  - intros x y z (?&?&?&?&?) (?&?&?&?&?). repeat split; congruence.
Qed.

Lemma inputs_bytes_unsigned index sh ins ins' : index <> SIZE_MAX -> Forall2 same_but_signatures ins ins' ->
  forall i, inputs_bytes index sh i ins = inputs_bytes index sh i ins'.
Proof.
  intros Hidx. induction 1 as [|a b ins ins' Hab _ IH]; intros i; cbn [inputs_bytes]; [done|].
  rewrite IH. f_equal. destruct Hab as (Hh & Hi & Ha & Hs & Hq). unfold sighash_input.
  rewrite (proj2 (Z.eqb_neq index SIZE_MAX) Hidx). cbn [andb orb negb]. rewrite !orb_false_r.
  unfold input_bytes. destruct (index =? i); cbn [set_signature set_amount in_txHash in_index in_signature in_amount in_sequence].
  - rewrite Hh, Hi, Hs, Hq. reflexivity.
  - destruct (_ || _); cbn [set_sequence set_signature set_amount in_txHash in_index in_signature in_amount in_sequence];
      rewrite Hh, Hi, ?Hq; reflexivity.
Qed.

(** ** Signing *)

Section sign_proofs.
Context {BRKey : Type} `{KeyOps BRKey}.

Definition same_core (tx tx' : BRTransaction) : Prop :=
  version tx = version tx' /\ outputs tx = outputs tx' /\ lockTime tx = lockTime tx' /\
  blockHeight tx = blockHeight tx' /\ timestamp tx = timestamp tx' /\ Forall2 same_but_signatures (inputs tx) (inputs tx').

Lemma same_refl tx : same_core tx tx.
Proof.
  repeat (split; [done|]). apply Forall2_same_length_lookup_2; [done|].
  intros i x y Hx Hy. simplify_eq. repeat split.
Qed.

Lemma same_trans t1 t2 t3 : same_core t1 t2 -> same_core t2 t3 -> same_core t1 t3.
Proof.
  intros (?&?&?&?&?&F1) (?&?&?&?&?&F2). repeat (split; [congruence|]).
  etransitivity; [exact F1|exact F2].
Qed.

Lemma set_signature_same i s i' : BRTxInputSetSignature i s = Some i' -> same_but_signatures i i'.
Proof.
  destruct i as [h ix addr a scr sig seq]. cbn. destruct s as [s|].
  - destruct (if bool_decide _ then _ else _); cbn; [|done]. intros [= <-]. repeat split.
  - intros [= <-]. repeat split.
Qed.

Lemma sign_input_same forkId keys tx i tx' :
  sign_input forkId keys tx i = Some tx' -> same_core tx tx'.
Proof.
  unfold sign_input. destruct (inputs tx !! Z.to_nat i) as [input|] eqn:Ei; [|done]. cbn [mbind option_bind].
  destruct (BRAddressFromScriptPubKey _ _ _) as [[p r]|]; [|done]. cbn [mbind option_bind].
  destruct (r =? 0); [intros [= <-]; apply same_refl|].
  destruct (find_key keys _) as [k|]; [|intros [= <-]; apply same_refl].
  destruct (sign_script _ _ _ _ _) as [ss|]; [|done]. cbn [mbind option_bind].
  destruct (BRTxInputSetSignature input (Some ss)) as [input'|] eqn:Es; [|done]. cbn. intros [= <-].
  repeat (split; [done|]). cbn [set_input inputs].
  apply Forall2_same_length_lookup_2; [now rewrite length_insert|].
  intros j x y Hx Hy. destruct (decide (j = Z.to_nat i)) as [->|Hj].
  - rewrite list_lookup_insert_eq in Hy by eauto using lookup_lt_Some. simplify_eq.
    eapply set_signature_same; eauto.
  - rewrite list_lookup_insert_ne in Hy by done. simplify_eq. repeat split.
Qed.

Lemma sign_input_hash forkId keys tx i tx' : sign_input forkId keys tx i = Some tx' -> txHash tx' = txHash tx.
Proof.
  unfold sign_input. destruct (inputs tx !! Z.to_nat i); [|done]. cbn [mbind option_bind].
  destruct (BRAddressFromScriptPubKey _ _ _) as [[p r]|]; [|done]. cbn [mbind option_bind].
  destruct (r =? 0); [now intros [= <-]|]. destruct (find_key keys _); [|now intros [= <-]].
  destruct (sign_script _ _ _ _ _); [|done]. cbn [mbind option_bind].
  destruct (BRTxInputSetSignature _ _); [|done]. cbn. now intros [= <-].
Qed.

Lemma for_each_hash forkId keys l : forall tx tx',
  for_each (sign_input forkId keys) tx l = Some tx' -> txHash tx' = txHash tx.
Proof.
  induction l as [|i l IH]; intros tx tx'; cbn [for_each]; [now intros [= <-]|].
  destruct (sign_input forkId keys tx i) as [t|] eqn:E; [|done]. cbn [mbind option_bind]. intros E'.
  rewrite (IH _ _ E'). eapply sign_input_hash; eauto.
Qed.

Lemma for_each_same forkId keys l : forall tx tx',
  for_each (sign_input forkId keys) tx l = Some tx' -> same_core tx tx'.
Proof.
  induction l as [|i l IH]; intros tx tx'; cbn [for_each]; [intros [= <-]; apply same_refl|].
  destruct (sign_input forkId keys tx i) as [t|] eqn:E; [|done]. cbn [mbind option_bind]. intros E'.
  eapply same_trans; [eapply sign_input_same; eauto|eauto].
Qed.
End sign_proofs.

(** ** Properties *)

(** C17. [BRTransactionSerialize] writes exactly the transaction's bytes (and returns their number on
    NULL), and [BRTransactionParse] of those bytes, whatever follows them, returns the transaction:
    same version, inputs, outputs and lock time, its hash computed when every input is signed.
    Signed inputs lose script and amount, which the wire format does not carry; unsigned ones keep
    both.  It holds for transactions satisfying [tx_wire_ok]: there is an input; every field fits its width and
    scripts and signatures are bytes, less than 2^32 bytes in all; no signature is itself a script with an address (the parser takes
    such a signature for the script of an unsigned input); an unsigned input has a script with an address and a positive amount. *)
Theorem tx_roundtrip tx rest :
  tx_wire_ok tx -> len (tx_bytes tx ++ rest) < 0x100000000 ->
  writes (BRTransactionSerialize tx) (tx_bytes tx) /\
  exists ins outs, mapM wire_form (inputs tx) = Some ins /\ mapM wire_output (outputs tx) = Some outs /\
    BRTransactionParse (tx_bytes tx ++ rest) = Some (Some (mkTx
      (if BRTransactionIsSigned tx then UInt256Get (BRSHA256_2 (tx_bytes tx)) else 0)
      (version tx) ins outs (lockTime tx) TX_UNCONFIRMED 0)).
Proof.
  intros [Hv Hlk Hins Houts Hne] Hlen. split; [apply serialize_writes|].
  set (buf := tx_bytes tx ++ rest) in *.
  set (V := UInt32SetLE (version tx)). set (Ci := varint_bytes (inCount tx)). set (Co := varint_bytes (outCount tx)).
  set (BI := inputs_bytes SIZE_MAX 1 0 (inputs tx)). set (BO := outputs_bytes (outputs tx)).
  set (L := UInt32SetLE (lockTime tx)).
  assert (Et : tx_bytes tx = V ++ Ci ++ BI ++ Co ++ BO ++ L).
  { unfold tx_bytes, data_bytes. rewrite Z.eqb_refl, app_nil_r. reflexivity. }
  assert (Eb : buf = V ++ Ci ++ BI ++ Co ++ BO ++ L ++ rest) by (unfold buf; rewrite Et, <- !app_assoc; done).
  clearbody buf.
  assert (LV : len V = 4) by done. assert (LL : len L = 4) by done.
  pose proof (inputs_bytes_count SIZE_MAX 1 (inputs tx) 0) as Hci. fold BI in Hci.
  pose proof (outputs_bytes_count (outputs tx)) as Hco. fold BO in Hco.
  assert (Lb : len buf = 4 + len Ci + len BI + len Co + len BO + 4 + len rest) by (rewrite Eb, !length_app; lia).
  assert (Hbuf : len buf < 0x10000000000000000) by lia.
  assert (Hic : 0 <= inCount tx < 0x10000000000000000) by (unfold inCount; lia).
  assert (Hoc : 0 <= outCount tx < 0x10000000000000000) by (unfold outCount; lia).
  assert (Hi0 : inCount tx <> 0) by (unfold inCount; destruct (inputs tx); [done|cbn; lia]).
  destruct (parse_inputs_spec buf (inputs tx) Hins 1 (S (length buf)) (V ++ Ci) (Co ++ BO ++ L ++ rest) 0 (inCount tx) true)
    as (ins & Em & Ei); [rewrite <- app_assoc; exact Eb|done|lia|unfold SIZE_MAX; lia|done|lia|].
  destruct (parse_outputs_spec buf (outputs tx) Houts (S (length buf)) (V ++ Ci ++ BI ++ Co) (L ++ rest) 0 (outCount tx))
    as (outs & Emo & Eo); [rewrite <- !app_assoc; exact Eb|done|lia|done|lia|].
  exists ins, outs. split; [done|]. split; [done|]. unfold BRTransactionParse.
  rewrite (get_field buf Hbuf UInt32GetLE 0 4 [] V (Ci ++ BI ++ Co ++ BO ++ L ++ rest) 0 Eb) by done.
  cbn [mbind option_bind]. rewrite (size_add_id buf Hbuf 0 4) by lia.
  rewrite (varint_field buf Hbuf (inCount tx) V (BI ++ Co ++ BO ++ L ++ rest)) by done. cbn [mbind option_bind]. fold Ci.
  rewrite (size_add_id buf Hbuf (0 + 4)) by lia.
  replace (0 + 4 + len Ci) with (len (V ++ Ci)) by (rewrite length_app; lia). rewrite Ei. cbn [mbind option_bind]. fold BI.
  rewrite (varint_field buf Hbuf (outCount tx) (V ++ Ci ++ BI) (BO ++ L ++ rest));
    [|rewrite <- !app_assoc; exact Eb|rewrite !length_app; lia|done]. cbn [mbind option_bind]. fold Co.
  rewrite (size_add_id buf Hbuf (len (V ++ Ci) + len BI)) by (rewrite ?length_app; lia).
  replace (len (V ++ Ci) + len BI + len Co) with (len (V ++ Ci ++ BI ++ Co)) by (rewrite !length_app; lia).
  rewrite Eo. cbn [mbind option_bind]. fold BO.
  rewrite (get_field buf Hbuf UInt32GetLE 0 4 (V ++ Ci ++ BI ++ Co ++ BO) L rest);
    [|rewrite <- !app_assoc; exact Eb|rewrite !length_app; lia|done]. cbn [mbind option_bind].
  rewrite (size_add_id buf Hbuf _ 4) by (rewrite ?length_app; lia).
  rewrite (proj2 (Z.eqb_neq _ 0) Hi0), (proj2 (Z.ltb_ge (len buf) _)) by (rewrite !length_app; lia). cbn [orb].
  cbn [andb]. unfold L, V. rewrite !UInt32Get_Set by done.
  assert (Etake : take (Z.to_nat (len (V ++ Ci ++ BI ++ Co) + len BO + 4)) buf = tx_bytes tx).
  { rewrite Et. replace (Z.to_nat _) with (length (V ++ Ci ++ BI ++ Co ++ BO ++ L)) by (rewrite !length_app in *; lia).
    rewrite Eb. rewrite !app_assoc. rewrite take_app_len. reflexivity. }
  fold V. rewrite Etake. unfold BRTransactionIsSigned, is_signed. reflexivity.
Qed.

(** A transaction used as a concrete input: one signed input, one pay-to-pubkey-hash output. *)
Definition ex_input (sig : option (list Z)) : BRTxInput :=
  mkInput 5 1 [] 700 (Some (p2pkh (replicate 20 9))) sig TXIN_SEQUENCE.
Definition ex_tx (sig : option (list Z)) : BRTransaction :=
  mkTx 0 1 [ex_input sig] [mkOutput [] 1234 (Some (p2pkh (replicate 20 8)))] 0 TX_UNCONFIRMED 0.

Ltac bytes_tac := vm_compute; repeat (apply Forall_cons; split; [split; [discriminate|reflexivity]|]); constructor.

Lemma ex_tx_wire : tx_wire_ok (ex_tx (Some [2; 7; 7])).
Proof.
  constructor; [split; (reflexivity || discriminate)|split; (reflexivity || discriminate)| | |discriminate].
  - apply Forall_cons; split; [|constructor].
    constructor; [split; (reflexivity || discriminate)|split; (reflexivity || discriminate)|split; (reflexivity || discriminate)|].
    split; [bytes_tac|vm_compute; reflexivity].
  - apply Forall_cons; split; [|constructor].
    constructor; [split; (reflexivity || discriminate)|bytes_tac].
Qed.

Lemma tx_roundtrip_witness :
  exists ins outs, BRTransactionParse (tx_bytes (ex_tx (Some [2; 7; 7])) ++ [99]) =
    Some (Some (mkTx (UInt256Get (BRSHA256_2 (tx_bytes (ex_tx (Some [2; 7; 7]))))) 1 ins outs 0 TX_UNCONFIRMED 0)).
Proof.
  destruct (tx_roundtrip (ex_tx (Some [2; 7; 7])) [99] ex_tx_wire eq_refl) as (_ & ins & outs & _ & _ & E).
  exists ins, outs. exact E.
Defined.

(** [BRTransactionSize] of a fully signed transaction is the exact number of bytes
    [BRTransactionSerialize] writes, and [BRTransactionStandardFee] charges [TX_FEE_PER_KB] for every
    started kilobyte of it. *)
Theorem size_of_signed tx :
  Forall signed_input (inputs tx) -> len (tx_bytes tx) < 0x100000000 ->
  BRTransactionSize tx = len (tx_bytes tx) /\
  exists kb, BRTransactionStandardFee tx = kb * TX_FEE_PER_KB /\ (kb - 1) * 1000 < len (tx_bytes tx) <= kb * 1000.
Proof.
  intros Hs Hlen.
  pose proof (inputs_bytes_count SIZE_MAX 1 (inputs tx) 0) as Hc.
  assert (Hl : len (tx_bytes tx) = 8 + len (varint_bytes (inCount tx)) + len (varint_bytes (outCount tx)) +
            len (inputs_bytes SIZE_MAX 1 0 (inputs tx)) + len (outputs_bytes (outputs tx))).
  { unfold tx_bytes, data_bytes. rewrite Z.eqb_refl, app_nil_r, !length_app. cbn [length UInt32SetLE].
    change (Z.land SIGHASH_ALL 0x1f) with 1. lia. }
  assert (Hn : 0 + len (inputs tx) < SIZE_MAX) by (unfold SIZE_MAX; lia). clear Hc.
  rewrite (inputs_bytes_signed 1 (inputs tx) 0 Hs) in Hl by (lia || done).
  assert (E : BRTransactionSize tx = len (tx_bytes tx)).
  { unfold BRTransactionSize, BRVarIntSize.
    rewrite (fold_sizes input_size (fun a => input_bytes (set_amount a 0)));
      [|intros a Ha; rewrite Forall_forall in Hs; rewrite (input_size_bytes 1 0) by (auto || done);
        now rewrite sighash_input_signed by (auto || done)|lia|lia].
    rewrite (fold_sizes output_size output_bytes); [|intros; apply output_size_bytes|lia|fold (outputs_bytes (outputs tx)); lia].
    fold (outputs_bytes (outputs tx)). lia. }
  split; [exact E|]. exists ((len (tx_bytes tx) + 999) / 1000). unfold BRTransactionStandardFee, TX_FEE_PER_KB. rewrite E.
  split; [|zdiv_lia]. rewrite (u64_id (len (tx_bytes tx) + 999)) by lia. apply u64_id. zdiv_lia.
Qed.

Lemma size_of_signed_witness :
  BRTransactionSize (ex_tx (Some [2; 7; 7])) = 88 /\ Forall signed_input (inputs (ex_tx (Some [2; 7; 7]))).
Proof.
  assert (Hs : Forall signed_input (inputs (ex_tx (Some [2; 7; 7])))) by (repeat constructor; eexists; reflexivity).
  split; [|exact Hs]. exact (proj1 (size_of_signed (ex_tx (Some [2; 7; 7])) Hs eq_refl)).
Defined.

(** [BRTransactionShuffleOutputs] only permutes the outputs and changes nothing else, whatever
    [rand] returns; every index it draws is in range because [BRRand] stays below its bound. *)
Theorem shuffle_permutes tx rands tx' rest :
  BRTransactionShuffleOutputs tx rands = Some (tx', rest) ->
  outputs tx' ≡ₚ outputs tx /\ tx' = set_outputs tx (outputs tx') /\
  forall u r rest', 0 < u <= BR_RAND_MAX -> Forall (fun x => 0 <= x) rands -> BRRand rands u = Some (r, rest') -> 0 <= r < u.
Proof.
  unfold BRTransactionShuffleOutputs. destruct (shuffle_loop _ _ _ _) as [[outs rest0]|] eqn:E; [|done].
  cbn. intros [= <- <-]. split; [eapply shuffle_loop_perm; eauto|]. split; [done|].
  intros u r rest' Hu Hp Er. apply rand_spec in Er as [Hr _]; [|lia|done].
  change BR_RAND_MAX with 0x7fffffff in *. change RAND_MAX with 0x7fffffff in *.
  rewrite (proj2 (Z.eqb_neq u 0)), (proj2 (Z.ltb_ge 0x7fffffff u)) in Hr by lia. exact Hr.
Qed.

Lemma shuffle_permutes_witness :
  outputs (set_outputs (ex_tx None) [mkOutput [] 2 None; mkOutput [] 1 None]) ≡ₚ [mkOutput [] 1 None; mkOutput [] 2 None].
Proof.
  exact (proj1 (shuffle_permutes (set_outputs (ex_tx None) [mkOutput [] 1 None; mkOutput [] 2 None]) [7; 8]
    (set_outputs (ex_tx None) [mkOutput [] 2 None; mkOutput [] 1 None]) [8] eq_refl)).
Defined.

(** The digest an input signs under [SIGHASH_ALL] covers the whole transaction except the
    signatures: it is the hash of exactly [data_bytes], which is the same for any two transactions
    that agree on everything but signatures, so signing the inputs one after the other (as
    [BRTransactionSign] does) never invalidates an earlier signature. *)
Theorem sighash_signature_independent tx tx' index :
  same_core tx tx' -> index <> SIZE_MAX -> len (data_bytes tx index SIGHASH_ALL) < 0x10000000000000000 ->
  filled (_BRTransactionData tx index SIGHASH_ALL) = Some (data_bytes tx index SIGHASH_ALL) /\
  filled (_BRTransactionData tx' index SIGHASH_ALL) = Some (data_bytes tx index SIGHASH_ALL).
Proof.
  intros (Hv & Ho & Hl & _ & _ & Hi) Hidx Hlen.
  assert (E : data_bytes tx' index SIGHASH_ALL = data_bytes tx index SIGHASH_ALL).
  { unfold data_bytes, inCount, outCount. rewrite Hv, Ho, Hl, (Forall2_length _ _ _ Hi).
    now rewrite (inputs_bytes_unsigned _ _ _ _ Hidx Hi). }
  split; apply filled_writes; try done.
  - apply data_writes; reflexivity.
  - rewrite <- E. apply data_writes; reflexivity.
Qed.

Lemma sighash_signature_independent_witness :
  filled (_BRTransactionData (ex_tx (Some [2; 7; 7])) 0 SIGHASH_ALL) = Some (data_bytes (ex_tx None) 0 SIGHASH_ALL).
Proof.
  refine (proj2 (sighash_signature_independent (ex_tx None) (ex_tx (Some [2; 7; 7])) 0 _ _ _)).
  - repeat (split; [reflexivity|]). repeat constructor.
  - discriminate.
  - reflexivity.
Defined.

(** For the whole transaction the hash type does not matter (as long as all outputs are covered). *)
Lemma inputs_bytes_all sh sh' ins : forall i, 0 <= i -> i + len ins < SIZE_MAX ->
  inputs_bytes SIZE_MAX sh i ins = inputs_bytes SIZE_MAX sh' i ins.
Proof.
  induction ins as [|a ins IH]; intros i H0 Hi; cbn [inputs_bytes length] in *; [done|].
  rewrite !sighash_wire, IH by lia. reflexivity.
Qed.

Lemma data_bytes_hash_type tx hashType : len (tx_bytes tx) < 0x100000000 -> data_bytes tx SIZE_MAX hashType = tx_bytes tx.
Proof.
  intros Hl. unfold tx_bytes, data_bytes in *. rewrite Z.eqb_refl in *. rewrite !length_app in Hl.
  pose proof (inputs_bytes_count SIZE_MAX (Z.land SIGHASH_ALL 0x1f) (inputs tx) 0) as Hc.
  rewrite (inputs_bytes_all (Z.land hashType 0x1f) (Z.land SIGHASH_ALL 0x1f)) by (unfold SIZE_MAX; lia). reflexivity.
Qed.

(** C18. [BRTransactionSign] changes only signatures (and addresses of inputs): outpoints, amounts,
    scripts, sequences, outputs, version and lock time are untouched; it returns true exactly when
    every input has a signature, and then the transaction's hash is the double SHA-256 of its
    serialization. *)
Theorem sign_spec {BRKey} `{KeyOps BRKey} tx forkId keys tx' b :
  BRTransactionSign tx forkId keys = Some (tx', b) -> len (tx_bytes tx') < 0x100000000 ->
  same_core tx tx' /\ b = BRTransactionIsSigned tx' /\
  (b = true -> txHash tx' = UInt256Get (BRSHA256_2 (tx_bytes tx'))) /\ (b = false -> txHash tx' = txHash tx).
Proof.
  unfold BRTransactionSign. destruct (for_each _ tx _) as [t|] eqn:E; [|done]. cbn [mbind option_bind].
  pose proof (for_each_same _ _ _ _ _ E) as Hsame. pose proof (for_each_hash _ _ _ _ _ E) as Hh.
  destruct (BRTransactionIsSigned t) eqn:Es; [|intros [= <- <-] _; repeat split; (done || apply Hsame)].
  intros E' Hlen.
  assert (Ht : tx_bytes tx' = tx_bytes t /\ same_core tx tx' /\ BRTransactionIsSigned tx' = true /\ b = true).
  { destruct (filled (_BRTransactionData t SIZE_MAX 0)) in E'; [|done]. cbn in E'. injection E' as <- <-. auto. }
  destruct Ht as (Ht & Hc & Hs & ->). rewrite Ht in *.
  assert (Hw : writes (_BRTransactionData t SIZE_MAX 0) (data_bytes t SIZE_MAX 0)) by (apply data_writes; reflexivity).
  rewrite (data_bytes_hash_type t 0) in Hw by lia.
  rewrite (filled_writes _ _ Hw) in E' by lia. cbn in E'. injection E' as <-.
  split; [done|]. split; [done|]. split; [done|discriminate].
Qed.

(** Keys for the examples: a key is its public key hash, its "signature" the digest itself. *)
#[export] Instance ex_keys : KeyOps (list Z) := {
  key_address := address_string BITCOIN_PUBKEY_ADDRESS;
  key_pubkey := fun k => 2 :: k ++ replicate 12 0;
  key_sign := fun _ md => md;
}.

Lemma sign_spec_witness :
  exists tx', BRTransactionSign (ex_tx None) 0 [replicate 20 9] = Some (tx', true) /\
    txHash tx' = UInt256Get (BRSHA256_2 (tx_bytes tx')).
Proof.
  destruct (BRTransactionSign (ex_tx None) 0 [replicate 20 9]) as [[tx' b]|] eqn:E.
  - pose proof (sign_spec (ex_tx None) 0 [replicate 20 9] tx' b E) as Hs.
    assert (Eb : (snd <$> BRTransactionSign (ex_tx None) 0 [replicate 20 9]) = Some true /\
                 ((fun r => len (tx_bytes (fst r)) <? 0x100000000) <$>
                   BRTransactionSign (ex_tx None) 0 [replicate 20 9]) = Some true) by (vm_compute; auto).
    rewrite E in Eb. cbn in Eb. destruct Eb as [Eb El]. injection Eb as ->. injection El as El. apply Z.ltb_lt in El.
    exists tx'. split; [reflexivity|]. exact (proj1 (proj2 (proj2 (Hs El))) eq_refl).
  - exfalso. assert (N : is_Some (BRTransactionSign (ex_tx None) 0 [replicate 20 9])) by (vm_compute; eauto).
    rewrite E in N. destruct N; done.
Defined.

(** ** Behaviours outside the contracts *)

(** A length field close to 2^64 wraps [off + sLen]: the parser then reads outside its buffer. *)
Definition overflow_buf : list Z :=
  UInt32SetLE 1 ++ [1] ++ UInt256Set 5 ++ UInt32SetLE 0 ++ (VAR_INT64_HEADER :: UInt64SetLE (0x10000000000000000 - 50)).

Example parse_overflow : BRTransactionParse overflow_buf = None.
Proof. vm_compute. reflexivity. Qed.

(** With a buffer that is too short, inputs and outputs are skipped and the fixed-size fields still
    counted: ten bytes are reported as a whole transaction. *)
Example serialize_short :
  (snd <$> BRTransactionSerialize (ex_tx (Some [2; 7; 7])) (Some (replicate 10 0)) 10) = Some 10 /\
  len (tx_bytes (ex_tx (Some [2; 7; 7]))) = 88.
Proof. vm_compute. auto. Qed.

(** [BRRand]: [rand()] has 2^31 values, and all those above the bound are used modulo 3, which 2^31 is
    not a multiple of: one residue keeps one source value more than another. *)
Example rand_biased :
  (forall r, 1 <= r <= RAND_MAX -> BRRand [r] 3 = Some (r mod 3, [])) /\ BRRand [0] 3 = None /\
  (RAND_MAX mod 3 = 1).
Proof.
  split; [|split; reflexivity]. intros r Hr. unfold BRRand.
  change ((3 =? 0) || (BR_RAND_MAX <? 3)) with false. cbn iota. cbn [rand_loop].
  change (u32 (u32 (0xffffffff - u32 (3 * 2)) + 1) mod 3) with 1. now rewrite (proj2 (Z.ltb_ge r 1)) by lia.
Qed.
