(* ===== verification/MerkleBlock.v ===== *)
(** * Merkle blocks ([BRMerkleBlock.c], [BRMerkleBlock.h])

    Block headers with their partial merkle trees: parsing and serialization, the walk over the tree
    that lists the matched transactions and the one that recomputes the merkle root, validation, and
    the difficulty rule (dark gravity wave).  [hashes] and [flags] are pointers ([None] is NULL) kept
    with their separate counts, and every access through them is checked: [None] as a result is an
    access outside the array, a failed assertion or a loop that does not end. *)
From stdpp Require Import base numbers list gmap.
From Stdlib Require Import ZArith Lia.
From S2P Require Import Prelude CMem Int Crypto Scrypt SetTable Address.
Local Open Scope Z_scope.

(** Of the main network, as [DGW_START_BLOCK] and the version bytes in [Address] are. *)
Definition MAX_PROOF_OF_WORK : Z := 0x1e00ffff.
Definition DGW_TARGET_TIMESPAN : Z := 1 * 60.
Definition BLOCK_UNKNOWN_HEIGHT : Z := INT32_MAX.
Definition DGW_PAST_BLOCKS : Z := 180.
Definition DGW_START_BLOCK : Z := 338778.
Definition HASH_FUNC_BASE_TIMESTAMP : Z := 1492973331.
Definition HASH_FUNC_COUNT : nat := 10.
Definition HASH_FUNC_COUNT_PERMUTATIONS : Z := 40320.

Record BRMerkleBlock := mkBlock {
  blockHash : Z; powHash : Z; version : Z; prevBlock : Z; merkleRoot : Z; timestamp : Z; target : Z;
  nonce : Z; totalTx : Z; hashes : option (list Z); hashesCount : Z; flags : ptr; flagsLen : Z; height : Z }.

#[export] Instance BRMerkleBlock_eq_dec : EqDecision BRMerkleBlock.
Proof. solve_decision. Defined.

(** ** [_ceil_log2] *)

(** [while ((x >>= 1) != 0) r++]: at most 31 times for a non-negative [int], forever for a negative one. *)
Fixpoint log2_loop (fuel : nat) (x r : Z) : option Z :=
  match fuel with
  | O => None
  | S fuel' => let x := Z.shiftr x 1 in if x =? 0 then Some r else log2_loop fuel' x (r + 1)
  end.

Definition _ceil_log2 (x : Z) : option Z :=
  log2_loop 32 x (if negb (Z.land x (x - 1) =? 0) then 1 else 0).

(** ** The order of the timetravel hash functions *)

Definition swap8 (n : list Z) (i j : nat) : list Z :=
  let a := default 0 (n !! i) in let b := default 0 (n !! j) in <[j := a]> (<[i := b]> n).

Definition initPerm (count : nat) : list Z := seqZ 0 (Z.of_nat count).

(** [for (i = count - 1; i > 0 && n[i - 1] >= n[i]; i--)] *)
Fixpoint tail_loop (n : list Z) (i : nat) : nat :=
  match i with
  | O => O
  | S i' => if default 0 (n !! i) <=? default 0 (n !! i') then tail_loop n i' else i
  end.

(** [for (j = count - 1; j > tail && n[j] <= n[tail - 1]; j--)] *)
Fixpoint succ_loop (n : list Z) (tail j : nat) : nat :=
  match j with
  | O => O
  | S j' => if (tail <? j)%nat && (default 0 (n !! j) <=? default 0 (n !! Nat.pred tail))
            then succ_loop n tail j' else j
  end.

(** [for (i = tail, j = count - 1; i < j; i++, j--) swap8(&n[i], &n[j])] *)
Fixpoint reverse_loop (fuel : nat) (n : list Z) (i j : nat) : list Z :=
  match fuel with
  | O => n
  | S fuel' => if (i <? j)%nat then reverse_loop fuel' (swap8 n i j) (S i) (Nat.pred j) else n
  end.

Definition nextPerm (n : list Z) (count : nat) : list Z * Z :=
  if (count <=? 1)%nat then (n, 0)
  else
    let tail := tail_loop n (count - 1) in
    let n := if (0 <? tail)%nat then swap8 n (tail - 1) (succ_loop n tail (count - 1)) else n in
    (reverse_loop count n tail (count - 1), c_bool (negb (tail =? 0)%nat)).

(** The characters written; the terminator is left out. *)
Definition getAlgoString (seq : Z) : list Z :=
  let algoList := Nat.iter (Z.to_nat seq) (fun n => fst (nextPerm n HASH_FUNC_COUNT)) (initPerm HASH_FUNC_COUNT) in
  (fun a => if 10 <=? a then 65 + (a - 10) else 48 + a) <$> algoList.

Definition getCurrentAlgoSeq (ntime : Z) : Z := u32 (ntime - HASH_FUNC_BASE_TIMESTAMP) mod HASH_FUNC_COUNT_PERMUTATIONS.

Definition get_travel_order (ntime : Z) : list Z := getAlgoString (getCurrentAlgoSeq ntime).

(** ** Construction, parsing, serialization *)

Definition BRMerkleBlockNew : BRMerkleBlock := mkBlock 0 0 0 0 0 0 0 0 0 None 0 None 0 BLOCK_UNKNOWN_HEIGHT.

(** [n] consecutive [UInt256]. *)
Fixpoint get_hashes (n : nat) (b : list Z) : list Z :=
  match n with
  | O => []
  | S n' => UInt256Get (take 32 b) :: get_hashes n' (drop 32 b)
  end.

(** [p = (off + len <= bufLen) ? malloc(len) : NULL; if (p) memcpy(p, &buf[off], len);] *)
Definition copy_out (buf : list Z) (off l : Z) : option ptr :=
  if u64 (off + l) <=? len buf then Some <$> mem_read buf off l else Some None.

Definition header_u32 (buf : list Z) (off : Z) : option Z := UInt32GetLE <$> mem_read buf off 4.
Definition header_u256 (buf : list Z) (off : Z) : option Z := UInt256Get <$> mem_read buf off 32.

(** The hashes and the flags: pointers, counts and the offset after them. *)
Definition parse_hashes (buf : list Z) (off : Z) : option (option (list Z) * Z * Z) :=
  '(hashesCount, l) ← varint_at buf off;
  let off := u64 (off + l) in
  let l := u64 (hashesCount * 32) in
  p ← copy_out buf off l;
  Some (option_map (get_hashes (Z.to_nat (l / 32))) p, hashesCount, u64 (off + l)).

Definition parse_flags (buf : list Z) (off : Z) : option (ptr * Z) :=
  '(flagsLen, l) ← varint_at buf off;
  p ← copy_out buf (u64 (off + l)) flagsLen;
  Some (p, flagsLen).

Section parse.
(** [timetravel10_hash] is in a submodule; [addr] is the address of [block->timestamp], which the code
    compares with the date of the switch to that hash. *)
Context (timetravel10_hash : list Z -> Z) (addr : Z).

Definition pow_hash (header : list Z) : Z :=
  if 1493124696 <=? addr then timetravel10_hash header
  else UInt256Get (BRScrypt 32 header header 1024 1 1).

(** [Some None] is NULL. *)
Definition BRMerkleBlockParse (buf : list Z) : option (option BRMerkleBlock) :=
  let bufLen := len buf in
  if 80 <=? bufLen then
    version ← header_u32 buf 0;
    prevBlock ← header_u256 buf 4;
    merkleRoot ← header_u256 buf 36;
    timestamp ← header_u32 buf 68;
    target ← header_u32 buf 72;
    nonce ← header_u32 buf 76;
    header ← mem_read buf 0 80;
    let block := mkBlock (pow_hash header) 0 version prevBlock merkleRoot timestamp target nonce in
    if u64 (80 + 4) <=? bufLen then
      totalTx ← header_u32 buf 80;
      '(hashes, hashesCount, off) ← parse_hashes buf (80 + 4);
      '(flags, flagsLen) ← parse_flags buf off;
      Some (Some (block totalTx hashes hashesCount flags flagsLen BLOCK_UNKNOWN_HEIGHT))
    else Some (Some (block 0 None 0 None 0 BLOCK_UNKNOWN_HEIGHT))
  else Some None.
End parse.

(** [memcpy(&buf[off], bs, n); off += n;] on a non-NULL [buf]. *)
Definition store (bs : list Z) (st : ptr * Z) : option (ptr * Z) :=
  let '(buf, off) := st in
  m ← buf; m' ← mem_write m off bs; Some (Some m', u64 (off + len bs)).

(** [if (p) memcpy(&buf[off], p, n); off += n;] *)
Definition store_from (p : ptr) (n : Z) (st : ptr * Z) : option (ptr * Z) :=
  match p with
  | None => Some (fst st, u64 (snd st + n))
  | Some l => bs ← mem_read l 0 n; store bs st
  end.

Definition BRMerkleBlockSerialize (block : BRMerkleBlock) (buf : ptr) (bufLen : Z) : option (ptr * Z) :=
  let l := if 0 <? totalTx block
           then u64 (80 + 4 + BRVarIntSize (hashesCount block) + hashesCount block * 32 +
                     BRVarIntSize (flagsLen block) + flagsLen block)
           else 80 in
  match buf with
  | None => Some (None, l)
  | Some _ =>
      if l <=? bufLen then
        st ← store (UInt32SetLE (version block)) (buf, 0);
        st ← store (UInt256Set (prevBlock block)) st;
        st ← store (UInt256Set (merkleRoot block)) st;
        st ← store (UInt32SetLE (timestamp block)) st;
        st ← store (UInt32SetLE (target block)) st;
        st ← store (UInt32SetLE (nonce block)) st;
        st ← (if 0 <? totalTx block then
                st ← store (UInt32SetLE (totalTx block)) st;
                st ← call_at bufLen (fun p n => BRVarIntSet p n (hashesCount block)) st;
                st ← store_from (mjoin ∘ fmap UInt256Set <$> hashes block) (u64 (hashesCount block * 32)) st;
                st ← call_at bufLen (fun p n => BRVarIntSet p n (flagsLen block)) st;
                store_from (flags block) (flagsLen block) st
              else Some st);
        Some (fst st, l)
      else Some (buf, 0)
  end.

(** ** The partial merkle tree *)

(** [block->flags[flagIdx/8] & (1 << (flagIdx % 8))] *)
Definition flag_at (block : BRMerkleBlock) (i : Z) : option bool :=
  fs ← flags block;
  b ← fs !! Z.to_nat (i / 8);
  Some (c_true (u8 (Z.land b (Z.shiftl 1 (i mod 8))))).

Definition hash_at (block : BRMerkleBlock) (i : Z) : option Z := hs ← hashes block; hs !! Z.to_nat i.

(** [*flagIdx/8 < block->flagsLen && *hashIdx < block->hashesCount] *)
Definition more (block : BRMerkleBlock) (hashIdx flagIdx : Z) : bool :=
  (flagIdx / 8 <? flagsLen block) && (hashIdx <? hashesCount block).

(** [depth == _ceil_log2(block->totalTx)], evaluated only when [flag] is set. *)
Definition at_leaf (block : BRMerkleBlock) (flag : bool) (depth : Z) : option bool :=
  if flag then h ← _ceil_log2 (s32 (totalTx block)); Some (depth =? h) else Some true.

(** The hashes written to [txHashes] and the three indices. *)
Record walk := mkWalk { found : list Z; idx : Z; hashIdx : Z; flagIdx : Z }.

(** [depth] never exceeds [_ceil_log2(totalTx)], so 34 levels of recursion are enough.  [txHashes]: the
    pointer is not NULL. *)
Fixpoint _BRMerkleBlockTxHashesR (fuel : nat) (block : BRMerkleBlock) (txHashes : bool) (count : Z)
    (depth : Z) (w : walk) : option walk :=
  match fuel with
  | O => None
  | S fuel' =>
      if more block (hashIdx w) (flagIdx w) then
        flag ← flag_at block (flagIdx w);
        leaf ← at_leaf block flag depth;
        let w := mkWalk (found w) (idx w) (hashIdx w) (u64 (flagIdx w + 1)) in
        if leaf : bool then
          w ← (if flag && (idx w <? count) then
                 found' ← (if txHashes then h ← hash_at block (hashIdx w); Some (found w ++ [h]) else Some (found w));
                 Some (mkWalk found' (u64 (idx w + 1)) (hashIdx w) (flagIdx w))
               else Some w);
          Some (mkWalk (found w) (idx w) (u64 (hashIdx w + 1)) (flagIdx w))
        else
          w ← _BRMerkleBlockTxHashesR fuel' block txHashes count (depth + 1) w;
          _BRMerkleBlockTxHashesR fuel' block txHashes count (depth + 1) w
      else Some w
  end.

Definition tree_fuel : nat := 34.

(** [txHashes] is the capacity of the array, [None] for NULL.  The hashes written and their number. *)
Definition BRMerkleBlockTxHashes (block : BRMerkleBlock) (txHashes : option Z) : option (list Z * Z) :=
  w ← _BRMerkleBlockTxHashesR tree_fuel block (bool_decide (is_Some txHashes)) (default SIZE_MAX txHashes) 0
        (mkWalk [] 0 0 0);
  Some (found w, idx w).

Definition hash_pair (a b : Z) : Z := UInt256Get (BRSHA256_2 (UInt256Set a ++ UInt256Set b)).

(** The digest of the subtree and the new [hashIdx] and [flagIdx]. *)
Fixpoint _BRMerkleBlockRootR (fuel : nat) (block : BRMerkleBlock) (hashIdx flagIdx depth : Z) : option (Z * Z * Z) :=
  match fuel with
  | O => None
  | S fuel' =>
      if more block hashIdx flagIdx then
        flag ← flag_at block flagIdx;
        leaf ← at_leaf block flag depth;
        let flagIdx := u64 (flagIdx + 1) in
        if leaf : bool then md ← hash_at block hashIdx; Some (md, u64 (hashIdx + 1), flagIdx)
        else
          '(h0, hashIdx, flagIdx) ← _BRMerkleBlockRootR fuel' block hashIdx flagIdx (depth + 1);
          '(h1, hashIdx, flagIdx) ← _BRMerkleBlockRootR fuel' block hashIdx flagIdx (depth + 1);
          if negb (UInt256IsZero h0) && negb (UInt256Eq h0 h1) then
            let h1 := if UInt256IsZero h1 then h0 else h1 in
            Some (hash_pair h0 h1, hashIdx, flagIdx)
          else Some (UINT256_ZERO, SIZE_MAX, flagIdx)
      else Some (UINT256_ZERO, hashIdx, flagIdx)
  end.

(** [if (p) memcpy(p, src, n)] of a freshly allocated copy; the counts of the block are not set. *)
Definition BRMerkleBlockSetTxHashes (block : BRMerkleBlock) (hs : list Z) (fs : list Z) : BRMerkleBlock :=
  mkBlock (blockHash block) (powHash block) (version block) (prevBlock block) (merkleRoot block)
    (timestamp block) (target block) (nonce block) (totalTx block)
    (if 0 <? len hs then Some hs else None) (hashesCount block)
    (if 0 <? len fs then Some fs else None) (flagsLen block) (height block).

(** The last loop: [if (block->blockHash.u8[i] < t.u8[i]) break;], with the comparison that would
    clear [r] commented out. *)
Fixpoint pow_loop (i : nat) (bh t : list Z) (r : bool) : bool :=
  match i with
  | O => r
  | S i' => if r then if wd bh (Z.of_nat i') <? wd t (Z.of_nat i') then r else pow_loop i' bh t r else r
  end.

(** [t] is a 32 byte union on the stack: a target size above 31 writes past it. *)
Definition BRMerkleBlockIsValid (block : BRMerkleBlock) (currentTime : Z) : option bool :=
  let size := Z.shiftr (target block) 24 in
  let target := Z.land (target block) 0x00ffffff in
  '(merkleRoot', _, _) ← _BRMerkleBlockRootR tree_fuel block 0 0 0;
  let r := negb ((0 <? totalTx block) && negb (UInt256Eq merkleRoot' (merkleRoot block))) in
  let t := UInt256Set UINT256_ZERO in
  t ← (if 3 <? size then mem_write t (size - 3) (UInt32SetLE target)
       else mem_write t 0 (UInt32SetLE (Z.shiftr target ((3 - size) * 8))));
  Some (pow_loop 32 (u8s (blockHash block)) t r).

(** [for (i = 0; ! r && i < block->hashesCount; i++)]; [None] when the assertion on [txHash] fails. *)
Fixpoint contains_loop (fuel : nat) (block : BRMerkleBlock) (txHash i : Z) : option bool :=
  match fuel with
  | O => Some false
  | S fuel' =>
      h ← hash_at block i;
      if UInt256Eq h txHash then Some true else contains_loop fuel' block txHash (i + 1)
  end.

Definition BRMerkleBlockContainsTxHash (block : BRMerkleBlock) (txHash : Z) : option bool :=
  if UInt256IsZero txHash then None
  else contains_loop (Z.to_nat (hashesCount block)) block txHash 0.

(** ** Difficulty *)

Definition BRMerkleBlockHash (b : BRMerkleBlock) : Z := wd (u32s (blockHash b)) 0.
Definition BRMerkleBlockEq (b other : BRMerkleBlock) : bool :=
  bool_decide (b = other) || UInt256Eq (blockHash b) (blockHash other).

(** [&currentBlock->prevBlock] passed where a block is expected: only its first field is read. *)
Definition block_key (h : Z) : BRMerkleBlock := mkBlock h 0 0 0 0 0 0 0 0 None 0 None 0 0.

Notation BlockSet := (BRSet BRMerkleBlock).

(** [BRSetGet(blockSet, block)] is all that the rule asks of its block set: [None] is an undefined result,
    [Some None] NULL. *)
Class BlockStore (store : Type) := get_block : store -> BRMerkleBlock -> option (option BRMerkleBlock).

#[export] Instance block_set_store : BlockStore BlockSet := BRSetGet BRMerkleBlockHash BRMerkleBlockEq.

(** The loop over the past blocks: [blockCount], [sumTargets] and [nActualTimespan] at its end. *)
Fixpoint dgw_loop {store} `{BlockStore store} (fuel : nat) (blocks : store) (cur : option BRMerkleBlock)
    (blockCount sumTargets lastBlockTime span : Z) : option (Z * Z * Z) :=
  match cur with
  | None => Some (blockCount, sumTargets, span)
  | Some b =>
      if (0 <? height b) && (blockCount <=? DGW_PAST_BLOCKS) then
        match fuel with
        | O => None
        | S fuel' =>
            let sumTargets :=
              if blockCount <=? DGW_PAST_BLOCKS then
                let currentTarget := setCompact (s32 (target b)) in
                if blockCount =? 1 then add currentTarget currentTarget else add sumTargets currentTarget
              else sumTargets in
            let span := if 0 <? lastBlockTime then s32 (span + (lastBlockTime - timestamp b)) else span in
            next ← get_block blocks (block_key (prevBlock b));
            dgw_loop fuel' blocks next (blockCount + 1) sumTargets (timestamp b) span
        end
      else Some (blockCount, sumTargets, span)
  end.

(** The new target from the results of the loop; [/] is C division. *)
Definition dgw_target (blockCount sumTargets span : Z) : option Z :=
  let blockCount256 := of_u64s [u64 blockCount; 0; 0; 0] in
  darkTarget ← divide sumTargets blockCount256;
  let nTargetTimespan := s32 ((blockCount - 1) * DGW_TARGET_TIMESPAN) in
  let span := if span <? Z.quot nTargetTimespan 3 then Z.quot nTargetTimespan 3 else span in
  let span := if s32 (nTargetTimespan * 3) <? span then s32 (nTargetTimespan * 3) else span in
  darkTarget ← divide (multiplyThis32 darkTarget (u32 span)) (of_u64s [u64 nTargetTimespan; 0; 0; 0]);
  compact ← getCompact darkTarget;
  Some (s32 (if MAX_PROOF_OF_WORK <? compact then MAX_PROOF_OF_WORK else compact)).

Definition DarkGravityWaveTargetV3 {store} `{BlockStore store} (previous : BRMerkleBlock) (blockSet : store) : option Z :=
  previousBlock ← get_block blockSet previous;
  match previousBlock with
  | None => Some MAX_PROOF_OF_WORK
  | Some b =>
      if (height b =? 0) || (height b <? DGW_START_BLOCK) then Some MAX_PROOF_OF_WORK
      else
        '(blockCount, sumTargets, span) ← dgw_loop 180 blockSet (Some b) 1 UINT256_ZERO 0 0;
        dgw_target blockCount sumTargets span
  end.

(** [abs] of an [int], undefined on the least one. *)
Definition c_abs (x : Z) : option Z := if x =? - 0x80000000 then None else Some (Z.abs x).

(** [pastCount] is a static local: it is passed in and returned with the result. *)
Definition BRMerkleBlockVerifyDifficulty {store} `{BlockStore store} (block previous : BRMerkleBlock) (blocks : store)
    (pastCount : Z) : option (bool * Z) :=
  let r := negb (negb (UInt256Eq (prevBlock block) (blockHash previous)) ||
                 negb (height block =? u32 (height previous + 1))) in
  if DGW_START_BLOCK <=? height block then
    DGWTarget ← DarkGravityWaveTargetV3 previous blocks;
    let diff := s32 (target block - DGWTarget) in
    r ← (if pastCount <? DGW_PAST_BLOCKS
         then Some (if height block =? 338778 then target block =? 0x1b07cf3a else r)
         else d ← c_abs diff; Some (d <? 2));
    Some (r, s32 (pastCount + 1))
  else Some (r, pastCount).

(** The test block of [test.c]: block 10001 filtered to include only transactions 0, 1, 2 and 6. *)
Definition be_bytes (n : nat) (x : Z) : list Z := reverse (le_bytes n x).
Definition block_10001 : list Z :=
  be_bytes 56 0x0100000006e533fd1ada86391f3f6c343204b0d278d4aaec1c0b20aa27ba0300000000006abbb3eb3d733a9fe18967fd7d4c117e4ccbbac5 ++
  be_bytes 56 0xbec4d910d900b3ae0793e77f54241b4d4c86041b4089cc9b0c000000084c30b63cfcdc2d35e3329421b9805ef0c6565d35381ca857762ea0 ++
  be_bytes 56 0xb3a5a128bbca5065ff9617cbcba45eb23726df6498a9b9cafed4f54cbab9d227b0035ddefbbb15ac1d57d0182aaee61c74743a9c4f785895 ++
  be_bytes 56 0xe563909bafec45c9a2b0ff3181d77706be8b1dcc91112eada86d424e2d0a8907c3488b6e44fda5a74a25cbc7d6bb4fa04245f4ac8a1a571d ++
  be_bytes 56 0x5537eac24adca1454d65eda446055479af6c6d4dd3c9ab658448c10b6921b7a4ce3021eb22ed6bb6a7fde1e5bcc4b1db6615c6abc5ca0421 ++
  be_bytes 56 0x27bfaf9f44ebce29cb29c6df9d05b47f35b2edff4f0064b578ab741fa78276222651209fe1a2c4c0fa1c58510aec8b090dd1eb1f82f9d261 ++
  be_bytes 8 0xb8273b525b02ff1a.

Example block_10001_walk :
  (b ← BRMerkleBlockParse (fun _ => 0) 0x100000000 block_10001;
   match b with
   | None => None
   | Some b =>
       v ← BRMerkleBlockIsValid b 0;
       '(hs, n) ← BRMerkleBlockTxHashes b (Some 4);
       '(p, l) ← BRMerkleBlockSerialize b (Some (replicate (length block_10001) 0)) (len block_10001);
       Some (v, n, map UInt256Set hs, p, l)
   end) =
  Some (true, 4,
        [be_bytes 32 0x4c30b63cfcdc2d35e3329421b9805ef0c6565d35381ca857762ea0b3a5a128bb;
         be_bytes 32 0xca5065ff9617cbcba45eb23726df6498a9b9cafed4f54cbab9d227b0035ddefb;
         be_bytes 32 0xbb15ac1d57d0182aaee61c74743a9c4f785895e563909bafec45c9a2b0ff3181;
         be_bytes 32 0xc9ab658448c10b6921b7a4ce3021eb22ed6bb6a7fde1e5bcc4b1db6615c6abc5],
        Some block_10001, len block_10001).
Proof. vm_compute. reflexivity. Qed.

Example travel_order :
  (get_travel_order (HASH_FUNC_BASE_TIMESTAMP + 2), getAlgoString 100) =
  ([48; 49; 50; 51; 52; 53; 54; 56; 55; 57], [48; 49; 50; 51; 52; 57; 53; 56; 54; 55]).
Proof. vm_compute. reflexivity. Qed.

(** ** Lemmas: [_ceil_log2] *)

Lemma log2_loop_spec fuel x r : 0 <= x < 2 ^ Z.of_nat fuel -> log2_loop (S fuel) x r = Some (r + Z.log2 x).
Proof.
  revert x r. induction fuel as [|fuel IH]; intros x r Hx.
  - change (2 ^ Z.of_nat 0) with 1 in Hx. replace x with 0 by lia. cbn. f_equal. lia.
  - rewrite Nat2Z.inj_succ, Z.pow_succ_r in Hx by lia. remember (S fuel) as f. cbn [log2_loop].
    rewrite shiftr_div by lia. change (2 ^ 1) with 2.
    destruct (Z.eqb_spec (x / 2) 0) as [E|E].
    + assert (Hs : x = 0 \/ x = 1) by zdiv_lia. f_equal. destruct Hs as [-> | ->]; cbn; lia.
    + rewrite IH by zdiv_lia. assert (El : Z.log2 x = Z.succ (Z.log2 (x / 2))); [|f_equal; lia].
      assert (0 < x / 2) by zdiv_lia.
      assert (Hc : x = 2 * (x / 2) \/ x = Z.succ (2 * (x / 2))) by zdiv_lia.
      destruct Hc as [Hc|Hc]; rewrite Hc at 1; [now apply Z.log2_double|now apply Z.log2_succ_double].
Qed.

Lemma land_pred_zero x : 0 < x -> (Z.land x (x - 1) =? 0) = (x =? 2 ^ Z.log2 x).
Proof.
  intros Hx. destruct (Z.log2_spec x Hx) as [Hlo Hhi]. pose proof (Z.log2_nonneg x).
  destruct (Z.eqb_spec x (2 ^ Z.log2 x)) as [E|E].
  - apply Z.eqb_eq. rewrite E at 1 2. replace (2 ^ Z.log2 x - 1) with (Z.ones (Z.log2 x)) by (rewrite Z.ones_equiv; lia); rewrite Z.land_ones by lia.
    apply Z_mod_same_full.
  - apply Z.eqb_neq. intros H0. assert (B : Z.testbit (Z.land x (x - 1)) (Z.log2 x) = true).
    + rewrite Z.land_spec, Z.bit_log2 by lia.
      replace (Z.log2 x) with (Z.log2 (x - 1)); [apply Z.bit_log2; lia|].
      apply Z.log2_unique; lia.
    + rewrite H0, Z.bits_0 in B. discriminate.
Qed.

(** For a positive [int], [_ceil_log2] is the ceiling of the base 2 logarithm; for a negative one its
    loop does not end. *)
Lemma ceil_log2_spec x : 0 < x < 0x80000000 -> _ceil_log2 x = Some (Z.log2_up x).
Proof.
  intros Hx. unfold _ceil_log2. rewrite land_pred_zero, log2_loop_spec by lia. f_equal.
  destruct (Z.log2_spec x ltac:(lia)) as [Hlo Hhi].
  destruct (Z.eqb_spec x (2 ^ Z.log2 x)) as [E|E]; cbn [negb].
  - rewrite E at 2. rewrite Z.log2_up_pow2 by apply Z.log2_nonneg. lia.
  - symmetry. apply Z.log2_up_unique; [pose proof (Z.log2_nonneg x); lia|].
    replace (Z.pred (1 + Z.log2 x)) with (Z.log2 x) by lia.
    replace (1 + Z.log2 x) with (Z.succ (Z.log2 x)) by lia. lia.
Qed.

Lemma ceil_log2_negative x : x < 0 -> _ceil_log2 x = None.
Proof.
  intros Hx. unfold _ceil_log2. generalize (if negb (Z.land x (x - 1) =? 0) then 1 else 0).
  generalize 32%nat. intros fuel. revert x Hx. induction fuel as [|fuel IH]; intros x Hx r; [done|].
  cbn [log2_loop]. rewrite shiftr_div by lia. change (2 ^ 1) with 2.
  rewrite (proj2 (Z.eqb_neq _ _)) by zdiv_lia. apply IH. zdiv_lia.
Qed.

(** ** The merkle tree and its BIP 37 encoding *)

Definition half (h : nat) : nat := (2 ^ h)%nat.

(** Root of the tree of height [h] over 1 to [2^h] leaves: a missing right branch repeats the left one. *)
Fixpoint root (h : nat) (l : list Z) : Z :=
  match h with
  | O => hd 0 l
  | S h' =>
      let left := root h' (take (half h') l) in
      match drop (half h') l with
      | [] => hash_pair left left
      | r => hash_pair left (root h' r)
      end
  end.

(** No two sibling subtrees have the same root (the code's defence against CVE-2012-2459) and no
    subtree has the all-zero root the code uses to mark a missing branch. *)
Fixpoint tree_ok (h : nat) (l : list Z) : Prop :=
  match h with
  | O => True
  | S h' =>
      let l1 := take (half h') l in let l2 := drop (half h') l in
      tree_ok h' l1 /\ root h' l1 <> 0 /\ (l2 <> [] -> tree_ok h' l2 /\ root h' l2 <> 0 /\ root h' l1 <> root h' l2)
  end.

(** Partial_Merkle_branch_format of BIP 37: the flag bits and the hashes for leaves paired with
    whether they match, in depth-first order. *)
Fixpoint encode (h : nat) (l : list (Z * bool)) : list bool * list Z :=
  if existsb snd l then
    match h with
    | O => ([true], [root O (map fst l)])
    | S h' =>
        let '(f1, h1) := encode h' (take (half h') l) in
        match drop (half h') l with
        | [] => (true :: f1, h1)
        | r => let '(f2, h2) := encode h' r in (true :: f1 ++ f2, h1 ++ h2)
        end
    end
  else ([false], [root h (map fst l)]).

Definition matched (l : list (Z * bool)) : list Z := map fst (List.filter snd l).

(** Bits packed into bytes, least significant first, [n] bytes. *)
Fixpoint pack (n : nat) (bs : list bool) : list Z :=
  match n with
  | O => []
  | S n' => le_num 2 (map Z.b2z (take 8 bs)) :: pack n' (drop 8 bs)
  end.

Lemma half_pos h : (0 < half h)%nat.
Proof. apply Nat.neq_0_lt_0, Nat.pow_nonzero. lia. Qed.

Lemma half_S h : half (S h) = (half h + half h)%nat.
Proof. unfold half. cbn [Nat.pow]. lia. Qed.

Lemma is_u256_zero : is_u256 UINT256_ZERO.
Proof. split; [|reflexivity]. intros [=]. Qed.

Lemma hash_pair_range a b : is_u256 (hash_pair a b).
Proof. apply UInt256Get_range; apply BRSHA256_2_hash. Qed.

Lemma root_range h l : Forall is_u256 l -> is_u256 (root h l).
Proof.
  destruct h as [|h]; cbn [root].
  - destruct l as [|x l]; cbn [hd]; [done|]. now intros [? _]%Forall_cons.
  - intros _. destruct (drop _ _); apply hash_pair_range.
Qed.

Lemma encode_hashes h l : snd (encode h l) <> [].
Proof.
  revert l. induction h as [|h IH]; intros l; cbn [encode]; destruct (existsb snd l); try done.
  pose proof (IH (take (half h) l)) as H1. destruct (encode h (take (half h) l)) as [f1 h1].
  destruct (drop (half h) l); [exact H1|]. destruct (encode h _). cbn in *. now destruct h1.
Qed.

Lemma matched_app a b : matched (a ++ b) = matched a ++ matched b.
Proof. unfold matched. now rewrite List.filter_app, map_app. Qed.

Lemma matched_none l : existsb snd l = false -> matched l = [].
Proof.
  induction l as [|[x b] l IH]; [done|]. cbn. destruct b; [done|]. cbn. exact IH.
Qed.

(** *** Flag bits *)

Lemma testbit_bits bs i : Z.testbit (le_num 2 (map Z.b2z bs)) (Z.of_nat i) = default false (bs !! i).
Proof.
  revert i. induction bs as [|b bs IH]; intros i; [apply Z.bits_0|]. cbn [map le_num].
  rewrite Z.add_comm. destruct i as [|i].
  - apply Z.testbit_0_r.
  - rewrite Nat2Z.inj_succ, Z.testbit_succ_r by lia. apply IH.
Qed.

Lemma bits_byte bs : (length bs <= 8)%nat -> is_byte (le_num 2 (map Z.b2z bs)).
Proof.
  intros Hl. assert (H : Forall (is_digit 2) (map Z.b2z bs)).
  { apply Forall_map, Forall_true. intros [|]; cbn; lia. }
  pose proof (le_num_range 2 eq_refl _ H) as B. rewrite length_map in B.
  pose proof (Z.pow_le_mono_r 2 (len bs) 8 ltac:(lia) ltac:(lia)). unfold is_byte. lia.
Qed.

Lemma pack_length n bs : length (pack n bs) = n.
Proof. revert bs. induction n as [|n IH]; intros bs; cbn; auto. Qed.

Lemma pack_ok n bs : bytes_ok (pack n bs).
Proof.
  revert bs. induction n as [|n IH]; intros bs; cbn [pack]; constructor; [|apply IH].
  apply bits_byte. rewrite length_take. lia.
Qed.

Lemma pack_lookup n bs i b : bs !! i = Some b -> (length bs <= 8 * n)%nat ->
  exists x, pack n bs !! (i / 8)%nat = Some x /\ is_byte x /\ Z.testbit x (Z.of_nat (i mod 8)) = b.
Proof.
  revert bs i. induction n as [|n IH]; intros bs i Hi Hl.
  - apply lookup_lt_Some in Hi. lia.
  - cbn [pack]. destruct (decide (i < 8)%nat) as [H8|H8].
    + rewrite Nat.div_small, Nat.mod_small by done. eexists. split; [reflexivity|].
      split; [apply bits_byte; rewrite length_take; lia|].
      rewrite testbit_bits, lookup_take_lt by lia. now rewrite Hi.
    + destruct (IH (drop 8 bs) (i - 8)%nat) as (x & Hx & Hb & Ht).
      { rewrite lookup_drop. now replace (8 + (i - 8))%nat with i by lia. }
      { rewrite length_drop. lia. }
      exists x. replace i with ((i - 8) + 1 * 8)%nat by lia.
      rewrite Nat.div_add, Nat.Div0.mod_add, Nat.add_1_r by lia. done.
Qed.

(** *** The block holds an encoding *)

(** From [flagIdx] = [fi] and [hashIdx] = [hi] on, the block's arrays hold the bits [fs] and hashes [hs]. *)
Record serves (block : BRMerkleBlock) (fi hi : Z) (fs : list bool) (hs : list Z) : Prop := {
  sv_pos : 0 <= fi /\ 0 <= hi;
  sv_flags : forall i f, fs !! i = Some f -> flag_at block (fi + Z.of_nat i) = Some f /\ (fi + Z.of_nat i) / 8 < flagsLen block;
  sv_hashes : forall i h, hs !! i = Some h -> hash_at block (hi + Z.of_nat i) = Some h /\ hi + Z.of_nat i < hashesCount block;
  sv_bound : fi + len fs < 0x8000000000000000 /\ hi + len hs < 0x8000000000000000;
}.

Lemma serves_app b fi hi f1 f2 h1 h2 :
  serves b fi hi (f1 ++ f2) (h1 ++ h2) ->
  serves b fi hi f1 h1 /\ serves b (fi + len f1) (hi + len h1) f2 h2.
Proof.
  intros [Hp Hf Hh Hb]. rewrite !length_app in Hb. split; constructor; try lia.
  - intros i f Hi. apply Hf. now apply lookup_app_l_Some.
  - intros i h Hi. apply Hh. now apply lookup_app_l_Some.
  - intros i f Hi. specialize (Hf (length f1 + i)%nat f). rewrite lookup_app_r in Hf by lia.
    rewrite Nat2Z.inj_add, Z.add_assoc in Hf. apply Hf. now replace (length f1 + i - length f1)%nat with i by lia.
  - intros i h Hi. specialize (Hh (length h1 + i)%nat h). rewrite lookup_app_r in Hh by lia.
    rewrite Nat2Z.inj_add, Z.add_assoc in Hh. apply Hh. now replace (length h1 + i - length h1)%nat with i by lia.
Qed.

Lemma serves_flag b fi hi f fs hs : hs <> [] -> serves b fi hi (f :: fs) hs ->
  flag_at b fi = Some f /\ more b hi fi = true /\ u64 (fi + 1) = fi + 1 /\ serves b (fi + 1) hi fs hs.
Proof.
  intros Hne Hs. pose proof (serves_app b fi hi [f] fs [] hs Hs) as [_ Hs'].
  destruct Hs as [Hp Hf Hh Hb]. destruct (Hf 0%nat f eq_refl) as [Ef Lf].
  destruct hs as [|h hs]; [done|]. destruct (Hh 0%nat h eq_refl) as [_ Lh].
  change (Z.of_nat 0) with 0 in *. rewrite !Z.add_0_r in *. cbn [length] in Hb.
  split; [done|]. split; [|split; [|exact Hs']].
  - unfold more. apply andb_true_intro. rewrite !Z.ltb_lt. lia.
  - apply u64_id. lia.
Qed.

Lemma serves_hash b fi hi fs h hs : serves b fi hi fs (h :: hs) ->
  hash_at b hi = Some h /\ u64 (hi + 1) = hi + 1.
Proof.
  intros [Hp Hf Hh Hb]. destruct (Hh 0%nat h eq_refl) as [E _]. change (Z.of_nat 0) with 0 in E.
  rewrite Z.add_0_r in E. cbn [length] in Hb. split; [done|]. apply u64_id. lia.
Qed.

Section walks.
Context (b : BRMerkleBlock) (H : Z) (Hlog : _ceil_log2 (s32 (totalTx b)) = Some H).
Context (tx : bool) (count : Z) (Hcount : 0 <= count <= SIZE_MAX).

(** The hashes in the array after those of [l] have been reported. *)
Definition report (acc : list Z) (l : list (Z * bool)) : list Z := if tx then acc ++ matched l else acc.

(** What the two walks return on an encoding of the leaves [l] at height [h]. *)
Definition walks_ok (fuel : nat) (fi hi depth : Z) (h : nat) (l : list (Z * bool)) (e : list bool * list Z) : Prop :=
  _BRMerkleBlockRootR fuel b hi fi depth = Some (root h (map fst l), hi + len (snd e), fi + len (fst e)) /\
  forall acc n, 0 <= n -> n + len (matched l) <= count ->
  _BRMerkleBlockTxHashesR fuel b tx count depth (mkWalk acc n hi fi) =
  Some (mkWalk (report acc l) (n + len (matched l)) (hi + len (snd e)) (fi + len (fst e))).

(** A subtree with no match: a zero bit and its root. *)
Lemma walk_pruned fuel fi hi depth h l :
  existsb snd l = false -> serves b fi hi [false] [root h (map fst l)] ->
  walks_ok (S fuel) fi hi depth h l ([false], [root h (map fst l)]).
Proof.
  intros Hm Hs. apply serves_flag in Hs as (Ef & Em & Eu & Hs'); [|done].
  destruct (serves_hash _ _ _ _ _ _ Hs') as [Eh Eu'].
  split; [|intros acc n _ _]; cbn [_BRMerkleBlockRootR _BRMerkleBlockTxHashesR hashIdx flagIdx];
    rewrite Em, Ef; cbn [mbind option_bind at_leaf andb].
  - rewrite Eh. cbn. now rewrite Eu, Eu'.
  - cbn. unfold report. rewrite Eu, Eu', matched_none, app_nil_r by done. cbn. now destruct tx; rewrite Z.add_0_r.
Qed.

(** A matched leaf. *)
Lemma walk_leaf fuel fi hi x :
  serves b fi hi [true] [x] -> walks_ok (S fuel) fi hi H 0 [(x, true)] ([true], [x]).
Proof.
  intros Hs. apply serves_flag in Hs as (Ef & Em & Eu & Hs'); [|done].
  destruct (serves_hash _ _ _ _ _ _ Hs') as [Eh Eu'].
  split; [|intros acc n Hn Hacc]; cbn [_BRMerkleBlockRootR _BRMerkleBlockTxHashesR hashIdx flagIdx];
    rewrite Em, Ef; unfold at_leaf; cbn [mbind option_bind]; rewrite Hlog; cbn [mbind option_bind];
    rewrite Z.eqb_refl; cbn [found idx hashIdx flagIdx andb].
  - rewrite Eh. cbn. now rewrite Eu, Eu'.
  - change (len (matched [(x, true)])) with 1 in Hacc.
    rewrite (proj2 (Z.ltb_lt _ _)) by lia. rewrite Eh. unfold report. change (matched [(x, true)]) with [x].
    unfold SIZE_MAX in Hcount. destruct tx; cbn [mbind option_bind found idx hashIdx flagIdx];
      now rewrite Eu, Eu', u64_id by lia.
Qed.

(** Past the end of the arrays both walks do nothing. *)
Lemma walk_missing fuel fi hi depth :
  hi = hashesCount b ->
  _BRMerkleBlockRootR (S fuel) b hi fi depth = Some (UINT256_ZERO, hi, fi) /\
  forall acc n, _BRMerkleBlockTxHashesR (S fuel) b tx count depth (mkWalk acc n hi fi) = Some (mkWalk acc n hi fi).
Proof.
  intros ->. assert (Em : more b (hashesCount b) fi = false).
  { unfold more. rewrite Z.ltb_irrefl. apply andb_false_r. }
  split; intros; cbn [_BRMerkleBlockRootR _BRMerkleBlockTxHashesR hashIdx flagIdx]; now rewrite Em.
Qed.

(** An inner node from its two branches. *)
Lemma walk_node fuel fi hi depth h l1 l2 f h0 h1 fi1 hi1 fi2 hi2 :
  flag_at b fi = Some true -> more b hi fi = true -> u64 (fi + 1) = fi + 1 -> depth <> H ->
  _BRMerkleBlockRootR fuel b hi (fi + 1) (depth + 1) = Some (h0, hi1, fi1) ->
  _BRMerkleBlockRootR fuel b hi1 fi1 (depth + 1) = Some (h1, hi2, fi2) ->
  (forall acc n, 0 <= n -> n + len (matched l1) <= count ->
     _BRMerkleBlockTxHashesR fuel b tx count (depth + 1) (mkWalk acc n hi (fi + 1)) =
     Some (mkWalk (report acc l1) (n + len (matched l1)) hi1 fi1)) ->
  (forall acc n, 0 <= n -> n + len (matched l2) <= count ->
     _BRMerkleBlockTxHashesR fuel b tx count (depth + 1) (mkWalk acc n hi1 fi1) =
     Some (mkWalk (report acc l2) (n + len (matched l2)) hi2 fi2)) ->
  is_u256 h0 -> is_u256 h1 -> h0 <> 0 -> h0 <> h1 ->
  root (S h) (map fst (l1 ++ l2)) = hash_pair h0 (if h1 =? 0 then h0 else h1) ->
  hi2 = hi + len (snd f) -> fi2 = fi + len (fst f) ->
  walks_ok (S fuel) fi hi depth (S h) (l1 ++ l2) f.
Proof.
  intros Ef Em Eu Hd R1 R2 T1 T2 U0 U1 N0 N1 Hroot Hhi Hfi.
  split; [|intros acc n Hn Hacc]; cbn [_BRMerkleBlockRootR _BRMerkleBlockTxHashesR hashIdx flagIdx];
    rewrite Em, Ef; unfold at_leaf; cbn [mbind option_bind]; rewrite Hlog; cbn [mbind option_bind];
    rewrite (proj2 (Z.eqb_neq _ _) Hd), Eu; cbn [found idx hashIdx flagIdx].
  - rewrite R1. cbn [mbind option_bind]. rewrite R2. cbn [mbind option_bind].
    rewrite !UInt256IsZero_spec, UInt256Eq_spec by done.
    rewrite (proj2 (Z.eqb_neq _ _) N0), (proj2 (Z.eqb_neq _ _) N1). cbn [negb andb].
    now rewrite Hroot, Hhi, Hfi.
  - rewrite matched_app, length_app in *. rewrite T1 by lia. cbn [mbind option_bind].
    rewrite T2 by lia. unfold report. rewrite Hhi, Hfi, Nat2Z.inj_add, Z.add_assoc, matched_app, app_assoc.
    now destruct tx.
Qed.

Lemma tree_ok_S h (l : list Z) : tree_ok (S h) l ->
  let l1 := take (half h) l in let l2 := drop (half h) l in
  tree_ok h l1 /\ root h l1 <> 0 /\
  (l2 = [] /\ root (S h) l = hash_pair (root h l1) (root h l1) \/
   l2 <> [] /\ tree_ok h l2 /\ root h l2 <> 0 /\ root h l1 <> root h l2 /\
   root (S h) l = hash_pair (root h l1) (root h l2)).
Proof.
  cbn [tree_ok root]. intros (T1 & N1 & T2). split; [done|]. split; [done|].
  destruct (drop (half h) l) eqn:E; [now left|right]. destruct (T2 ltac:(done)) as (? & ? & ?). done.
Qed.

Lemma walk_encode h : forall l depth fuel fi hi,
  (h + 2 <= fuel)%nat -> l <> [] -> (length l <= half h)%nat -> Forall is_u256 (map fst l) ->
  tree_ok h (map fst l) -> depth + Z.of_nat h = H -> serves b fi hi (fst (encode h l)) (snd (encode h l)) ->
  length l = half h \/ hi + len (snd (encode h l)) = hashesCount b ->
  walks_ok fuel fi hi depth h l (encode h l).
Proof.
  induction h as [|h IH]; intros l depth fuel fi hi Hfuel Hne Hlen Hu Hok Hdepth Hs Hfull;
    (destruct fuel as [|fuel]; [lia|]); cbn [encode] in *;
    (destruct (existsb snd l) eqn:Em; [|now apply walk_pruned]).
  - destruct l as [|[x m] [|? ?]]; [done| |cbn in Hlen; lia]. cbn in Em. rewrite orb_false_r in Em. subst m.
    replace depth with H by lia. now apply walk_leaf.
  - destruct (tree_ok_S _ _ Hok) as (T1 & N1 & Hcase). rewrite firstn_map, skipn_map in *.
    rewrite <- (take_drop (half h) l) in Hu. rewrite map_app in Hu. apply Forall_app in Hu as [U1 U2].
    rewrite half_S in Hlen, Hfull. pose proof (half_pos h) as Hh. pose proof (encode_hashes h (take (half h) l)) as Hne1.
    assert (Hl1 : length (take (half h) l) = Nat.min (half h) (length l)) by apply length_take.
    assert (Hl2 : length (drop (half h) l) = (length l - half h)%nat) by apply length_drop.
    assert (Hne1' : take (half h) l <> []) by (intros E; rewrite E in Hl1; destruct l; cbn in *; lia).
    specialize (IH (take (half h) l) (depth + 1) fuel) as IH1.
    destruct (encode h (take (half h) l)) as [f1 h1] eqn:E1. cbn [fst snd] in *.
    destruct (drop (half h) l) as [|p l2] eqn:E2.
    + cbn [fst snd] in Hs, Hfull. pose proof (serves_flag _ _ _ _ _ _ Hne1 Hs) as (Ef & Emore & Eu & Hs1).
      cbn [length] in Hl2. destruct (IH1 (fi + 1) hi) as [R1 W1]; [lia|done|lia|done|done|lia|done|lia|].
      destruct Hcase as [[_ Hroot]|[Hc _]]; [|done]. cbn [fst snd] in *.
      destruct fuel as [|fuel]; [lia|].
      destruct (walk_missing fuel (fi + 1 + len f1) (hi + len h1) (depth + 1)) as [R2 W2]; [lia|].
      rewrite <- (take_drop (half h) l), E2.
      eapply (walk_node _ _ _ _ h (take (half h) l) [] (true :: f1, h1));
        [done|done|done|lia|exact R1|exact R2|exact W1| | | |exact N1|exact N1| |cbn [fst snd length]; lia|cbn [fst snd length]; lia].
      * intros acc n _ _. rewrite W2. unfold report. cbn. rewrite app_nil_r, Z.add_0_r. now destruct tx.
      * now apply root_range.
      * exact is_u256_zero.
      * rewrite <- E2, take_drop. exact Hroot.
    + assert (Hfull2 : length (p :: l2) = half h \/ length l <> (half h + half h)%nat) by lia.
      pose proof (encode_hashes h (p :: l2)) as Hne2.
      specialize (IH (p :: l2) (depth + 1) fuel) as IH2.
      destruct (encode h (p :: l2)) as [f2 h2] eqn:E3. cbn [fst snd] in *.
      apply serves_flag in Hs as (Ef & Emore & Eu & Hs12); [|now destruct h1].
      apply serves_app in Hs12 as [Hs1 Hs2].
      destruct (IH1 (fi + 1) hi) as [R1 W1]; [lia|done|lia|done|done|lia|done|cbn [length] in Hl2; lia|].
      destruct Hcase as [[Hc _]|(_ & T2 & N2 & N12 & Hroot)]; [done|].
      destruct (IH2 (fi + 1 + len f1) (hi + len h1)) as [R2 W2];
        [lia|done|lia|done|done|lia|done|rewrite length_app in Hfull; lia|].
      rewrite <- (take_drop (half h) l), E2.
      eapply (walk_node _ _ _ _ h (take (half h) l) (p :: l2) (true :: f1 ++ f2, h1 ++ h2));
        [done|done|done|lia|exact R1|exact R2|exact W1|exact W2| | |exact N1|exact N12| | |].
      * now apply root_range.
      * now apply root_range.
      * rewrite (proj2 (Z.eqb_neq _ _) N2), <- E2, take_drop, E2. exact Hroot.
      * cbn [fst snd]. rewrite length_app. lia.
      * cbn [fst snd length]. rewrite length_app. lia.
Qed.
End walks.

Lemma encode_length h l : (length l <= half h)%nat ->
  (length (fst (encode h l)) < 2 * half h)%nat /\ (length (snd (encode h l)) <= half h)%nat.
Proof.
  revert l. induction h as [|h IH]; intros l Hl; cbn [encode].
  { destruct (existsb snd l); cbn; lia. }
  pose proof (half_pos h). rewrite !half_S in *. destruct (existsb snd l); [|cbn; lia].
  pose proof (IH (take (half h) l)) as I1. rewrite length_take in I1.
  pose proof (IH (drop (half h) l)) as I2. rewrite length_drop in I2.
  destruct (encode h (take (half h) l)) as [f1 h1]. cbn [fst snd] in *.
  destruct (drop (half h) l) as [|p l2]; [cbn; lia|]. destruct (encode h (p :: l2)) as [f2 h2].
  cbn [fst snd length] in *. rewrite !length_app. lia.
Qed.

(** A block whose tree fields carry the encoding of its transactions [l], the wanted ones marked. *)
Definition filtered_block (b : BRMerkleBlock) (l : list (Z * bool)) : BRMerkleBlock :=
  let '(fs, hs) := encode (Z.to_nat (Z.log2_up (len l))) l in
  let n := ((length fs + 7) / 8)%nat in
  mkBlock (blockHash b) (powHash b) (version b) (prevBlock b) (merkleRoot b) (timestamp b) (target b) (nonce b)
    (len l) (Some hs) (len hs) (Some (pack n fs)) (Z.of_nat n) (height b).

Lemma c_true_testbit x i : is_byte x -> 0 <= i < 8 -> c_true (u8 (Z.land x (Z.shiftl 1 i))) = Z.testbit x i.
Proof.
  intros Hx Hi. assert (E : u8 (Z.land x (Z.shiftl 1 i)) = Z.land x (Z.shiftl 1 i)).
  { unfold u8. change 0x100 with (2 ^ 8). rewrite <- Z.land_ones, <- Z.land_assoc by lia.
    rewrite (Z.land_comm (Z.shiftl 1 i)), Z.land_assoc, Z.land_ones, Z.mod_small by lia || exact Hx. done. }
  unfold c_true. rewrite E, land_bit_zero by lia. apply negb_involutive.
Qed.

Lemma filtered_serves b l : l <> [] -> len l < 0x80000000 ->
  let e := encode (Z.to_nat (Z.log2_up (len l))) l in
  serves (filtered_block b l) 0 0 (fst e) (snd e) /\ hashesCount (filtered_block b l) = len (snd e).
Proof.
  intros Hne Hlen e. unfold filtered_block. fold e.
  assert (Hb : len l <= 2 ^ Z.log2_up (len l) <= 2 ^ 31).
  { split; [apply Z.log2_log2_up_spec; destruct l; [done|cbn; lia]|]. apply Z.pow_le_mono_r; [lia|].
    change 31 with (Z.log2_up 0x80000000). apply Z.log2_up_le_mono. lia. }
  pose proof (Z.log2_up_nonneg (len l)) as Hp.
  assert (Eh : Z.of_nat (half (Z.to_nat (Z.log2_up (len l)))) = 2 ^ Z.log2_up (len l)).
  { unfold half. rewrite Nat2Z.inj_pow, Z2Nat.id by lia. reflexivity. }
  destruct (encode_length (Z.to_nat (Z.log2_up (len l))) l) as [Lf Lh]; [lia|]. fold e in Lf, Lh.
  destruct e as [fs hs]. cbn [fst snd hashesCount] in *. split; [|done].
  change (2 ^ 31) with 0x80000000 in Hb.
  constructor; cbn [flagsLen hashesCount]; try lia; rewrite ?Z.add_0_l.
  - intros i f Hi. rewrite Z.add_0_l. unfold flag_at. cbn [flags mbind option_bind].
    assert (H8 : (length fs <= 8 * ((length fs + 7) / 8))%nat).
    { pose proof (Nat.div_mod_eq (length fs + 7) 8). pose proof (Nat.mod_upper_bound (length fs + 7) 8). lia. }
    destruct (pack_lookup _ _ _ _ Hi H8) as (x & Hx & Hbx & Ht).
    replace (Z.to_nat (Z.of_nat i / 8)) with (i / 8)%nat by (rewrite <- (Nat2Z.id (i / 8)), Nat2Z.inj_div; done).
    rewrite Hx. cbn [mbind option_bind]. change 8 with (Z.of_nat 8). rewrite <- Nat2Z.inj_mod, c_true_testbit, Ht.
    + split; [done|]. rewrite <- Nat2Z.inj_div. apply inj_lt.
      apply lookup_lt_Some in Hx. now rewrite pack_length in Hx.
    + done.
    + pose proof (Nat.mod_upper_bound i 8). lia.
  - intros i h Hi. rewrite Z.add_0_l. unfold hash_at. cbn. rewrite Nat2Z.id. apply lookup_lt_Some in Hi as Hlt.
    split; [done|]. lia.
Qed.

(** ** Validation *)

Lemma pow_loop_id n bh t r : pow_loop n bh t r = r.
Proof. induction n as [|n IH]; cbn; [done|]. destruct r; [|done]. rewrite IH. now destruct (_ <? _). Qed.

Lemma mem_write_is_Some m off bs : 0 <= off -> off + len bs <= len m -> is_Some (mem_write m off bs).
Proof.
  intros. unfold mem_write. rewrite (proj2 (Z.leb_le _ _)), (proj2 (Z.leb_le _ _)) by lia. now eexists.
Qed.

(** Timestamp, current time and block hash play no role: only the merkle root is checked. *)
Lemma is_valid_root b now r hi fi :
  _BRMerkleBlockRootR tree_fuel b 0 0 0 = Some (r, hi, fi) -> is_u256 r -> is_u256 (merkleRoot b) ->
  0 <= target b < 0x20000000 ->
  BRMerkleBlockIsValid b now = Some ((totalTx b <=? 0) || (r =? merkleRoot b)).
Proof.
  intros HR Hr Hm Ht. unfold BRMerkleBlockIsValid. rewrite HR. cbn [mbind option_bind].
  rewrite shiftr_div by lia. change (2 ^ 24) with 0x1000000.
  assert (Hw : forall t, is_Some (if 3 <? target b / 0x1000000
             then mem_write (UInt256Set UINT256_ZERO) (target b / 0x1000000 - 3) (UInt32SetLE t)
             else mem_write (UInt256Set UINT256_ZERO) 0 (UInt32SetLE (Z.shiftr t ((3 - target b / 0x1000000) * 8))))).
  { intros t. destruct (Z.ltb_spec 3 (target b / 0x1000000)); apply mem_write_is_Some;
      change (len (UInt256Set UINT256_ZERO)) with 32;
      repeat match goal with |- context [len (UInt32SetLE ?x)] => change (len (UInt32SetLE x)) with 4 end; zdiv_lia. }
  destruct (Hw (Z.land (target b) 0x00ffffff)) as [t ->]. cbn [mbind option_bind].
  rewrite pow_loop_id, UInt256Eq_spec by done. f_equal.
  rewrite negb_andb, negb_involutive. f_equal. now rewrite Z.ltb_antisym, negb_involutive.
Qed.

(** C22. Partial merkle trees: for any non-empty list of fewer than 2^31 transaction hashes, some of them marked, whose
    merkle tree has no zero node and no node with two equal children that are both present ([tree_ok]; a node without a right
    child is hashed with itself), and a header whose target is below 0x20000000,
    the block that carries their BIP 37 encoding makes [BRMerkleBlockTxHashes] report exactly the
    marked hashes in order (and just their number for a NULL array), and [BRMerkleBlockIsValid] accept
    it exactly when the header's merkle root is the root of the full tree. *)
Theorem partial_tree_spec b l now :
  l <> [] -> len l < 0x80000000 -> Forall is_u256 (map fst l) ->
  tree_ok (Z.to_nat (Z.log2_up (len l))) (map fst l) ->
  is_u256 (merkleRoot b) -> 0 <= target b < 0x20000000 ->
  let fb := filtered_block b l in
  BRMerkleBlockTxHashes fb None = Some ([], len (matched l)) /\
  BRMerkleBlockTxHashes fb (Some (len (matched l))) = Some (matched l, len (matched l)) /\
  BRMerkleBlockIsValid fb now = Some (root (Z.to_nat (Z.log2_up (len l))) (map fst l) =? merkleRoot b).
Proof.
  intros Hne Hlen Hu Hok Hm Ht fb. destruct (filtered_serves b l Hne Hlen) as [Hs Hc].
  assert (Hpos : 0 < len l) by (destruct l; [done|cbn; lia]).
  assert (Htx : totalTx fb = len l) by (unfold fb, filtered_block; now destruct (encode _ l)).
  assert (Hlog : _ceil_log2 (s32 (totalTx fb)) = Some (Z.log2_up (len l))).
  { rewrite Htx, s32_id by lia. apply ceil_log2_spec. lia. }
  pose proof (Z.log2_up_nonneg (len l)).
  assert (Hfuel : (Z.to_nat (Z.log2_up (len l)) + 2 <= tree_fuel)%nat).
  { pose proof (Z.log2_up_le_mono (len l) 0x80000000 ltac:(lia)) as Hle.
    change (Z.log2_up 0x80000000) with 31 in Hle. unfold tree_fuel. lia. }
  assert (Hhalf : (length l <= half (Z.to_nat (Z.log2_up (len l))))%nat).
  { apply Nat2Z.inj_le. unfold half. rewrite Nat2Z.inj_pow, Z2Nat.id by lia.
    apply Z.log2_log2_up_spec. lia. }
  assert (Hmatch : len (matched l) <= len l).
  { unfold matched. rewrite length_map. pose proof (List.filter_length_le snd l). lia. }
  assert (W : forall tx count, 0 <= count <= SIZE_MAX ->
    walks_ok fb tx count tree_fuel 0 0 0 (Z.to_nat (Z.log2_up (len l))) l (encode (Z.to_nat (Z.log2_up (len l))) l)).
  { intros tx count Hcount. eapply walk_encode; [exact Hlog|exact Hcount|exact Hfuel|done|done|done|done|lia|exact Hs|].
    right. fold fb in Hc. rewrite Hc. lia. }
  unfold BRMerkleBlockTxHashes, SIZE_MAX in *. split; [|split].
  - destruct (W false SIZE_MAX) as [_ W1]; [unfold SIZE_MAX; lia|].
    rewrite bool_decide_eq_false_2 by (intros [? ?]; done). cbn [default].
    rewrite W1 by (unfold SIZE_MAX; lia). done.
  - destruct (W true (len (matched l))) as [_ W1]; [lia|]. rewrite bool_decide_eq_true_2 by eauto.
    cbn [default id]. rewrite W1 by lia. done.
  - destruct (W true 0) as [W1 _]; [lia|].
    erewrite is_valid_root; [|exact W1|now apply root_range| |]; cycle 1.
    + unfold fb, filtered_block. now destruct (encode _ l).
    + unfold fb, filtered_block. now destruct (encode _ l).
    + rewrite Htx. rewrite (proj2 (Z.leb_gt _ _)) by lia. unfold fb, filtered_block. now destruct (encode _ l).
Qed.

(** Seven transactions, the third and the last marked. *)
Definition ex_leaves : list (Z * bool) :=
  [(11, false); (12, false); (13, true); (14, false); (15, false); (16, false); (17, true)].

Lemma partial_tree_spec_witness :
  BRMerkleBlockTxHashes (filtered_block BRMerkleBlockNew ex_leaves) (Some 2) = Some ([13; 17], 2).
Proof.
  refine (proj1 (proj2 (partial_tree_spec BRMerkleBlockNew ex_leaves 0 _ _ _ _ _ _))).
  - discriminate.
  - reflexivity.
  - repeat constructor; discriminate.
  - vm_compute. repeat (split || intro); first [discriminate | now destruct H | now destruct H0 | congruence].
  - split; [discriminate|reflexivity].
  - split; [discriminate|reflexivity].
Defined.

(** ** Soundness of the reported transactions *)

(** [x] is a leaf at depth [d] of a binary hash tree with root [r]. *)
Inductive in_tree : nat -> Z -> Z -> Prop :=
  | in_leaf x : in_tree 0 x x
  | in_left d a b x : in_tree d a x -> in_tree (S d) (hash_pair a b) x
  | in_right d a b x : in_tree d b x -> in_tree (S d) (hash_pair a b) x.

(** The hash of some pair is all zeros. *)
Definition zero_preimage : Prop := exists a b, hash_pair a b = 0.

Lemma in_tree_zero d x : in_tree d 0 x -> x = 0 \/ zero_preimage.
Proof.
  intros Ht. remember 0 as r eqn:Er. destruct Ht as [x|d a b x _|d a b x _];
    [now left|right; now exists a, b|right; now exists a, b].
Qed.

Lemma some_triple {A B C} (a a' : A) (b b' : B) (c c' : C) :
  Some (a, b, c) = Some (a', b', c') -> a = a' /\ b = b' /\ c = c'.
Proof. now intros [= -> -> ->]. Qed.

Section sound.
Context (b : BRMerkleBlock) (hs : list Z) (H : Z) (tx : bool) (count : Z).
Context (Hhs : hashes b = Some hs) (Hu : Forall is_u256 hs) (Hc : hashesCount b < SIZE_MAX).
Context (Hlog : _ceil_log2 (s32 (totalTx b)) = Some H).

Lemma root_stuck fuel fi depth md hi' fi' :
  _BRMerkleBlockRootR fuel b SIZE_MAX fi depth = Some (md, hi', fi') -> hi' = SIZE_MAX.
Proof.
  destruct fuel; cbn [_BRMerkleBlockRootR]; [done|]. unfold more.
  rewrite (proj2 (Z.ltb_ge SIZE_MAX _)) by lia. rewrite andb_false_r. now intros [= <- <- <-].
Qed.

Lemma hash_at_range i h : hash_at b i = Some h -> is_u256 h.
Proof.
  unfold hash_at. rewrite Hhs. cbn. intros Hl. rewrite Forall_lookup in Hu. eauto.
Qed.

(** Without the abort of the duplicate check, both walks consume the same flags and hashes, and every
    hash reported below a node is a leaf of a tree with that node's digest as root. *)
Definition reported_below (depth : Z) (md : Z) (acc acc' : list Z) : Prop :=
  forall x, x ∈ acc' -> x ∈ acc \/ in_tree (Z.to_nat (H - depth)) md x \/ x = 0 \/ zero_preimage.

Lemma reported_node depth h0 h1 acc acc1 acc2 : depth < H ->
  reported_below (depth + 1) h0 acc acc1 -> reported_below (depth + 1) h1 acc1 acc2 ->
  reported_below depth (hash_pair h0 (if h1 =? 0 then h0 else h1)) acc acc2.
Proof.
  intros Hd R1 R2 x Hx. replace (Z.to_nat (H - depth)) with (S (Z.to_nat (H - (depth + 1)))) by lia.
  destruct (R2 x Hx) as [Hx1|[Ht|Hz]]; [|destruct (Z.eqb_spec h1 0) as [E|E]|now right; right].
  - destruct (R1 x Hx1) as [?|[Ht|?]]; [now left| |now right; right].
    right; left. now constructor.
  - subst h1. right; right. eapply in_tree_zero, Ht.
  - right; left. now apply in_right.
Qed.

Lemma walk_sound fuel : forall depth hi fi md hi' fi' acc n w,
  depth <= H ->
  _BRMerkleBlockRootR fuel b hi fi depth = Some (md, hi', fi') -> hi' <> SIZE_MAX ->
  _BRMerkleBlockTxHashesR fuel b tx count depth (mkWalk acc n hi fi) = Some w ->
  is_u256 md /\ hashIdx w = hi' /\ flagIdx w = fi' /\ reported_below depth md acc (found w).
Proof.
  induction fuel as [|fuel IH]; intros depth hi fi md hi' fi' acc n w Hd; [done|].
  cbn [_BRMerkleBlockRootR _BRMerkleBlockTxHashesR hashIdx flagIdx found idx].
  destruct (more b hi fi); cycle 1.
  { intros [= <- <- <-] _ [= <-]. split; [exact is_u256_zero|]. repeat split. intros x; now left. }
  destruct (flag_at b fi) as [flag|]; [|done]. cbn [mbind option_bind].
  destruct (at_leaf b flag depth) as [leaf|] eqn:Eleaf; [|done]. cbn [mbind option_bind]. destruct leaf.
  - destruct (hash_at b hi) as [h|] eqn:Eh; [|done]. cbn [mbind option_bind].
    intros [= <- <- <-] _ Hw. split; [eapply hash_at_range; eauto|].
    destruct (flag && (n <? count)) eqn:Ef; cbn [mbind option_bind found idx hashIdx flagIdx] in Hw.
    + apply andb_prop in Ef as [-> _]. unfold at_leaf in Eleaf. rewrite Hlog in Eleaf.
      injection Eleaf as Eleaf. apply Z.eqb_eq in Eleaf. subst depth.
      destruct tx; cbn in Hw; injection Hw as <-; cbn; (split; [done|]; split; [done|]); intros x Hx; [|now left].
      apply elem_of_app in Hx as [?|Hx%list_elem_of_singleton]; [now left|]. subst x.
      right; left. rewrite Z.sub_diag. constructor.
    + injection Hw as <-. cbn. repeat split. intros x; now left.
  - assert (Hd' : depth + 1 <= H).
    { unfold at_leaf in Eleaf. destruct flag; [|done]. rewrite Hlog in Eleaf.
      injection Eleaf as Eleaf. apply Z.eqb_neq in Eleaf. lia. }
    destruct (_BRMerkleBlockRootR fuel b hi _ _) as [[[h0 hi1] fi1]|] eqn:R1; [|done]. cbn [mbind option_bind].
    destruct (_BRMerkleBlockRootR fuel b hi1 _ _) as [[[h1 hi2] fi2]|] eqn:R2; [|done]. cbn [mbind option_bind].
    destruct (negb (UInt256IsZero h0) && negb (UInt256Eq h0 h1));
      intros (<- & <- & <-)%some_triple Hne Hw; [|done].
    destruct (_BRMerkleBlockTxHashesR fuel b tx count (depth + 1) _) as [w1|] eqn:T1; [|done].
    cbn [mbind option_bind] in Hw.
    assert (Hne1 : hi1 <> SIZE_MAX) by (intros ->; apply root_stuck in R2; done).
    destruct (IH _ _ _ _ _ _ _ _ _ Hd' R1 Hne1 T1) as (U0 & Eh1 & Ef1 & B1).
    destruct w1 as [acc1 n1 ? ?]. cbn in Eh1, Ef1, B1. subst.
    destruct (IH _ _ _ _ _ _ _ _ _ Hd' R2 Hne Hw) as (U1 & Eh2 & Ef2 & B2).
    rewrite !UInt256IsZero_spec by done. split; [apply hash_pair_range|]. repeat split; [done|done|].
    eapply reported_node; [lia|exact B1|exact B2].
Qed.
End sound.

Lemma tx_hashes_walk b cap l n : BRMerkleBlockTxHashes b cap = Some (l, n) ->
  exists w, _BRMerkleBlockTxHashesR tree_fuel b (bool_decide (is_Some cap)) (default SIZE_MAX cap) 0 (mkWalk [] 0 0 0) =
            Some w /\ l = found w.
Proof.
  unfold BRMerkleBlockTxHashes. intros HT.
  destruct (_BRMerkleBlockTxHashesR tree_fuel b _ _ 0 _) as [w|]; [|done]. injection HT as <- <-. eauto.
Qed.

Lemma valid_root b now r : 0 < totalTx b ->
  BRMerkleBlockIsValid b now = Some ((totalTx b <=? 0) || (r =? merkleRoot b)) ->
  BRMerkleBlockIsValid b now = Some true -> r = merkleRoot b.
Proof.
  intros Hpos Hv0 Hv. rewrite Hv0, (proj2 (Z.leb_gt _ _)) in Hv by lia. injection Hv as E. now apply Z.eqb_eq in E.
Qed.

(** Inclusion proofs: when [BRMerkleBlockIsValid] accepts a block with transactions and the walk of
    the merkle root was not cut short by the duplicate check ([hashIdx] is not [SIZE_MAX]), every hash
    that [BRMerkleBlockTxHashes] reports is a leaf at depth [_ceil_log2(totalTx)] of a hash tree whose
    root is the one in the header (or the zero hash, or the peer found a pair that hashes to zero). *)
Theorem merkle_sound b hs H now cap r hi fi found n x :
  hashes b = Some hs -> Forall is_u256 hs -> hashesCount b < SIZE_MAX -> is_u256 (merkleRoot b) ->
  0 < totalTx b -> _ceil_log2 (s32 (totalTx b)) = Some H -> 0 <= H -> 0 <= target b < 0x20000000 ->
  BRMerkleBlockIsValid b now = Some true ->
  _BRMerkleBlockRootR tree_fuel b 0 0 0 = Some (r, hi, fi) -> hi <> SIZE_MAX ->
  BRMerkleBlockTxHashes b cap = Some (found, n) -> x ∈ found ->
  in_tree (Z.to_nat H) (merkleRoot b) x \/ x = 0 \/ zero_preimage.
Proof.
  intros Hhs Hu Hc Hm Hpos Hlog HH Ht Hv HR Hhi HT Hx. apply tx_hashes_walk in HT as (w & T & ->).
  destruct (walk_sound b hs H _ _ Hhs Hu Hc Hlog _ _ _ _ _ _ _ _ _ _ HH HR Hhi T) as (Ur & _ & _ & Hb).
  rewrite <- (valid_root b now r Hpos (is_valid_root b now r hi fi HR Ur Hm Ht) Hv).
  destruct (Hb x Hx) as [Hn|Hr]; [now apply not_elem_of_nil in Hn|]. rewrite Z.sub_0_r in Hr. exact Hr.
Qed.

Definition ex_block : BRMerkleBlock :=
  let l := [(11, false); (17, true)] in
  let b := filtered_block BRMerkleBlockNew l in
  mkBlock 0 0 0 0 (root 1 (map fst l)) 0 0 0 2 (hashes b) (hashesCount b) (flags b) (flagsLen b) 0.

Lemma merkle_sound_witness : in_tree 1 (merkleRoot ex_block) 17 \/ 17 = 0 \/ zero_preimage.
Proof.
  refine (merkle_sound ex_block [11; 17] 1 0 (Some 1) (merkleRoot ex_block) 2 3 [17] 1 17
            _ _ _ _ _ _ _ _ _ _ _ _ _).
  - vm_compute. reflexivity.
  - repeat constructor; vm_compute; discriminate.
  - reflexivity.
  - vm_compute. split; [discriminate|reflexivity].
  - reflexivity.
  - vm_compute. reflexivity.
  - discriminate.
  - vm_compute. split; [discriminate|reflexivity].
  - vm_compute. reflexivity.
  - vm_compute. reflexivity.
  - discriminate.
  - vm_compute. reflexivity.
  - left.
Defined.

(** One inner node of the walk of the root. *)
Lemma root_node fuel b hi fi depth h0 hi1 fi1 h1 hi2 fi2 :
  more b hi fi = true -> flag_at b fi = Some true -> at_leaf b true depth = Some false ->
  _BRMerkleBlockRootR fuel b hi (u64 (fi + 1)) (depth + 1) = Some (h0, hi1, fi1) ->
  _BRMerkleBlockRootR fuel b hi1 fi1 (depth + 1) = Some (h1, hi2, fi2) ->
  _BRMerkleBlockRootR (S fuel) b hi fi depth =
  if negb (UInt256IsZero h0) && negb (UInt256Eq h0 h1)
  then Some (hash_pair h0 (if UInt256IsZero h1 then h0 else h1), hi2, fi2)
  else Some (UINT256_ZERO, SIZE_MAX, fi2).
Proof.
  intros Em Ef El R1 R2. cbn [_BRMerkleBlockRootR]. rewrite Em, Ef. cbn [mbind option_bind]. rewrite El.
  cbn [mbind option_bind]. rewrite R1. cbn [mbind option_bind]. now rewrite R2.
Qed.

Lemma node_digest h0 h1 (hi fi : Z) :
  is_u256 h0 -> is_u256 h1 -> h0 <> 0 -> h0 <> h1 ->
  (if negb (UInt256IsZero h0) && negb (UInt256Eq h0 h1)
   then Some (hash_pair h0 (if UInt256IsZero h1 then h0 else h1), hi, fi)
   else Some (UINT256_ZERO, SIZE_MAX, fi)) =
  Some (hash_pair h0 (if h1 =? 0 then h0 else h1), hi, fi).
Proof.
  intros U0 U1 N0 N1. rewrite !UInt256IsZero_spec, UInt256Eq_spec by done.
  now rewrite (proj2 (Z.eqb_neq _ _) N0), (proj2 (Z.eqb_neq _ _) N1).
Qed.

(** A peer's answer for a block with merkle root [hash_pair m1 (hash_pair c c)], which every block of
    three transactions has: the right branch under the duplicated node carries two equal leaves [x], so
    the duplicate check aborts there and leaves a zero digest, read as a missing branch. *)
Definition forged_block (b : BRMerkleBlock) (m1 c x : Z) : BRMerkleBlock :=
  mkBlock (blockHash b) (powHash b) (version b) (prevBlock b) (hash_pair m1 (hash_pair c c)) (timestamp b) (target b)
    (nonce b) 5 (Some [m1; c; x; x]) 4 (Some [0x75]) 1 (height b).

#[local] Opaque hash_pair.

Lemma forged_root b m1 c x :
  is_u256 m1 -> is_u256 c -> is_u256 x -> m1 <> 0 -> c <> 0 -> m1 <> hash_pair c c -> hash_pair c c <> 0 ->
  _BRMerkleBlockRootR tree_fuel (forged_block b m1 c x) 0 0 0 = Some (hash_pair m1 (hash_pair c c), SIZE_MAX, 7).
Proof.
  intros U1 Uc Ux N1 Nc Nm Nz.
  assert (Nx : UInt256Eq x x = true) by (rewrite UInt256Eq_spec by assumption; apply Z.eqb_refl).
  unfold tree_fuel. set (fb := forged_block b m1 c x).
  assert (Rl : forall fuel, _BRMerkleBlockRootR (S fuel) fb 2 5 3 = Some (x, 3, 6)) by reflexivity.
  assert (Rr : forall fuel, _BRMerkleBlockRootR (S fuel) fb 3 6 3 = Some (x, 4, 7)) by reflexivity.
  assert (Ra : forall fuel, _BRMerkleBlockRootR (S (S fuel)) fb 2 4 2 = Some (0, SIZE_MAX, 7)).
  { intros fuel. rewrite (root_node _ fb 2 4 2 _ _ _ _ _ _ eq_refl eq_refl eq_refl (Rl _) (Rr _)). rewrite Nx, andb_false_r. reflexivity. }
  assert (Rc : forall fuel, _BRMerkleBlockRootR (S fuel) fb 1 3 2 = Some (c, 2, 4)) by reflexivity.
  assert (R2 : forall fuel, _BRMerkleBlockRootR (S (S (S fuel))) fb 1 2 1 = Some (hash_pair c c, SIZE_MAX, 7)).
  { intros fuel. rewrite (root_node _ fb 1 2 1 _ _ _ _ _ _ eq_refl eq_refl eq_refl (Rc _) (Ra _)).
    rewrite node_digest by (assumption || exact is_u256_zero). reflexivity. }
  assert (R1 : forall fuel, _BRMerkleBlockRootR (S fuel) fb 0 1 1 = Some (m1, 1, 2)) by reflexivity.
  rewrite (root_node _ fb 0 0 0 _ _ _ _ _ _ eq_refl eq_refl eq_refl (R1 _) (R2 _)).
  rewrite node_digest by (assumption || apply hash_pair_range). rewrite (proj2 (Z.eqb_neq _ _) Nz). reflexivity.
Qed.

#[local] Transparent hash_pair.

(** C23. The abort of the duplicate check is not reported to the caller.  For any header whose merkle
    root is over a row of three nodes [a], [b], [c] (that is, the hash of [m1], the hash of [a] and [b], with the
    hash of [c] with itself; [m1], [c] and that hash are not zero, and [m1] differs from it; the target is below 0x20000000), and any hash [x] at all, there is a block that
    [BRMerkleBlockIsValid] accepts and for which [BRMerkleBlockTxHashes] reports [x] as included. *)
Theorem merkle_proof_forgery b m1 c x now :
  is_u256 m1 -> is_u256 c -> is_u256 x -> m1 <> 0 -> c <> 0 -> m1 <> hash_pair c c ->
  hash_pair c c <> 0 -> 0 <= target b < 0x20000000 ->
  BRMerkleBlockIsValid (forged_block b m1 c x) now = Some true /\
  BRMerkleBlockTxHashes (forged_block b m1 c x) (Some 2) = Some ([x; x], 2).
Proof.
  intros U1 Uc Ux N1 Nc Nm Nz Ht. split; [|reflexivity].
  rewrite (is_valid_root (forged_block b m1 c x) now _ _ _ (forged_root b m1 c x U1 Uc Ux N1 Nc Nm Nz)
             (hash_pair_range _ _) (hash_pair_range m1 (hash_pair c c)) Ht).
  cbn [totalTx merkleRoot forged_block]. now rewrite Z.eqb_refl.
Qed.

Lemma merkle_proof_forgery_witness :
  BRMerkleBlockTxHashes (forged_block BRMerkleBlockNew 1 2 666) (Some 2) = Some ([666; 666], 2).
Proof.
  refine (proj2 (merkle_proof_forgery BRMerkleBlockNew 1 2 666 0 _ _ _ _ _ _ _ _));
    [| | |discriminate|discriminate|vm_compute; discriminate|vm_compute; discriminate|];
    (split; [discriminate|reflexivity]).
Defined.

(** ** Serialization *)

Definition header_bytes (b : BRMerkleBlock) : list Z :=
  UInt32SetLE (version b) ++ UInt256Set (prevBlock b) ++ UInt256Set (merkleRoot b) ++ UInt32SetLE (timestamp b) ++
  UInt32SetLE (target b) ++ UInt32SetLE (nonce b).

(** The fields of a [merkleblock] message after the header. *)
Definition tree_bytes (tx : Z) (hs : list Z) (fs : list Z) : list Z :=
  UInt32SetLE tx ++ varint_bytes (len hs) ++ mjoin (UInt256Set <$> hs) ++ varint_bytes (len fs) ++ fs.

(** A block as the parser builds them: a bare header, or a header with its tree. *)
Record block_ok (b : BRMerkleBlock) (hs fs : list Z) : Prop := {
  bk_version : 0 <= version b < 0x100000000;
  bk_prev : is_u256 (prevBlock b);
  bk_root : is_u256 (merkleRoot b);
  bk_time : 0 <= timestamp b < 0x100000000;
  bk_target : 0 <= target b < 0x100000000;
  bk_nonce : 0 <= nonce b < 0x100000000;
  bk_tx : 0 < totalTx b < 0x100000000;
  bk_hashes : hashes b = Some hs /\ hashesCount b = len hs /\ Forall is_u256 hs;
  bk_flags : flags b = Some fs /\ flagsLen b = len fs;
  bk_len : len hs * 32 + len fs < 0x1000000000000;
}.

Definition block_bytes (b : BRMerkleBlock) (hs fs : list Z) : list Z := header_bytes b ++ tree_bytes (totalTx b) hs fs.

Lemma bind_store m n pre bs (k : ptr * Z -> option (ptr * Z)) :
  room (Some m) n (pre ++ bs) -> (store bs (cursor (Some m) pre) ≫= k) = k (cursor (Some m) (pre ++ bs)).
Proof.
  intros H. rewrite <- (bind_put (Some m) n pre bs k H). f_equal. unfold put, store, cursor. simpl.
  destruct H as [? ?]. rewrite length_app in *. rewrite (u64_id (len pre)), u64_id by lia.
  rewrite (proj2 (Z.leb_le _ _)) by lia. reflexivity.
Qed.

Lemma hashes_bytes_cons h hs : mjoin (UInt256Set <$> h :: hs) = UInt256Set h ++ mjoin (UInt256Set <$> hs).
Proof. reflexivity. Qed.

Lemma hashes_bytes_length hs : length (mjoin (UInt256Set <$> hs)) = (32 * length hs)%nat.
Proof.
  induction hs as [|h hs IH]; [done|]. rewrite hashes_bytes_cons, length_app, IH. cbn [length].
  change (length (UInt256Set h)) with 32%nat. lia.
Qed.

Lemma get_hashes_bytes hs rest : Forall is_u256 hs ->
  get_hashes (length hs) (mjoin (UInt256Set <$> hs) ++ rest) = hs.
Proof.
  induction 1 as [|h hs Hh _ IH]; [done|]. rewrite hashes_bytes_cons, <- app_assoc. cbn [get_hashes length].
  change 32%nat with (length (UInt256Set h)) at 1 2. rewrite take_app_len, drop_app_len.
  now rewrite UInt256Get_Set, IH.
Qed.

Lemma header_length b : length (header_bytes b) = 80%nat.
Proof. reflexivity. Qed.

Lemma tree_length tx hs fs : len (tree_bytes tx hs fs) = 4 + len (varint_bytes (len hs)) + len hs * 32 +
  len (varint_bytes (len fs)) + len fs.
Proof.
  unfold tree_bytes. rewrite !length_app, hashes_bytes_length. change (length (UInt32SetLE tx)) with 4%nat. lia.
Qed.

Lemma store_from_cursor l n m cap pre :
  n = len l -> room (Some m) cap (pre ++ l) -> store_from (Some l) n (cursor (Some m) pre) = Some (cursor (Some m) (pre ++ l)).
Proof.
  intros -> Hr. unfold store_from. pose proof (mem_read_mid [] l [] 0 (len l) eq_refl eq_refl) as E.
  rewrite app_nil_r in E. cbn [app] in E. rewrite E. cbn [mbind option_bind].
  pose proof (bind_store m cap pre l Some Hr) as B. destruct (store l _); [exact B|done].
Qed.

Lemma varint_len i : 0 <= i -> 1 <= len (varint_bytes i) <= 9.
Proof. intros Hi. destruct (varint_bytes_length i Hi) as [->|[->|[->| ->]]]; lia. Qed.

Lemma block_writes b hs fs : block_ok b hs fs -> writes (BRMerkleBlockSerialize b) (block_bytes b hs fs).
Proof.
  intros [Hv Hp Hm Ht Hg Hn Htx (Eh & Ehc & Hh) (Ef & Efl) Hlen] p0 cap Hroom.
  pose proof (tree_length (totalTx b) hs fs) as HL.
  pose proof (varint_len (len hs) ltac:(lia)). pose proof (varint_len (len fs) ltac:(lia)).
  assert (El : u64 (80 + 4 + BRVarIntSize (hashesCount b) + hashesCount b * 32 + BRVarIntSize (flagsLen b) + flagsLen b) =
               len (block_bytes b hs fs)).
  { unfold BRVarIntSize, block_bytes. rewrite length_app, header_length, Nat2Z.inj_add, HL, Ehc, Efl, u64_id by lia. lia. }
  assert (Hb : len (block_bytes b hs fs) < 0x10000000000000000).
  { unfold block_bytes. rewrite length_app, header_length, Nat2Z.inj_add, HL. lia. }
  unfold BRMerkleBlockSerialize. rewrite El, (proj2 (Z.ltb_lt 0 _)) by lia.
  destruct p0 as [m|]; [|unfold cursor; rewrite u64_id by lia; reflexivity].
  rewrite (proj2 (Z.leb_le _ _)) by apply Hroom.
  change (Some m, 0) with (cursor (Some m) []).
  rewrite Eh, Ef, Ehc, Efl. unfold block_bytes, header_bytes, tree_bytes in Hroom |- *.
  rewrite <- !app_assoc in Hroom |- *.
  do 6 (rewrite (bind_store m cap) by fits Hroom; cbn [app]; rewrite <- ?app_assoc).
  rewrite (bind_store m cap) by fits Hroom.
  rewrite (bind_call_at _ _ _ _ _ _ (BRVarIntSet_writes (len hs) ltac:(lia))) by fits Hroom.
  cbn [option_map fmap option_fmap compose].
  rewrite (store_from_cursor _ _ _ cap); [|rewrite hashes_bytes_length, u64_id by lia; lia|fits Hroom]. cbn [mbind option_bind].
  rewrite (bind_call_at _ _ _ _ _ _ (BRVarIntSet_writes (len fs) ltac:(lia))) by fits Hroom.
  rewrite (store_from_cursor _ _ _ cap); [|done|fits Hroom]. cbn [mbind option_bind fst].
  unfold block_bytes, header_bytes, tree_bytes in Hb. unfold cursor. cbn [fst fmap option_fmap option_map].
  rewrite <- ?app_assoc in Hb. repeat rewrite <- app_assoc. rewrite u64_id by lia. reflexivity.
Qed.

(** *** Parsing what was written *)

Lemma header_field32 buf a x c off : buf = a ++ UInt32SetLE x ++ c -> off = len a -> 0 <= x < 0x100000000 ->
  header_u32 buf off = Some x.
Proof.
  intros -> -> Hx. unfold header_u32. rewrite (mem_read_mid a (UInt32SetLE x) c) by done. cbn [fmap option_fmap option_map].
  now rewrite UInt32Get_Set.
Qed.

Lemma header_field256 buf a x c off : buf = a ++ UInt256Set x ++ c -> off = len a -> is_u256 x ->
  header_u256 buf off = Some x.
Proof.
  intros -> -> Hx. unfold header_u256. rewrite (mem_read_mid a (UInt256Set x) c) by done. cbn [fmap option_fmap option_map].
  now rewrite UInt256Get_Set.
Qed.

Lemma copy_out_mid a b c off l : off = len a -> l = len b -> len (a ++ b ++ c) < 0x10000000000000000 ->
  copy_out (a ++ b ++ c) off l = Some (Some b).
Proof.
  intros -> -> Hlt. unfold copy_out. rewrite (mem_read_mid a b c) by done.
  rewrite !length_app in *. rewrite u64_id, (proj2 (Z.leb_le _ _)) by lia. reflexivity.
Qed.

Lemma parse_hashes_mid a hs c buf off :
  buf = a ++ varint_bytes (len hs) ++ mjoin (UInt256Set <$> hs) ++ c -> off = len a ->
  len buf < 0x10000000000000000 -> Forall is_u256 hs ->
  parse_hashes buf off = Some (Some hs, len hs, off + len (varint_bytes (len hs)) + len hs * 32).
Proof.
  intros E -> Hlt Hh. unfold parse_hashes. pose proof (hashes_bytes_length hs) as HL.
  assert (Hl : len a + (len (varint_bytes (len hs)) + (len hs * 32 + len c)) = len buf)
    by (rewrite E, !length_app, HL; lia).
  rewrite (varint_field buf Hlt (len hs) a _ _ E) by lia. cbn [mbind option_bind].
  rewrite (u64_id (len hs * 32)), (u64_id (len a + len (varint_bytes (len hs)))), u64_id by lia.
  rewrite E, app_assoc, (copy_out_mid _ (mjoin (UInt256Set <$> hs))); cbn [mbind option_bind option_map];
    [|rewrite length_app; lia|rewrite HL; lia|rewrite <- app_assoc, <- E; done].
  rewrite Z.div_mul, Nat2Z.id by lia. pose proof (get_hashes_bytes hs [] Hh) as Eg. rewrite app_nil_r in Eg.
  now rewrite Eg.
Qed.

Lemma parse_flags_mid a fs c buf off :
  buf = a ++ varint_bytes (len fs) ++ fs ++ c -> off = len a -> len buf < 0x10000000000000000 ->
  parse_flags buf off = Some (Some fs, len fs).
Proof.
  intros E -> Hlt. unfold parse_flags.
  assert (Hl : len a + (len (varint_bytes (len fs)) + (len fs + len c)) = len buf) by (rewrite E, !length_app; lia).
  rewrite (varint_field buf Hlt (len fs) a _ _ E) by lia. cbn [mbind option_bind]. rewrite u64_id by lia.
  rewrite E, app_assoc, (copy_out_mid _ fs); [done|rewrite length_app; lia|done|rewrite <- app_assoc, <- E; done].
Qed.

(** C24. Round trip of merkle blocks: [BRMerkleBlockSerialize] writes the header and the tree fields
    (their number of bytes on NULL), and [BRMerkleBlockParse] of those bytes, whatever follows, gives
    the block back, with the proof-of-work hash of its 80 header bytes as [blockHash] and the height
    unknown. *)
Theorem merkleblock_roundtrip timetravel10_hash addr b hs fs rest :
  block_ok b hs fs -> len rest < 0x1000000000000 ->
  writes (BRMerkleBlockSerialize b) (block_bytes b hs fs) /\
  BRMerkleBlockParse timetravel10_hash addr (block_bytes b hs fs ++ rest) =
  Some (Some (mkBlock (pow_hash timetravel10_hash addr (header_bytes b)) 0 (version b) (prevBlock b) (merkleRoot b)
                (timestamp b) (target b) (nonce b) (totalTx b) (hashes b) (hashesCount b) (flags b) (flagsLen b)
                BLOCK_UNKNOWN_HEIGHT)).
Proof.
  intros Hok Hrest. split; [now apply block_writes|].
  destruct Hok as [Hv Hp Hm Ht Hg Hn Htx (Eh & Ehc & Hh) (Ef & Efl) Hlen].
  pose proof (tree_length (totalTx b) hs fs) as HL.
  pose proof (varint_len (len hs) ltac:(lia)). pose proof (varint_len (len fs) ltac:(lia)).
  set (buf := block_bytes b hs fs ++ rest).
  assert (Hb : len buf = 80 + len (tree_bytes (totalTx b) hs fs) + len rest).
  { unfold buf, block_bytes. rewrite !length_app, header_length. lia. }
  assert (Hlt : len buf < 0x10000000000000000) by lia.
  set (T := tree_bytes (totalTx b) hs fs ++ rest).
  assert (E : buf = header_bytes b ++ T) by (unfold buf, block_bytes, T; now rewrite <- app_assoc).
  unfold header_bytes in E. rewrite <- !app_assoc in E.
  unfold BRMerkleBlockParse. rewrite (proj2 (Z.leb_le _ _)) by lia.
  rewrite (header_field32 buf [] (version b) _ 0 E) by (reflexivity || assumption). cbn [mbind option_bind].
  rewrite (header_field256 buf (UInt32SetLE (version b)) (prevBlock b) _ 4 E) by (reflexivity || assumption). cbn [mbind option_bind].
  erewrite (header_field256 buf (UInt32SetLE (version b) ++ UInt256Set (prevBlock b)))
    by (reflexivity || assumption || (rewrite <- !app_assoc; exact E)). cbn [mbind option_bind].
  erewrite (header_field32 buf (UInt32SetLE (version b) ++ UInt256Set (prevBlock b) ++ UInt256Set (merkleRoot b)) _ _ 68)
    by (reflexivity || assumption || (rewrite <- !app_assoc; exact E)). cbn [mbind option_bind].
  erewrite (header_field32 buf (UInt32SetLE (version b) ++ UInt256Set (prevBlock b) ++ UInt256Set (merkleRoot b) ++
     UInt32SetLE (timestamp b)) _ _ 72) by (reflexivity || assumption || (rewrite <- !app_assoc; exact E)). cbn [mbind option_bind].
  erewrite (header_field32 buf (UInt32SetLE (version b) ++ UInt256Set (prevBlock b) ++ UInt256Set (merkleRoot b) ++
     UInt32SetLE (timestamp b) ++ UInt32SetLE (target b)) _ _ 76) by (reflexivity || assumption || (rewrite <- !app_assoc; exact E)).
  cbn [mbind option_bind].
  assert (E80 : buf = [] ++ header_bytes b ++ T) by (unfold buf, block_bytes, T; now rewrite <- app_assoc).
  rewrite E80 at 1. rewrite (mem_read_mid [] (header_bytes b) T) by done. cbn [mbind option_bind].
  rewrite u64_id, (proj2 (Z.leb_le _ _)) by lia.
  unfold T, tree_bytes in E80. rewrite <- !app_assoc in E80. cbn [app] in E80.
  rewrite (header_field32 buf (header_bytes b) (totalTx b) _ 80 E80) by (done || lia). cbn [mbind option_bind].
  rewrite (parse_hashes_mid (header_bytes b ++ UInt32SetLE (totalTx b)) hs (varint_bytes (len fs) ++ fs ++ rest) buf)
    by (reflexivity || assumption || (rewrite <- !app_assoc; exact E80)). cbn [mbind option_bind].
  rewrite (parse_flags_mid (header_bytes b ++ UInt32SetLE (totalTx b) ++ varint_bytes (len hs) ++ mjoin (UInt256Set <$> hs))
             fs rest buf); [|rewrite <- !app_assoc; exact E80| |done].
  - cbn [mbind option_bind]. now rewrite Eh, Ehc, Ef, Efl.
  - rewrite !length_app, hashes_bytes_length, header_length. change (length (UInt32SetLE (totalTx b))) with 4%nat. lia.
Qed.

Lemma merkleblock_roundtrip_witness :
  let b := mkBlock 0 0 1 2 3 4 5 6 7 (Some [8; 9]) 2 (Some [29]) 1 0 in
  exists p, BRMerkleBlockParse (fun _ => 5) 0x100000000 (block_bytes b [8; 9] [29] ++ [1; 2]) = Some (Some p) /\
            hashes p = Some [8; 9] /\ blockHash p = 5.
Proof.
  intros b. eexists. split; [refine (proj2 (merkleblock_roundtrip (fun _ => 5) 0x100000000 b [8; 9] [29] [1; 2] _ _))|].
  - constructor; [split; (reflexivity || discriminate)..|idtac|split; reflexivity|reflexivity].
    split; [reflexivity|]. split; [reflexivity|]. repeat constructor; discriminate.
  - reflexivity.
  - split; reflexivity.
Defined.

(** ** Dark gravity wave *)

(** Blocks are told apart by the 256 bits of their hash. *)
Definition block_id (b : BRMerkleBlock) : Z := blockHash b mod U256.

#[export] Instance block_set_key : SetKey BRMerkleBlockHash BRMerkleBlockEq block_id.
Proof.
  assert (Hu : forall a b, u64s (blockHash a) = u64s (blockHash b) <-> block_id a = block_id b).
  { intros a b. unfold u64s, block_id. change U256 with (B64 ^ Z.of_nat 4). split; intros E.
    - rewrite <- !(le_num_le_digits B64 eq_refl). now rewrite E.
    - rewrite <- (le_digits_mod B64 eq_refl 4 (blockHash a)), <- (le_digits_mod B64 eq_refl 4 (blockHash b)). now rewrite E. }
  assert (Heq : forall a b, UInt256Eq (blockHash a) (blockHash b) = true <-> block_id a = block_id b).
  { intros a b. rewrite <- Hu. unfold UInt256Eq.
    destruct (u64s_ok (blockHash a)) as [La _], (u64s_ok (blockHash b)) as [Lb _].
    destruct (u64s (blockHash a)) as [|x0 [|x1 [|x2 [|x3 [|? ?]]]]]; try discriminate La.
    destruct (u64s (blockHash b)) as [|y0 [|y1 [|y2 [|y3 [|? ?]]]]]; try discriminate Lb.
    change ((x0 =? y0) && (x1 =? y1) && (x2 =? y2) && (x3 =? y3) = true <-> [x0; x1; x2; x3] = [y0; y1; y2; y3]).
    rewrite !andb_true_iff, !Z.eqb_eq. split; [intros (((-> & ->) & ->) & ->); done|intros [= -> -> -> ->]; done]. }
  constructor; intros a b.
  - unfold BRMerkleBlockEq. rewrite orb_true_iff, bool_decide_eq_true, Heq. split; [intros [->|]; done|now right].
  - intros E. unfold BRMerkleBlockHash, block_id in *. rewrite !word0.
    assert (Hd : (B32 | U256)) by (exists (B64 * B64 * B64 * B32); reflexivity).
    now rewrite <- (Z.mod_mod_divide (blockHash a) U256 B32 Hd), <- (Z.mod_mod_divide (blockHash b) U256 B32 Hd), E.
Qed.

(** The chain followed by the rule: at most [n] blocks back from [cur], down to height 0 or to the first
    block that is not in the set. *)
Fixpoint past (m : gmap Z BRMerkleBlock) (n : nat) (cur : option BRMerkleBlock) : list BRMerkleBlock :=
  match n, cur with
  | S n', Some b => if 0 <? height b then b :: past m n' (m !! (prevBlock b mod U256)) else []
  | _, _ => []
  end.

Definition target_value (b : BRMerkleBlock) : Z := setCompact (s32 (target b)).
Definition sum_targets (w : list BRMerkleBlock) : Z := foldr (fun b s => target_value b + s) 0 w.
Definition last_time (t : Z) (w : list BRMerkleBlock) : Z := default t (timestamp <$> last w).

(** A header whose target is at most the limit and whose timestamp is a positive [int32_t]. *)
Definition max_target : Z := setCompact MAX_PROOF_OF_WORK.

Definition dgw_ok (b : BRMerkleBlock) : Prop :=
  0 <= target_value b <= max_target /\ 0 < timestamp b < 0x80000000.

(** The rule: the average of the past targets, the newest counted twice, scaled by the time the blocks
    took over the time they should have taken, limited to a factor of three each way. *)
Definition dgw_rule (w : list BRMerkleBlock) (newest : BRMerkleBlock) : Z :=
  let k := len w in
  let average := (target_value newest + sum_targets w) / (k + 1) in
  let timespan := timestamp newest - last_time (timestamp newest) w in
  average * Z.max (20 * k) (Z.min (180 * k) timespan) / (60 * k).

Lemma max_target_range : 0 < max_target < 2 ^ 232.
Proof. split; vm_compute; reflexivity. Qed.

Lemma s32_shift x y : s32 (s32 x + y) = s32 (x + y).
Proof. uint. Qed.

Lemma some_triple_eq {A B C} (a a' : A) (b b' : B) (c c' : C) :
  a = a' -> b = b' -> c = c' -> Some (a, b, c) = Some (a', b', c').
Proof. now intros -> -> ->. Qed.

(** A store holds the blocks of the map [m]. *)
Class StoreOf {store} `{BlockStore store} (blocks : store) (m : gmap Z BRMerkleBlock) : Prop :=
  get_block_spec b : get_block blocks b = Some (m !! block_id b).

#[export] Instance block_set_of (blocks : BlockSet) m : repr BRMerkleBlockHash block_id blocks m -> StoreOf blocks m.
Proof. intros Hr b. apply (get_refines BRMerkleBlockHash BRMerkleBlockEq block_id). exact Hr. Qed.

Section dgw.
Context {store : Type} `{BlockStore store} (blocks : store) (m : gmap Z BRMerkleBlock) `{!StoreOf blocks m}.

Lemma past_ok_sum w : Forall dgw_ok w -> 0 <= sum_targets w <= len w * max_target.
Proof.
  pose proof max_target_range. induction 1 as [|b w [Hb _] _ IH]; [cbn; lia|].
  cbn [sum_targets foldr length] in *. fold (sum_targets w) in *. lia.
Qed.

(** From the second block on; [T]: timestamp of the newest block. *)
Lemma dgw_loop_spec n : forall cur c sum last T,
  Forall dgw_ok (past m n cur) -> 1 < c -> c + Z.of_nat n = 181 -> 0 < last < 0x80000000 ->
  0 <= sum -> sum + Z.of_nat n * max_target < U256 ->
  dgw_loop n blocks cur c sum last (s32 (T - last)) =
  Some (c + len (past m n cur), sum + sum_targets (past m n cur), s32 (T - last_time last (past m n cur))).
Proof.
  pose proof max_target_range as Hmt. induction n as [|n IH]; intros cur c sum last T Hok Hc Hn Hl Hs Hb.
  - destruct cur as [b|]; cbn [dgw_loop past].
    + rewrite (proj2 (Z.leb_gt c DGW_PAST_BLOCKS)) by (unfold DGW_PAST_BLOCKS; lia). rewrite andb_false_r.
      cbn. now rewrite !Z.add_0_r.
    + cbn. now rewrite !Z.add_0_r.
  - destruct cur as [b|]; cbn [dgw_loop past]; [|cbn; now rewrite !Z.add_0_r].
    cbn [past] in Hok. destruct (Z.ltb_spec 0 (height b)); [|cbn; now rewrite !Z.add_0_r].
    apply Forall_cons in Hok as [[Hv Ht] Hok].
    rewrite (proj2 (Z.leb_le c DGW_PAST_BLOCKS)) by (unfold DGW_PAST_BLOCKS; lia). cbn [andb].
    rewrite (proj2 (Z.eqb_neq c 1)), (proj2 (Z.ltb_lt 0 last)) by lia.
    rewrite (get_block_spec (m := m)). cbn [mbind option_bind]. fold (target_value b).
    change (block_id (block_key (prevBlock b))) with (prevBlock b mod U256).
    rewrite s32_shift, Z.add_sub_assoc, Z.sub_add.
    rewrite Nat2Z.inj_succ, Z.mul_succ_l in Hb. assert (0 <= Z.of_nat n * max_target) by (apply Z.mul_nonneg_nonneg; lia).
    rewrite add_spec, (Z.mod_small (sum + target_value b)) by (unfold is_u256; lia).
    rewrite IH by (done || lia). cbn [length sum_targets foldr]. fold (sum_targets (past m n (m !! (prevBlock b mod U256)))).
    assert (El : last_time last (b :: past m n (m !! (prevBlock b mod U256))) =
                 last_time (timestamp b) (past m n (m !! (prevBlock b mod U256)))).
    { unfold last_time. rewrite last_cons. now destruct (list.last _). }
    rewrite El. apply some_triple_eq; [lia|lia|done].
Qed.

Lemma dgw_run b : 0 < height b -> Forall dgw_ok (past m 180 (Some b)) ->
  let w := past m 180 (Some b) in
  dgw_loop 180 blocks (Some b) 1 UINT256_ZERO 0 0 =
  Some (1 + len w, target_value b + sum_targets w, s32 (timestamp b - last_time (timestamp b) w)).
Proof.
  intros Hh Hok w. subst w. remember 180%nat as n0 eqn:E0. destruct n0 as [|n]; [done|]. injection E0 as En.
  cbn [past] in *. rewrite (proj2 (Z.ltb_lt _ _) Hh) in *.
  apply Forall_cons in Hok as [[Hv Ht] Hok]. cbn [dgw_loop].
  rewrite (proj2 (Z.ltb_lt _ _) Hh). change (1 <=? DGW_PAST_BLOCKS) with true. change (1 =? 1) with true.
  change (0 <? 0) with false. cbn [andb]. cbv iota zeta.
  rewrite (get_block_spec (m := m)). cbn [mbind option_bind]. fold (target_value b).
  change (block_id (block_key (prevBlock b))) with (prevBlock b mod U256).
  pose proof max_target_range as Hmt. assert (Hsmall : max_target * 512 < U256) by (vm_compute; reflexivity).
  rewrite add_spec, (Z.mod_small (target_value b + target_value b)) by (unfold is_u256; lia).
  change (1 + 1) with 2.
  pose proof (dgw_loop_spec n (m !! (prevBlock b mod U256)) 2 (target_value b + target_value b) (timestamp b) (timestamp b)) as L.
  rewrite Z.sub_diag in L. change (s32 0) with 0 in L.
  assert (Hn : target_value b + target_value b + Z.of_nat n * max_target < U256).
  { rewrite En. change (Z.of_nat 179) with 179. lia. }
  rewrite L by (done || lia).
  cbn [length sum_targets foldr]. fold (sum_targets (past m n (m !! (prevBlock b mod U256)))).
  assert (El : forall t, last_time t (b :: past m n (m !! (prevBlock b mod U256))) =
               last_time (timestamp b) (past m n (m !! (prevBlock b mod U256)))).
  { intros t. unfold last_time. rewrite last_cons. now destruct (list.last _). }
  rewrite El. apply some_triple_eq; [lia|lia|done].
Qed.
End dgw.

Lemma u64_limb c : 0 <= c < 0x10000000000000000 -> of_u64s [u64 c; 0; 0; 0] = c.
Proof. intros Hc. rewrite u64_id by done. unfold of_u64s. cbn [le_num]. lia. Qed.

(** The statements after the loop, when [k] blocks were visited. *)
Lemma dgw_target_spec k sum d :
  1 <= k <= 180 -> 0 <= sum < 2 ^ 240 -> - 0x80000000 <= d < 0x80000000 ->
  let new := sum / (k + 1) * Z.max (20 * k) (Z.min (180 * k) d) / (60 * k) in
  exists compact, getCompact new = Some compact /\ 0 <= new < 2 ^ 255 /\
    dgw_target (1 + k) sum d = Some (Z.min compact MAX_PROOF_OF_WORK).
Proof.
  intros Hk Hs Hd new. set (sp := Z.max (20 * k) (Z.min (180 * k) d)) in *.
  assert (Hsp : 20 * k <= sp <= 180 * k) by (unfold sp; lia).
  assert (P240 : 2 ^ 240 * 0x8000 = 2 ^ 255) by reflexivity.
  assert (Havg : 0 <= sum / (k + 1) < 2 ^ 240).
  { split; [apply Z.div_pos; lia|]. apply Z.le_lt_trans with sum; [|lia]. apply Z.div_le_upper_bound; nia. }
  assert (Hprod : 0 <= sum / (k + 1) * sp < 2 ^ 255) by nia.
  assert (Hnew : 0 <= new < 2 ^ 255).
  { unfold new. split; [apply Z.div_pos; lia|]. apply Z.le_lt_trans with (sum / (k + 1) * sp); [|lia].
    apply Z.div_le_upper_bound; nia. }
  destruct (getCompact_floor new Hnew) as (c & Ec & Hc & _). exists c. split; [done|]. split; [done|].
  unfold dgw_target, DGW_TARGET_TIMESPAN. rewrite (u64_limb (1 + k)) by lia.
  rewrite divide_correct by lia. rewrite bind_Some_l.
  replace (1 + k - 1) with k by lia. replace (1 + k) with (k + 1) by lia.
  rewrite (s32_id (k * (1 * 60))), (s32_id (k * (1 * 60) * 3)) by lia.
  replace (Z.quot (k * (1 * 60)) 3) with (20 * k)
    by (rewrite Z.quot_div_nonneg by lia; apply Z.div_unique with 0; lia).
  assert (Esp : (if k * (1 * 60) * 3 <? (if d <? 20 * k then 20 * k else d) then k * (1 * 60) * 3
                 else if d <? 20 * k then 20 * k else d) = sp).
  { unfold sp. destruct (Z.ltb_spec d (20 * k)), (Z.ltb_spec (k * (1 * 60) * 3) (20 * k)),
      (Z.ltb_spec (k * (1 * 60) * 3) d); lia. }
  cbv zeta. rewrite Esp. rewrite u32_id by lia. rewrite (u64_limb (k * (1 * 60))) by lia.
  rewrite multiplyThis32_spec by (unfold is_u256, B32; rewrite ?u256_pow; lia).
  rewrite Z.mod_small by (rewrite u256_pow; lia). rewrite divide_correct by lia. rewrite bind_Some_l.
  replace (k * (1 * 60)) with (60 * k) by lia. fold new. rewrite Ec. rewrite bind_Some_l. f_equal.
  unfold MAX_PROOF_OF_WORK. destruct (Z.ltb_spec 0x1e00ffff c); rewrite s32_id by lia; lia.
Qed.

Lemma past_length m n cur : len (past m n cur) <= Z.of_nat n.
Proof.
  revert cur. induction n as [|n IH]; intros [b|]; cbn [past]; try (cbn; lia).
  destruct (0 <? height b); cbn [length]; [|lia]. specialize (IH (m !! (prevBlock b mod U256))). lia.
Qed.

Lemma last_time_range t w : 0 < t < 0x80000000 -> Forall dgw_ok w -> 0 < last_time t w < 0x80000000.
Proof.
  intros Ht Hw. unfold last_time. destruct (list.last w) as [b|] eqn:E; [|exact Ht]. cbn.
  apply last_Some_elem_of in E. rewrite Forall_forall in Hw. apply (Hw b E).
Qed.

(** C25. The difficulty rule: over any store that holds the blocks of the map [m] (a hash set representing
    it is one), with the past blocks' targets at
    or below the limit and positive timestamps, [DarkGravityWaveTargetV3] terminates without a failed
    assertion and returns the compact form of [dgw_rule] of the last (at most) 180 blocks, capped at
    [MAX_PROOF_OF_WORK]; below the start height, or for an unknown block, it returns that cap. *)
Theorem dgw_spec {store} `{BlockStore store} (blocks : store) m previous :
  StoreOf blocks m ->
  (forall b, m !! block_id previous = Some b -> Forall dgw_ok (past m 180 (Some b))) ->
  match m !! block_id previous with
  | Some b =>
      if height b <? DGW_START_BLOCK then DarkGravityWaveTargetV3 previous blocks = Some MAX_PROOF_OF_WORK
      else exists compact, getCompact (dgw_rule (past m 180 (Some b)) b) = Some compact /\
             DarkGravityWaveTargetV3 previous blocks = Some (Z.min compact MAX_PROOF_OF_WORK)
  | None => DarkGravityWaveTargetV3 previous blocks = Some MAX_PROOF_OF_WORK
  end.
Proof.
  intros Hr Hok. unfold DarkGravityWaveTargetV3. rewrite (get_block_spec (m := m)). cbn [mbind option_bind].
  destruct (m !! block_id previous) as [b|]; [|done].
  destruct (Z.ltb_spec (height b) DGW_START_BLOCK) as [Hlt|Hge]; [now rewrite orb_true_r|].
  unfold DGW_START_BLOCK in Hge. rewrite (proj2 (Z.eqb_neq (height b) 0)) by lia. cbn [orb].
  specialize (Hok b eq_refl). rewrite (dgw_run blocks m b) by (done || lia). cbn [mbind option_bind].
  pose proof (past_length m 180 (Some b)) as Hl. pose proof (past_ok_sum _ Hok) as Hs. pose proof max_target_range as Hmt.
  assert (Hhd : dgw_ok b /\ 1 <= len (past m 180 (Some b))).
  { remember 180%nat as n0 eqn:E0. destruct n0 as [|n]; [done|]. cbn [past] in Hok |- *.
    rewrite (proj2 (Z.ltb_lt 0 _)) in Hok |- * by lia. apply Forall_cons in Hok as [? _]. cbn [length]. split; [done|lia]. }
  destruct Hhd as [[Hv Ht] H1]. pose proof (last_time_range (timestamp b) _ Ht Hok) as Hlt.
  change (Z.of_nat 180) with 180 in Hl. rewrite s32_id by lia.
  assert (P : 2 ^ 232 * 256 = 2 ^ 240) by reflexivity.
  destruct (dgw_target_spec (len (past m 180 (Some b))) (target_value b + sum_targets (past m 180 (Some b)))
    (timestamp b - last_time (timestamp b) (past m 180 (Some b)))) as (c & Ec & _ & E); [lia|nia|lia|].
  exists c. split; [exact Ec|exact E].
Qed.

(** A set with one block at the start height, whose parent is unknown. *)
Definition ex_tip : BRMerkleBlock := mkBlock 1 0 0 77 0 1600000000 0x1b07cf3a 0 0 None 0 None 0 338778.

Lemma dgw_spec_witness : exists blocks,
  repr BRMerkleBlockHash block_id blocks {[ 1 := ex_tip ]} /\
  DarkGravityWaveTargetV3 ex_tip blocks = Some 0x1b029a68.
Proof.
  destruct (add_refines BRMerkleBlockHash BRMerkleBlockEq block_id (BRSetNew 2) ∅ ex_tip) as (s & _ & Hs);
    [apply new_repr; lia|vm_compute; discriminate|].
  exists s. split; [exact Hs|].
  assert (Hok : forall b, ({[ 1 := ex_tip ]} : gmap Z BRMerkleBlock) !! block_id ex_tip = Some b -> Forall dgw_ok (past {[ 1 := ex_tip ]} 180 (Some b))).
  { intros b [= <-]. change (past _ _ _) with [ex_tip]. constructor; [|constructor].
    split; split; vm_compute; (reflexivity || discriminate). }
  destruct (dgw_spec s {[ 1 := ex_tip ]} ex_tip (block_set_of _ _ Hs) Hok) as (c & Ec & E).
  rewrite E. vm_compute in Ec. injection Ec as <-. reflexivity.
Defined.

(** [BRMerkleBlockVerifyDifficulty] from the start height on: for the first 180 calls (counted in a
    static variable) it checks that the block follows [previous], or, at the start height itself, only
    that the target is the hard-coded one; afterwards it accepts a block exactly when its target is
    within 1 of the rule's, and no longer looks at whether the block follows [previous]. *)
Theorem verify_difficulty_spec {store} `{BlockStore store} block previous (blocks : store) D pastCount :
  DarkGravityWaveTargetV3 previous blocks = Some D -> 0 <= D <= MAX_PROOF_OF_WORK ->
  is_u256 (prevBlock block) -> is_u256 (blockHash previous) -> 0 <= target block < 0x80000000 ->
  DGW_START_BLOCK <= height block -> 0 <= pastCount < 0x7fffffff ->
  BRMerkleBlockVerifyDifficulty block previous blocks pastCount =
  Some (if pastCount <? 180 then
          if height block =? 338778 then target block =? 0x1b07cf3a
          else (prevBlock block =? blockHash previous) && (height block =? u32 (height previous + 1))
        else Z.abs (target block - D) <=? 1, pastCount + 1).
Proof.
  intros HD RD Up Uh Ht Hh Hn. unfold BRMerkleBlockVerifyDifficulty, MAX_PROOF_OF_WORK in *.
  rewrite (proj2 (Z.leb_le _ _) Hh), HD, bind_Some_l, UInt256Eq_spec by done.
  rewrite (s32_id (pastCount + 1)), (s32_id (target block - D)) by lia. unfold DGW_PAST_BLOCKS.
  destruct (pastCount <? 180).
  - rewrite bind_Some_l, negb_orb, !negb_involutive. reflexivity.
  - unfold c_abs. rewrite (proj2 (Z.eqb_neq _ _)), !bind_Some_l by lia. do 2 f_equal.
    apply eq_true_iff_eq. rewrite Z.ltb_lt, Z.leb_le. lia.
Qed.

(** A block that does not follow [previous] is accepted once 180 blocks were seen. *)
Lemma verify_difficulty_spec_witness :
  BRMerkleBlockVerifyDifficulty (mkBlock 5 0 0 4444 0 0 0x1e00fffe 0 0 None 0 None 0 500000) ex_tip (BRSetNew 2) 180 =
  Some (true, 181).
Proof.
  refine (verify_difficulty_spec (mkBlock 5 0 0 4444 0 0 0x1e00fffe 0 0 None 0 None 0 500000) ex_tip (BRSetNew 2)
            MAX_PROOF_OF_WORK 180 _ _ _ _ _ _ _);
    [vm_compute; reflexivity| | | | |discriminate|]; (split; (reflexivity || discriminate)).
Defined.
