(* ===== verification/Bloom.v ===== *)
(** * Bloom: bloom filters (BRBloomFilter.c, BRBloomFilter.h)

    The filter a peer is given to select the transactions it sends (BIP37).  The field [length] is the
    size of the array [filter] ([filterData] here).  [BRBloomFilterNew] computes the sizes with [double] arithmetic and the
    logarithm of the C library: the two values, converted to integers, are arguments. *)
From stdpp Require Import base numbers list.
From Stdlib Require Import ZArith Lia.
From S2P Require Import Prelude CMem Int Crypto Base58 Address Transaction.
Local Open Scope Z_scope.

(** ** Operations *)

Definition BLOOM_MAX_HASH_FUNCS : Z := 50.
Definition BLOOM_UPDATE_NONE : Z := 0.
Definition BLOOM_UPDATE_ALL : Z := 1.
Definition BLOOM_UPDATE_P2PUBKEY_ONLY : Z := 2.
Definition BLOOM_MAX_FILTER_LENGTH : Z := 36000.

Record BRBloomFilter := mkFilter { filterData : list Z; hashFuncs : Z; elemCount : Z; tweak : Z; flags : Z }.

Definition BR_BLOOM_FILTER_FULL : BRBloomFilter := mkFilter [0xff] 0 0 0 BLOOM_UPDATE_NONE.

Definition _BRBloomFilterHash (f : BRBloomFilter) (data : list Z) (hashNum : Z) : Z :=
  BRMurmur3_32 data (u32 (hashNum * 0xfba4c795 + tweak f)) mod (len (filterData f) * 8).

(** [size] is the value of the expression assigned to [length], [funcs] maps the length to the value
    assigned to [hashFuncs]. *)
Definition BRBloomFilterNew (size : Z) (funcs : Z -> Z) (tweak flags : Z) : BRBloomFilter :=
  let length := if BLOOM_MAX_FILTER_LENGTH <? size then BLOOM_MAX_FILTER_LENGTH else size in
  let length := if length <? 1 then 1 else length in
  let hashFuncs := if BLOOM_MAX_HASH_FUNCS <? funcs length then BLOOM_MAX_HASH_FUNCS else funcs length in
  mkFilter (replicate (Z.to_nat length) 0) hashFuncs 0 tweak flags.

(** [None] is a read out of bounds, [Some None] the result NULL. *)
Definition BRBloomFilterParse (buf : list Z) : option (option BRBloomFilter) :=
  let bufLen := len buf in
  r ← varint_at buf 0;
  let '(length, l) := r in
  let off := size_add 0 l in
  filter ← (if (length <=? BLOOM_MAX_FILTER_LENGTH) && (size_add off length <=? bufLen)
            then Some <$> mem_read buf off length else Some None);
  let off := size_add off length in
  hashFuncs ← get_or UInt32GetLE 0 4 buf bufLen off;
  let off := size_add off 4 in
  tweak ← get_or UInt32GetLE 0 4 buf bufLen off;
  let off := size_add off 4 in
  flags ← get_or (fun b => wd b 0) 0 1 buf bufLen off;
  Some ((fun filter => mkFilter filter hashFuncs 0 tweak flags) <$> filter).

Definition filter_bytes (f : BRBloomFilter) : list Z :=
  varint_bytes (len (filterData f)) ++ filterData f ++ UInt32SetLE (hashFuncs f) ++ UInt32SetLE (tweak f) ++ [flags f].

(** The fields are written only if all of them fit. *)
Definition BRBloomFilterSerialize (f : BRBloomFilter) (buf : ptr) (bufLen : Z) : option (ptr * Z) :=
  let l := u64 (BRVarIntSize (len (filterData f)) + len (filterData f) + 4 + 4 + 1) in
  match buf with
  | None => Some (None, l)
  | Some m => if l <=? bufLen then m' ← mem_write m 0 (filter_bytes f); Some (Some m', l) else Some (Some m, 0)
  end.

(** [filter->filter[idx >> 3] & (1 << (7 & idx))] *)
Definition bit_at (bytes : list Z) (idx : Z) : bool :=
  negb (Z.land (wd bytes (Z.shiftr idx 3)) (Z.shiftl 1 (Z.land 7 idx)) =? 0).

Definition set_bit (bytes : list Z) (idx : Z) : list Z :=
  upd bytes (Z.shiftr idx 3) (Z.lor (wd bytes (Z.shiftr idx 3)) (Z.shiftl 1 (Z.land 7 idx))).

(** The indexes for i = 0, 1, ... below [hashFuncs]. *)
Definition hash_indexes (f : BRBloomFilter) (data : list Z) : list Z :=
  _BRBloomFilterHash f data <$> seqZ 0 (hashFuncs f).

(** Both loops compute a remainder by [length * 8], which must not be zero. *)
Definition BRBloomFilterContainsData (f : BRBloomFilter) (data : option (list Z)) : option bool :=
  match data with
  | None => Some false
  | Some data =>
      if (len (filterData f) =? 0) && (0 <? hashFuncs f) then None
      else Some (forallb (bit_at (filterData f)) (hash_indexes f data))
  end.

Definition BRBloomFilterInsertData (f : BRBloomFilter) (data : option (list Z)) : option BRBloomFilter :=
  match data with
  | None => Some f
  | Some data =>
      if (len (filterData f) =? 0) && (0 <? hashFuncs f) then None
      else Some (mkFilter (foldl set_bit (filterData f) (hash_indexes f data)) (hashFuncs f) (elemCount f + 1) (tweak f) (flags f))
  end.

(** ** Bits *)

Lemma bit_split idx : 0 <= idx -> idx = 8 * Z.shiftr idx 3 + Z.land 7 idx /\ 0 <= Z.land 7 idx < 8.
Proof.
  intros H. rewrite Z.land_comm. change 7 with (Z.ones 3). rewrite Z.land_ones, Z.shiftr_div_pow2 by lia.
  change (2 ^ 3) with 8. zdiv_lia.
Qed.

Lemma bit_at_test bytes idx : bit_at bytes idx = Z.testbit (wd bytes (Z.shiftr idx 3)) (Z.land 7 idx).
Proof.
  unfold bit_at. set (x := wd _ _). assert (Hk : 0 <= Z.land 7 idx) by (apply Z.land_nonneg; lia).
  set (k := Z.land 7 idx) in *. assert (E : Z.land x (Z.shiftl 1 k) = Z.b2z (Z.testbit x k) * 2 ^ k).
  { apply Z.bits_inj'. intros i Hi. rewrite Z.land_spec, Z.shiftl_spec, Z.mul_pow2_bits by lia.
    destruct (Z.eq_dec i k) as [->|Hne].
    - rewrite Z.sub_diag. change (Z.testbit 1 0) with true. rewrite andb_true_r. now destruct (Z.testbit x k).
    - destruct (Z.ltb_spec i k).
      + rewrite !(Z.testbit_neg_r _ (i - k)) by lia. apply andb_false_r.
      + rewrite Z.bits_above_log2 with (a := 1) by (cbn; lia). rewrite andb_false_r.
        destruct (Z.testbit x k); cbn; [now rewrite Z.bits_above_log2 by (cbn; lia)|now rewrite Z.bits_0]. }
  rewrite E. destruct (Z.testbit x k); cbn [Z.b2z negb]; [|done].
  pose proof (Z.pow_pos_nonneg 2 k ltac:(lia) Hk). rewrite (proj2 (Z.eqb_neq _ 0)) by lia. done.
Qed.

(** Setting a bit sets exactly that bit. *)
Lemma bit_set bytes i j : 0 <= i < 8 * len bytes -> 0 <= j -> bit_at (set_bit bytes i) j = (i =? j) || bit_at bytes j.
Proof.
  intros Hi Hj. destruct (bit_split i) as [Ei Ri]; [lia|]. destruct (bit_split j) as [Ej Rj]; [lia|].
  rewrite !bit_at_test. unfold set_bit, upd, wd.
  destruct (Z.eq_dec (Z.shiftr i 3) (Z.shiftr j 3)) as [E|Hne].
  - rewrite E, list_lookup_insert_eq by lia. cbn [default]. change (id ?x) with x. rewrite Z.lor_spec, Z.shiftl_spec by lia. rewrite orb_comm. f_equal.
    destruct (Z.eqb_spec i j) as [->|Hij]; [now rewrite Z.sub_diag|].
    destruct (Z.ltb_spec (Z.land 7 j) (Z.land 7 i)); [now rewrite Z.testbit_neg_r by lia|].
    apply Z.bits_above_log2; cbn; lia.
  - rewrite list_lookup_insert_ne by lia. rewrite (proj2 (Z.eqb_neq i j)) by (intros ->; lia). done.
Qed.

Lemma set_bit_length bytes i : length (set_bit bytes i) = length bytes.
Proof. apply length_insert. Qed.

(** The bits after a sequence of updates. *)
Lemma bits_set l : forall bytes j, Forall (fun i => 0 <= i < 8 * len bytes) l -> 0 <= j ->
  bit_at (foldl set_bit bytes l) j = existsb (Z.eqb j) l || bit_at bytes j.
Proof.
  induction l as [|i l IH]; intros bytes j Hl Hj; cbn [foldl existsb]; [done|].
  apply Forall_cons in Hl as [Hi Hl]. rewrite IH, bit_set by (try rewrite set_bit_length; done).
  rewrite (Z.eqb_sym j i). destruct (existsb _ _), (i =? j); done.
Qed.

Lemma set_bits_length l : forall bytes, length (foldl set_bit bytes l) = length bytes.
Proof. induction l as [|i l IH]; intros bytes; cbn [foldl]; [done|]. now rewrite IH, set_bit_length. Qed.

(** ** Filters *)

(** A filter whose hash function is defined. *)
Definition filter_ok (f : BRBloomFilter) : Prop := filterData f <> [] /\ bytes_ok (filterData f).

Lemma filter_indexes_range f data : filterData f <> [] -> Forall (fun i => 0 <= i < 8 * len (filterData f)) (hash_indexes f data).
Proof.
  intros Hf. apply Forall_fmap, Forall_forall. intros n _. cbn. unfold _BRBloomFilterHash.
  destruct (filterData f) as [|b l]; [done|]. cbn [length]. pose proof (Z.mod_pos_bound (BRMurmur3_32 data (u32 (n * 4221880213 + tweak f)))
    (Z.of_nat (S (length l)) * 8) ltac:(lia)). lia.
Qed.

(** Same parameters, hence the same hash functions. *)
Definition same_params (f g : BRBloomFilter) : Prop :=
  len (filterData f) = len (filterData g) /\ hashFuncs f = hashFuncs g /\ tweak f = tweak g /\ flags f = flags g.

Lemma same_indexes f g data : same_params f g -> hash_indexes g data = hash_indexes f data.
Proof. intros (E1 & E2 & E3 & _). unfold hash_indexes, _BRBloomFilterHash. now rewrite E1, E2, E3. Qed.

Definition insert_all (f : BRBloomFilter) (l : list (list Z)) : option BRBloomFilter :=
  for_each (fun f d => BRBloomFilterInsertData f (Some d)) f l.

Lemma insert_spec f data : filterData f <> [] -> exists g, BRBloomFilterInsertData f (Some data) = Some g /\ same_params f g /\
  elemCount g = elemCount f + 1 /\
  forall j, 0 <= j -> bit_at (filterData g) j = existsb (Z.eqb j) (hash_indexes f data) || bit_at (filterData f) j.
Proof.
  intros Hf. unfold BRBloomFilterInsertData. rewrite (proj2 (Z.eqb_neq _ 0)) by (destruct (filterData f); [done|cbn; lia]). cbn [andb].
  eexists. split; [done|]. split; [|split; [done|]].
  - unfold same_params. cbn. now rewrite set_bits_length.
  - intros j Hj. cbn. apply bits_set; [now apply filter_indexes_range|done].
Qed.

Lemma same_params_trans f g h : same_params f g -> same_params g h -> same_params f h.
Proof. intros (? & ? & ? & ?) (? & ? & ? & ?). split_and!; congruence. Qed.

Lemma same_nonempty f g : same_params f g -> filterData f <> [] -> filterData g <> [].
Proof. intros (E & _) Hf. destruct (filterData f), (filterData g); cbn in E; lia || done. Qed.

Lemma insert_all_spec l : forall f, filterData f <> [] -> exists g, insert_all f l = Some g /\ same_params f g /\
  elemCount g = elemCount f + len l /\
  forall j, 0 <= j -> bit_at (filterData g) j = existsb (fun d => existsb (Z.eqb j) (hash_indexes f d)) l || bit_at (filterData f) j.
Proof.
  induction l as [|d l IH]; intros f Hf; unfold insert_all; cbn [for_each].
  - exists f. split; [done|]. split; [done|]. split; [cbn; lia|done].
  - destruct (insert_spec f d Hf) as (g & -> & Hs & Hc & Hb). rewrite bind_Some_l.
    destruct (IH g (same_nonempty f g Hs Hf)) as (h & E & Hs2 & Hc2 & Hb2). exists h. split; [exact E|].
    split; [now apply (same_params_trans f g)|]. split; [cbn [length]; lia|]. intros j Hj. rewrite Hb2, Hb by done. cbn [existsb].
    assert (Es : existsb (fun d => existsb (Z.eqb j) (hash_indexes g d)) l = existsb (fun d => existsb (Z.eqb j) (hash_indexes f d)) l).
    { clear -Hs. induction l as [|x l IH]; [done|]. cbn [existsb]. now rewrite IH, (same_indexes f g). }
    rewrite Es, orb_assoc. f_equal. apply orb_comm.
Qed.

(** ** Serialization *)

Lemma filter_bytes_length f : len (filter_bytes f) = BRVarIntSize (len (filterData f)) + len (filterData f) + 4 + 4 + 1.
Proof. unfold filter_bytes, BRVarIntSize. rewrite !length_app. cbn. lia. Qed.

Lemma filter_writes f : len (filterData f) <= BLOOM_MAX_FILTER_LENGTH -> writes (BRBloomFilterSerialize f) (filter_bytes f).
Proof.
  unfold BLOOM_MAX_FILTER_LENGTH. intros Hl. pose proof (varint_bytes_length (len (filterData f)) ltac:(lia)) as Hv.
  pose proof (filter_bytes_length f) as Hb. unfold BRVarIntSize in Hb.
  assert (E : forall p n, BRBloomFilterSerialize f p n = write_result p n (filter_bytes f)).
  { intros p n. unfold BRBloomFilterSerialize, write_result, BRVarIntSize. rewrite <- Hb, u64_id by lia. now destruct p. }
  intros p n. rewrite E. apply write_result_writes. lia.
Qed.

Lemma parse_serialized f rest : len (filterData f) <= BLOOM_MAX_FILTER_LENGTH -> 0 <= hashFuncs f < 0x100000000 ->
  0 <= tweak f < 0x100000000 -> 0 <= flags f < 256 -> len rest < 0x10000000000000 ->
  BRBloomFilterParse (filter_bytes f ++ rest) = Some (Some (mkFilter (filterData f) (hashFuncs f) 0 (tweak f) (flags f))).
Proof.
  unfold BLOOM_MAX_FILTER_LENGTH. intros Hl Hh Ht Hfl Hr. pose proof (varint_bytes_length (len (filterData f)) ltac:(lia)) as Hv.
  set (buf := filter_bytes f ++ rest). set (v := varint_bytes (len (filterData f))) in *. set (d := filterData f) in *.
  assert (Eb : buf = v ++ d ++ UInt32SetLE (hashFuncs f) ++ UInt32SetLE (tweak f) ++ [flags f] ++ rest).
  { unfold buf, filter_bytes. fold d. fold v. now rewrite <- !app_assoc. }
  assert (L4 : forall u, len (UInt32SetLE u) = 4) by (intros u; done).
  pose proof (L4 (hashFuncs f)). pose proof (L4 (tweak f)).
  assert (Lb : len buf = len v + len d + 9 + len rest) by (rewrite Eb, !length_app; cbn; lia).
  assert (Hbuf : len buf < 0x10000000000000000) by lia. unfold BRBloomFilterParse.
  rewrite (varint_field buf Hbuf (len d) [] (d ++ UInt32SetLE (hashFuncs f) ++ UInt32SetLE (tweak f) ++ [flags f] ++ rest)) by (done || lia).
  fold v. rewrite bind_Some_l. unfold BLOOM_MAX_FILTER_LENGTH.
  rewrite (size_add_id buf Hbuf 0 (len v)), Z.add_0_l, (size_add_id buf Hbuf (len v) (len d)) by lia.
  rewrite (size_add_id buf Hbuf (len v + len d) 4), (size_add_id buf Hbuf (len v + len d + 4) 4) by lia.
  rewrite (proj2 (Z.leb_le (len d) 36000)), (proj2 (Z.leb_le (len v + len d) _)) by lia. cbn [andb].
  rewrite (mem_field buf Hbuf v d (UInt32SetLE (hashFuncs f) ++ UInt32SetLE (tweak f) ++ [flags f] ++ rest)) by done.
  cbn [fmap option_fmap option_map]. rewrite bind_Some_l.
  rewrite (get_field buf Hbuf UInt32GetLE 0 4 (v ++ d) (UInt32SetLE (hashFuncs f)) (UInt32SetLE (tweak f) ++ [flags f] ++ rest) (len v + len d));
    [|now rewrite <- app_assoc|rewrite !length_app; lia|done]. rewrite bind_Some_l, UInt32Get_Set by done.
  rewrite (get_field buf Hbuf UInt32GetLE 0 4 (v ++ d ++ UInt32SetLE (hashFuncs f)) (UInt32SetLE (tweak f)) ([flags f] ++ rest) (len v + len d + 4));
    [|rewrite Eb, <- !app_assoc; done|rewrite !length_app; lia|done]. rewrite bind_Some_l, UInt32Get_Set by done.
  rewrite (get_field buf Hbuf (fun b => wd b 0) 0 1 (v ++ d ++ UInt32SetLE (hashFuncs f) ++ UInt32SetLE (tweak f)) [flags f] rest (len v + len d + 4 + 4));
    [|rewrite Eb, <- !app_assoc; done|rewrite !length_app; lia|done]. rewrite bind_Some_l. done.
Qed.

(** ** Properties *)

(** C40. A bloom filter has no false negatives and nothing else changes a verdict: after any data have been
    inserted into a filter, [BRBloomFilterContainsData] accepts an element exactly when each of its bits
    was set before or belongs to an inserted element; so every inserted element is accepted, and every
    element accepted before still is.  The parameters stay and the elements are counted. *)
Theorem bloom_spec f l : filterData f <> [] ->
  exists g, insert_all f l = Some g /\ same_params f g /\ elemCount g = elemCount f + len l /\
    (forall d, exists b, BRBloomFilterContainsData g (Some d) = Some b /\
       (b = true <-> forall j, j ∈ hash_indexes f d -> bit_at (filterData f) j = true \/ exists e, e ∈ l /\ j ∈ hash_indexes f e)) /\
    (forall d, d ∈ l -> BRBloomFilterContainsData g (Some d) = Some true) /\
    (forall d, BRBloomFilterContainsData f (Some d) = Some true -> BRBloomFilterContainsData g (Some d) = Some true).
Proof.
  intros Hf. destruct (insert_all_spec l f Hf) as (g & E & Hs & Hc & Hb). exists g. do 3 (split; [done|]).
  pose proof (same_nonempty f g Hs Hf) as Hg.
  assert (Hcon : forall f d, filterData f <> [] -> BRBloomFilterContainsData f (Some d) = Some (forallb (bit_at (filterData f)) (hash_indexes f d))).
  { intros f' d Hf'. unfold BRBloomFilterContainsData. rewrite (proj2 (Z.eqb_neq _ 0)); [done|]. destruct (filterData f'); [done|cbn; lia]. }
  assert (Hall : forall d, forallb (bit_at (filterData g)) (hash_indexes g d) = true <->
    forall j, j ∈ hash_indexes f d -> bit_at (filterData f) j = true \/ exists e, e ∈ l /\ j ∈ hash_indexes f e).
  { intros d. rewrite (same_indexes f g) by done. rewrite forallb_forall. setoid_rewrite <- list_elem_of_In.
    assert (Hj : forall j, j ∈ hash_indexes f d -> 0 <= j).
    { intros j Hj. pose proof (filter_indexes_range f d Hf) as Hr. rewrite Forall_forall in Hr. apply Hr in Hj. lia. }
    assert (He : forall j, existsb (fun e => existsb (Z.eqb j) (hash_indexes f e)) l = true <-> exists e, e ∈ l /\ j ∈ hash_indexes f e).
    { intros j. rewrite existsb_exists. setoid_rewrite existsb_exists. setoid_rewrite <- list_elem_of_In. setoid_rewrite Z.eqb_eq. naive_solver. }
    split; intros Hx j Hin; specialize (Hx j Hin); rewrite Hb in * by auto; rewrite orb_true_iff, He in *; tauto. }
  split; [|split].
  - intros d. eexists. split; [now apply Hcon|]. apply Hall.
  - intros d Hd. rewrite Hcon by done. f_equal. apply Hall. intros j Hj. right. eauto.
  - intros d Hd. rewrite Hcon in * by done. injection Hd as Hd. f_equal. apply Hall. intros j Hj. left.
    rewrite forallb_forall in Hd. apply Hd. now apply list_elem_of_In.
Qed.

Lemma bloom_spec_witness : exists g, insert_all (BRBloomFilterNew 3 (fun _ => 5) 0 BLOOM_UPDATE_ALL) [[1; 2; 3]; [9]] = Some g /\
  BRBloomFilterContainsData g (Some [1; 2; 3]) = Some true /\ BRBloomFilterContainsData g (Some [1; 2; 4]) = Some false.
Proof.
  destruct (bloom_spec (BRBloomFilterNew 3 (fun _ => 5) 0 BLOOM_UPDATE_ALL) [[1; 2; 3]; [9]] ltac:(discriminate))
    as (g & E & _ & _ & _ & Hin & _).
  exists g. split; [exact E|]. split; [apply Hin; left|].
  assert (Ev : (g ← insert_all (BRBloomFilterNew 3 (fun _ => 5) 0 BLOOM_UPDATE_ALL) [[1; 2; 3]; [9]];
    BRBloomFilterContainsData g (Some [1; 2; 4])) = Some false) by (vm_compute; reflexivity).
  rewrite E in Ev. exact Ev.
Defined.

(** Serialization: a filter of at most BLOOM_MAX_FILTER_LENGTH bytes is written as its length, data,
    number of hash functions, tweak and flags (or only measured), and [BRBloomFilterParse] reads it back,
    whatever follows, with the element count reset. *)
Theorem bloom_roundtrip f rest : len (filterData f) <= BLOOM_MAX_FILTER_LENGTH -> 0 <= hashFuncs f < 0x100000000 ->
  0 <= tweak f < 0x100000000 -> 0 <= flags f < 256 -> len rest < 0x10000000000000 ->
  writes (BRBloomFilterSerialize f) (filter_bytes f) /\
  BRBloomFilterParse (filter_bytes f ++ rest) = Some (Some (mkFilter (filterData f) (hashFuncs f) 0 (tweak f) (flags f))).
Proof. intros Hl Hh Ht Hfl Hr. split; [now apply filter_writes|now apply parse_serialized]. Qed.

Lemma bloom_roundtrip_witness : BRBloomFilterParse (filter_bytes (mkFilter [1; 2; 3] 7 9 0xffffffff 1) ++ [8]) =
  Some (Some (mkFilter [1; 2; 3] 7 0 0xffffffff 1)).
Proof. apply (bloom_roundtrip (mkFilter [1; 2; 3] 7 9 0xffffffff 1) [8]); cbn; unfold BLOOM_MAX_FILTER_LENGTH; lia. Defined.

(** An empty filter with a hash function, which [BRBloomFilterParse] accepts, makes both operations divide
    by zero. *)
Example empty_filter_divides : exists f, BRBloomFilterParse [0; 1; 0; 0; 0; 0; 0; 0; 0; 0] = Some (Some f) /\
  BRBloomFilterContainsData f (Some [1]) = None.
Proof. exists (mkFilter [] 1 0 0 0). split; vm_compute; reflexivity. Qed.
