(* ===== verification/Key.v ===== *)
(** * Key: private keys, public keys and signatures (BRKey.c, BRKey.h)

    The scalar side of libsecp256k1 (checking and tweaking private keys, which is arithmetic modulo the
    order of the group) is translated; the operations on points and signatures are the parameters of
    the class [Secp256k1], and what the library documents about them is the class [Secp256k1Laws].
    A [UInt256] is a number whose little-endian bytes are its memory; the library reads the same
    memory as a big-endian number.  [BRKeyPubKey] caches the public key inside the key, so the
    functions that call it return the changed key. *)
From stdpp Require Import base numbers list.
From Stdlib Require Import ZArith Lia.
From S2P Require Import Prelude CMem Int Crypto Base58 Address Transaction.
Local Open Scope Z_scope.

(** ** Scalars of libsecp256k1 *)

(** The order of the group. *)
Definition secp256k1_n : Z := 0xFFFFFFFFFFFFFFFFFFFFFFFFFFFFFFFEBAAEDCE6AF48A03BBFD25E8CD0364141.

(** [secp256k1_scalar_set_b32]: the reduced scalar and the overflow flag. *)
Definition scalar_set_b32 (b32 : list Z) : Z * bool :=
  (be_num 256 b32 mod secp256k1_n, secp256k1_n <=? be_num 256 b32).

Definition scalar_get_b32 (a : Z) : list Z := reverse (le_bytes 32 a).

Definition secp256k1_ec_seckey_verify (seckey : list Z) : bool :=
  let '(sec, overflow) := scalar_set_b32 seckey in negb overflow && negb (sec =? 0).

(** The new contents of [seckey] and the return value. *)
Definition secp256k1_ec_privkey_tweak_add (seckey tweak : list Z) : list Z * bool :=
  let '(term, overflow) := scalar_set_b32 tweak in
  let sec := (fst (scalar_set_b32 seckey) + term) mod secp256k1_n in
  if negb overflow && negb (sec =? 0) then (scalar_get_b32 sec, true) else (replicate 32 0, false).

Definition secp256k1_ec_privkey_tweak_mul (seckey tweak : list Z) : list Z * bool :=
  let '(factor, overflow) := scalar_set_b32 tweak in
  let sec := fst (scalar_set_b32 seckey) in
  if negb overflow && negb (factor =? 0) then (scalar_get_b32 (sec * factor mod secp256k1_n), true)
  else (replicate 32 0, false).

(** ** Points and signatures of libsecp256k1

    [None] is a return value of 0.  The flag of [ec_pubkey_serialize] is [SECP256K1_EC_COMPRESSED]. *)
Class Secp256k1 (point sig rsig : Type) := {
  ec_pubkey_create : list Z -> option point;
  ec_pubkey_serialize : bool -> point -> list Z;
  ec_pubkey_parse : list Z -> option point;
  ec_pubkey_tweak_add : point -> list Z -> option point;
  ec_pubkey_tweak_mul : point -> list Z -> option point;
  ecdsa_sign : list Z -> list Z -> option sig;
  ecdsa_signature_serialize_der : sig -> list Z;
  ecdsa_signature_parse_der : list Z -> option sig;
  ecdsa_verify : sig -> list Z -> point -> bool;
  ecdsa_sign_recoverable : list Z -> list Z -> option rsig;
  recoverable_serialize_compact : rsig -> list Z * Z;
  recoverable_parse_compact : list Z -> Z -> option rsig;
  ecdsa_recover : rsig -> list Z -> option point;
}.

Section key.
Context {point sig rsig : Type} `{Secp256k1 point sig rsig}.

(** *** Points *)

Definition BRSecp256k1ModAdd (a b : Z) : Z * bool :=
  let '(r, ok) := secp256k1_ec_privkey_tweak_add (UInt256Set a) (UInt256Set b) in (UInt256Get r, ok).

Definition BRSecp256k1ModMul (a b : Z) : Z * bool :=
  let '(r, ok) := secp256k1_ec_privkey_tweak_mul (UInt256Set a) (UInt256Set b) in (UInt256Get r, ok).

(** The 33 bytes of [p] after the call, and the return value. *)
Definition point_result (p : list Z) (r : option point) : list Z * bool :=
  match r with Some pubkey => (ec_pubkey_serialize true pubkey, true) | None => (p, false) end.

Definition BRSecp256k1PointGen (p : list Z) (i : Z) : list Z * bool :=
  point_result p (ec_pubkey_create (UInt256Set i)).

Definition BRSecp256k1PointAdd (p : list Z) (i : Z) : list Z * bool :=
  point_result p (pubkey ← ec_pubkey_parse p; ec_pubkey_tweak_add pubkey (UInt256Set i)).

Definition BRSecp256k1PointMul (p : list Z) (i : Z) : list Z * bool :=
  point_result p (pubkey ← ec_pubkey_parse p; ec_pubkey_tweak_mul pubkey (UInt256Set i)).

(** *** Setting a key *)

Record BRKey := mkKey { secret : Z; pubKey : list Z; compressed : bool }.

Definition BRKeyClean : BRKey := mkKey 0 (replicate 65 0) false.

Definition BRKeySetSecret (secret : Z) (compressed : bool) : BRKey * bool :=
  (mkKey secret (pubKey BRKeyClean) compressed, secp256k1_ec_seckey_verify (UInt256Set secret)).

Definition BITCOIN_PRIVKEY : Z := 128.

(** [strspn(s, "0123456789ABCDEFabcdef")] *)
Definition is_hex_digit (c : Z) : bool :=
  ((48 <=? c) && (c <=? 57)) || ((65 <=? c) && (c <=? 70)) || ((97 <=? c) && (c <=? 102)).

Fixpoint hex_span (s : list Z) : nat :=
  match s with
  | c :: s' => if is_hex_digit c then S (hex_span s') else O
  | [] => O
  end.

(** The mini private key format: 22 or 30 characters, the first one [S]. *)
Definition mini_format (s : list Z) : bool := ((len s =? 30) || (len s =? 22)) && (wd s 0 =? 83).

(** [uint8_t data[34]; BRBase58CheckDecode(data, sizeof(data), privKey)]: the array and the length. *)
Definition decode34 (f : ptr -> Z -> list Z -> option (ptr * Z)) (s : list Z) : option (list Z * Z) :=
  r ← f (Some (replicate 34 0)) 34 s; Some (default [] (fst r), snd r).

Definition BRPrivKeyIsValid (privKey : list Z) : option bool :=
  dl ← decode34 BRBase58CheckDecode privKey;
  let '(data, dataLen) := dl in
  Some (if (dataLen =? 33) || (dataLen =? 34) then wd data 0 =? BITCOIN_PRIVKEY
        else if mini_format privKey then wd (BRSHA256 (privKey ++ [63])) 0 =? 0
        else Z.of_nat (hex_span privKey) =? 64).

(** [sscanf(s, "%2hhx", &b) == 1]: white space, then at most two characters of a hexadecimal number,
    which may have a sign; the prefix 0x alone does not match. *)
Definition is_space (c : Z) : bool := (c =? 32) || ((9 <=? c) && (c <=? 13)).

Fixpoint skip_space (s : list Z) : list Z :=
  match s with
  | c :: s' => if is_space c then skip_space s' else s
  | [] => []
  end.

Definition scan_hhx (s : list Z) : option Z :=
  match skip_space s with
  | c :: s' =>
      if (c =? 43) || (c =? 45) then
        if is_hex_digit (wd s' 0) then Some (u8 (if c =? 45 then - _hexu (wd s' 0) else _hexu (wd s' 0))) else None
      else if is_hex_digit c then
        if (c =? 48) && ((wd s' 0 =? 120) || (wd s' 0 =? 88)) then None
        else if is_hex_digit (wd s' 0) then Some (Z.lor (Z.shiftl (_hexu c) 4) (_hexu (wd s' 0)))
        else Some (_hexu c)
      else None
  | [] => None
  end.

(** The loop that reads pairs of characters into [data], [n] iterations at most. *)
Fixpoint hex_loop (n : nat) (privKey data : list Z) (l : Z) : list Z * Z :=
  match n with
  | O => (data, l)
  | S n' =>
      let s := drop (Z.to_nat (l * 2)) privKey in
      if (2 <=? len s) && (l <? 34) then
        match scan_hhx s with
        | Some b => hex_loop n' privKey (upd data l b) (l + 1)
        | None => (data, l)
        end
      else (data, l)
  end.

Definition BRKeySetPrivKey (key : BRKey) (privKey : list Z) : option (BRKey * bool) :=
  if mini_format privKey then
    valid ← BRPrivKeyIsValid privKey;
    Some (if (valid : bool) then BRKeySetSecret (UInt256Get (BRSHA256 privKey)) false else (key, false))
  else
    dl ← decode34 BRBase58CheckDecode privKey;
    dl ← (if (snd dl =? 0) || (snd dl =? 28) then decode34 BRBase58Decode privKey else Some dl);
    let dl := if (snd dl <? 32) || (34 <? snd dl) then hex_loop 35 privKey (fst dl) 0 else dl in
    let '(data, l) := dl in
    Some (if ((l =? 33) || (l =? 34)) && (wd data 0 =? BITCOIN_PRIVKEY) then
            BRKeySetSecret (UInt256Get (drop 1 data)) (l =? 34)
          else if l =? 32 then BRKeySetSecret (UInt256Get data) false
          else (key, false)).

Definition BRKeySetPubKey (pk : list Z) : BRKey * bool :=
  (mkKey 0 (pk ++ drop (length pk) (pubKey BRKeyClean)) (len pk <=? 33), bool_decide (is_Some (ec_pubkey_parse pk))).

(** *** Writing keys and addresses *)

Definition BRKeyPrivKey (key : BRKey) (privKey : ptr) (pkLen : Z) : option (ptr * Z) :=
  if secp256k1_ec_seckey_verify (UInt256Set (secret key)) then
    BRBase58CheckEncode privKey pkLen
      ([BITCOIN_PRIVKEY] ++ UInt256Set (secret key) ++ (if compressed key then [0x01] else []))
  else Some (privKey, 0).

(** The cached public key and its length ([size]). *)
Definition key_point (key : BRKey) : BRKey * Z :=
  let size := if compressed key then 33%nat else 65%nat in
  if bool_decide (take size (pubKey key) = replicate size 0) then
    match ec_pubkey_create (UInt256Set (secret key)) with
    | Some pk =>
        let s := ec_pubkey_serialize (compressed key) pk in
        (mkKey (secret key) (s ++ drop (length s) (pubKey key)) (compressed key), len s)
    | None => (key, 0)
    end
  else (key, Z.of_nat size).

Definition BRKeyPubKey (key : BRKey) (pk : ptr) (pkLen : Z) : option (BRKey * (ptr * Z)) :=
  let '(key, size) := key_point key in
  r ← write_result pk pkLen (take (Z.to_nat size) (pubKey key)); Some (key, r).

Definition UINT160_ZERO : list Z := replicate 20 0.

Definition BRKeyHash160 (key : BRKey) : option (BRKey * list Z) :=
  '(key, r) ← BRKeyPubKey key None 0;
  let pk := take (Z.to_nat (snd r)) (pubKey key) in
  Some (key, if (0 <? snd r) && bool_decide (is_Some (ec_pubkey_parse pk)) then BRHash160 pk else UINT160_ZERO).

Definition BRKeyAddress (key : BRKey) (addr : ptr) (addrLen : Z) : option (BRKey * (ptr * Z)) :=
  '(key, hash) ← BRKeyHash160 key;
  r ← (if bool_decide (hash = UINT160_ZERO) then Some (addr, 0)
       else BRBase58CheckEncode addr addrLen ([BITCOIN_PUBKEY_ADDRESS] ++ hash));
  Some (key, r).

(** *** Signatures *)

Definition BRKeySign (key : BRKey) (sig : ptr) (sigLen : Z) (md : Z) : option (ptr * Z) :=
  match ecdsa_sign (UInt256Set md) (UInt256Set (secret key)) with
  | Some s =>
      let der := ecdsa_signature_serialize_der s in
      match sig with
      | Some m => if len der <=? sigLen then m' ← mem_write m 0 der; Some (Some m', len der) else Some (sig, 0)
      | None => None
      end
  | None => Some (sig, 0)
  end.

Definition BRKeyVerify (key : BRKey) (md : Z) (sig : list Z) : option (BRKey * bool) :=
  if len sig =? 0 then None
  else
    '(key, r) ← BRKeyPubKey key None 0;
    Some (key, match (if 0 <? snd r then ec_pubkey_parse (take (Z.to_nat (snd r)) (pubKey key)) else None),
                     ecdsa_signature_parse_der sig with
               | Some pk, Some s => ecdsa_verify s (UInt256Set md) pk
               | _, _ => false
               end).

Definition BRKeyCompactSign (key : BRKey) (compactSig : ptr) (sigLen : Z) (md : Z) : option (ptr * Z) :=
  if bool_decide (is_Some compactSig) && (sigLen <? 65) then None
  else if UInt256IsZero (secret key) then Some (compactSig, 0)
  else
    match compactSig with
    | None => Some (None, 65)
    | Some m =>
          match ecdsa_sign_recoverable (UInt256Set md) (UInt256Set (secret key)) with
          | Some s =>
              let '(body, recid) := recoverable_serialize_compact s in
              m' ← mem_write m 0 ([u8 (27 + recid + (if compressed key then 4 else 0))] ++ body);
              Some (Some m', 65)
          | None => Some (compactSig, 0)
          end
    end.

(** [%] of C rounds towards zero; a negative [recid] makes the library abort. *)
Definition BRKeyRecoverPubKey (key : BRKey) (md : Z) (compactSig : list Z) : option (BRKey * bool) :=
  if negb (len compactSig =? 65) then None
  else
    let compressed := 4 <=? wd compactSig 0 - 27 in
    let recid := Z.rem (wd compactSig 0 - 27) 4 in
    if recid <? 0 then None
    else
      Some (match (s ← recoverable_parse_compact (drop 1 compactSig) recid; ecdsa_recover s (UInt256Set md)) with
            | Some pk => BRKeySetPubKey (ec_pubkey_serialize compressed pk)
            | None => (key, false)
            end).
End key.

(** ** What libsecp256k1 documents *)

Notation bytes32 l := (bytes_ok l /\ length l = 32%nat).

Class Secp256k1Laws (point sig rsig : Type) `{Secp256k1 point sig rsig} : Prop := {
  create_valid k : bytes32 k -> is_Some (ec_pubkey_create k) <-> secp256k1_ec_seckey_verify k = true;
  serialize_length c p : length (ec_pubkey_serialize c p) = if c then 33%nat else 65%nat;
  serialize_bytes c p : bytes_ok (ec_pubkey_serialize c p);
  serialize_tag c p : wd (ec_pubkey_serialize c p) 0 <> 0;
  parse_serialize c k p : bytes32 k -> ec_pubkey_create k = Some p ->
    ec_pubkey_parse (ec_pubkey_serialize c p) = Some p;
  create_tweak_add k t p : bytes32 k -> bytes32 t -> ec_pubkey_create k = Some p ->
    ec_pubkey_tweak_add p t =
      if snd (secp256k1_ec_privkey_tweak_add k t) then ec_pubkey_create (fst (secp256k1_ec_privkey_tweak_add k t))
      else None;
  sign_total md k : bytes32 md -> bytes32 k -> secp256k1_ec_seckey_verify k = true ->
    is_Some (ecdsa_sign md k) /\ is_Some (ecdsa_sign_recoverable md k);
  sign_verify md k p s : bytes32 md -> bytes32 k -> ecdsa_sign md k = Some s -> ec_pubkey_create k = Some p ->
    ecdsa_verify s md p = true;
  der_roundtrip md k s : bytes32 md -> bytes32 k -> ecdsa_sign md k = Some s ->
    ecdsa_signature_parse_der (ecdsa_signature_serialize_der s) = Some s /\
    0 < len (ecdsa_signature_serialize_der s) <= 72;
  compact_roundtrip md k s : bytes32 md -> bytes32 k -> ecdsa_sign_recoverable md k = Some s ->
    let '(body, recid) := recoverable_serialize_compact s in
    recoverable_parse_compact body recid = Some s /\ length body = 64%nat /\ 0 <= recid <= 3;
  sign_recover md k p s : bytes32 md -> bytes32 k -> ecdsa_sign_recoverable md k = Some s ->
    ec_pubkey_create k = Some p -> ecdsa_recover s md = Some p;
}.

Lemma c_str_app s rest : 0 ∉ s -> c_str (s ++ 0 :: rest) = s.
Proof.
  induction s as [|c s IH]; intros H; [done|]. apply not_elem_of_cons in H as [H1 H2]. cbn [app c_str].
  rewrite (proj2 (Z.eqb_neq c 0)) by congruence. now rewrite IH.
Qed.

(** The address string of a hash, in a buffer with room for it. *)
Lemma written_address h m : hash20 h -> 36 <= len m ->
  let a := address_string BITCOIN_PUBKEY_ADDRESS h in
  exists m', BRBase58CheckEncode (Some m) 36 (BITCOIN_PUBKEY_ADDRESS :: h) = Some (Some m', len a + 1) /\ c_str m' = a /\ wd m' 0 <> 0.
Proof.
  intros Hh Hm a. destruct (version_bytes BITCOIN_PUBKEY_ADDRESS h) as [Vb Vl]; [unfold BITCOIN_PUBKEY_ADDRESS; lia|exact Hh|].
  assert (Hf : bytes_ok ((BITCOIN_PUBKEY_ADDRESS :: h) ++ take 4 (BRSHA256_2 (BITCOIN_PUBKEY_ADDRESS :: h))))
    by (apply Forall_app; split; [exact Vb|apply Forall_take, hash_bytes]).
  assert (La : 0 < len a <= 35).
  { unfold a, address_string. pose proof (base58_string_length _ Hf) as L. pose proof (base58_string_longer _ Hf) as L'.
    rewrite length_app, sha_checksum_length in L, L'. revert L L'. zdiv_lia. }
  assert (Ha : 0 ∉ a) by (apply base58_string_no_nul; exact Hf).
  pose proof (check_encode_writes (BITCOIN_PUBKEY_ADDRESS :: h) Vb ltac:(lia) (Some m) 36) as W.
  fold (address_string BITCOIN_PUBKEY_ADDRESS h) in W. fold a in W. revert W La Ha. clearbody a. intros W La Ha.
  rewrite W by (unfold room; rewrite length_app; cbn [length]; lia).
  unfold cursor. cbn [fmap option_fmap option_map]. eexists. split; [|split].
  - rewrite length_app, u64_id by (cbn [length]; lia). rewrite Nat2Z.inj_add. reflexivity.
  - rewrite <- app_assoc. cbn [app]. now apply c_str_app.
  - destruct a as [|x a]; [cbn in La; lia|]. apply not_elem_of_cons in Ha as [Hx _]. change (x <> 0). congruence.
Qed.

Lemma be_num_256_range l : bytes_ok l -> 0 <= be_num 256 l < 256 ^ len l.
Proof. exact (be_num_range 256 eq_refl l). Qed.

Lemma scalar_get_bytes a : bytes32 (scalar_get_b32 a).
Proof.
  unfold scalar_get_b32. split; [apply Forall_reverse, le_bytes_ok|].
  now rewrite length_reverse, length_le_digits.
Qed.

Lemma be_scalar_get a : 0 <= a < secp256k1_n -> be_num 256 (scalar_get_b32 a) = a.
Proof.
  intros Ha. unfold be_num, scalar_get_b32. rewrite reverse_involutive. apply le_val_le_bytes_id.
  unfold secp256k1_n in Ha. change (256 ^ Z.of_nat 32) with U256. unfold U256. lia.
Qed.

Lemma u256_bytes u : bytes32 (UInt256Set u).
Proof. split; [apply le_bytes_ok|apply length_le_digits]. Qed.

Lemma tweak_add_bytes k t : bytes32 (fst (secp256k1_ec_privkey_tweak_add k t)).
Proof.
  unfold secp256k1_ec_privkey_tweak_add. destruct (scalar_set_b32 t) as [a o].
  destruct (_ && _); [apply scalar_get_bytes|]. split; [|done].
  apply Forall_replicate. unfold is_byte. lia.
Qed.

(** The wallet import format string of a payload, and what the decoder makes of it. *)
Definition check_string (data : list Z) : list Z := base58_string (data ++ take 4 (BRSHA256_2 data)).

Lemma check_string_decode data p n : bytes_ok data -> len data < 0x100000000 ->
  BRBase58CheckDecode p n (check_string data) = write_result p n data.
Proof.
  intros Hd Hl. assert (Hf : bytes_ok (data ++ take 4 (BRSHA256_2 data)))
    by (apply Forall_app; split; [done|apply Forall_take, hash_bytes]).
  pose proof (base58_string_length _ Hf) as L. rewrite length_app, sha_checksum_length in L.
  rewrite check_decode_spec; [unfold check_string; now rewrite check_payload_encode|].
  unfold check_string. revert L. zdiv_lia.
Qed.

Lemma check_string_length data : bytes_ok data -> len data + 4 <= len (check_string data).
Proof.
  intros Hd. assert (Hf : bytes_ok (data ++ take 4 (BRSHA256_2 data)))
    by (apply Forall_app; split; [done|apply Forall_take, hash_bytes]).
  pose proof (base58_string_longer _ Hf) as L. rewrite length_app, sha_checksum_length in L.
  unfold check_string. lia.
Qed.

Lemma decode34_payload data : bytes_ok data -> len data <= 34 ->
  decode34 BRBase58CheckDecode (check_string data) = Some (data ++ replicate (34 - length data) 0, len data).
Proof.
  intros Hd Hl. unfold decode34. rewrite check_string_decode by (done || lia).
  unfold write_result. rewrite (proj2 (Z.leb_le _ _)) by done. unfold mem_write.
  rewrite length_replicate, (proj2 (Z.leb_le 0 0)), (proj2 (Z.leb_le (0 + _) _)) by lia.
  simpl. do 2 f_equal. f_equal. exact (drop_replicate (length data) 34 0).
Qed.

(** C30. [BRKeyPrivKey] and [BRKeySetPrivKey] are inverse on valid keys: the wallet import format
    string written for a key is reported valid, never mistaken for the mini format or for
    hexadecimal, and gives back the secret and the compression flag, for both lengths of the string. *)
Theorem wif_roundtrip key : is_u256 (secret key) -> secp256k1_ec_seckey_verify (UInt256Set (secret key)) = true ->
  exists s, 0 ∉ s /\ writes (BRKeyPrivKey key) (s ++ [0]) /\ BRPrivKeyIsValid s = Some true /\
    forall k0, BRKeySetPrivKey k0 s = Some (mkKey (secret key) (replicate 65 0) (compressed key), true).
Proof.
  intros Hu Hv. set (data := [BITCOIN_PRIVKEY] ++ UInt256Set (secret key) ++ (if compressed key then [0x01] else [])).
  destruct (u256_bytes (secret key)) as [Bu Lu].
  assert (Hd : bytes_ok data).
  { unfold data. repeat apply Forall_app_2; [|done|]; [|destruct (compressed key)];
      repeat (apply Forall_cons; split; [unfold is_byte, BITCOIN_PRIVKEY; lia|]); constructor. }
  assert (Hl : len data = if compressed key then 34 else 33)
    by (unfold data; rewrite !length_app, Lu; now destruct (compressed key)).
  assert (Hn : len data <= 34) by (destruct (compressed key); lia).
  pose proof (check_string_length data Hd) as Hs. set (s := check_string data) in *.
  assert (Hm : mini_format s = false).
  { unfold mini_format. rewrite (proj2 (Z.eqb_neq _ 30)), (proj2 (Z.eqb_neq _ 22)); [done|..];
      destruct (compressed key); lia. }
  assert (Hdec : decode34 BRBase58CheckDecode s = Some (data ++ replicate (34 - length data) 0, len data))
    by now apply decode34_payload.
  assert (Hw0 : forall rest, wd (data ++ rest) 0 = BITCOIN_PRIVKEY) by reflexivity.
  assert (Hget : forall rest, UInt256Get (drop 1 (data ++ rest)) = secret key).
  { intros rest. transitivity (UInt256Get (UInt256Set (secret key))); [|now apply UInt256Get_Set].
    reflexivity. }
  exists s. split; [|split; [|split]].
  - apply base58_string_no_nul. apply Forall_app; split; [done|apply Forall_take, hash_bytes].
  - intros p n Hr. unfold BRKeyPrivKey. rewrite Hv. fold data. unfold BRBase58CheckEncode.
    rewrite checked_take. apply write_result_writes; [|done].
    assert (Hf : bytes_ok (data ++ take 4 (BRSHA256_2 data)))
      by (apply Forall_app; split; [done|apply Forall_take, hash_bytes]).
    pose proof (base58_string_length _ Hf) as L. rewrite length_app, sha_checksum_length in L.
    rewrite length_app. cbn [length]. unfold s, check_string. revert L Hn. zdiv_lia.
  - unfold BRPrivKeyIsValid. rewrite Hdec. cbn [mbind option_bind]. rewrite Hl, Hw0. now destruct (compressed key).
  - intros k0. unfold BRKeySetPrivKey. rewrite Hm, Hdec. cbn [mbind option_bind snd].
    rewrite (proj2 (Z.eqb_neq _ 0)), (proj2 (Z.eqb_neq _ 28)) by (destruct (compressed key); lia).
    cbn [orb mbind option_bind snd fst].
    rewrite (proj2 (Z.ltb_ge _ 32)), (proj2 (Z.ltb_ge 34 _)) by (destruct (compressed key); lia).
    cbn [orb]. rewrite Hw0, Hget, Z.eqb_refl, Hl. unfold BRKeySetSecret. rewrite Hv.
    now destruct (compressed key).
Qed.

(** *** Hexadecimal keys *)

Notation hex_digits := (Forall (fun c => is_hex_digit c = true)).

Lemma hex_digit_range c : is_hex_digit c = true -> 48 <= c <= 57 \/ 65 <= c <= 70 \/ 97 <= c <= 102.
Proof. unfold is_hex_digit. rewrite !orb_true_iff, !andb_true_iff, !Z.leb_le. lia. Qed.

Lemma hex_span_all s : hex_digits s -> hex_span s = length s.
Proof. induction 1 as [|c s Hc _ IH]; cbn [hex_span]; [done|]. now rewrite Hc, IH. Qed.

Lemma hexu_range c : 0 <= _hexu c < 16.
Proof. unfold _hexu. repeat case_match; lia. Qed.

Lemma scan_hhx_pair a b rest : is_hex_digit a = true -> is_hex_digit b = true ->
  scan_hhx (a :: b :: rest) = Some (u8 (Z.lor (Z.shiftl (_hexu a) 4) (_hexu b))).
Proof.
  rewrite Z.shiftl_mul_pow2, lor_disjoint, u8_id by (pose proof (hexu_range a); pose proof (hexu_range b); lia).
  rewrite <- (lor_disjoint _ _ 4), <- Z.shiftl_mul_pow2 by (pose proof (hexu_range b); lia).
  intros Ha Hb. pose proof (hex_digit_range a Ha). pose proof (hex_digit_range b Hb).
  unfold scan_hhx. cbn [skip_space]. unfold is_space.
  rewrite (proj2 (Z.eqb_neq a 32)) by lia. replace ((9 <=? a) && (a <=? 13)) with false
    by (symmetry; apply andb_false_iff; rewrite !Z.leb_gt; lia).
  cbn [orb].
  rewrite (proj2 (Z.eqb_neq a 43)), (proj2 (Z.eqb_neq a 45)), Ha by lia.
  change (wd (b :: rest) 0) with b.
  rewrite (proj2 (Z.eqb_neq b 120)), (proj2 (Z.eqb_neq b 88)), Hb, andb_false_r by lia. done.
Qed.

(** [l] bytes [done] of [data] are already set. *)
Lemma hex_loop_pairs n pre s finished data : length pre = (2 * length finished)%nat -> hex_digits s ->
  length s = (2 * n)%nat -> (length finished + n <= 34)%nat -> length (finished ++ data) = 34%nat ->
  hex_loop (35 - length finished) (pre ++ s) (finished ++ data) (len finished) =
    (finished ++ hex_pairs s ++ drop n data, len finished + Z.of_nat n).
Proof.
  revert pre s finished data. induction n as [|n IH]; intros pre s fin data Hp Hs Ls Hn Hd.
  - destruct s; [|done]. rewrite app_nil_r, Z.add_0_r.
    replace (35 - length fin)%nat with (S (34 - length fin)) by lia. cbn [hex_loop].
    rewrite drop_ge by lia. done.
  - destruct s as [|a [|b s]]; try (simpl in Ls; lia).
    apply Forall_cons in Hs as [Ha Hs]. apply Forall_cons in Hs as [Hb Hs].
    rewrite length_app in Hd. destruct data as [|d data]; [simpl in Hd; lia|].
    replace (35 - length fin)%nat with (S (35 - length (fin ++ [0]))) by (rewrite length_app; simpl; lia).
    cbn [hex_loop]. replace (Z.to_nat (len fin * 2)) with (length pre) by lia.
    rewrite drop_app_len, scan_hhx_pair by done.
    rewrite (proj2 (Z.leb_le 2 _)), (proj2 (Z.ltb_lt _ 34)) by (simpl in *; lia). cbn [andb].
    set (x := u8 _). unfold upd. rewrite Nat2Z.id.
    replace (<[length fin := x]> (fin ++ d :: data)) with ((fin ++ [x]) ++ data)
      by (rewrite insert_app_r_alt, Nat.sub_diag by lia; now rewrite <- app_assoc).
    replace (pre ++ a :: b :: s) with ((pre ++ [a; b]) ++ s) by (now rewrite <- app_assoc).
    replace (len fin + 1) with (len (fin ++ [x])) by (rewrite length_app; simpl; lia).
    replace (length (fin ++ [0])) with (length (fin ++ [x])) by (now rewrite !length_app).
    rewrite IH; rewrite ?length_app; simpl in *; try lia; [|done].
    rewrite <- app_assoc. apply pair_eq. split; [done|lia].
Qed.

(** A private key of 64 hexadecimal digits is reported valid and read as the number it writes,
    unless its characters, up to the first 0, happen to be a base58 string of 32 to 34 bytes: those
    bytes are then taken for the key. *)
Theorem hex_import s : length s = 64%nat -> hex_digits s -> check_payload s = [] ->
  BRPrivKeyIsValid s = Some true /\
  forall k0, BRKeySetPrivKey k0 s = Some (
    if (len (base58_bytes s) <? 32) || (34 <? len (base58_bytes s)) then BRKeySetSecret (u256_hex_decode s) false
    else if len (base58_bytes s) =? 32 then BRKeySetSecret (UInt256Get (base58_bytes s)) false
    else if wd (base58_bytes s) 0 =? BITCOIN_PRIVKEY
         then BRKeySetSecret (UInt256Get (drop 1 (base58_bytes s))) (len (base58_bytes s) =? 34)
         else (k0, false)).
Proof.
  intros Ls Hs Hc. pose proof (base58_bytes_shorter s) as Hb.
  assert (Hm : mini_format s = false) by (unfold mini_format; now rewrite Ls).
  assert (Hd : decode34 BRBase58CheckDecode s = Some (replicate 34 0, 0)).
  { unfold decode34. rewrite check_decode_spec, Hc by lia. reflexivity. }
  split.
  { unfold BRPrivKeyIsValid. rewrite Hd. cbn [mbind option_bind]. rewrite Hm.
    now rewrite hex_span_all, Ls by done. }
  intros k0. unfold BRKeySetPrivKey. rewrite Hm, Hd. cbn [mbind option_bind snd].
  change ((0 =? 0) || (0 =? 28)) with true. cbn iota. set (b := base58_bytes s) in *.
  assert (Hhex : forall data, length data = 34%nat ->
            hex_loop 35 s data 0 = (hex_pairs s ++ drop 32 data, 32)).
  { intros data Ld. pose proof (hex_loop_pairs 32 [] s [] data eq_refl Hs Ls ltac:(simpl; lia) Ld) as E.
    exact E. }
  assert (Hdec : u256_hex_decode s = of_u8s (hex_pairs s)) by (unfold u256_hex_decode; now rewrite take_ge by lia).
  assert (Lp : length (hex_pairs s) = 32%nat) by (clear -Ls; split_bytes s; done).
  assert (Hraw : decode34 BRBase58Decode s =
            Some (if len b <=? 34 then (b ++ replicate (34 - length b) 0, len b) else (replicate 34 0, 0))).
  { unfold decode34, BRBase58Decode, write_result. fold b. destruct (Z.leb_spec (len b) 34); [|done].
    unfold mem_write. rewrite length_replicate, (proj2 (Z.leb_le 0 0)), (proj2 (Z.leb_le (0 + _) _)) by lia.
    simpl. do 2 f_equal. f_equal. exact (drop_replicate (length b) 34 0). }
  rewrite Hraw. cbn [mbind option_bind].
  destruct (Z.leb_spec (len b) 34) as [H34|H34]; cbn [fst snd].
  - rewrite (proj2 (Z.ltb_ge 34 (len b))), orb_false_r by lia. destruct (Z.ltb_spec (len b) 32) as [H32|H32].
    + rewrite Hhex by (rewrite length_app, length_replicate; lia). unfold UInt256Get.
      rewrite take_app_length' by done. now rewrite Hdec.
    + destruct (Z.eqb_spec (len b) 32) as [E32|E32]; cbn [orb andb].
      * rewrite (proj2 (Z.eqb_neq _ 33)), (proj2 (Z.eqb_neq _ 34)) by lia. cbn [orb andb]. unfold UInt256Get.
        rewrite !take_app_length', take_ge by lia. done.
      * assert (E : (len b =? 33) || (len b =? 34) = true) by lia. rewrite E. cbn [andb].
        destruct b as [|x b]; [simpl in *; lia|]. cbn [app]. change (wd (x :: ?l) 0) with x.
        destruct (x =? BITCOIN_PRIVKEY); [|done]. cbn [drop]. unfold UInt256Get. rewrite !drop_0.
        rewrite take_app_le by (simpl in *; lia). done.
  - rewrite (proj2 (Z.ltb_lt 34 (len b))), orb_true_r by lia. change ((0 <? 32) || (34 <? 0)) with true. cbn iota.
    rewrite Hhex by done. unfold UInt256Get. rewrite take_app_length' by done. now rewrite Hdec.
Qed.

Definition ex_hex : list Z := replicate 62 48 ++ [49; 50].

Lemma hex_import_witness :
  check_payload ex_hex = [] /\ BRPrivKeyIsValid ex_hex = Some true /\
  BRKeySetPrivKey BRKeyClean ex_hex = Some (BRKeySetSecret (u256_hex_decode ex_hex) false).
Proof.
  assert (H : check_payload ex_hex = []) by (vm_compute; reflexivity).
  destruct (hex_import ex_hex) as [Hv Hk]; [reflexivity|repeat constructor|exact H|].
  split; [exact H|]. split; [exact Hv|]. rewrite Hk. vm_compute. reflexivity.
Defined.

(** The digits 3a...a0b...b are a valid key that is misread: the part before the 0 is a base58 string
    of 32 bytes. *)
Example hex_key_misread :
  let s := 51 :: replicate 43 97 ++ [48] ++ replicate 19 98 in
  BRPrivKeyIsValid s = Some true /\
  option_map (fun r => (bool_decide (secret (fst r) = u256_hex_decode s), snd r)) (BRKeySetPrivKey BRKeyClean s) =
    Some (false, true).
Proof. vm_compute. auto. Qed.

(** ** Keys that sign *)

Section key_proofs.
Context {point sig rsig : Type} `{Secp256k1Laws point sig rsig}.

(** The serialized public key of a private key; empty for an invalid one. *)
Definition public_key (c : bool) (k : Z) : list Z :=
  match ec_pubkey_create (UInt256Set k) with Some p => ec_pubkey_serialize c p | None => [] end.

Lemma valid_point k : secp256k1_ec_seckey_verify (UInt256Set k) = true ->
  exists p, ec_pubkey_create (UInt256Set k) = Some p.
Proof. intros Hv. apply (create_valid (UInt256Set k) (u256_bytes k)) in Hv as [p Hp]. eauto. Qed.

Lemma serialize_not_zeros c p n : take n (ec_pubkey_serialize c p) <> replicate n 0 \/ n = O.
Proof.
  destruct n; [now right|left]. intros E. pose proof (serialize_tag c p) as Ht.
  pose proof (serialize_length c p) as L. destruct (ec_pubkey_serialize c p) as [|x l]; [destruct c; done|].
  cbn in E. injection E as ->. now apply Ht.
Qed.

(** A key just set from a valid secret: its public key is computed and cached. *)
Lemma key_point_fresh k c p : ec_pubkey_create (UInt256Set k) = Some p ->
  key_point (mkKey k (replicate 65 0) c) =
    (mkKey k (ec_pubkey_serialize c p ++ drop (length (ec_pubkey_serialize c p)) (replicate 65 0)) c,
     len (ec_pubkey_serialize c p)).
Proof.
  intros Hp. unfold key_point. cbn [pubKey compressed secret].
  rewrite bool_decide_eq_true_2 by now destruct c. now rewrite Hp.
Qed.

Lemma BRKeyPubKey_fresh k c p : ec_pubkey_create (UInt256Set k) = Some p ->
  exists key, BRKeyPubKey (mkKey k (replicate 65 0) c) None 0 = Some (key, (None, len (ec_pubkey_serialize c p))) /\
    take (length (ec_pubkey_serialize c p)) (pubKey key) = ec_pubkey_serialize c p.
Proof.
  intros Hp. unfold BRKeyPubKey. rewrite (key_point_fresh k c p Hp).
  eexists. cbn [pubKey]. split; cycle 1.
  { cbn [pubKey]. instantiate (1 := mkKey k (ec_pubkey_serialize c p ++ drop (length (ec_pubkey_serialize c p)) (replicate 65 0)) c).
    apply take_app_length. }
  rewrite Nat2Z.id, take_app_length. cbn [write_result mbind option_bind]. do 3 f_equal.
  apply u64_id. rewrite serialize_length. destruct c; lia.
Qed.

Lemma create_parse c k p : ec_pubkey_create (UInt256Set k) = Some p ->
  ec_pubkey_parse (ec_pubkey_serialize c p) = Some p.
Proof. apply parse_serialize, u256_bytes. Qed.
End key_proofs.

(** What signing uses of a key (the interface of [BRTransactionSign]). *)
#[export] Instance BRKey_ops {point sig rsig} `{Secp256k1 point sig rsig} : KeyOps BRKey := {
  key_address key :=
    match BRKeyAddress key (Some (replicate 36 0)) 36 with
    | Some (_, (Some m, n)) => if n =? 0 then [] else c_str m
    | _ => []
    end;
  key_pubkey key := take (Z.to_nat (snd (key_point key))) (pubKey (fst (key_point key)));
  key_sign key md :=
    match BRKeySign key (Some (replicate 73 0)) 72 (UInt256Get md) with
    | Some (Some m, n) => take (Z.to_nat n) m
    | _ => []
    end;
}.

(** C29. Signatures made with a valid key verify with it, and a compact signature determines its
    public key: [BRKeySign] writes a signature that [BRKeyVerify] accepts, [BRKeyCompactSign] writes
    65 bytes from which [BRKeyRecoverPubKey] recovers the serialized public key of the signer, in the
    signer's form. *)
Theorem signatures_verify {point sig rsig} `{Secp256k1Laws point sig rsig} k c md :
  secp256k1_ec_seckey_verify (UInt256Set k) = true -> is_u256 k ->
  let key := fst (BRKeySetSecret k c) in
  (exists m n, BRKeySign key (Some (replicate 73 0)) 72 md = Some (Some m, n) /\ 0 < n <= 72 /\
     option_map snd (BRKeyVerify key md (take (Z.to_nat n) m)) = Some true) /\
  (exists s, BRKeyCompactSign key (Some (replicate 65 0)) 65 md = Some (Some s, 65) /\ length s = 65%nat /\
     forall k0, BRKeyRecoverPubKey k0 md s = Some (BRKeySetPubKey (public_key c k)) /\
       snd (BRKeySetPubKey (public_key c k)) = true).
Proof.
  intros Hv Hu key. pose proof (u256_bytes md) as Bm. pose proof (u256_bytes k) as Bk.
  destruct (valid_point k Hv) as [p Hp].
  destruct (sign_total (UInt256Set md) (UInt256Set k) Bm Bk Hv) as [[s Hs] [r Hr]]. split.
  - destruct (der_roundtrip _ _ _ Bm Bk Hs) as [Hder Hlen]. set (der := ecdsa_signature_serialize_der s) in *.
    exists (der ++ drop (length der) (replicate 73 0)), (len der). split; [|split; [lia|]].
    + unfold BRKeySign, key, BRKeySetSecret. cbn [fst secret]. rewrite Hs. fold der.
      rewrite (proj2 (Z.leb_le _ 72)) by lia. unfold mem_write.
      rewrite length_replicate, (proj2 (Z.leb_le 0 0)), (proj2 (Z.leb_le (0 + _) _)) by lia. reflexivity.
    + rewrite Nat2Z.id, take_app_length. unfold BRKeyVerify. rewrite (proj2 (Z.eqb_neq _ 0)) by lia.
      destruct (BRKeyPubKey_fresh k c p Hp) as (key' & E & Ek). unfold key, BRKeySetSecret, BRKeyClean.
      cbn [fst pubKey]. rewrite E. cbn [mbind option_bind option_map snd]. f_equal.
      pose proof (serialize_length c p) as L. rewrite (proj2 (Z.ltb_lt 0 _)) by (rewrite L; destruct c; lia).
      rewrite Nat2Z.id, Ek, (create_parse c k p Hp), Hder. now apply (sign_verify _ (UInt256Set k)).
  - pose proof (compact_roundtrip _ _ _ Bm Bk Hr) as Hc. destruct (recoverable_serialize_compact r) as [body recid] eqn:E.
    destruct Hc as (Hparse & Lb & Hrec).
    exists (u8 (27 + recid + (if c then 4 else 0)) :: body). split; [|split; [simpl; lia|]].
    + unfold BRKeyCompactSign, key, BRKeySetSecret. cbn [fst secret compressed].
      rewrite bool_decide_eq_true_2 by eauto. cbn [andb]. change (65 <? 65) with false. cbn iota.
      assert (Hz : UInt256IsZero k = false).
      { rewrite UInt256IsZero_spec by done. apply Z.eqb_neq. intros ->. revert Hv. vm_compute. discriminate. }
      rewrite Hz, Hr, E. unfold mem_write. rewrite length_replicate, length_app, Lb.
      change (drop _ _) with (@nil Z). rewrite app_nil_r. reflexivity.
    + intros k0. unfold BRKeyRecoverPubKey. rewrite (proj2 (Z.eqb_eq _ 65)) by (simpl; lia).
      change (wd (?x :: body) 0) with x. rewrite u8_id by (destruct c; lia).
      assert (Erec : Z.rem (27 + recid + (if c then 4 else 0) - 27) 4 = recid).
      { destruct c; [|replace (27 + recid + 0 - 27) with recid by lia; apply Z.rem_small; lia].
        replace (27 + recid + 4 - 27) with (recid + 1 * 4) by lia. rewrite Z.rem_add by lia. apply Z.rem_small; lia. }
      rewrite Erec, (proj2 (Z.ltb_ge recid 0)) by lia. cbn [negb drop]. rewrite drop_0, Hparse.
      cbn [mbind option_bind]. rewrite (sign_recover _ _ _ _ Bm Bk Hr Hp).
      replace (4 <=? 27 + recid + (if c then 4 else 0) - 27) with c by (destruct c; lia).
      unfold public_key. rewrite Hp. split; [done|]. cbn [BRKeySetPubKey snd].
      rewrite bool_decide_eq_true_2; [done|]. rewrite (create_parse c k p Hp). eauto.
Qed.

(** *** A model of the library's laws

    Points are represented by their discrete logarithms and signatures contain the signed digest; it
    has no cryptographic strength, but shows that the laws can hold together. *)
Definition exponent (l : list Z) : option (list Z) := if secp256k1_ec_seckey_verify l then Some l else None.

#[export] Instance exponent_curve : Secp256k1 (list Z) (list Z) (list Z) := {
  ec_pubkey_create := exponent;
  ec_pubkey_serialize c p := (if c then 2 else 4) :: take 32 ((u8 <$> p) ++ replicate 32 0) ++ replicate (if c then 0 else 32) 0;
  ec_pubkey_parse l := if (len l =? 33) || (len l =? 65) then exponent (take 32 (drop 1 l)) else None;
  ec_pubkey_tweak_add p t :=
    if snd (secp256k1_ec_privkey_tweak_add p t) then exponent (fst (secp256k1_ec_privkey_tweak_add p t)) else None;
  ec_pubkey_tweak_mul p t :=
    if snd (secp256k1_ec_privkey_tweak_mul p t) then exponent (fst (secp256k1_ec_privkey_tweak_mul p t)) else None;
  ecdsa_sign md k := Some (md ++ k);
  ecdsa_signature_serialize_der s := s;
  ecdsa_signature_parse_der l := Some l;
  ecdsa_verify s md p := bool_decide (s = md ++ p);
  ecdsa_sign_recoverable md k := Some (md ++ k);
  recoverable_serialize_compact s := (s, 0);
  recoverable_parse_compact l recid := Some l;
  ecdsa_recover s md := exponent (drop (length md) s);
}.

Lemma exponent_Some k p : exponent k = Some p -> p = k /\ secp256k1_ec_seckey_verify k = true.
Proof. unfold exponent. destruct (secp256k1_ec_seckey_verify k); [|done]. intros [= <-]. done. Qed.

Lemma u8_bytes l : bytes_ok l -> u8 <$> l = l.
Proof. induction 1 as [|x l Hx _ IH]; cbn; [done|]. rewrite IH, u8_id; done. Qed.

#[export] Instance exponent_laws : Secp256k1Laws (list Z) (list Z) (list Z).
Proof.
  assert (T : forall p : list Z, length (take 32 ((u8 <$> p) ++ replicate 32 0)) = 32%nat)
    by (intros; rewrite length_take, length_app, length_replicate; lia).
  split; cbn -[secp256k1_ec_seckey_verify secp256k1_ec_privkey_tweak_add replicate take drop Z.of_nat length].
  - intros k _. unfold exponent. destruct (secp256k1_ec_seckey_verify k); split; intros Hs; done.
  - intros c p. cbn [length]. rewrite length_app, T, length_replicate. now destruct c.
  - intros c p. apply Forall_cons; split; [destruct c; unfold is_byte; lia|].
    apply Forall_app; split; [|apply Forall_replicate; unfold is_byte; lia].
    apply Forall_take, Forall_app; split; [|apply Forall_replicate; unfold is_byte; lia].
    apply Forall_fmap, Forall_true. intros x. apply u8_range.
  - intros c p. now destruct c.
  - intros c k p [Bk Lk] Hk. destruct (exponent_Some k p Hk) as [-> Hv].
    assert (E : (len ((if c then 2 else 4) :: take 32 ((u8 <$> k) ++ replicate 32 0) ++ replicate (if c then 0 else 32) 0)
                 = if c then 33 else 65)) by (cbn [length]; rewrite length_app, T, length_replicate; now destruct c).
    rewrite E. replace ((_ =? 33) || _) with true by now destruct c.
    cbn [drop]. rewrite drop_0, take_app_length' by now rewrite T. rewrite u8_bytes, take_app_length' by done. done.
  - intros k t p _ _ Hk. destruct (exponent_Some k p Hk) as [-> _]. done.
  - intros md k _ _ _. eauto.
  - intros md k p s _ _ [= <-] Hk. destruct (exponent_Some k p Hk) as [-> _]. now apply bool_decide_eq_true_2.
  - intros md k s [_ Lm] [_ Lk] [= <-]. split; [done|]. rewrite length_app. lia.
  - intros md k s [_ Lm] [_ Lk] [= <-]. split; [done|]. rewrite length_app. lia.
  - intros md k p s _ _ [= <-] Hk. rewrite drop_app_length. destruct (exponent_Some k p Hk) as [-> _]. done.
Qed.

Lemma wif_roundtrip_witness :
  exists s, writes (BRKeyPrivKey (mkKey 3 (replicate 65 0) true)) (s ++ [0]) /\ BRPrivKeyIsValid s = Some true /\
    BRKeySetPrivKey BRKeyClean s = Some (mkKey 3 (replicate 65 0) true, true).
Proof.
  destruct (wif_roundtrip (mkKey 3 (replicate 65 0) true)) as (s & _ & Hw & Hv & Hk);
    [unfold is_u256, U256; simpl; lia|vm_compute; reflexivity|].
  exists s. split; [exact Hw|]. split; [exact Hv|]. apply Hk.
Defined.

Lemma signatures_verify_witness :
  exists m n, BRKeySign (fst (BRKeySetSecret 3 true)) (Some (replicate 73 0)) 72 5 = Some (Some m, n) /\
    option_map snd (BRKeyVerify (fst (BRKeySetSecret 3 true)) 5 (take (Z.to_nat n) m)) = Some true.
Proof.
  destruct (signatures_verify 3 true 5) as [(m & n & Hs & _ & Hv) _];
    [vm_compute; reflexivity|unfold is_u256, U256; lia|].
  exists m, n. split; [exact Hs|exact Hv].
Defined.
