(* ===== verification/ProtoBuf.v ===== *)
(** * ProtoBuf: the protocol buffer fields of the payment protocol (BRPaymentProtocol.c)

    Reading and writing fields, and the context with the unknown fields of a message.  A pointer into
    the buffer that is read, with a length, is [NoData] (NULL), a [Region] inside the buffer, or
    [Outside]: offsets are added modulo 2^64, so a length can reach outside the buffer; reading such a
    region has no result here.  The parsers share one loop, [parse_loop]. *)
From stdpp Require Import base numbers list gmap sets.
From Stdlib Require Import ZArith Lia.
From S2P Require Import Prelude CMem Int Transaction.
Local Open Scope Z_scope.

Definition PROTOBUF_VARINT : Z := 0.
Definition PROTOBUF_64BIT : Z := 1.
Definition PROTOBUF_LENDELIM : Z := 2.
Definition PROTOBUF_32BIT : Z := 5.

(** ** Reading *)

(** [while ((b & 0x80) && buf && *off < bufLen)]; shifting by 64 or more is undefined. *)
Fixpoint varint_loop (fuel : nat) (buf : list Z) (bufLen off i varInt : Z) : option (Z * Z) :=
  if off <? bufLen then
    match fuel with
    | O => None
    | S fuel' =>
        bs ← mem_read buf off 1;
        let b := wd bs 0 in
        if 64 <=? 7 * i then None
        else
          let varInt := u64 (varInt + u64 (Z.shiftl (Z.land b 0x7f) (7 * i))) in
          if Z.land b 0x80 =? 0 then Some (varInt, off + 1)
          else varint_loop fuel' buf bufLen (off + 1) (i + 1) varInt
    end
  else Some (0, off).

(** At most ten bytes are read. *)
Definition _ProtoBufVarInt (buf : ptr) (bufLen off : Z) : option (Z * Z) :=
  match buf with
  | None => Some (0, off)
  | Some m => varint_loop 11 m bufLen off 0 0
  end.

Inductive Data := NoData | Region (d : list Z) | Outside.

(** The data, its length, and the offset after it. *)
Definition _ProtoBufLenDelim (buf : ptr) (bufLen off : Z) : option (Data * Z * Z) :=
  '(dataLen, off) ← _ProtoBufVarInt buf bufLen off;
  let data := match buf with
              | None => NoData
              | Some m =>
                  if u64 (off + dataLen) <=? bufLen then
                    match mem_read m off dataLen with Some d => Region d | None => Outside end
                  else NoData
              end in
  Some (data, dataLen, u64 (off + dataLen)).

Definition _ProtoBufFixed (buf : ptr) (bufLen off size : Z) : option (Z * Z) :=
  i ← match buf with None => Some 0 | Some m => get_or (le_num 256) 0 size m bufLen off end;
  Some (i, u64 (off + size)).

(** A field; [f_len] stays [bufLen] unless the field is length-delimited. *)
Record Field := mkField { f_key : Z; f_int : Z; f_data : Data; f_len : Z }.

Definition _ProtoBufField (buf : ptr) (bufLen off : Z) : option (Field * Z) :=
  '(key, off) ← _ProtoBufVarInt buf bufLen off;
  let t := Z.land key 0x07 in
  if t =? PROTOBUF_VARINT then '(i, off) ← _ProtoBufVarInt buf bufLen off; Some (mkField key i NoData bufLen, off)
  else if t =? PROTOBUF_64BIT then '(i, off) ← _ProtoBufFixed buf bufLen off 8; Some (mkField key i NoData bufLen, off)
  else if t =? PROTOBUF_LENDELIM then
    '(data, dataLen, off) ← _ProtoBufLenDelim buf bufLen off; Some (mkField key 0 data dataLen, off)
  else if t =? PROTOBUF_32BIT then '(i, off) ← _ProtoBufFixed buf bufLen off 4; Some (mkField key i NoData bufLen, off)
  else Some (mkField key 0 NoData bufLen, off).

(** [key >> 3] *)
Definition f_num (f : Field) : Z := Z.shiftr (f_key f) 3.

(** [_ProtoBufString]: the characters of the array, without the terminator. *)
Definition _ProtoBufString (str : option (list Z)) (data : Data) (dataLen : Z) : option (option (list Z)) :=
  match data with
  | Region d => Some (Some d)
  | NoData => Some (if dataLen =? 0 then Some [] else str)
  | Outside => None
  end.

(** [_ProtoBufBytes]: the array; the length it returns is that of the array. *)
Definition _ProtoBufBytes (bytes : option (list Z)) (data : Data) (dataLen : Z) : option (option (list Z)) :=
  _ProtoBufString bytes data dataLen.

(** ** Writing *)

Fixpoint _ProtoBufSetVarInt (fuel : nat) (bufLen i : Z) (st : ptr * Z) : option (ptr * Z) :=
  match fuel with
  | O => None
  | S fuel' =>
      let b := Z.land i 0x7f in
      let i := Z.shiftr i 7 in
      let b := if 0 <? i then Z.lor b 0x80 else b in
      st ← put bufLen [b] st;
      if 0 <? i then _ProtoBufSetVarInt fuel' bufLen i st else Some st
  end.

(** Ten steps empty an [uint64_t]. *)
Definition set_varint (bufLen i : Z) (st : ptr * Z) : option (ptr * Z) := _ProtoBufSetVarInt 10 bufLen i st.

(** [data] is NULL or holds [dataLen] bytes. *)
Definition _ProtoBufSetLenDelim (bufLen : Z) (data : option (list Z)) (dataLen : Z) (st : ptr * Z) : option (ptr * Z) :=
  match data with
  | Some d => st ← set_varint bufLen dataLen st; put bufLen d st
  | None => if dataLen =? 0 then set_varint bufLen dataLen st else Some st
  end.

Definition _ProtoBufSetFixed (bufLen i size : Z) (st : ptr * Z) : option (ptr * Z) :=
  put bufLen (le_bytes (Z.to_nat size) i) st.

Definition _ProtoBufSetString (bufLen : Z) (str : option (list Z)) (key : Z) (st : ptr * Z) : option (ptr * Z) :=
  st ← set_varint bufLen (Z.lor (u64 (Z.shiftl key 3)) PROTOBUF_LENDELIM) st;
  _ProtoBufSetLenDelim bufLen (c_str <$> str) (len (c_str (default [] str))) st.

Definition _ProtoBufSetBytes (bufLen : Z) (bytes : list Z) (key : Z) (st : ptr * Z) : option (ptr * Z) :=
  st ← set_varint bufLen (Z.lor (u64 (Z.shiftl key 3)) PROTOBUF_LENDELIM) st;
  _ProtoBufSetLenDelim bufLen (Some bytes) (len bytes) st.

Definition _ProtoBufSetInt (bufLen i key : Z) (st : ptr * Z) : option (ptr * Z) :=
  st ← set_varint bufLen (Z.lor (u64 (Z.shiftl key 3)) PROTOBUF_VARINT) st;
  set_varint bufLen i st.

(** ** Unknown fields *)

(** [array_rm_range], with its assertions. *)
Definition array_rm_range (a : list Z) (i n : Z) : option (list Z) :=
  if (i <? len a) && (u64 (i + n) <=? len a) && (u64 n =? n)
  then Some (take (Z.to_nat i) a ++ drop (Z.to_nat (i + n)) a) else None.

(** The field is written to a buffer of [bufLen] bytes whose bytes are not initialized: -1. *)
Definition unknown_bytes (key i : Z) (data : Data) (dataLen : Z) : option (list Z) :=
  let t := Z.land key 0x07 in
  let bufLen := u64 (10 + (if t =? PROTOBUF_LENDELIM then dataLen else 0)) in
  if 0x7fffffffffffffff <? bufLen then None
  else
    st ← set_varint bufLen key (Some (replicate (Z.to_nat bufLen) (-1)), 0);
    '(p, off) ← (if t =? PROTOBUF_VARINT then set_varint bufLen i st
                 else if t =? PROTOBUF_64BIT then _ProtoBufSetFixed bufLen i 8 st
                 else if t =? PROTOBUF_LENDELIM then
                   match data with
                   | Region d => _ProtoBufSetLenDelim bufLen (Some d) dataLen st
                   | NoData => _ProtoBufSetLenDelim bufLen None dataLen st
                   | Outside => None
                   end
                 else if t =? PROTOBUF_32BIT then _ProtoBufSetFixed bufLen i 4 st
                 else Some st);
    let r := take (Z.to_nat (if off <? bufLen then off else bufLen)) (default [] p) in
    if forallb (fun b => 0 <=? b) r then Some r else None.

(** The walk over the unknown fields: where to insert, and the array without the field of the same key. *)
Fixpoint unknown_loop (fuel : nat) (unknown : list Z) (key o off : Z) : option (list Z * Z) :=
  if off <? len unknown then
    match fuel with
    | O => None
    | S fuel' =>
        let o := off in
        '(f, off) ← _ProtoBufField (Some unknown) (len unknown) off;
        unknown ← (if f_key f =? key then array_rm_range unknown o (u64 (off - o)) else Some unknown);
        if key <=? f_key f then Some (unknown, o) else unknown_loop fuel' unknown key o off
    end
  else Some (unknown, o).

Definition _ProtoBufUnknown (unknown : option (list Z)) (key i : Z) (data : Data) (dataLen : Z) : option (option (list Z)) :=
  bs ← unknown_bytes key i data dataLen;
  let u := default [] unknown in
  '(u, o) ← unknown_loop (S (length u)) u key 0 0;
  Some (Some (take (Z.to_nat o) u ++ bs ++ drop (Z.to_nat o) u)).

(** ** Messages *)

(** The context stored behind a message: the numbers of the fields whose byte in [defaults] is 1 (they
    were absent), and the unknown fields. *)
Record ProtoBufContext := mkProtoContext { defaults : gset Z; unknown : option (list Z) }.

Definition set_default (n : Z) (c : ProtoBufContext) : ProtoBufContext := mkProtoContext ({[n]} ∪ defaults c) (unknown c).
Definition clear_default (n : Z) (c : ProtoBufContext) : ProtoBufContext := mkProtoContext (defaults c ∖ {[n]}) (unknown c).
Definition is_default (n : Z) (c : ProtoBufContext) : bool := bool_decide (n ∈ defaults c).
(** [! ctx.defaults[n]] *)
Definition written (n : Z) (c : ProtoBufContext) : bool := negb (is_default n c).
Definition context_none : ProtoBufContext := mkProtoContext ∅ None.

(** [default: _ProtoBufUnknown(&ctx->unknown, key, i, data, dataLen);] *)
Definition add_unknown (f : Field) (c : ProtoBufContext) : option ProtoBufContext :=
  u ← _ProtoBufUnknown (unknown c) (f_key f) (f_int f) (f_data f) (f_len f); Some (mkProtoContext (defaults c) u).

(** [while (off < bufLen)] around the switch [step] over the fields. *)
Fixpoint parse_loop {S} (fuel : nat) (step : S -> Field -> option S) (buf : ptr) (bufLen off : Z) (st : S) : option S :=
  if off <? bufLen then
    match fuel with
    | O => None
    | Datatypes.S fuel' =>
        '(f, off) ← _ProtoBufField buf bufLen off;
        st ← step st f;
        parse_loop fuel' step buf bufLen off st
    end
  else Some st.

(** [while (buf && off < bufLen)]; as many steps as there are offsets before [bufLen] are enough. *)
Definition parse_fields {S} (step : S -> Field -> option S) (buf : ptr) (bufLen : Z) (st : S) : option S :=
  match buf with
  | None => Some st
  | Some m => parse_loop (Datatypes.S (length m)) step buf bufLen 0 st
  end.

(** The arguments of a parser that is called on [data]: [assert(buf != NULL || bufLen == 0)]. *)
Definition region_of (f : Field) : option ptr :=
  match f_data f with
  | Region d => Some (Some d)
  | NoData => if f_len f =? 0 then Some None else None
  | Outside => None
  end.

(** [if (ctx->unknown) ...]: the unknown fields are copied to the end. *)
Definition put_unknown (bufLen : Z) (c : ProtoBufContext) (st : ptr * Z) : option (ptr * Z) :=
  match unknown c with Some u => put bufLen u st | None => Some st end.

(** [if (cond) x] in a serializer. *)
Definition put_if (b : bool) (x : ptr * Z -> option (ptr * Z)) (st : ptr * Z) : option (ptr * Z) :=
  if b then x st else Some st.
Definition put_opt {A} (o : option A) (x : A -> ptr * Z -> option (ptr * Z)) (st : ptr * Z) : option (ptr * Z) :=
  match o with Some a => x a st | None => Some st end.

(** ** Varints *)

(** The bytes [_ProtoBufSetVarInt] writes. *)
Fixpoint varint_enc (fuel : nat) (i : Z) : list Z :=
  match fuel with
  | O => []
  | S fuel' => if i <? 128 then [i] else (i mod 128 + 128) :: varint_enc fuel' (i / 128)
  end.
Definition pb_varint (i : Z) : list Z := varint_enc 10 i.

Notation is_u64 i := (0 <= i < 0x10000000000000000).

Lemma varint_byte i : 0 <= i ->
  Z.shiftr i 7 = i / 128 /\ Z.land i 0x7f = i mod 128 /\ Z.lor (Z.land i 0x7f) 0x80 = i mod 128 + 128 /\
  (0 <? Z.shiftr i 7) = negb (i <? 128).
Proof.
  intros Hi. change 0x7f with (Z.ones 7). rewrite land_ones_mod, Z.shiftr_div_pow2 by lia. change (2 ^ 7) with 128.
  split_and!; [done..|rewrite Z.lor_comm; change 0x80 with (1 * 2 ^ 7); rewrite lor_disjoint; [lia|lia|]; change (2 ^ 7) with 128; zdiv_lia|].
  destruct (Z.ltb_spec i 128), (Z.ltb_spec 0 (i / 128)); zdiv_lia.
Qed.

Lemma set_varint_loop p0 n fuel : forall i pre, 0 <= i < 2 ^ (7 * Z.of_nat fuel) -> (0 < fuel)%nat ->
  room p0 n (pre ++ varint_enc fuel i) ->
  _ProtoBufSetVarInt fuel n i (cursor p0 pre) = Some (cursor p0 (pre ++ varint_enc fuel i)).
Proof.
  induction fuel as [|fuel IH]; intros i pre Hi Hf Hr; [lia|]. cbn [_ProtoBufSetVarInt varint_enc] in *.
  destruct (varint_byte i ltac:(lia)) as (E0 & E1 & E2 & E3). rewrite E3, E0. revert Hr. destruct (Z.ltb_spec i 128); intros Hr; cbn [negb].
  - rewrite E1, Z.mod_small, put_cursor by (done || lia). done.
  - change ((i mod 128 + 128) :: varint_enc fuel (i / 128)) with ([i mod 128 + 128] ++ varint_enc fuel (i / 128)) in *.
    rewrite app_assoc in *. rewrite E2, put_cursor by (eapply room_app; exact Hr). rewrite bind_Some_l. apply IH; [|destruct fuel; [cbn in Hi|]; lia|done].
    rewrite Nat2Z.inj_succ, Z.mul_succ_r, Z.pow_add_r in Hi by lia. change (2 ^ 7) with 128 in Hi. zdiv_lia.
Qed.

Lemma set_varint_cursor p0 n i pre : is_u64 i -> room p0 n (pre ++ pb_varint i) ->
  set_varint n i (cursor p0 pre) = Some (cursor p0 (pre ++ pb_varint i)).
Proof. intros Hi. apply set_varint_loop; lia. Qed.

Lemma varint_enc_length fuel i : (length (varint_enc fuel i) <= fuel)%nat.
Proof. revert i. induction fuel as [|fuel IH]; intros i; cbn; [lia|]. destruct (i <? 128); cbn; [lia|]. specialize (IH (i / 128)). lia. Qed.

Lemma pb_varint_length i : 0 < len (pb_varint i) <= 10.
Proof. pose proof (varint_enc_length 10 i). unfold pb_varint in *. cbn [varint_enc] in *. destruct (i <? 128); cbn [length] in *; lia. Qed.

Lemma varint_enc_bytes fuel : forall i, 0 <= i -> bytes_ok (varint_enc fuel i).
Proof.
  induction fuel as [|fuel IH]; intros i Hi; cbn; [constructor|]. destruct (Z.ltb_spec i 128); constructor.
  1, 3: unfold is_byte; zdiv_lia. 1: constructor. apply IH. zdiv_lia.
Qed.

Lemma varint_continue b : 0 <= b < 256 -> (Z.land b 0x80 =? 0) = (b <? 128).
Proof.
  intros Hb. change 0x80 with (Z.shiftl 1 7) at 1. rewrite land_shifted, Z.shiftr_div_pow2 by lia.
  destruct (Z.ltb_spec b 128); [rewrite Z.div_small by (cbn; lia); done|].
  replace (b / 2 ^ 7) with 1 by (change (2 ^ 7) with 128; zdiv_lia). done.
Qed.

(** One byte read by the loop. *)
Lemma varint_step fuel pre b post i acc : let buf := pre ++ [b] ++ post in
  0 <= i <= 9 -> 0 <= b < 256 -> 0 <= acc -> acc + (b mod 128) * 2 ^ (7 * i) < 0x10000000000000000 ->
  varint_loop (S fuel) buf (len buf) (len pre) i acc =
  if b <? 128 then Some (acc + b * 2 ^ (7 * i), len pre + 1)
  else varint_loop fuel buf (len buf) (len pre + 1) (i + 1) (acc + (b mod 128) * 2 ^ (7 * i)).
Proof.
  intros buf Hi Hb Ha Hlt. cbn [varint_loop]. unfold buf. rewrite (proj2 (Z.ltb_lt _ _)) by (rewrite !length_app; cbn; lia).
  rewrite mem_read_mid by done. cbn [mbind option_bind]. change (wd [b] 0) with b.
  rewrite (proj2 (Z.leb_gt 64 _)) by lia. destruct (varint_byte b ltac:(lia)) as (_ & -> & _ & _).
  rewrite Z.shiftl_mul_pow2 by lia. assert (0 <= b mod 128 * 2 ^ (7 * i)) by (apply Z.mul_nonneg_nonneg; [zdiv_lia|apply Z.pow_nonneg; lia]).
  rewrite (u64_id (b mod 128 * _)), u64_id by lia.
  rewrite varint_continue by done. destruct (Z.ltb_spec b 128); [|done]. rewrite Z.mod_small by lia. done.
Qed.

Lemma varint_loop_enc k : forall v pre post i acc fuel, 0 <= v < 2 ^ (7 * Z.of_nat k) -> (0 < k <= fuel)%nat ->
  0 <= i -> i + Z.of_nat k <= 10 -> 0 <= acc -> acc + v * 2 ^ (7 * i) < 0x10000000000000000 ->
  let buf := pre ++ varint_enc k v ++ post in
  varint_loop fuel buf (len buf) (len pre) i acc = Some (acc + v * 2 ^ (7 * i), len pre + len (varint_enc k v)).
Proof.
  induction k as [|k IH]; intros v pre post i acc fuel Hv Hk Hi Hik Ha Hlt; [lia|]. destruct fuel as [|fuel]; [lia|].
  pose proof (Z.pow_pos_nonneg 2 (7 * i) ltac:(lia) ltac:(lia)). cbn [varint_enc]. destruct (Z.ltb_spec v 128); cbv zeta.
  - rewrite varint_step by (try rewrite Z.mod_small; lia). now rewrite (proj2 (Z.ltb_lt _ _)).
  - change ((v mod 128 + 128) :: ?x) with ([v mod 128 + 128] ++ x). rewrite <- (app_assoc [_]).
    assert (Em : (v mod 128 + 128) mod 128 = v mod 128) by zdiv_lia.
    assert (Hd : v = 128 * (v / 128) + v mod 128) by zdiv_lia.
    assert (Hm : 0 <= v mod 128 < 128) by zdiv_lia.
    assert (Hd0 : 0 <= v / 128) by zdiv_lia.
    assert (Hle : v mod 128 * 2 ^ (7 * i) <= v * 2 ^ (7 * i)) by (apply Z.mul_le_mono_nonneg_r; lia).
    rewrite varint_step by (rewrite ?Em; lia). rewrite (proj2 (Z.ltb_ge _ _)), Em by lia.
    assert (Hp : 2 ^ (7 * (i + 1)) = 128 * 2 ^ (7 * i))
      by (replace (7 * (i + 1)) with (7 + 7 * i) by lia; rewrite Z.pow_add_r by lia; done).
    assert (Ev : acc + v mod 128 * 2 ^ (7 * i) + v / 128 * 2 ^ (7 * (i + 1)) = acc + v * 2 ^ (7 * i))
      by (rewrite Hp; rewrite Hd at 3; ring).
    destruct k as [|k]; [cbn in Hv; lia|].
    pose proof (IH (v / 128) (pre ++ [v mod 128 + 128]) post (i + 1) (acc + v mod 128 * 2 ^ (7 * i)) fuel) as E.
    cbv zeta in E. rewrite <- app_assoc in E. assert (El : len (pre ++ [v mod 128 + 128]) = len pre + 1) by (rewrite length_app; cbn; lia).
    rewrite El in E. rewrite E, Ev.
    + f_equal. f_equal. rewrite (length_app [_]). cbn [length]. lia.
    + rewrite Nat2Z.inj_succ, Z.mul_succ_r, Z.pow_add_r in Hv by lia. change (2 ^ 7) with 128 in Hv. zdiv_lia.
    + lia.
    + lia.
    + lia.
    + pose proof (Z.mul_nonneg_nonneg (v mod 128) (2 ^ (7 * i))). lia.
    + rewrite Ev. lia.
Qed.

Lemma varint_read pre i post : is_u64 i -> let buf := pre ++ pb_varint i ++ post in
  _ProtoBufVarInt (Some buf) (len buf) (len pre) = Some (i, len pre + len (pb_varint i)).
Proof.
  intros Hi buf. unfold _ProtoBufVarInt, buf, pb_varint. rewrite varint_loop_enc by (cbn; lia).
  f_equal. f_equal. change (2 ^ (7 * 0)) with 1. lia.
Qed.

(** ** Fields *)

(** A field that is written: an integer or bytes, with its number. *)
Inductive Wire := WInt (key i : Z) | WBytes (key : Z) (d : list Z).

Definition wire_key (w : Wire) : Z := match w with WInt k _ => k | WBytes k _ => k end.
Definition wire_ok (w : Wire) : Prop :=
  0 <= wire_key w < 2 ^ 61 /\
  match w with WInt _ i => is_u64 i | WBytes _ d => is_u64 (len d) end.

Definition wire_bytes (w : Wire) : list Z :=
  match w with
  | WInt k i => pb_varint (8 * k) ++ pb_varint i
  | WBytes k d => pb_varint (8 * k + 2) ++ pb_varint (len d) ++ d
  end.

(** The field the parser sees, in a buffer of [n] bytes. *)
Definition wire_field (n : Z) (w : Wire) : Field :=
  match w with
  | WInt k i => mkField (8 * k) i NoData n
  | WBytes k d => mkField (8 * k + 2) 0 (Region d) (len d)
  end.

Definition message_bytes (ws : list Wire) : list Z := mjoin (wire_bytes <$> ws).

Lemma wire_bytes_length w : 0 < len (wire_bytes w).
Proof. destruct w; unfold wire_bytes; rewrite length_app; pose proof (pb_varint_length (8 * key)); pose proof (pb_varint_length (8 * key + 2)); lia. Qed.

Lemma message_bytes_app a b : message_bytes (a ++ b) = message_bytes a ++ message_bytes b.
Proof. unfold message_bytes. now rewrite fmap_app, join_app. Qed.

Lemma message_bytes_count ws : (length ws <= length (message_bytes ws))%nat.
Proof.
  induction ws as [|w ws IH]; [done|]. change (message_bytes (w :: ws)) with (wire_bytes w ++ message_bytes ws).
  rewrite length_app. pose proof (wire_bytes_length w). cbn [length]. lia.
Qed.

Lemma field_key k t : 0 <= k -> 0 <= t < 8 -> Z.land (8 * k + t) 7 = t /\ Z.shiftr (8 * k + t) 3 = k.
Proof.
  intros Hk Ht. change 7 with (Z.ones 3). rewrite land_ones_mod, Z.shiftr_div_pow2 by lia. change (2 ^ 3) with 8. split; zdiv_lia.
Qed.

Lemma field_read pre w post : wire_ok w -> let buf := pre ++ wire_bytes w ++ post in
  len buf < 0x10000000000000000 ->
  _ProtoBufField (Some buf) (len buf) (len pre) = Some (wire_field (len buf) w, len pre + len (wire_bytes w)).
Proof.
  intros [Hk Hw] buf Hl. unfold _ProtoBufField, buf in *. destruct w as [k i|k d]; cbn [wire_bytes wire_key] in *.
  - destruct (field_key k 0 ltac:(lia) ltac:(lia)) as [Et _]. rewrite Z.add_0_r in Et.
    rewrite <- (app_assoc (pb_varint (8 * k))). rewrite varint_read by lia. rewrite bind_Some_l, Et. cbv zeta.
    change (0 =? PROTOBUF_VARINT) with true. cbv iota beta.
    pose proof (varint_read (pre ++ pb_varint (8 * k)) i post Hw) as E. cbv zeta in E.
    rewrite <- app_assoc, (length_app pre (pb_varint (8 * k))), Nat2Z.inj_add in E. rewrite E. cbn [mbind option_bind wire_field].
    do 2 f_equal. rewrite length_app. lia.
  - destruct (field_key k 2 ltac:(lia) ltac:(lia)) as [Et _]. rewrite <- !(app_assoc (pb_varint _)) in Hl |- *.
    rewrite varint_read by lia. rewrite bind_Some_l, Et. cbv zeta.
    change (2 =? PROTOBUF_VARINT) with false. change (2 =? PROTOBUF_64BIT) with false. change (2 =? PROTOBUF_LENDELIM) with true.
    cbv iota beta. unfold _ProtoBufLenDelim.
    pose proof (varint_read (pre ++ pb_varint (8 * k + 2)) (len d) (d ++ post) Hw) as E. cbv zeta in E.
    rewrite <- app_assoc, (length_app pre (pb_varint (8 * k + 2))), Nat2Z.inj_add in E. rewrite E. rewrite bind_Some_l. cbv iota beta.
    rewrite !length_app in Hl. rewrite u64_id by lia. rewrite (proj2 (Z.leb_le _ _)) by (rewrite !length_app; lia).
    rewrite (app_assoc (pb_varint (8 * k + 2))), (app_assoc pre), mem_read_mid by (rewrite ?length_app; lia).
    cbn [mbind option_bind wire_field]. do 2 f_equal. rewrite !length_app. lia.
Qed.

(** The parsers: the fields of a message in turn. *)
Lemma parse_loop_fields {St} (step : St -> Field -> option St) ws : Forall wire_ok ws -> forall pre fuel st,
  let buf := pre ++ message_bytes ws in len buf < 0x10000000000000000 -> (length ws < fuel)%nat ->
  parse_loop fuel step (Some buf) (len buf) (len pre) st = for_each (fun st w => step st (wire_field (len buf) w)) st ws.
Proof.
  induction 1 as [|w ws Hw _ IH]; intros pre fuel st buf Hl Hf; unfold buf in *; destruct fuel as [|fuel]; cbn [length] in Hf; [lia| |lia|].
  - cbn. rewrite app_nil_r, Z.ltb_irrefl. done.
  - cbn [parse_loop for_each]. change (message_bytes (w :: ws)) with (wire_bytes w ++ message_bytes ws) in *.
    pose proof (wire_bytes_length w). rewrite (proj2 (Z.ltb_lt _ _)) by (rewrite !length_app; lia).
    rewrite field_read by done. rewrite bind_Some_l. cbv iota beta.
    destruct (step st _) as [st'|]; [|done]. rewrite !bind_Some_l. specialize (IH (pre ++ wire_bytes w) fuel st').
    cbv zeta in IH. rewrite <- app_assoc, (length_app pre (wire_bytes w)), Nat2Z.inj_add in IH. apply IH; [done|lia].
Qed.

Lemma parse_fields_message {St} (step : St -> Field -> option St) ws st : Forall wire_ok ws ->
  len (message_bytes ws) < 0x10000000000000000 ->
  parse_fields step (Some (message_bytes ws)) (len (message_bytes ws)) st =
  for_each (fun st w => step st (wire_field (len (message_bytes ws)) w)) st ws.
Proof.
  intros Hw Hl. unfold parse_fields. apply (parse_loop_fields step ws Hw []); [done|]. pose proof (message_bytes_count ws). lia.
Qed.

(** ** Serializers *)

Lemma key_tag k t : 0 <= k < 2 ^ 61 -> 0 <= t < 8 -> Z.lor (u64 (Z.shiftl k 3)) t = 8 * k + t.
Proof.
  intros Hk Ht. rewrite Z.shiftl_mul_pow2, u64_id by lia. rewrite lor_disjoint by (change (2 ^ 3) with 8; lia).
  change (2 ^ 3) with 8. lia.
Qed.

Lemma set_int_cursor p0 n i k pre : 0 <= k < 2 ^ 61 -> is_u64 i -> room p0 n (pre ++ wire_bytes (WInt k i)) ->
  _ProtoBufSetInt n i k (cursor p0 pre) = Some (cursor p0 (pre ++ wire_bytes (WInt k i))).
Proof.
  intros Hk Hi Hr. unfold _ProtoBufSetInt, PROTOBUF_VARINT. cbn [wire_bytes] in *. rewrite app_assoc in Hr.
  rewrite key_tag, Z.add_0_r by lia. rewrite set_varint_cursor by (lia || eapply room_app; exact Hr).
  rewrite bind_Some_l, set_varint_cursor by done. now rewrite app_assoc.
Qed.

Lemma set_bytes_cursor p0 n d k pre : 0 <= k < 2 ^ 61 -> is_u64 (len d) -> room p0 n (pre ++ wire_bytes (WBytes k d)) ->
  _ProtoBufSetBytes n d k (cursor p0 pre) = Some (cursor p0 (pre ++ wire_bytes (WBytes k d))).
Proof.
  intros Hk Hd Hr. unfold _ProtoBufSetBytes, _ProtoBufSetLenDelim, PROTOBUF_LENDELIM. cbn [wire_bytes] in *.
  rewrite !app_assoc in Hr. rewrite key_tag by lia. rewrite set_varint_cursor by (lia || eapply room_app, room_app; exact Hr).
  rewrite bind_Some_l, set_varint_cursor by (done || eapply room_app; exact Hr).
  rewrite bind_Some_l, put_cursor by done. now rewrite !app_assoc.
Qed.

Lemma set_string_cursor p0 n s k pre : 0 <= k < 2 ^ 61 -> is_u64 (len (c_str s)) -> room p0 n (pre ++ wire_bytes (WBytes k (c_str s))) ->
  _ProtoBufSetString n (Some s) k (cursor p0 pre) = Some (cursor p0 (pre ++ wire_bytes (WBytes k (c_str s)))).
Proof. exact (set_bytes_cursor p0 n (c_str s) k pre). Qed.

(** ** Unknown fields *)

(** [_ProtoBufUnknown] has room for ten bytes besides the data: the key and the integer, or the key and
    the length, of such a field fit. *)
Definition wire_short (w : Wire) : Prop :=
  len (wire_bytes w) <= 10 + match w with WInt _ _ => 0 | WBytes _ d => len d end.

(** A field whose number is above [n], and that [_ProtoBufUnknown] keeps as it is. *)
Definition unknown_ok (n : Z) (w : Wire) : Prop :=
  wire_ok w /\ n < wire_key w /\ wire_short w /\
  match w with WInt _ _ => True | WBytes _ d => bytes_ok d /\ len d < 0x7ffffffffffffff0 end.

(** The unknown fields of a context: at most one. *)
Definition unknown_fields (n : Z) (c : ProtoBufContext) (ws : list Wire) : Prop :=
  match unknown c with
  | None => ws = []
  | Some bs => exists w, ws = [w] /\ bs = wire_bytes w /\ unknown_ok n w
  end.

Lemma forallb_bytes l : bytes_ok l -> forallb (fun b => 0 <=? b) l = true.
Proof. induction 1 as [|b l Hb _ IH]; [done|]. cbn. rewrite IH, (proj2 (Z.leb_le _ _)) by apply Hb. done. Qed.

(** What the buffer of [_ProtoBufUnknown] holds at its end. *)
Lemma unknown_buffer bs n : bytes_ok bs -> len bs <= n < 0x10000000000000000 ->
  let '(p, off) := cursor (Some (replicate (Z.to_nat n) (-1))) bs in
  let r := take (Z.to_nat (if off <? n then off else n)) (default [] p) in
  (if forallb (fun b => 0 <=? b) r then Some r else None) = Some bs.
Proof.
  intros Hb Hn. unfold cursor. cbn [fmap option_fmap option_map default]. rewrite u64_id by lia.
  replace (if len bs <? n then len bs else n) with (len bs) by (destruct (Z.ltb_spec (len bs) n); lia).
  unfold id. rewrite Nat2Z.id, take_app_length. now rewrite forallb_bytes.
Qed.

Lemma unknown_bytes_wire n m w : unknown_ok n w -> let f := wire_field m w in
  unknown_bytes (f_key f) (f_int f) (f_data f) (f_len f) = Some (wire_bytes w).
Proof.
  intros ([Hk Hw] & _ & Hs & Hd). unfold unknown_bytes. cbv zeta. destruct w as [k i|k d]; cbn [wire_field f_key f_int f_data f_len wire_key] in *.
  - destruct (field_key k 0 ltac:(lia) ltac:(lia)) as [Et _]. rewrite Z.add_0_r in Et. rewrite Et.
    change (0 =? PROTOBUF_LENDELIM) with false. change (0 =? PROTOBUF_VARINT) with true. cbv iota. change (u64 (10 + 0)) with 10.
    change (0x7fffffffffffffff <? 10) with false. cbv iota.
    assert (Hr : room (Some (replicate (Z.to_nat 10) (-1))) 10 (wire_bytes (WInt k i))) by (split; [split; [exact Hs|]|]; done).
    rewrite <- (cursor_nil (Some (replicate (Z.to_nat 10) (-1)))). cbn [wire_bytes] in *.
    rewrite set_varint_cursor, bind_Some_l by (lia || eapply room_app; exact Hr). rewrite set_varint_cursor, bind_Some_l by done.
    apply (unknown_buffer (pb_varint (8 * k) ++ pb_varint i)); [|unfold wire_short in Hs; cbn [wire_bytes] in Hs; lia].
    apply Forall_app; split; apply varint_enc_bytes; lia.
  - destruct (field_key k 2 ltac:(lia) ltac:(lia)) as [Et _]. rewrite Et.
    change (2 =? PROTOBUF_LENDELIM) with true. change (2 =? PROTOBUF_VARINT) with false. change (2 =? PROTOBUF_64BIT) with false.
    cbv iota. cbv zeta. destruct Hd as [Hd Hl]. rewrite u64_id by lia. rewrite (proj2 (Z.ltb_ge _ _)) by lia.
    assert (Hr : room (Some (replicate (Z.to_nat (10 + len d)) (-1))) (10 + len d) (wire_bytes (WBytes k d))).
    { split; [split; [exact Hs|]|lia]. rewrite length_replicate. lia. }
    rewrite <- (cursor_nil (Some (replicate (Z.to_nat (10 + len d)) (-1)))). cbn [wire_bytes] in *. unfold _ProtoBufSetLenDelim.
    rewrite set_varint_cursor, bind_Some_l by (lia || eapply room_app; exact Hr). rewrite (app_assoc (pb_varint _)) in Hr.
    rewrite set_varint_cursor, bind_Some_l by (done || eapply room_app; exact Hr). rewrite put_cursor, bind_Some_l by done.
    rewrite <- (app_assoc (_ ++ _)) in *. cbn [app] in *.
    apply (unknown_buffer (pb_varint (8 * k + 2) ++ pb_varint (len d) ++ d)).
    + repeat (apply Forall_app; split); try done; apply varint_enc_bytes; lia.
    + unfold wire_short in Hs. cbn [wire_bytes] in Hs. lia.
Qed.

Lemma add_unknown_first n m w c : unknown_ok n w -> unknown c = None ->
  add_unknown (wire_field m w) c = Some (mkProtoContext (defaults c) (Some (wire_bytes w))).
Proof.
  intros Hw Hc. unfold add_unknown, _ProtoBufUnknown. rewrite (unknown_bytes_wire n) by done. rewrite Hc.
  rewrite !bind_Some_l. cbn [default]. change (unknown_loop _ [] _ 0 0) with (Some (@nil Z, 0)). rewrite bind_Some_l. cbv iota beta.
  rewrite bind_Some_l. change (take _ []) with (@nil Z). change (drop _ []) with (@nil Z). now rewrite app_nil_r.
Qed.

Lemma f_num_wire m w : wire_ok w -> f_num (wire_field m w) = wire_key w.
Proof.
  intros [Hk _]. destruct w; cbn [wire_field wire_key] in *; unfold f_num; cbn [f_key]; [rewrite <- (Z.add_0_r (8 * key))|]; apply field_key; lia.
Qed.

(** ** Serializing a list of fields *)

Definition if_wire (b : bool) (w : Wire) : list Wire := if b then [w] else [].
Definition opt_wire {A} (o : option A) (f : A -> Wire) : list Wire := match o with Some a => [f a] | None => [] end.

Section put.
Context (p0 : ptr) (n : Z) (ws : list Wire).
Notation at_ ws := (cursor p0 (message_bytes ws)).

Lemma message_snoc w : message_bytes (ws ++ [w]) = message_bytes ws ++ wire_bytes w.
Proof. rewrite message_bytes_app. unfold message_bytes at 2. cbn. now rewrite app_nil_r. Qed.

Lemma put_bytes1 k d : Forall wire_ok [WBytes k d] -> room p0 n (message_bytes (ws ++ [WBytes k d])) ->
  _ProtoBufSetBytes n d k (at_ ws) = Some (at_ (ws ++ [WBytes k d])).
Proof. rewrite message_snoc. intros Hw. inversion_clear Hw as [|? ? [Hk Hd] _]. now apply set_bytes_cursor. Qed.

Lemma put_int1 k i : Forall wire_ok [WInt k i] -> room p0 n (message_bytes (ws ++ [WInt k i])) ->
  _ProtoBufSetInt n i k (at_ ws) = Some (at_ (ws ++ [WInt k i])).
Proof. rewrite message_snoc. intros Hw. inversion_clear Hw as [|? ? [Hk Hd] _]. now apply set_int_cursor. Qed.

Lemma put_string1 k s : Forall wire_ok [WBytes k s] -> c_str s = s -> room p0 n (message_bytes (ws ++ [WBytes k s])) ->
  _ProtoBufSetString n (Some s) k (at_ ws) = Some (at_ (ws ++ [WBytes k s])).
Proof.
  rewrite message_snoc. intros Hw Hs Hr. inversion_clear Hw as [|? ? [Hk Hd] _].
  pose proof (set_string_cursor p0 n s k (message_bytes ws) Hk) as E. rewrite Hs in E. now apply E.
Qed.

Lemma put_if_one b w f : (b = true -> Forall wire_ok [w] -> room p0 n (message_bytes (ws ++ [w])) -> f (at_ ws) = Some (at_ (ws ++ [w]))) ->
  Forall wire_ok (if_wire b w) -> room p0 n (message_bytes (ws ++ if_wire b w)) -> put_if b f (at_ ws) = Some (at_ (ws ++ if_wire b w)).
Proof. destruct b; cbn [put_if if_wire]; [auto|intros; now rewrite app_nil_r]. Qed.

Lemma put_opt_one (o : option (list Z)) g f :
  (forall s, o = Some s -> Forall wire_ok [g s] -> room p0 n (message_bytes (ws ++ [g s])) -> f s (at_ ws) = Some (at_ (ws ++ [g s]))) ->
  Forall wire_ok (opt_wire o g) -> room p0 n (message_bytes (ws ++ opt_wire o g)) -> put_opt o f (at_ ws) = Some (at_ (ws ++ opt_wire o g)).
Proof. destruct o; cbn [put_opt opt_wire]; [auto|intros; now rewrite app_nil_r]. Qed.

Lemma put_int b k i : Forall wire_ok (if_wire b (WInt k i)) -> room p0 n (message_bytes (ws ++ if_wire b (WInt k i))) ->
  put_if b (_ProtoBufSetInt n i k) (at_ ws) = Some (at_ (ws ++ if_wire b (WInt k i))).
Proof. apply put_if_one. intros _. apply put_int1. Qed.

Lemma put_bytes o k : Forall wire_ok (opt_wire o (WBytes k)) -> room p0 n (message_bytes (ws ++ opt_wire o (WBytes k))) ->
  put_opt o (fun s => _ProtoBufSetBytes n s k) (at_ ws) = Some (at_ (ws ++ opt_wire o (WBytes k))).
Proof. apply (put_opt_one o (WBytes k) (fun s => _ProtoBufSetBytes n s k)). intros s _. apply put_bytes1. Qed.

Lemma put_string_if b k s : c_str s = s -> Forall wire_ok (if_wire b (WBytes k s)) ->
  room p0 n (message_bytes (ws ++ if_wire b (WBytes k s))) ->
  put_if b (_ProtoBufSetString n (Some s) k) (at_ ws) = Some (at_ (ws ++ if_wire b (WBytes k s))).
Proof. intros Hs. apply put_if_one. intros _ Hw. now apply put_string1. Qed.

Lemma put_string o k : (forall s, o = Some s -> c_str s = s) -> Forall wire_ok (opt_wire o (WBytes k)) ->
  room p0 n (message_bytes (ws ++ opt_wire o (WBytes k))) ->
  put_opt o (fun s => _ProtoBufSetString n (Some s) k) (at_ ws) = Some (at_ (ws ++ opt_wire o (WBytes k))).
Proof. intros Hs. apply (put_opt_one o (WBytes k) (fun s => _ProtoBufSetString n (Some s) k)). intros s Eo Hw. now apply put_string1, Hs. Qed.

Lemma put_unknown_fields k c us : unknown_fields k c us -> room p0 n (message_bytes (ws ++ us)) ->
  put_unknown n c (at_ ws) = Some (at_ (ws ++ us)).
Proof.
  unfold unknown_fields, put_unknown. destruct (unknown c) as [bs|].
  - intros (w & -> & -> & _). rewrite message_snoc. apply put_cursor.
  - intros -> _. now rewrite app_nil_r.
Qed.
End put.

Lemma unknown_fields_ok k c us : unknown_fields k c us -> Forall wire_ok us.
Proof. unfold unknown_fields. destruct (unknown c); [intros (w & -> & _ & Hw & _); now constructor|intros ->; constructor]. Qed.

(** The parts of a message that is not too long. *)
Ltac wire_len := rewrite ?app_nil_l, ?message_bytes_app, ?length_app; lia.
Ltac wire_fits Hroom := eapply room_le; [exact Hroom|wire_len].

(** ** Parsing a list of fields *)

Section parse.
Context {St : Type} (step : St -> Field -> option St) (m : Z).
Notation run st ws := (for_each (fun st w => step st (wire_field m w)) st ws).

Lemma run_one st w : run st [w] = step st (wire_field m w).
Proof. cbn. now destruct (step st (wire_field m w)). Qed.

Lemma run_if st b w st' : (b = true -> step st (wire_field m w) = Some st') -> (b = false -> st = st') -> run st (if_wire b w) = Some st'.
Proof. destruct b; intros H1 H2; [unfold if_wire; rewrite run_one; auto|cbn; now rewrite H2]. Qed.

Lemma run_opt {A} st (o : option A) f st' :
  (forall a, o = Some a -> step st (wire_field m (f a)) = Some st') -> (o = None -> st = st') -> run st (opt_wire o f) = Some st'.
Proof. destruct o; intros H1 H2; [unfold opt_wire; rewrite run_one; auto|cbn; now rewrite H2]. Qed.

Lemma run_unknown st k c us st' : unknown_fields k c us ->
  (forall w, us = [w] -> unknown c = Some (wire_bytes w) -> unknown_ok k w -> step st (wire_field m w) = Some st') ->
  (unknown c = None -> st = st') -> run st us = Some st'.
Proof.
  unfold unknown_fields. destruct (unknown c); [intros (w & -> & -> & Hw) H1 _; rewrite run_one; auto|intros -> _ H2; cbn; now rewrite H2].
Qed.
End parse.
