(* ===== verification/PaymentProtocol.v ===== *)
(** * PaymentProtocol: the messages of the payment protocol (BRPaymentProtocol.c)

    The messages of BIP70 and BIP75: their constructors, parsers and serializers, certificates, digests
    and encryption.  An array with its length is an [option (list Z)], NULL being [None]; every array's
    length is that of the array, except during a digest. *)
From Stdlib Require Import String.
From stdpp Require Import base numbers list gmap sets.
From Stdlib Require Import ZArith Lia.
From S2P Require Import Prelude CMem Int Crypto Aead Address Transaction Key ProtoBuf.
Local Open Scope Z_scope.

(** ** Field numbers *)

Definition output_amount : Z := 1.
Definition output_script : Z := 2.

Definition details_network : Z := 1.
Definition details_outputs : Z := 2.
Definition details_time : Z := 3.
Definition details_expires : Z := 4.
Definition details_memo : Z := 5.
Definition details_payment_url : Z := 6.
Definition details_merch_data : Z := 7.

Definition request_version : Z := 1.
Definition request_pki_type : Z := 2.
Definition request_pki_data : Z := 3.
Definition request_details : Z := 4.
Definition request_signature : Z := 5.

Definition certificates_cert : Z := 1.

Definition payment_merch_data : Z := 1.
Definition payment_transactions : Z := 2.
Definition payment_refund_to : Z := 3.
Definition payment_memo : Z := 4.

Definition ack_payment : Z := 1.
Definition ack_memo : Z := 2.

Definition invoice_req_sender_pk : Z := 1.
Definition invoice_req_amount : Z := 2.
Definition invoice_req_pki_type : Z := 3.
Definition invoice_req_pki_data : Z := 4.
Definition invoice_req_memo : Z := 5.
Definition invoice_req_notify_url : Z := 6.
Definition invoice_req_signature : Z := 7.

Definition message_msg_type : Z := 1.
Definition message_message : Z := 2.
Definition message_status_code : Z := 3.
Definition message_status_msg : Z := 4.
Definition message_identifier : Z := 5.

Definition encrypted_msg_msg_type : Z := 1.
Definition encrypted_msg_message : Z := 2.
Definition encrypted_msg_receiver_pk : Z := 3.
Definition encrypted_msg_sender_pk : Z := 4.
Definition encrypted_msg_nonce : Z := 5.
Definition encrypted_msg_signature : Z := 6.
Definition encrypted_msg_identifier : Z := 7.
Definition encrypted_msg_status_code : Z := 8.
Definition encrypted_msg_status_msg : Z := 9.

Definition text (s : string) : list Z := chars s.
Definition field_bytes (str : option (list Z)) (f : Field) : option (option (list Z)) := _ProtoBufBytes str (f_data f) (f_len f).
Definition field_string (str : option (list Z)) (f : Field) : option (option (list Z)) := _ProtoBufString str (f_data f) (f_len f).

(** ** Outputs *)

(** An output with the context that the code keeps behind its script. *)
Record Output := mkPayOutput { pay_out : BRTxOutput; out_ctx : ProtoBufContext }.

Definition BR_TX_OUTPUT_NONE : BRTxOutput := mkOutput [] 0 None.

(** A script of no bytes is allocated when there is none. *)
Definition _BRPaymentProtocolOutput (amount : Z) (script : option (list Z)) : option Output :=
  out ← BRTxOutputSetScript (mkOutput [] amount None) script;
  Some (mkPayOutput (mkOutput (out_address out) (out_amount out) (Some (default [] (out_script out)))) context_none).

Definition output_field (st : BRTxOutput * ProtoBufContext) (f : Field) : option (BRTxOutput * ProtoBufContext) :=
  let '(out, ctx) := st in
  if f_num f =? output_amount then Some (mkOutput (out_address out) (f_int f) (out_script out), clear_default output_amount ctx)
  else if f_num f =? output_script then
    script ← match f_data f with NoData => Some None | Region d => Some (Some d) | Outside => None end;
    out ← BRTxOutputSetScript out script; Some (out, ctx)
  else ctx ← add_unknown f ctx; Some (out, ctx).

(** The loop does not look at [buf]: on NULL it does not end.  [None]: [out.script] is NULL. *)
Definition _BRPaymentProtocolOutputParse (buf : ptr) (bufLen : Z) : option (option Output) :=
  '(out, ctx) ← parse_loop (S (length (default [] buf))) output_field buf bufLen 0
                  (BR_TX_OUTPUT_NONE, set_default output_amount context_none);
  Some (match out_script out with Some _ => Some (mkPayOutput out ctx) | None => None end).

Definition _BRPaymentProtocolOutputSerialize (out : Output) (buf : ptr) (bufLen : Z) : option (ptr * Z) :=
  script ← out_script (pay_out out);
  st ← put_if (written output_amount (out_ctx out))
         (_ProtoBufSetInt bufLen (out_amount (pay_out out)) output_amount) (buf, 0);
  st ← put_if (written output_script (out_ctx out)) (_ProtoBufSetBytes bufLen script output_script) st;
  st ← put_unknown bufLen (out_ctx out) st;
  finish bufLen st.

(** ** Payment details *)

Record BRPaymentProtocolDetails := mkDetails {
  d_network : option (list Z);
  d_outputs : list Output;
  d_outCount : Z;
  d_time : Z;
  d_expires : Z;
  d_memo : option (list Z);
  d_paymentURL : option (list Z);
  d_merchantData : option (list Z);
  d_ctx : ProtoBufContext;
}.

(** The strings are given without their terminators.  [outCount] keeps the 0 of [calloc]. *)
Definition BRPaymentProtocolDetailsNew (network : option (list Z)) (outputs : list BRTxOutput) (time expires : Z)
    (memo paymentURL merchantData : option (list Z)) : option BRPaymentProtocolDetails :=
  outs ← mapM (fun o => _BRPaymentProtocolOutput (out_amount o) (out_script o)) outputs;
  Some (mkDetails (Some (default (text "main") network)) outs 0 time expires memo paymentURL merchantData
          (match network with None => set_default details_network context_none | Some _ => context_none end)).

Definition details_field (d : BRPaymentProtocolDetails) (f : Field) : option BRPaymentProtocolDetails :=
  let '(mkDetails net outs n time expires memo url merch ctx) := d in
  if f_num f =? details_network then s ← field_string net f; Some (mkDetails s outs n time expires memo url merch ctx)
  else if f_num f =? details_outputs then
    buf ← match f_data f with NoData => Some None | Region m => Some (Some m) | Outside => None end;
    out ← _BRPaymentProtocolOutputParse buf (f_len f);
    Some (mkDetails net (outs ++ match out with Some o => [o] | None => [] end) n time expires memo url merch ctx)
  else if f_num f =? details_time then
    Some (mkDetails net outs n (f_int f) expires memo url merch (clear_default details_time ctx))
  else if f_num f =? details_expires then
    Some (mkDetails net outs n time (f_int f) memo url merch (clear_default details_expires ctx))
  else if f_num f =? details_memo then s ← field_string memo f; Some (mkDetails net outs n time expires s url merch ctx)
  else if f_num f =? details_payment_url then s ← field_string url f; Some (mkDetails net outs n time expires memo s merch ctx)
  else if f_num f =? details_merch_data then s ← field_bytes merch f; Some (mkDetails net outs n time expires memo url s ctx)
  else ctx ← add_unknown f ctx; Some (mkDetails net outs n time expires memo url merch ctx).

Definition BRPaymentProtocolDetailsParse (buf : ptr) (bufLen : Z) : option BRPaymentProtocolDetails :=
  d ← parse_fields details_field buf bufLen
        (mkDetails None [] 0 0 0 None None None (set_default details_expires (set_default details_time context_none)));
  let '(mkDetails net outs _ time expires memo url merch ctx) := d in
  Some (mkDetails (Some (default (text "main") net)) outs (len outs) time expires memo url merch
          (match net with None => set_default details_network ctx | Some _ => ctx end)).

(** The output is written to a buffer of its own first. *)
Definition put_output (bufLen key : Z) (st : ptr * Z) (o : Output) : option (ptr * Z) :=
  bs ← filled (_BRPaymentProtocolOutputSerialize o); _ProtoBufSetBytes bufLen bs key st.

Definition BRPaymentProtocolDetailsSerialize (d : BRPaymentProtocolDetails) (buf : ptr) (bufLen : Z) : option (ptr * Z) :=
  st ← put_if (written details_network (d_ctx d)) (_ProtoBufSetString bufLen (d_network d) details_network) (buf, 0);
  st ← (if d_outCount d <=? len (d_outputs d)
        then for_each (put_output bufLen details_outputs) st (take (Z.to_nat (d_outCount d)) (d_outputs d)) else None);
  st ← put_if (written details_time (d_ctx d)) (_ProtoBufSetInt bufLen (d_time d) details_time) st;
  st ← put_if (written details_expires (d_ctx d)) (_ProtoBufSetInt bufLen (d_expires d) details_expires) st;
  st ← put_opt (d_memo d) (fun s => _ProtoBufSetString bufLen (Some s) details_memo) st;
  st ← put_opt (d_paymentURL d) (fun s => _ProtoBufSetString bufLen (Some s) details_payment_url) st;
  st ← put_opt (d_merchantData d) (fun s => _ProtoBufSetBytes bufLen s details_merch_data) st;
  st ← put_unknown bufLen (d_ctx d) st;
  finish bufLen st.

(** ** Payment requests *)

Record BRPaymentProtocolRequest := mkRequest {
  r_version : Z;
  r_pkiType : option (list Z);
  r_pkiData : option (list Z);
  r_details : option BRPaymentProtocolDetails;
  r_signature : option (list Z);
  r_ctx : ProtoBufContext;
}.

Definition BRPaymentProtocolRequestNew (version : Z) (pkiType pkiData : option (list Z)) (details : BRPaymentProtocolDetails)
    (signature : option (list Z)) : BRPaymentProtocolRequest :=
  let ctx := if version =? 0 then set_default request_version context_none else context_none in
  let ctx := match pkiType with None => set_default request_pki_type ctx | Some _ => ctx end in
  mkRequest (if version =? 0 then 1 else version) (Some (default (text "none") pkiType)) pkiData (Some details) signature ctx.

Definition request_field (r : BRPaymentProtocolRequest) (f : Field) : option BRPaymentProtocolRequest :=
  let '(mkRequest v pki data det sig ctx) := r in
  if f_num f =? request_version then Some (mkRequest (u32 (f_int f)) pki data det sig (clear_default request_version ctx))
  else if f_num f =? request_pki_type then s ← field_string pki f; Some (mkRequest v s data det sig ctx)
  else if f_num f =? request_pki_data then s ← field_bytes data f; Some (mkRequest v pki s det sig ctx)
  else if f_num f =? request_details then
    buf ← region_of f; d ← BRPaymentProtocolDetailsParse buf (f_len f); Some (mkRequest v pki data (Some d) sig ctx)
  else if f_num f =? request_signature then s ← field_bytes sig f; Some (mkRequest v pki data det s ctx)
  else ctx ← add_unknown f ctx; Some (mkRequest v pki data det sig ctx).

Definition BRPaymentProtocolRequestParse (buf : ptr) (bufLen : Z) : option (option BRPaymentProtocolRequest) :=
  r ← parse_fields request_field buf bufLen (mkRequest 1 None None None None (set_default request_version context_none));
  let '(mkRequest v pki data det sig ctx) := r in
  let r := mkRequest v (Some (default (text "none") pki)) data det sig
             (match pki with None => set_default request_pki_type ctx | Some _ => ctx end) in
  Some (match det with Some _ => Some r | None => None end).

Definition BRPaymentProtocolRequestSerialize (r : BRPaymentProtocolRequest) (buf : ptr) (bufLen : Z) : option (ptr * Z) :=
  details ← r_details r;
  st ← put_if (written request_version (r_ctx r)) (_ProtoBufSetInt bufLen (r_version r) request_version) (buf, 0);
  st ← put_if (written request_pki_type (r_ctx r)) (_ProtoBufSetString bufLen (r_pkiType r) request_pki_type) st;
  st ← put_opt (r_pkiData r) (fun s => _ProtoBufSetBytes bufLen s request_pki_data) st;
  bs ← filled (BRPaymentProtocolDetailsSerialize details);
  st ← _ProtoBufSetBytes bufLen bs request_details st;
  st ← put_opt (r_signature r) (fun s => _ProtoBufSetBytes bufLen s request_signature) st;
  st ← put_unknown bufLen (r_ctx r) st;
  finish bufLen st.

(** [while (req->pkiData && off < req->pkiDataLen)]: the data and length found, and the rest of [idx]. *)
Fixpoint cert_loop (fuel : nat) (pkiData : list Z) (off idx : Z) : option (option (Data * Z) * Z) :=
  if off <? len pkiData then
    match fuel with
    | O => None
    | S fuel' =>
        '(f, off) ← _ProtoBufField (Some pkiData) (len pkiData) off;
        if (f_num f =? certificates_cert) && (match f_data f with NoData => false | _ => true end) then
          if idx =? 0 then Some (Some (f_data f, f_len f), 0) else cert_loop fuel' pkiData off (idx - 1)
        else cert_loop fuel' pkiData off idx
    end
  else Some (None, idx).

Definition copy_cert (pkiData : option (list Z)) (cert : ptr) (certLen idx : Z) : option (ptr * Z) :=
  '(found, idx) ← match pkiData with None => Some (None, idx) | Some m => cert_loop (S (length m)) m 0 idx end;
  let l := match found with Some (_, l) => l | None => 0 end in
  cert' ← match cert, found with
          | Some m, Some (d, l) =>
              if l <=? certLen
              then match d with Region d => m' ← mem_write m 0 d; Some (Some m') | _ => None end
              else Some cert
          | _, _ => Some cert
          end;
  Some (cert', if (idx =? 0) && (negb (bool_decide (is_Some cert)) || (l <=? certLen)) then l else 0).

Definition BRPaymentProtocolRequestCert (r : BRPaymentProtocolRequest) (cert : ptr) (certLen idx : Z) : option (ptr * Z) :=
  copy_cert (r_pkiData r) cert certLen idx.

(** The digest of [bs] for the PKI types given, each with its hash and size in bytes. *)
Definition put_digest (hashes : list (list Z * (list Z -> list Z) * Z)) (pkiType : option (list Z)) (bs : list Z) (md : ptr) (mdLen : Z)
    : option (ptr * Z) :=
  match pkiType, find (fun h => bool_decide (Some (fst (fst h)) = c_str <$> pkiType)) hashes with
  | Some _, Some (_, hash, n) =>
      match md with
      | None => Some (None, n)
      | Some m => if n <=? mdLen then m' ← mem_write m 0 (hash bs); Some (Some m', n) else Some (md, 0)
      end
  | _, _ => Some (md, 0)
  end.

(** The signature is serialized with length 0, and keeps its length afterwards. *)
Definition BRPaymentProtocolRequestDigest (r : BRPaymentProtocolRequest) (md : ptr) (mdLen : Z) : option (ptr * Z) :=
  let '(mkRequest v pki data det sig ctx) := r in
  bs ← filled (BRPaymentProtocolRequestSerialize (mkRequest v pki data det ((fun _ => []) <$> sig) ctx));
  put_digest [(text "x509+sha256", BRSHA256, 32); (text "x509+sha1", BRSHA1, 20)] pki bs md mdLen.

(** ** Payments *)

Record BRPaymentProtocolPayment := mkPayment {
  p_merchantData : option (list Z);
  p_transactions : list BRTransaction;
  p_refundTo : list Output;
  p_memo : option (list Z);
  p_ctx : ProtoBufContext;
}.

(** The counts are those of the arrays. *)
Definition BRPaymentProtocolPaymentNew (merchantData : option (list Z)) (transactions : list BRTransaction)
    (refundTo : list (Z * list Z)) (memo : option (list Z)) : option BRPaymentProtocolPayment :=
  outs ← mapM (fun r => script ← filled (fun p n => BRAddressScriptPubKey p n (snd r)); _BRPaymentProtocolOutput (fst r) (Some script)) refundTo;
  Some (mkPayment merchantData transactions outs memo context_none).

(** [BRTransactionParse] asserts [buf != NULL || bufLen == 0]; its NULL result is not added. *)
Definition payment_field (p : BRPaymentProtocolPayment) (f : Field) : option BRPaymentProtocolPayment :=
  let '(mkPayment merch txs refund memo ctx) := p in
  if f_num f =? payment_transactions then
    buf ← region_of f; tx ← BRTransactionParse (default [] buf);
    Some (mkPayment merch (txs ++ match tx with Some tx => [tx] | None => [] end) refund memo ctx)
  else if f_num f =? payment_refund_to then
    buf ← match f_data f with NoData => Some None | Region m => Some (Some m) | Outside => None end;
    out ← _BRPaymentProtocolOutputParse buf (f_len f);
    Some (mkPayment merch txs (refund ++ match out with Some o => [o] | None => [] end) memo ctx)
  else if f_num f =? payment_memo then s ← field_string memo f; Some (mkPayment merch txs refund s ctx)
  else if f_num f =? payment_merch_data then s ← field_bytes merch f; Some (mkPayment s txs refund memo ctx)
  else ctx ← add_unknown f ctx; Some (mkPayment merch txs refund memo ctx).

Definition BRPaymentProtocolPaymentParse (buf : ptr) (bufLen : Z) : option BRPaymentProtocolPayment :=
  parse_fields payment_field buf bufLen (mkPayment None [] [] None context_none).

Definition put_transaction (bufLen : Z) (st : ptr * Z) (tx : BRTransaction) : option (ptr * Z) :=
  bs ← filled (BRTransactionSerialize tx); _ProtoBufSetBytes bufLen bs payment_transactions st.

Definition BRPaymentProtocolPaymentSerialize (p : BRPaymentProtocolPayment) (buf : ptr) (bufLen : Z) : option (ptr * Z) :=
  st ← put_opt (p_merchantData p) (fun s => _ProtoBufSetBytes bufLen s payment_merch_data) (buf, 0);
  st ← for_each (put_transaction bufLen) st (p_transactions p);
  st ← for_each (put_output bufLen payment_refund_to) st (p_refundTo p);
  st ← put_opt (p_memo p) (fun s => _ProtoBufSetString bufLen (Some s) payment_memo) st;
  st ← put_unknown bufLen (p_ctx p) st;
  finish bufLen st.

(** ** Payment ACKs *)

Record BRPaymentProtocolACK := mkAck {
  a_payment : option BRPaymentProtocolPayment;
  a_memo : option (list Z);
  a_ctx : ProtoBufContext;
}.

Definition BRPaymentProtocolACKNew (payment : BRPaymentProtocolPayment) (memo : option (list Z)) : BRPaymentProtocolACK :=
  mkAck (Some payment) memo context_none.

Definition ack_field (a : BRPaymentProtocolACK) (f : Field) : option BRPaymentProtocolACK :=
  let '(mkAck pay memo ctx) := a in
  if f_num f =? ack_payment then
    buf ← region_of f; p ← BRPaymentProtocolPaymentParse buf (f_len f); Some (mkAck (Some p) memo ctx)
  else if f_num f =? ack_memo then s ← field_string memo f; Some (mkAck pay s ctx)
  else ctx ← add_unknown f ctx; Some (mkAck pay memo ctx).

Definition BRPaymentProtocolACKParse (buf : ptr) (bufLen : Z) : option (option BRPaymentProtocolACK) :=
  a ← parse_fields ack_field buf bufLen (mkAck None None context_none);
  Some (match a_payment a with Some _ => Some a | None => None end).

Definition BRPaymentProtocolACKSerialize (a : BRPaymentProtocolACK) (buf : ptr) (bufLen : Z) : option (ptr * Z) :=
  payment ← a_payment a;
  bs ← filled (BRPaymentProtocolPaymentSerialize payment);
  st ← _ProtoBufSetBytes bufLen bs ack_payment (buf, 0);
  st ← put_opt (a_memo a) (fun s => _ProtoBufSetString bufLen (Some s) ack_memo) st;
  st ← put_unknown bufLen (a_ctx a) st;
  finish bufLen st.

(** ** Messages *)

Record BRPaymentProtocolMessage := mkMessage {
  m_msgType : Z;
  m_message : option (list Z);
  m_statusCode : Z;
  m_statusMsg : option (list Z);
  m_identifier : option (list Z);
  m_ctx : ProtoBufContext;
}.

(** No message: the result is NULL. *)
Definition BRPaymentProtocolMessageNew (msgType : Z) (message : option (list Z)) (statusCode : Z)
    (statusMsg identifier : option (list Z)) : option BRPaymentProtocolMessage :=
  match message with
  | Some _ => Some (mkMessage msgType message statusCode statusMsg identifier context_none)
  | None => None
  end.

(** The state of the parser has [gotMsgType]; the enumeration is an [unsigned int]. *)
Definition message_field (st : BRPaymentProtocolMessage * bool) (f : Field) : option (BRPaymentProtocolMessage * bool) :=
  let '(mkMessage t m code smsg ident ctx, gotMsgType) := st in
  if f_num f =? message_msg_type then Some (mkMessage (u32 (f_int f)) m code smsg ident ctx, true)
  else if f_num f =? message_message then s ← field_bytes m f; Some (mkMessage t s code smsg ident ctx, gotMsgType)
  else if f_num f =? message_status_code then
    Some (mkMessage t m (f_int f) smsg ident (clear_default message_status_code ctx), gotMsgType)
  else if f_num f =? message_status_msg then s ← field_string smsg f; Some (mkMessage t m code s ident ctx, gotMsgType)
  else if f_num f =? message_identifier then s ← field_bytes ident f; Some (mkMessage t m code smsg s ctx, gotMsgType)
  else ctx ← add_unknown f ctx; Some (mkMessage t m code smsg ident ctx, gotMsgType).

Definition BRPaymentProtocolMessageParse (buf : ptr) (bufLen : Z) : option (option BRPaymentProtocolMessage) :=
  '(m, gotMsgType) ← parse_fields message_field buf bufLen
                       (mkMessage 0 None 0 None None (set_default message_status_code context_none), false);
  Some (if (gotMsgType : bool) && bool_decide (is_Some (m_message m)) then Some m else None).

Definition BRPaymentProtocolMessageSerialize (m : BRPaymentProtocolMessage) (buf : ptr) (bufLen : Z) : option (ptr * Z) :=
  message ← m_message m;
  st ← _ProtoBufSetInt bufLen (m_msgType m) message_msg_type (buf, 0);
  st ← _ProtoBufSetBytes bufLen message message_message st;
  st ← put_if (written message_status_code (m_ctx m)) (_ProtoBufSetInt bufLen (m_statusCode m) message_status_code) st;
  st ← put_opt (m_statusMsg m) (fun s => _ProtoBufSetString bufLen (Some s) message_status_msg) st;
  st ← put_opt (m_identifier m) (fun s => _ProtoBufSetBytes bufLen s message_identifier) st;
  st ← put_unknown bufLen (m_ctx m) st;
  finish bufLen st.

(** ** The format of the messages

    [..._format x ws] says that [x] is a well-formed message and [ws] are its fields in the order of the
    serializer: the absent ones are those that [x]'s context calls defaults (they have their default
    value) and the pointers that are NULL.  The strings have no terminator inside, the integers their
    width, and at most one field is unknown. *)

Definition no_nul (o : option (list Z)) : Prop := forall s, o = Some s -> c_str s = s.

Definition output_format (o : Output) (ws : list Wire) : Prop :=
  exists script us, let out := pay_out o in let ctx := out_ctx o in
  out_script out = Some script /\ address_field BRAddressFromScriptPubKey script = Some (out_address out) /\
  defaults ctx ⊆ {[output_amount]} /\ (is_default output_amount ctx = true -> out_amount out = 0) /\
  unknown_fields output_script ctx us /\ Forall wire_ok ws /\
  ws = if_wire (written output_amount ctx) (WInt output_amount (out_amount out)) ++ [WBytes output_script script] ++ us.

(** A repeated field: one sub-message per element. *)
Definition sub_fields {B} (bytes : B -> list Z) (k : Z) (subs : list B) : list Wire := (fun b => WBytes k (bytes b)) <$> subs.

Definition details_format (d : BRPaymentProtocolDetails) (ws : list Wire) : Prop :=
  exists network subs us, let ctx := d_ctx d in
  d_network d = Some network /\ Forall2 output_format (d_outputs d) subs /\ d_outCount d = len (d_outputs d) /\
  no_nul (d_network d) /\ no_nul (d_memo d) /\ no_nul (d_paymentURL d) /\
  defaults ctx ⊆ {[details_network; details_time; details_expires]} /\
  (is_default details_network ctx = true -> network = text "main") /\
  (is_default details_time ctx = true -> d_time d = 0) /\ (is_default details_expires ctx = true -> d_expires d = 0) /\
  unknown_fields details_merch_data ctx us /\ Forall wire_ok ws /\
  ws = if_wire (written details_network ctx) (WBytes details_network network) ++ sub_fields message_bytes details_outputs subs ++
       if_wire (written details_time ctx) (WInt details_time (d_time d)) ++
       if_wire (written details_expires ctx) (WInt details_expires (d_expires d)) ++
       opt_wire (d_memo d) (WBytes details_memo) ++ opt_wire (d_paymentURL d) (WBytes details_payment_url) ++
       opt_wire (d_merchantData d) (WBytes details_merch_data) ++ us.

Definition request_format (r : BRPaymentProtocolRequest) (ws : list Wire) : Prop :=
  exists d dws pki us, let ctx := r_ctx r in
  r_details r = Some d /\ details_format d dws /\ r_pkiType r = Some pki /\ no_nul (r_pkiType r) /\
  0 <= r_version r < 0x100000000 /\ defaults ctx ⊆ {[request_version; request_pki_type]} /\
  (is_default request_version ctx = true -> r_version r = 1) /\ (is_default request_pki_type ctx = true -> pki = text "none") /\
  unknown_fields request_signature ctx us /\ Forall wire_ok ws /\
  ws = if_wire (written request_version ctx) (WInt request_version (r_version r)) ++
       if_wire (written request_pki_type ctx) (WBytes request_pki_type pki) ++
       opt_wire (r_pkiData r) (WBytes request_pki_data) ++ [WBytes request_details (message_bytes dws)] ++
       opt_wire (r_signature r) (WBytes request_signature) ++ us.

(** The transactions are what their bytes are parsed to. *)
Definition parses_back (tx : BRTransaction) : Prop := BRTransactionParse (tx_bytes tx) = Some (Some tx).

Definition payment_format (p : BRPaymentProtocolPayment) (ws : list Wire) : Prop :=
  exists subs us, Forall parses_back (p_transactions p) /\ Forall2 output_format (p_refundTo p) subs /\ no_nul (p_memo p) /\
  defaults (p_ctx p) = ∅ /\ unknown_fields payment_memo (p_ctx p) us /\ Forall wire_ok ws /\
  ws = opt_wire (p_merchantData p) (WBytes payment_merch_data) ++
       sub_fields tx_bytes payment_transactions (p_transactions p) ++
       sub_fields message_bytes payment_refund_to subs ++ opt_wire (p_memo p) (WBytes payment_memo) ++ us.

Definition ack_format (a : BRPaymentProtocolACK) (ws : list Wire) : Prop :=
  exists p pws us, a_payment a = Some p /\ payment_format p pws /\ no_nul (a_memo a) /\
  defaults (a_ctx a) = ∅ /\ unknown_fields ack_memo (a_ctx a) us /\ Forall wire_ok ws /\
  ws = [WBytes ack_payment (message_bytes pws)] ++ opt_wire (a_memo a) (WBytes ack_memo) ++ us.

Definition message_format (m : BRPaymentProtocolMessage) (ws : list Wire) : Prop :=
  exists message us, let ctx := m_ctx m in
  m_message m = Some message /\ no_nul (m_statusMsg m) /\ 0 <= m_msgType m < 0x100000000 /\
  defaults ctx ⊆ {[message_status_code]} /\ (is_default message_status_code ctx = true -> m_statusCode m = 0) /\
  unknown_fields message_identifier ctx us /\ Forall wire_ok ws /\
  ws = [WInt message_msg_type (m_msgType m)] ++ [WBytes message_message message] ++
       if_wire (written message_status_code ctx) (WInt message_status_code (m_statusCode m)) ++
       opt_wire (m_statusMsg m) (WBytes message_status_msg) ++ opt_wire (m_identifier m) (WBytes message_identifier) ++ us.

(** ** Round trips *)

(** The field is one the parser does not know. *)
Lemma unknown_num n k w : unknown_ok n w -> k <= n -> (wire_key w =? k) = false.
Proof. intros (_ & Hn & _) Hk. apply Z.eqb_neq. lia. Qed.

Ltac not_known Hw := rewrite ?(f_num_wire _ _ (proj1 Hw)), ?(unknown_num _ _ _ Hw) by (vm_compute; discriminate).

Lemma add_unknown_eq n m w c ctx : unknown_ok n w -> unknown c = None -> unknown ctx = Some (wire_bytes w) ->
  defaults c = defaults ctx -> add_unknown (wire_field m w) c = Some ctx.
Proof. intros Hw Hc Hu Hd. rewrite (add_unknown_first n) by done. rewrite Hd, <- Hu. now destruct ctx. Qed.

Lemma context_eq (a b : ProtoBufContext) : defaults a = defaults b -> unknown a = unknown b -> a = b.
Proof. destruct a, b. cbn. now intros -> ->. Qed.

Definition seen (b : bool) (k : Z) (c : ProtoBufContext) : ProtoBufContext := if b then clear_default k c else c.

Lemma is_default_spec k c : is_default k c = true <-> k ∈ defaults c.
Proof. apply bool_decide_eq_true. Qed.

Ltac run_next := rewrite bind_Some_l; rewrite ?for_each_app.
Ltac split_wires H := repeat (apply Forall_app in H; destruct H as [? H]).
Ltac put_next L Hroom := rewrite L; [rewrite bind_Some_l|try done..|wire_fits Hroom].

Lemma output_writes o ws : output_format o ws -> writes (_BRPaymentProtocolOutputSerialize o) (message_bytes ws).
Proof.
  intros (script & us & Es & _ & Hd & _ & Hu & Hw & ->) p n Hroom. unfold _BRPaymentProtocolOutputSerialize.
  rewrite Es, bind_Some_l, <- (cursor_nil p). change (cursor p []) with (cursor p (message_bytes [])). split_wires Hw.
  put_next (put_int p n []) Hroom. rewrite app_nil_l.
  assert (Hs : written output_script (out_ctx o) = true).
  { apply negb_true_iff, bool_decide_eq_false_2. intros Hi. apply Hd in Hi. set_solver. }
  rewrite Hs. cbn [put_if]. put_next put_bytes1 Hroom. rewrite (put_unknown_fields p n _ output_script _ us) by (done || wire_fits Hroom).
  rewrite bind_Some_l, <- app_assoc. now apply finish_cursor.
Qed.

Lemma output_parse o ws : output_format o ws -> len (message_bytes ws) < 0x10000000000000000 ->
  _BRPaymentProtocolOutputParse (Some (message_bytes ws)) (len (message_bytes ws)) = Some (Some o).
Proof.
  intros (script & us & Es & Ea & Hd & H0 & Hu & Hw & E) Hl. unfold _BRPaymentProtocolOutputParse.
  change (parse_loop _ ?s (Some ?b) ?l 0 ?st) with (parse_fields s (Some b) l st). rewrite parse_fields_message by done.
  generalize (len (message_bytes ws)) as m. intros m. subst ws. rewrite !for_each_app. destruct o as [[addr amount sc] ctx].
  cbn [pay_out out_ctx out_script out_address out_amount] in *. subst sc.
  set (c1 := seen (written output_amount ctx) output_amount (set_default output_amount context_none)).
  rewrite (run_if _ _ _ _ _ (mkOutput [] amount None, c1)).
  2: { intros E. unfold c1. now rewrite E. }
  2: { intros E. unfold c1. rewrite E. apply negb_false_iff in E. now rewrite H0. }
  rewrite bind_Some_l, for_each_app, run_one.
  change (output_field (_, c1) (wire_field m (WBytes output_script script))) with (out ← BRTxOutputSetScript (mkOutput [] amount None) (Some script); Some (out, c1)).
  unfold BRTxOutputSetScript. rewrite Ea, !bind_Some_l. cbn [out_amount].
  assert (Ec : defaults c1 = defaults ctx).
  { unfold c1, seen, written. destruct (is_default output_amount ctx) eqn:Ed; cbn -[union difference].
    - apply is_default_spec in Ed. set_solver.
    - assert (output_amount ∉ defaults ctx) by (rewrite <- is_default_spec, Ed; done). set_solver. }
  rewrite (run_unknown _ _ _ output_script ctx us (mkOutput addr amount (Some script), ctx)); [done|done| |].
  - intros w _ Eu Hk. unfold output_field. not_known Hk.
    rewrite (add_unknown_eq output_script m w c1 ctx) by (done || unfold c1; now destruct (written output_amount ctx)). done.
  - intros Eu. f_equal. apply context_eq; [done|]. rewrite Eu. unfold c1. now destruct (written output_amount ctx).
Qed.

(** The context of a message after its fields, whatever their values. *)
Ltac seen_tac :=
  unfold seen, written, is_default in *; repeat case_bool_decide; cbn -[union difference] in *; set_solver.
Lemma seen_unknown b k c : unknown (seen b k c) = unknown c.
Proof. now destruct b. Qed.

Lemma without_default k ctx : written k ctx = true -> defaults ctx ∖ {[k]} = defaults ctx.
Proof. intros Hw. apply negb_true_iff, bool_decide_eq_false in Hw. set_solver. Qed.

Lemma with_default k ctx : written k ctx = false -> {[k]} ∪ defaults ctx ∖ {[k]} = defaults ctx.
Proof. intros Hw. apply negb_false_iff, bool_decide_eq_true in Hw. apply set_eq. intros x. destruct (decide (x = k)); set_solver. Qed.

(** *** Repeated sub-messages *)

Section subs.
Context {A B : Type} (bytes : B -> list Z) (fmt : A -> B -> Prop) (ser : A -> ptr -> Z -> option (ptr * Z)).
Hypothesis ser_writes : forall a b, fmt a b -> writes (ser a) (bytes b).

Lemma put_sub p n k a b pre : fmt a b -> Forall wire_ok [WBytes k (bytes b)] ->
  room p n (message_bytes (pre ++ [WBytes k (bytes b)])) ->
  (bs ← filled (ser a); _ProtoBufSetBytes n bs k (cursor p (message_bytes pre))) =
  Some (cursor p (message_bytes (pre ++ [WBytes k (bytes b)]))).
Proof.
  intros Hf Hw Hr. rewrite (filled_writes _ _ (ser_writes a b Hf)).
  - rewrite bind_Some_l. now apply put_bytes1.
  - inversion_clear Hw as [|? ? [_ Hl] _]. lia.
Qed.

Lemma put_subs p n k l subs pre : Forall2 fmt l subs -> Forall wire_ok (sub_fields bytes k subs) ->
  room p n (message_bytes (pre ++ sub_fields bytes k subs)) ->
  for_each (fun st a => bs ← filled (ser a); _ProtoBufSetBytes n bs k st) (cursor p (message_bytes pre)) l =
  Some (cursor p (message_bytes (pre ++ sub_fields bytes k subs))).
Proof.
  intros Hf. revert pre. induction Hf as [|a b l subs Ha Hf IH]; intros pre Hw Hr; cbn [for_each]; [unfold sub_fields; cbn; now rewrite app_nil_r|].
  change (sub_fields bytes k (b :: subs)) with ([WBytes k (bytes b)] ++ sub_fields bytes k subs) in *.
  apply Forall_app in Hw as [Hw1 Hw]. rewrite (put_sub p n k a b pre Ha Hw1) by wire_fits Hr. rewrite bind_Some_l, app_assoc.
  apply IH; [done|]. now rewrite <- app_assoc.
Qed.
End subs.

Lemma details_writes d ws : details_format d ws -> writes (BRPaymentProtocolDetailsSerialize d) (message_bytes ws).
Proof.
  intros (network & subs & us & En & Hs & Ec & Tn & Tm & Tu & _ & _ & _ & _ & Hu & Hw & ->) p n Hroom.
  unfold BRPaymentProtocolDetailsSerialize. rewrite <- (cursor_nil p). change (cursor p []) with (cursor p (message_bytes [])).
  split_wires Hw. rewrite En, Ec, (proj2 (Z.leb_le _ _)), Nat2Z.id, firstn_all by lia.
  put_next (put_string_if p n []) Hroom; [|now apply Tn]. rewrite app_nil_l.
  rewrite (put_subs message_bytes output_format _BRPaymentProtocolOutputSerialize output_writes p n details_outputs (d_outputs d) subs)
    by (done || wire_fits Hroom). rewrite bind_Some_l.
  put_next put_int Hroom. put_next put_int Hroom. put_next put_string Hroom. put_next put_string Hroom. put_next put_bytes Hroom.
  rewrite (put_unknown_fields p n _ details_merch_data _ us) by (done || wire_fits Hroom). rewrite bind_Some_l, <- !app_assoc.
  now apply finish_cursor.
Qed.

Lemma details_outputs_parse net outs t e memo url merch ctx m l subs : Forall2 output_format l subs ->
  Forall wire_ok (sub_fields message_bytes details_outputs subs) ->
  for_each (fun st w => details_field st (wire_field m w)) (mkDetails net outs 0 t e memo url merch ctx) (sub_fields message_bytes details_outputs subs) =
  Some (mkDetails net (outs ++ l) 0 t e memo url merch ctx).
Proof.
  intros Hf. revert outs. induction Hf as [|o ws l subs Ho Hf IH]; intros outs Hw; [cbn; now rewrite app_nil_r|].
  change (sub_fields message_bytes details_outputs (ws :: subs)) with (WBytes details_outputs (message_bytes ws) :: sub_fields message_bytes details_outputs subs) in *.
  cbn [for_each]. inversion_clear Hw as [|? ? [_ Hl] Hw']. 
  change (details_field (mkDetails net outs 0 t e memo url merch ctx) (wire_field m (WBytes details_outputs (message_bytes ws))))
    with (out ← _BRPaymentProtocolOutputParse (Some (message_bytes ws)) (len (message_bytes ws));
          Some (mkDetails net (outs ++ match out with Some o => [o] | None => [] end) 0 t e memo url merch ctx)).
  rewrite (output_parse o ws Ho), !bind_Some_l by lia. rewrite IH by done. now rewrite <- app_assoc.
Qed.

Lemma details_parse d ws : details_format d ws -> len (message_bytes ws) < 0x10000000000000000 ->
  BRPaymentProtocolDetailsParse (Some (message_bytes ws)) (len (message_bytes ws)) = Some d.
Proof.
  intros (network & subs & us & En & Hs & Ec & Tn & Tm & Tu & Hd & Dn & Dt & De & Hu & Hw & E) Hl.
  unfold BRPaymentProtocolDetailsParse. rewrite parse_fields_message by done.
  generalize (len (message_bytes ws)) as m. intros m. subst ws. rewrite !for_each_app.
  destruct d as [net outs cnt time expires memo url merch ctx]. cbn [d_network d_outputs d_outCount d_time d_expires d_memo d_paymentURL d_merchantData d_ctx] in *.
  subst net cnt. split_wires Hw.
  set (c0 := set_default details_expires (set_default details_time context_none)).
  set (net1 := if written details_network ctx then Some network else None).
  set (c1 := seen (written details_time ctx) details_time c0). set (c2 := seen (written details_expires ctx) details_expires c1).
  rewrite (run_if _ _ _ _ _ (mkDetails net1 [] 0 0 0 None None None c0)) by (unfold net1; intros ->; done).
  run_next. rewrite (details_outputs_parse _ _ _ _ _ _ _ _ _ outs) by done. run_next. rewrite app_nil_l.
  rewrite (run_if _ _ _ _ _ (mkDetails net1 outs 0 time 0 None None None c1)).
  2: { intros E. unfold c1. now rewrite E. }
  2: { intros E. unfold c1. rewrite E. apply negb_false_iff in E. now rewrite Dt. }
  run_next. rewrite (run_if _ _ _ _ _ (mkDetails net1 outs 0 time expires None None None c2)).
  2: { intros E. unfold c2. now rewrite E. }
  2: { intros E. unfold c2. rewrite E. apply negb_false_iff in E. now rewrite De. }
  run_next. rewrite (run_opt _ _ _ _ _ (mkDetails net1 outs 0 time expires memo None None c2)) by (intros; subst; done).
  run_next. rewrite (run_opt _ _ _ _ _ (mkDetails net1 outs 0 time expires memo url None c2)) by (intros; subst; done).
  run_next. rewrite (run_opt _ _ _ _ _ (mkDetails net1 outs 0 time expires memo url merch c2)) by (intros; subst; done).
  run_next. set (cl := mkProtoContext (defaults ctx ∖ {[details_network]}) (unknown ctx)).
  assert (E2 : defaults c2 = defaults cl) by (unfold c2, c1, c0, cl; clear -Hd; seen_tac).
  assert (Eu2 : unknown c2 = None) by (unfold c2, c1; now rewrite !seen_unknown).
  rewrite (run_unknown _ _ _ details_merch_data ctx us (mkDetails net1 outs 0 time expires memo url merch cl)); [|done| |].
  - rewrite bind_Some_l. unfold net1, cl. destruct (written details_network ctx) eqn:Ew.
    + do 2 f_equal. apply context_eq; [now apply without_default|done].
    + do 2 f_equal; [|apply context_eq; [now apply with_default|done]]. apply negb_false_iff in Ew. now rewrite Dn.
  - intros w _ Eu Hk. unfold details_field. not_known Hk. now rewrite (add_unknown_eq details_merch_data m w c2 cl).
  - intros Eu. f_equal. apply context_eq; [done|]. now rewrite Eu2.
Qed.

(** *** Requests *)

Lemma request_writes r ws : request_format r ws -> writes (BRPaymentProtocolRequestSerialize r) (message_bytes ws).
Proof.
  intros (d & dws & pki & us & Ed & Hd & Ep & Tp & _ & _ & _ & _ & Hu & Hw & ->) p n Hroom.
  unfold BRPaymentProtocolRequestSerialize. rewrite Ed, bind_Some_l, <- (cursor_nil p). change (cursor p []) with (cursor p (message_bytes [])).
  split_wires Hw. rewrite Ep. put_next (put_int p n []) Hroom. rewrite app_nil_l.
  put_next put_string_if Hroom; [|now apply Tp]. put_next put_bytes Hroom.
  rewrite (filled_writes _ (message_bytes dws) (details_writes d dws Hd)), bind_Some_l.
  2: { match goal with Hd' : Forall wire_ok [WBytes request_details _] |- _ => inversion_clear Hd' as [|? ? [_ Hl] _] end. lia. }
  put_next put_bytes1 Hroom. put_next put_bytes Hroom.
  rewrite (put_unknown_fields p n _ request_signature _ us) by (done || wire_fits Hroom). rewrite bind_Some_l, <- !app_assoc.
  now apply finish_cursor.
Qed.

Lemma request_parse r ws : request_format r ws -> len (message_bytes ws) < 0x10000000000000000 ->
  BRPaymentProtocolRequestParse (Some (message_bytes ws)) (len (message_bytes ws)) = Some (Some r).
Proof.
  intros (d & dws & pki & us & Ed & Hdet & Ep & Tp & Hv & Hd & Dv & Dp & Hu & Hw & E) Hl.
  unfold BRPaymentProtocolRequestParse. rewrite parse_fields_message by done.
  generalize (len (message_bytes ws)) as m. intros m. subst ws. rewrite for_each_app.
  destruct r as [v pt data det sg ctx]. cbn [r_version r_pkiType r_pkiData r_details r_signature r_ctx] in *. subst det pt. split_wires Hw.
  assert (Hdl : len (message_bytes dws) < 0x10000000000000000).
  { match goal with Hd' : Forall wire_ok [WBytes request_details _] |- _ => inversion_clear Hd' as [|? ? [_ Hdl] _] end. lia. }
  set (c0 := set_default request_version context_none). set (c1 := seen (written request_version ctx) request_version c0).
  set (pt := if written request_pki_type ctx then Some pki else None).
  rewrite (run_if _ _ _ _ _ (mkRequest v None None None None c1)).
  2: { intros E. unfold c1. rewrite E. cbn -[u32 clear_default]. now rewrite u32_id. }
  2: { intros E. unfold c1. rewrite E. apply negb_false_iff in E. now rewrite Dv. }
  run_next. rewrite (run_if _ _ _ _ _ (mkRequest v pt None None None c1)) by (unfold pt; intros ->; done).
  run_next. rewrite (run_opt _ _ _ _ _ (mkRequest v pt data None None c1)) by (intros; subst; done).
  run_next. rewrite run_one.
  change (request_field (mkRequest v pt data None None c1) (wire_field m (WBytes request_details (message_bytes dws)))) with
    (d ← BRPaymentProtocolDetailsParse (Some (message_bytes dws)) (len (message_bytes dws)); Some (mkRequest v pt data (Some d) None c1)).
  rewrite (details_parse d dws Hdet Hdl), bind_Some_l.
  run_next. rewrite (run_opt _ _ _ _ _ (mkRequest v pt data (Some d) sg c1)) by (intros; subst; done). run_next.
  set (cl := mkProtoContext (defaults ctx ∖ {[request_pki_type]}) (unknown ctx)).
  assert (E1 : defaults c1 = defaults cl) by (unfold c1, c0, cl; clear -Hd; seen_tac).
  assert (Eu1 : unknown c1 = None) by (unfold c1; now rewrite !seen_unknown).
  rewrite (run_unknown _ _ _ request_signature ctx us (mkRequest v pt data (Some d) sg cl)); [|done| |].
  - rewrite bind_Some_l. unfold pt, cl. destruct (written request_pki_type ctx) eqn:Ew.
    + do 3 f_equal. apply context_eq; [now apply without_default|done].
    + do 3 f_equal; [|apply context_eq; [now apply with_default|done]]. apply negb_false_iff in Ew. now rewrite Dp.
  - intros w _ Eu Hk. unfold request_field. not_known Hk. now rewrite (add_unknown_eq request_signature m w c1 cl).
  - intros Eu. f_equal. apply context_eq; [done|]. now rewrite Eu1.
Qed.

(** *** Payments and ACKs *)

Lemma payment_writes y ws : payment_format y ws -> writes (BRPaymentProtocolPaymentSerialize y) (message_bytes ws).
Proof.
  intros (subs & us & _ & Hs & Tm & _ & Hu & Hw & ->) p n Hroom.
  unfold BRPaymentProtocolPaymentSerialize. rewrite <- (cursor_nil p). change (cursor p []) with (cursor p (message_bytes [])).
  split_wires Hw. put_next (put_bytes p n []) Hroom. rewrite app_nil_l.
  rewrite (put_subs tx_bytes eq BRTransactionSerialize ltac:(intros; subst; apply serialize_writes) p n payment_transactions
    (p_transactions y) (p_transactions y)) by (try (wire_fits Hroom); try done; now apply Forall2_diag, Forall_true).
  rewrite bind_Some_l.
  rewrite (put_subs message_bytes output_format _BRPaymentProtocolOutputSerialize output_writes p n payment_refund_to (p_refundTo y) subs)
    by (done || wire_fits Hroom). rewrite bind_Some_l. put_next put_string Hroom.
  rewrite (put_unknown_fields p n _ payment_memo _ us) by (done || wire_fits Hroom). rewrite bind_Some_l, <- !app_assoc.
  now apply finish_cursor.
Qed.

Lemma payment_txs_parse merch txs refund memo ctx m l : Forall parses_back l ->
  for_each (fun st w => payment_field st (wire_field m w)) (mkPayment merch txs refund memo ctx) (sub_fields tx_bytes payment_transactions l) =
  Some (mkPayment merch (txs ++ l) refund memo ctx).
Proof.
  intros Hf. revert txs. induction Hf as [|tx l Ht Hf IH]; intros txs; [cbn; now rewrite app_nil_r|].
  change (sub_fields tx_bytes payment_transactions (tx :: l)) with (WBytes payment_transactions (tx_bytes tx) :: sub_fields tx_bytes payment_transactions l).
  cbn [for_each].
  change (payment_field (mkPayment merch txs refund memo ctx) (wire_field m (WBytes payment_transactions (tx_bytes tx))))
    with (t ← BRTransactionParse (tx_bytes tx); Some (mkPayment merch (txs ++ match t with Some t => [t] | None => [] end) refund memo ctx)).
  rewrite Ht, !bind_Some_l, IH. now rewrite <- app_assoc.
Qed.

Lemma payment_outputs_parse merch txs outs memo ctx m l subs : Forall2 output_format l subs ->
  Forall wire_ok (sub_fields message_bytes payment_refund_to subs) ->
  for_each (fun st w => payment_field st (wire_field m w)) (mkPayment merch txs outs memo ctx) (sub_fields message_bytes payment_refund_to subs) =
  Some (mkPayment merch txs (outs ++ l) memo ctx).
Proof.
  intros Hf. revert outs. induction Hf as [|o ws l subs Ho Hf IH]; intros outs Hw; [cbn; now rewrite app_nil_r|].
  change (sub_fields message_bytes payment_refund_to (ws :: subs)) with
    (WBytes payment_refund_to (message_bytes ws) :: sub_fields message_bytes payment_refund_to subs) in *.
  cbn [for_each]. inversion_clear Hw as [|? ? [_ Hl] Hw'].
  change (payment_field (mkPayment merch txs outs memo ctx) (wire_field m (WBytes payment_refund_to (message_bytes ws))))
    with (out ← _BRPaymentProtocolOutputParse (Some (message_bytes ws)) (len (message_bytes ws));
          Some (mkPayment merch txs (outs ++ match out with Some o => [o] | None => [] end) memo ctx)).
  rewrite (output_parse o ws Ho), !bind_Some_l by lia. rewrite IH by done. now rewrite <- app_assoc.
Qed.

Lemma payment_parse y ws : payment_format y ws -> len (message_bytes ws) < 0x10000000000000000 ->
  BRPaymentProtocolPaymentParse (Some (message_bytes ws)) (len (message_bytes ws)) = Some y.
Proof.
  intros (subs & us & Ht & Hs & Tm & Hd & Hu & Hw & E) Hl.
  unfold BRPaymentProtocolPaymentParse. rewrite parse_fields_message by done.
  generalize (len (message_bytes ws)) as m. intros m. subst ws. rewrite for_each_app.
  destruct y as [merch txs refund memo ctx]. cbn [p_merchantData p_transactions p_refundTo p_memo p_ctx] in *. split_wires Hw.
  rewrite (run_opt _ _ _ _ _ (mkPayment merch [] [] None context_none)) by (intros; subst; done).
  run_next. rewrite payment_txs_parse by done. run_next. rewrite (payment_outputs_parse _ _ _ _ _ _ refund) by done. run_next.
  rewrite (run_opt _ _ _ _ _ (mkPayment merch txs refund memo context_none)) by (intros; subst; done). run_next.
  apply (run_unknown _ _ _ payment_memo ctx us); [done| |].
  - intros w _ Eu Hk. unfold payment_field. not_known Hk. now rewrite (add_unknown_eq payment_memo m w context_none ctx).
  - intros Eu. f_equal. now apply context_eq.
Qed.

Lemma ack_writes a ws : ack_format a ws -> writes (BRPaymentProtocolACKSerialize a) (message_bytes ws).
Proof.
  intros (y & yws & us & Ey & Hy & Tm & _ & Hu & Hw & ->) p n Hroom. split_wires Hw.
  unfold BRPaymentProtocolACKSerialize. rewrite Ey, bind_Some_l, (filled_writes _ (message_bytes yws) (payment_writes y yws Hy)), bind_Some_l.
  2: { match goal with Hd' : Forall wire_ok [WBytes ack_payment _] |- _ => inversion_clear Hd' as [|? ? [_ Hl] _] end. lia. }
  rewrite <- (cursor_nil p). change (cursor p []) with (cursor p (message_bytes [])).
  put_next (put_bytes1 p n []) Hroom. rewrite app_nil_l. put_next put_string Hroom.
  rewrite (put_unknown_fields p n _ ack_memo _ us) by (done || wire_fits Hroom). rewrite bind_Some_l, <- !app_assoc.
  now apply finish_cursor.
Qed.

Lemma ack_parse a ws : ack_format a ws -> len (message_bytes ws) < 0x10000000000000000 ->
  BRPaymentProtocolACKParse (Some (message_bytes ws)) (len (message_bytes ws)) = Some (Some a).
Proof.
  intros (y & yws & us & Ey & Hy & Tm & Hd & Hu & Hw & E) Hl.
  unfold BRPaymentProtocolACKParse. rewrite parse_fields_message by done.
  generalize (len (message_bytes ws)) as m. intros m. subst ws. rewrite for_each_app.
  destruct a as [pay memo ctx]. cbn [a_payment a_memo a_ctx] in *. subst pay. split_wires Hw.
  assert (Hyl : len (message_bytes yws) < 0x10000000000000000).
  { match goal with Hd' : Forall wire_ok [WBytes ack_payment _] |- _ => inversion_clear Hd' as [|? ? [_ Hdl] _] end. lia. }
  rewrite run_one. change (ack_field (mkAck None None context_none) (wire_field m (WBytes ack_payment (message_bytes yws)))) with
    (y ← BRPaymentProtocolPaymentParse (Some (message_bytes yws)) (len (message_bytes yws)); Some (mkAck (Some y) None context_none)).
  rewrite (payment_parse y yws Hy Hyl), bind_Some_l. run_next.
  rewrite (run_opt _ _ _ _ _ (mkAck (Some y) memo context_none)) by (intros; subst; done). run_next.
  rewrite (run_unknown _ _ _ ack_memo ctx us (mkAck (Some y) memo ctx)); [done|done| |].
  - intros w _ Eu Hk. unfold ack_field. not_known Hk. now rewrite (add_unknown_eq ack_memo m w context_none ctx).
  - intros Eu. f_equal. f_equal. now apply context_eq.
Qed.

(** *** Messages *)

Lemma message_writes x ws : message_format x ws -> writes (BRPaymentProtocolMessageSerialize x) (message_bytes ws).
Proof.
  intros (message & us & Em & Ts & _ & _ & _ & Hu & Hw & ->) p n Hroom. split_wires Hw.
  unfold BRPaymentProtocolMessageSerialize. rewrite Em, bind_Some_l.
  rewrite <- (cursor_nil p). change (cursor p []) with (cursor p (message_bytes [])).
  put_next (put_int1 p n []) Hroom. rewrite app_nil_l. put_next put_bytes1 Hroom. put_next put_int Hroom.
  put_next put_string Hroom. put_next put_bytes Hroom.
  rewrite (put_unknown_fields p n _ message_identifier _ us) by (done || wire_fits Hroom). rewrite bind_Some_l, <- !app_assoc.
  now apply finish_cursor.
Qed.

Lemma message_parse x ws : message_format x ws -> len (message_bytes ws) < 0x10000000000000000 ->
  BRPaymentProtocolMessageParse (Some (message_bytes ws)) (len (message_bytes ws)) = Some (Some x).
Proof.
  intros (message & us & Em & Ts & Ht & Hd & D0 & Hu & Hw & E) Hl.
  unfold BRPaymentProtocolMessageParse. rewrite parse_fields_message by done.
  generalize (len (message_bytes ws)) as m. intros m. subst ws. rewrite for_each_app.
  destruct x as [t msg code smsg ident ctx]. cbn [m_msgType m_message m_statusCode m_statusMsg m_identifier m_ctx] in *. subst msg. split_wires Hw.
  set (c0 := set_default message_status_code context_none). set (c1 := seen (written message_status_code ctx) message_status_code c0).
  rewrite run_one. change (message_field (mkMessage 0 None 0 None None c0, false) (wire_field m (WInt message_msg_type t))) with
    (Some (mkMessage (u32 t) None 0 None None c0, true)). rewrite u32_id by done.
  run_next. rewrite run_one. change (message_field (mkMessage t None 0 None None c0, true) (wire_field m (WBytes message_message message)))
    with (Some (mkMessage t (Some message) 0 None None c0, true)).
  run_next. rewrite (run_if _ _ _ _ _ (mkMessage t (Some message) code None None c1, true)).
  2: { intros E. unfold c1. now rewrite E. }
  2: { intros E. unfold c1. rewrite E. apply negb_false_iff in E. now rewrite D0. }
  run_next. rewrite (run_opt _ _ _ _ _ (mkMessage t (Some message) code smsg None c1, true)) by (intros; subst; done).
  run_next. rewrite (run_opt _ _ _ _ _ (mkMessage t (Some message) code smsg ident c1, true)) by (intros; subst; done). run_next.
  assert (E1 : defaults c1 = defaults ctx) by (unfold c1, c0; clear -Hd; seen_tac).
  assert (Eu1 : unknown c1 = None) by (unfold c1; now rewrite !seen_unknown).
  rewrite (run_unknown _ _ _ message_identifier ctx us (mkMessage t (Some message) code smsg ident ctx, true)); [done|done| |].
  - intros w _ Eu Hk. unfold message_field. not_known Hk. now rewrite (add_unknown_eq message_identifier m w c1 ctx).
  - intros Eu. do 2 f_equal. apply context_eq; [done|]. now rewrite Eu1.
Qed.

(** ** Parsers that do not end *)

(** When the field at offset 0 is read and the offset is 0 again, the loop does not end, whatever the
    fields do. *)
Lemma parse_loop_stuck {St} (step : St -> Field -> option St) buf n f :
  0 < n -> _ProtoBufField buf n 0 = Some (f, 0) -> forall fuel st, parse_loop fuel step buf n 0 st = None.
Proof.
  intros Hn Hf fuel. induction fuel as [|fuel IH]; intros st; cbn [parse_loop]; rewrite (proj2 (Z.ltb_lt 0 n) Hn); [done|].
  rewrite Hf, bind_Some_l. cbv iota beta. destruct (step st f) as [st'|]; [now rewrite bind_Some_l|done].
Qed.

(** An output that is not length-delimited, or longer than the message: the loop reads NULL. *)
Lemma output_of_null_diverges n fuel st : 0 < n -> parse_loop fuel output_field None n 0 st = None.
Proof. intros Hn. now apply (parse_loop_stuck output_field None n (mkField 0 0 NoData n)). Qed.

(** A field that is too long for its message by itself plus one, so that the offset wraps to 0: the
    field 3 with a length of [2^64 - 11]. *)
Definition wrapping_field : list Z := [26; 0xf5; 0xff; 0xff; 0xff; 0xff; 0xff; 0xff; 0xff; 0xff; 0x01].

Lemma details_diverge fuel st : parse_loop fuel details_field (Some wrapping_field) 11 0 st = None.
Proof. apply (parse_loop_stuck details_field (Some wrapping_field) 11 (mkField 26 0 Outside 18446744073709551605)); [done|]. vm_compute. reflexivity. Qed.

(** The certificates of a PKI data with such a field. *)
Lemma cert_diverges fuel idx : cert_loop fuel wrapping_field 0 idx = None.
Proof.
  revert idx. induction fuel as [|fuel IH]; intros idx; [done|]. cbn [cert_loop].
  change (0 <? len wrapping_field) with true. cbv iota.
  replace (_ProtoBufField (Some wrapping_field) (len wrapping_field) 0) with (Some (mkField 26 0 Outside 18446744073709551605, 0))
    by (vm_compute; reflexivity).
  rewrite bind_Some_l. cbv iota beta. apply IH.
Qed.

(** The outputs given to [BRPaymentProtocolDetailsNew] are not serialized. *)
Lemma details_new_no_outputs net outs t e memo url merch d :
  BRPaymentProtocolDetailsNew net outs t e memo url merch = Some d -> d_outCount d = 0.
Proof. unfold BRPaymentProtocolDetailsNew. destruct (mapM _ outs); [|done]. now intros [= <-]. Qed.

(** Two unknown fields change places each time a message is parsed and serialized. *)
Example unknown_fields_swap :
  let swap ws := option_map unknown (c ← add_unknown (wire_field 8 (nth 0 ws (WInt 0 0))) context_none; add_unknown (wire_field 8 (nth 1 ws (WInt 0 0))) c) in
  swap [WInt 20 1; WInt 21 2] = Some (Some (message_bytes [WInt 21 2; WInt 20 1])) /\
  swap [WInt 21 2; WInt 20 1] = Some (Some (message_bytes [WInt 20 1; WInt 21 2])).
Proof. vm_compute. auto. Qed.

(** An unknown field of more than ten bytes is cut. *)
Example unknown_field_cut :
  option_map unknown (add_unknown (wire_field 20 (WInt 0x10000000 0xffffffffffffffff)) context_none) =
  Some (Some (take 10 (wire_bytes (WInt 0x10000000 0xffffffffffffffff)))).
Proof. vm_compute. reflexivity. Qed.

(** ** Properties *)

(** C20. Payment requests (BIP70) survive serialization.  For a request with details and outputs whose
    fields are [ws], [BRPaymentProtocolRequestSerialize] asks for and writes the bytes of those fields, the
    details and every output as a field of its own, absent and default values left out; and
    [BRPaymentProtocolRequestParse] of these bytes gives the same request back, its defaults and at most
    one unknown field per message included. *)
Theorem request_roundtrip r ws : request_format r ws -> len (message_bytes ws) < 0x10000000000000000 ->
  writes (BRPaymentProtocolRequestSerialize r) (message_bytes ws) /\
  BRPaymentProtocolRequestParse (Some (message_bytes ws)) (len (message_bytes ws)) = Some (Some r).
Proof. intros Hr Hl. split; [now apply request_writes|now apply request_parse]. Qed.

(** C21. Payments with their acknowledgement survive serialization: [BRPaymentProtocolACKSerialize] writes
    the bytes of the fields of the ACK, which contains the payment, which contains its transactions and
    refund outputs, and [BRPaymentProtocolACKParse] gives the ACK back, each transaction being the one its
    own bytes are parsed to. *)
Theorem ack_roundtrip a ws : ack_format a ws -> len (message_bytes ws) < 0x10000000000000000 ->
  writes (BRPaymentProtocolACKSerialize a) (message_bytes ws) /\
  BRPaymentProtocolACKParse (Some (message_bytes ws)) (len (message_bytes ws)) = Some (Some a).
Proof. intros Ha Hl. split; [now apply ack_writes|now apply ack_parse]. Qed.

(** ** Witnesses *)

Definition ex_script : list Z := p2pkh (replicate 20 8).
Definition ex_output : Output :=
  mkPayOutput (mkOutput (default [] (address_field BRAddressFromScriptPubKey ex_script)) 5000 (Some ex_script)) context_none.
Definition ex_output_fields : list Wire := [WInt output_amount 5000; WBytes output_script ex_script].

Definition ex_details : BRPaymentProtocolDetails :=
  mkDetails (Some (text "main")) [ex_output] 1 1700000000 0 (Some (text "two coffees")) None (Some [1; 2; 3])
    (mkProtoContext {[details_network; details_expires]} (Some (wire_bytes (WInt 20 9)))).
Definition ex_details_fields : list Wire :=
  [WBytes details_outputs (message_bytes ex_output_fields); WInt details_time 1700000000;
   WBytes details_memo (text "two coffees"); WBytes details_merch_data [1; 2; 3]; WInt 20 9].

Definition ex_request : BRPaymentProtocolRequest :=
  mkRequest 1 (Some (text "x509+sha256")) (Some [10; 2; 7; 7]) (Some ex_details) (Some [0]) (set_default request_version context_none).
Definition ex_request_fields : list Wire :=
  [WBytes request_pki_type (text "x509+sha256"); WBytes request_pki_data [10; 2; 7; 7];
   WBytes request_details (message_bytes ex_details_fields); WBytes request_signature [0]].

Ltac wires_tac := repeat (constructor; [split; [|vm_compute]; split; vm_compute; congruence|]); constructor.
Ltac no_nul_tac := intros ? [= <-]; vm_compute; reflexivity.

Lemma ex_output_format : output_format ex_output ex_output_fields.
Proof.
  exists ex_script, []. cbv zeta. split_and!; [done|vm_compute; reflexivity|apply empty_subseteq| |done|wires_tac|done].
  intros E. apply is_default_spec, not_elem_of_empty in E. destruct E.
Qed.

Lemma ex_details_format : details_format ex_details ex_details_fields.
Proof.
  exists (text "main"), [ex_output_fields], [WInt 20 9]. cbv zeta.
  split_and!; [done|repeat constructor; apply ex_output_format|done|no_nul_tac|no_nul_tac|intros ? [=]| | | | | |wires_tac|vm_compute; reflexivity].
  - cbn. set_solver.
  - done.
  - intros E. apply is_default_spec in E. cbn in E. set_solver.
  - done.
  - exists (WInt 20 9). split_and!; [done|done|]. split_and!; [split; [split|]; done| |vm_compute; congruence|done]. done.
Qed.

Lemma ex_request_format : request_format ex_request ex_request_fields.
Proof.
  exists ex_details, ex_details_fields, (text "x509+sha256"), []. cbv zeta.
  split_and!; [done|apply ex_details_format|done|no_nul_tac|done|done| |done| |done|wires_tac|vm_compute; reflexivity].
  - cbn. set_solver.
  - intros E. apply is_default_spec in E. cbn in E. set_solver.
Qed.

Lemma request_roundtrip_witness : writes (BRPaymentProtocolRequestSerialize ex_request) (message_bytes ex_request_fields) /\
  BRPaymentProtocolRequestParse (Some (message_bytes ex_request_fields)) (len (message_bytes ex_request_fields)) = Some (Some ex_request).
Proof. apply (request_roundtrip ex_request ex_request_fields ex_request_format). vm_compute. reflexivity. Defined.

(** A transaction as it is parsed. *)
Definition ex_paid : BRTransaction := default BRTransactionNew (mjoin (BRTransactionParse (tx_bytes (ex_tx (Some [2; 7; 7]))))).

Definition ex_payment : BRPaymentProtocolPayment := mkPayment (Some [1; 2; 3]) [ex_paid] [ex_output] (Some (text "thanks")) context_none.
Definition ex_payment_fields : list Wire :=
  [WBytes payment_merch_data [1; 2; 3]; WBytes payment_transactions (tx_bytes ex_paid);
   WBytes payment_refund_to (message_bytes ex_output_fields); WBytes payment_memo (text "thanks")].
Definition ex_ack : BRPaymentProtocolACK := mkAck (Some ex_payment) None (mkProtoContext ∅ (Some (wire_bytes (WBytes 9 [5])))).
Definition ex_ack_fields : list Wire := [WBytes ack_payment (message_bytes ex_payment_fields); WBytes 9 [5]].

Lemma ex_payment_format : payment_format ex_payment ex_payment_fields.
Proof.
  exists [ex_output_fields], []. split_and!; [|repeat constructor; apply ex_output_format|no_nul_tac|done|done|wires_tac|vm_compute; reflexivity].
  constructor; [vm_compute; reflexivity|constructor].
Qed.

Lemma ex_ack_format : ack_format ex_ack ex_ack_fields.
Proof.
  exists ex_payment, ex_payment_fields, [WBytes 9 [5]].
  split_and!; [done|apply ex_payment_format|intros ? [=]|done| |wires_tac|vm_compute; reflexivity].
  exists (WBytes 9 [5]). split_and!; [done|done|]. split_and!; [split; [split|]; done| |vm_compute; congruence|repeat constructor; done|done]. done.
Qed.

Lemma ack_roundtrip_witness : writes (BRPaymentProtocolACKSerialize ex_ack) (message_bytes ex_ack_fields) /\
  BRPaymentProtocolACKParse (Some (message_bytes ex_ack_fields)) (len (message_bytes ex_ack_fields)) = Some (Some ex_ack).
Proof. apply (ack_roundtrip ex_ack ex_ack_fields ex_ack_format). vm_compute. reflexivity. Defined.
