(* ===== verification/PaymentKeys.v ===== *)
(** * PaymentKeys: the messages of the payment protocol with keys (BRPaymentProtocol.c)

    Invoice requests, which name the public key of the sender, and the encrypted messages of BIP75.  The
    operations that read a public key cache it in the key, so they return the key. *)
From Stdlib Require Import String.
From stdpp Require Import base numbers list gmap sets.
From Stdlib Require Import ZArith Lia.
From S2P Require Import Prelude CMem Int Crypto Aead Base58 Address Transaction Key ProtoBuf PaymentProtocol.
Local Open Scope Z_scope.

(** ** Messages with keys *)

(** [snprintf("%PRIu64")] *)
Fixpoint digits_loop (fuel : nat) (n : Z) (s : list Z) : list Z :=
  match fuel with
  | O => s
  | S fuel' => if n <? 10 then (48 + n) :: s else digits_loop fuel' (n / 10) ((48 + n mod 10) :: s)
  end.
Definition decimal (n : Z) : list Z := digits_loop 20 n [].

(** A serializer that caches public keys in its argument: called for the size, then on a buffer of that size. *)
Definition filled_key {A} (f : A -> ptr -> Z -> option (A * (ptr * Z))) (a : A) : option (A * list Z) :=
  '(a, (_, n)) ← f a None 0;
  '(a, (p, n')) ← f a (Some (replicate (Z.to_nat n) 0)) n;
  Some (a, take (Z.to_nat n') (default [] p)).

Section keys.
Context {point sig rsig : Type} `{Secp256k1 point sig rsig}.

(** [pkLen = BRKeyPubKey(key, pk, sizeof(pk))]: the key, which caches it, and the bytes. *)
Definition pub_key65 (key : BRKey) : option (BRKey * list Z) :=
  '(key, (p, n)) ← BRKeyPubKey key (Some (replicate 65 0)) 65;
  Some (key, take (Z.to_nat n) (default [] p)).

(** The assertions of [BRKeySetPubKey]. *)
Definition set_pub_key (pk : list Z) : option (BRKey * bool) :=
  if (len pk =? 33) || (len pk =? 65) then Some (BRKeySetPubKey pk) else None.

Definition pub_key_field (f : Field) : option (BRKey * bool) :=
  match f_data f with Region pk => set_pub_key pk | _ => None end.

(** *** Invoice requests *)

Record BRPaymentProtocolInvoiceRequest := mkInvoice {
  i_senderPubKey : BRKey;
  i_amount : Z;
  i_pkiType : option (list Z);
  i_pkiData : option (list Z);
  i_memo : option (list Z);
  i_notifyUrl : option (list Z);
  i_signature : option (list Z);
  i_ctx : ProtoBufContext;
}.

(** The caller's key caches its public key. *)
Definition BRPaymentProtocolInvoiceRequestNew (senderPubKey : BRKey) (amount : Z)
    (pkiType pkiData memo notifyUrl signature : option (list Z)) : option (BRKey * BRPaymentProtocolInvoiceRequest) :=
  '(senderPubKey, pk) ← pub_key65 senderPubKey;
  '(key, _) ← set_pub_key pk;
  Some (senderPubKey, mkInvoice key amount (Some (default (text "none") pkiType)) pkiData memo notifyUrl signature
          (match pkiType with None => set_default invoice_req_pki_type context_none | Some _ => context_none end)).

(** The state of the parser has [gotSenderPK]. *)
Definition invoice_field (st : BRPaymentProtocolInvoiceRequest * bool) (f : Field)
    : option (BRPaymentProtocolInvoiceRequest * bool) :=
  let '(mkInvoice key amount pki data memo url sg ctx, got) := st in
  if f_num f =? invoice_req_sender_pk then
    '(key, ok) ← pub_key_field f; Some (mkInvoice key amount pki data memo url sg ctx, ok)
  else if f_num f =? invoice_req_amount then
    Some (mkInvoice key (f_int f) pki data memo url sg (clear_default invoice_req_amount ctx), got)
  else if f_num f =? invoice_req_pki_type then s ← field_string pki f; Some (mkInvoice key amount s data memo url sg ctx, got)
  else if f_num f =? invoice_req_pki_data then s ← field_bytes data f; Some (mkInvoice key amount pki s memo url sg ctx, got)
  else if f_num f =? invoice_req_memo then s ← field_string memo f; Some (mkInvoice key amount pki data s url sg ctx, got)
  else if f_num f =? invoice_req_notify_url then s ← field_string url f; Some (mkInvoice key amount pki data memo s sg ctx, got)
  else if f_num f =? invoice_req_signature then s ← field_bytes sg f; Some (mkInvoice key amount pki data memo url s ctx, got)
  else ctx ← add_unknown f ctx; Some (mkInvoice key amount pki data memo url sg ctx, got).

Definition BRPaymentProtocolInvoiceRequestParse (buf : ptr) (bufLen : Z) : option (option BRPaymentProtocolInvoiceRequest) :=
  '(r, gotSenderPK) ← parse_fields invoice_field buf bufLen
      (mkInvoice (mkKey 0 (replicate 65 0) false) 0 None None None None None (set_default invoice_req_amount context_none), false);
  let '(mkInvoice key amount pki data memo url sg ctx) := r in
  let r := mkInvoice key amount (Some (default (text "none") pki)) data memo url sg
             (match pki with None => set_default invoice_req_pki_type ctx | Some _ => ctx end) in
  Some (if (gotSenderPK : bool) then Some r else None).

Definition BRPaymentProtocolInvoiceRequestSerialize (r : BRPaymentProtocolInvoiceRequest) (buf : ptr) (bufLen : Z)
    : option (BRPaymentProtocolInvoiceRequest * (ptr * Z)) :=
  let '(mkInvoice key amount pki data memo url sg ctx) := r in
  '(key, pk) ← pub_key65 key;
  st ← _ProtoBufSetBytes bufLen pk invoice_req_sender_pk (buf, 0);
  st ← put_if (written invoice_req_amount ctx) (_ProtoBufSetInt bufLen amount invoice_req_amount) st;
  st ← put_if (written invoice_req_pki_type ctx) (_ProtoBufSetString bufLen pki invoice_req_pki_type) st;
  st ← put_opt data (fun s => _ProtoBufSetBytes bufLen s invoice_req_pki_data) st;
  st ← put_opt memo (fun s => _ProtoBufSetString bufLen (Some s) invoice_req_memo) st;
  st ← put_opt url (fun s => _ProtoBufSetString bufLen (Some s) invoice_req_notify_url) st;
  st ← put_opt sg (fun s => _ProtoBufSetBytes bufLen s invoice_req_signature) st;
  st ← put_unknown bufLen ctx st;
  st ← finish bufLen st;
  Some (mkInvoice key amount pki data memo url sg ctx, st).

Definition BRPaymentProtocolInvoiceRequestCert (r : BRPaymentProtocolInvoiceRequest) (cert : ptr) (certLen idx : Z)
    : option (ptr * Z) := copy_cert (i_pkiData r) cert certLen idx.

Definition BRPaymentProtocolInvoiceRequestDigest (r : BRPaymentProtocolInvoiceRequest) (md : ptr) (mdLen : Z)
    : option (BRPaymentProtocolInvoiceRequest * (ptr * Z)) :=
  let '(mkInvoice key amount pki data memo url sg ctx) := r in
  '(r, bs) ← filled_key BRPaymentProtocolInvoiceRequestSerialize
               (mkInvoice key amount pki data memo url ((fun _ => []) <$> sg) ctx);
  st ← put_digest [(text "x509+sha256", BRSHA256, 32)] pki bs md mdLen;
  Some (mkInvoice (i_senderPubKey r) amount pki data memo url sg ctx, st).

(** *** Encrypted messages *)

Record BRPaymentProtocolEncryptedMessage := mkEncrypted {
  e_msgType : Z;
  e_message : option (list Z);
  e_receiverPubKey : BRKey;
  e_senderPubKey : BRKey;
  e_nonce : Z;
  e_signature : option (list Z);
  e_identifier : option (list Z);
  e_statusCode : Z;
  e_statusMsg : option (list Z);
  e_ctx : ProtoBufContext;
}.

(** The x coordinate of the shared point.  Without a public key the bytes of [p] are not initialized;
    when the multiplication fails [p] is kept. *)
Definition _BRECDH (privKey pubKey : BRKey) : option (BRKey * list Z) :=
  '(pubKey, p) ← pub_key65 pubKey;
  if len p =? 0 then None
  else
    let p := if len p =? 65 then upd p 0 (if wd p 64 mod 2 =? 1 then 3 else 2) else p in
    let p := fst (BRSecp256k1PointMul (take 33 p) (secret privKey)) ++ drop 33 p in
    Some (pubKey, take 32 (drop 1 p)).

(** The other party's key is the receiver's unless that is our own. *)
Definition _BRPaymentProtocolEncryptedMessageCEK (msg : BRPaymentProtocolEncryptedMessage) (privKey : BRKey)
    : option (BRPaymentProtocolEncryptedMessage * BRKey * list Z * list Z) :=
  let '(mkEncrypted t m rk sk nonce sg ident code smsg ctx) := msg in
  '(privKey, pk) ← pub_key65 privKey;
  '(rk, rpk) ← pub_key65 rk;
  '(rk, sk, secret) ← (if bool_decide (pk = rpk)
                       then '(sk, x) ← _BRECDH privKey sk; Some (rk, sk, x)
                       else '(rk, x) ← _BRECDH privKey rk; Some (rk, sk, x));
  let seed := BRSHA512 secret in
  let '(cek, K, V) := BRHMACDRBG BRSHA256 32 32 [] [] (Some seed) (Some (reverse (le_bytes 8 nonce))) None in
  let '(iv, _, _) := BRHMACDRBG BRSHA256 32 12 K V None None None in
  Some (mkEncrypted t m rk sk nonce sg ident code smsg ctx, privKey, cek, iv).

Definition BRPaymentProtocolEncryptedMessageSerialize (msg : BRPaymentProtocolEncryptedMessage) (buf : ptr) (bufLen : Z)
    : option (BRPaymentProtocolEncryptedMessage * (ptr * Z)) :=
  let '(mkEncrypted t m rk sk nonce sg ident code smsg ctx) := msg in
  message ← m;
  st ← _ProtoBufSetInt bufLen t encrypted_msg_msg_type (buf, 0);
  st ← _ProtoBufSetBytes bufLen message encrypted_msg_message st;
  '(rk, pk) ← pub_key65 rk;
  st ← _ProtoBufSetBytes bufLen pk encrypted_msg_receiver_pk st;
  '(sk, pk) ← pub_key65 sk;
  st ← _ProtoBufSetBytes bufLen pk encrypted_msg_sender_pk st;
  st ← _ProtoBufSetInt bufLen nonce encrypted_msg_nonce st;
  st ← put_opt sg (fun s => _ProtoBufSetBytes bufLen s encrypted_msg_signature) st;
  st ← put_opt ident (fun s => _ProtoBufSetBytes bufLen s encrypted_msg_identifier) st;
  st ← put_if (written encrypted_msg_status_code ctx) (_ProtoBufSetInt bufLen code encrypted_msg_status_code) st;
  st ← put_opt smsg (fun s => _ProtoBufSetString bufLen (Some s) encrypted_msg_status_msg) st;
  st ← put_unknown bufLen ctx st;
  st ← finish bufLen st;
  Some (mkEncrypted t m rk sk nonce sg ident code smsg ctx, st).

Definition set_e_signature (sg : option (list Z)) (msg : BRPaymentProtocolEncryptedMessage) : BRPaymentProtocolEncryptedMessage :=
  let '(mkEncrypted t m rk sk nonce _ ident code smsg ctx) := msg in mkEncrypted t m rk sk nonce sg ident code smsg ctx.

(** The digest that is signed: that of the message with a signature of no bytes. *)
Definition message_digest (msg : BRPaymentProtocolEncryptedMessage) : option (BRPaymentProtocolEncryptedMessage * Z) :=
  '(msg, bs) ← filled_key BRPaymentProtocolEncryptedMessageSerialize msg;
  Some (msg, UInt256Get (BRSHA256 bs)).

(** [BRKeyPrivKey(key, NULL, 0) != 0] *)
Definition has_priv_key (key : BRKey) : option bool :=
  '(_, n) ← BRKeyPrivKey key None 0; Some (negb (n =? 0)).

(** The receiver's and the sender's key, which cache their public keys, and the message. *)
Definition BRPaymentProtocolEncryptedMessageNew (msgType : Z) (message : list Z) (receiverKey senderKey : BRKey) (nonce : Z)
    (identifier : option (list Z)) (statusCode : Z) (statusMsg : option (list Z))
    : option (BRKey * BRKey * BRPaymentProtocolEncryptedMessage) :=
  rp ← has_priv_key receiverKey;
  sp ← has_priv_key senderKey;
  if negb rp && negb sp then None
  else
    '(receiverKey, pk) ← pub_key65 receiverKey;
    '(rk, _) ← set_pub_key pk;
    '(senderKey, pk) ← pub_key65 senderKey;
    '(sk, _) ← set_pub_key pk;
    let privKey := if (rp : bool) then receiverKey else senderKey in
    '(msg, privKey, cek, iv) ← _BRPaymentProtocolEncryptedMessageCEK
        (mkEncrypted msgType None rk sk nonce None identifier statusCode statusMsg context_none) privKey;
    let ad := decimal statusCode ++ c_str (default [] statusMsg) in
    let n := u64 (len message + 16) in
    '(p, bufLen) ← BRChacha20Poly1305AEADEncrypt (Some (replicate (Z.to_nat n) 0)) n cek iv message ad;
    let cipher := take (Z.to_nat bufLen) (default [] p) in
    let '(mkEncrypted t _ rk sk nonce _ ident code smsg ctx) := msg in
    '(msg, md) ← message_digest (mkEncrypted t (Some cipher) rk sk nonce (Some []) ident code smsg ctx);
    '(s, sigLen) ← BRKeySign privKey (Some (replicate 73 0)) 73 md;
    let msg := set_e_signature (Some (take (Z.to_nat sigLen) (default [] s))) msg in
    Some (if (rp : bool) then privKey else receiverKey, if (rp : bool) then senderKey else privKey, msg).

(** What the parser has got. *)
Record Got := mkGot { gotMsgType : bool; gotNonce : bool; gotReceiverPK : bool; gotSenderPK : bool }.

Definition encrypted_field (st : BRPaymentProtocolEncryptedMessage * Got) (f : Field)
    : option (BRPaymentProtocolEncryptedMessage * Got) :=
  let '(mkEncrypted t m rk sk nonce sg ident code smsg ctx, got) := st in
  let '(mkGot gt gn gr gs) := got in
  if f_num f =? encrypted_msg_msg_type then
    Some (mkEncrypted (u32 (f_int f)) m rk sk nonce sg ident code smsg ctx, mkGot true gn gr gs)
  else if f_num f =? encrypted_msg_message then
    s ← field_bytes m f; Some (mkEncrypted t s rk sk nonce sg ident code smsg ctx, got)
  else if f_num f =? encrypted_msg_receiver_pk then
    '(rk, ok) ← pub_key_field f; Some (mkEncrypted t m rk sk nonce sg ident code smsg ctx, mkGot gt gn ok gs)
  else if f_num f =? encrypted_msg_sender_pk then
    '(sk, ok) ← pub_key_field f; Some (mkEncrypted t m rk sk nonce sg ident code smsg ctx, mkGot gt gn gr ok)
  else if f_num f =? encrypted_msg_nonce then
    Some (mkEncrypted t m rk sk (f_int f) sg ident code smsg ctx, mkGot gt true gr gs)
  else if f_num f =? encrypted_msg_signature then
    s ← field_bytes sg f; Some (mkEncrypted t m rk sk nonce s ident code smsg ctx, got)
  else if f_num f =? encrypted_msg_identifier then
    s ← field_bytes ident f; Some (mkEncrypted t m rk sk nonce sg s code smsg ctx, got)
  else if f_num f =? encrypted_msg_status_code then
    Some (mkEncrypted t m rk sk nonce sg ident (f_int f) smsg (clear_default encrypted_msg_status_code ctx), got)
  else if f_num f =? encrypted_msg_status_msg then
    s ← field_string smsg f; Some (mkEncrypted t m rk sk nonce sg ident code s ctx, got)
  else ctx ← add_unknown f ctx; Some (mkEncrypted t m rk sk nonce sg ident code smsg ctx, got).

Definition BRPaymentProtocolEncryptedMessageParse (buf : ptr) (bufLen : Z) : option (option BRPaymentProtocolEncryptedMessage) :=
  '(msg, got) ← parse_fields encrypted_field buf bufLen
      (mkEncrypted 0 None (mkKey 0 (replicate 65 0) false) (mkKey 0 (replicate 65 0) false) 0 None None 0 None
         (set_default encrypted_msg_status_code context_none), mkGot false false false false);
  Some (if gotMsgType got && bool_decide (is_Some (e_message msg)) && gotReceiverPK got && gotSenderPK got && gotNonce got
        then Some msg else None).

(** A signature of NULL has length 0, which [BRKeyVerify] does not allow. *)
Definition BRPaymentProtocolEncryptedMessageVerify (msg : BRPaymentProtocolEncryptedMessage) (pubKey : BRKey)
    : option (BRPaymentProtocolEncryptedMessage * BRKey * bool) :=
  let sg := e_signature msg in
  '(msg, md) ← message_digest (set_e_signature ((fun _ => []) <$> sg) msg);
  '(pubKey, r) ← BRKeyVerify pubKey md (default [] sg);
  Some (set_e_signature sg msg, pubKey, r).

(** The associated data; a status code that was not received is not part of it. *)
Definition decrypt_ad (msg : BRPaymentProtocolEncryptedMessage) : list Z :=
  (if is_default encrypted_msg_status_code (e_ctx msg) then [] else decimal (e_statusCode msg)) ++
  c_str (default [] (e_statusMsg msg)).

Definition BRPaymentProtocolEncryptedMessageDecrypt (msg : BRPaymentProtocolEncryptedMessage) (out : ptr) (outLen : Z)
    (privKey : BRKey) : option (BRPaymentProtocolEncryptedMessage * BRKey * (ptr * Z)) :=
  message ← e_message msg;
  match out with
  | None => Some (msg, privKey, (None, if len message <? 16 then 0 else len message - 16))
  | Some _ =>
      '(msg, privKey, cek, iv) ← _BRPaymentProtocolEncryptedMessageCEK msg privKey;
      r ← BRChacha20Poly1305AEADDecrypt out outLen cek iv message (decrypt_ad msg);
      Some (msg, privKey, r)
  end.
End keys.

(** ** Keys that hold a public key *)

(** Multiplication of points commutes (Diffie-Hellman), and the compressed form of a point can be made
    from the uncompressed one. *)
Class ECDHLaws (point sig rsig : Type) `{Secp256k1Laws point sig rsig} : Prop := {
  tweak_mul_comm a b A B : bytes32 a -> bytes32 b -> ec_pubkey_create a = Some A -> ec_pubkey_create b = Some B ->
    ec_pubkey_tweak_mul A b = ec_pubkey_tweak_mul B a;
  serialize_forms p : let s := ec_pubkey_serialize false p in
    ec_pubkey_serialize true p = (if wd s 64 mod 2 =? 1 then 3 else 2) :: take 32 (drop 1 s);
}.

Section key_proofs.
Context {point sig rsig : Type} `{ECDHLaws point sig rsig}.

(** The key with secret [k] whose public key has been computed; the secret is 0 when it is only public. *)
Definition cached (k : Z) (c : bool) (p : point) : BRKey :=
  mkKey k (ec_pubkey_serialize c p ++ drop (length (ec_pubkey_serialize c p)) (replicate 65 0)) c.

(** A point that the library created. *)
Definition created (p : point) : Prop := exists k, ec_pubkey_create (UInt256Set k) = Some p.

Lemma created_parse c p : created p -> ec_pubkey_parse (ec_pubkey_serialize c p) = Some p.
Proof. intros [k Hk]. now apply (create_parse c k). Qed.

Lemma ser_length c (p : point) : len (ec_pubkey_serialize c p) = if c then 33 else 65.
Proof. rewrite serialize_length. now destruct c. Qed.

Lemma key_point_cached k c p : key_point (cached k c p) = (cached k c p, len (ec_pubkey_serialize c p)).
Proof.
  unfold key_point, cached. cbn [compressed pubKey secret]. rewrite take_app_length' by (rewrite serialize_length; now destruct c).
  rewrite bool_decide_eq_false_2; [now rewrite serialize_length; destruct c|].
  destruct (serialize_not_zeros c p (if c then 33 else 65)) as [Hn|]; [|now destruct c].
  intros E. apply Hn. rewrite take_ge by (rewrite serialize_length; now destruct c). exact E.
Qed.

Lemma pub_key65_of key k c p : key_point key = (cached k c p, len (ec_pubkey_serialize c p)) ->
  pub_key65 key = Some (cached k c p, ec_pubkey_serialize c p).
Proof.
  intros E. unfold pub_key65, BRKeyPubKey. rewrite E.
  change (pubKey (cached k c p)) with (ec_pubkey_serialize c p ++ drop (length (ec_pubkey_serialize c p)) (replicate 65 0)).
  rewrite Nat2Z.id, take_app_length.
  unfold write_result. rewrite ser_length, (proj2 (Z.leb_le _ 65)) by (destruct c; lia).
  rewrite mem_write_0 by (rewrite ser_length, length_replicate; destruct c; lia).
  rewrite !bind_Some_l. cbn [default]. unfold id. rewrite <- (ser_length c p), Nat2Z.id, take_app_length. done.
Qed.

Lemma pub_key65_cached k c p : pub_key65 (cached k c p) = Some (cached k c p, ec_pubkey_serialize c p).
Proof. apply pub_key65_of, key_point_cached. Qed.

Lemma pub_key65_fresh k c p : ec_pubkey_create (UInt256Set k) = Some p ->
  pub_key65 (mkKey k (replicate 65 0) c) = Some (cached k c p, ec_pubkey_serialize c p).
Proof. intros Hp. apply pub_key65_of. exact (key_point_fresh k c p Hp). Qed.

Lemma set_pub_key_ser c p : created p -> set_pub_key (ec_pubkey_serialize c p) = Some (cached 0 c p, true).
Proof.
  intros Hp. unfold set_pub_key, BRKeySetPubKey. rewrite (created_parse c p Hp), ser_length.
  rewrite bool_decide_eq_true_2 by eauto. unfold cached. now destruct c.
Qed.

(** *** Invoice requests *)

Definition invoice_format (r : BRPaymentProtocolInvoiceRequest) (ws : list Wire) : Prop :=
  exists c p pki us, let ctx := i_ctx r in
  i_senderPubKey r = cached 0 c p /\ created p /\ i_pkiType r = Some pki /\
  no_nul (i_pkiType r) /\ no_nul (i_memo r) /\ no_nul (i_notifyUrl r) /\
  defaults ctx ⊆ {[invoice_req_amount; invoice_req_pki_type]} /\ (is_default invoice_req_amount ctx = true -> i_amount r = 0) /\
  (is_default invoice_req_pki_type ctx = true -> pki = text "none") /\
  unknown_fields invoice_req_signature ctx us /\ Forall wire_ok ws /\
  ws = [WBytes invoice_req_sender_pk (ec_pubkey_serialize c p)] ++
       if_wire (written invoice_req_amount ctx) (WInt invoice_req_amount (i_amount r)) ++
       if_wire (written invoice_req_pki_type ctx) (WBytes invoice_req_pki_type pki) ++
       opt_wire (i_pkiData r) (WBytes invoice_req_pki_data) ++ opt_wire (i_memo r) (WBytes invoice_req_memo) ++
       opt_wire (i_notifyUrl r) (WBytes invoice_req_notify_url) ++ opt_wire (i_signature r) (WBytes invoice_req_signature) ++ us.

(** [writes] for the serializers that return the message. *)
Definition key_writes {A} (f : A -> ptr -> Z -> option (A * (ptr * Z))) (a : A) (bs : list Z) : Prop :=
  forall p n, room p n bs -> f a p n = Some (a, cursor p bs).

Lemma filled_key_writes {A} (f : A -> ptr -> Z -> option (A * (ptr * Z))) a bs :
  key_writes f a bs -> len bs < 0x10000000000000000 -> filled_key f a = Some (a, bs).
Proof.
  intros Hf Hl. unfold filled_key. rewrite (Hf None 0) by done. unfold cursor. cbn [fmap option_fmap option_map mbind option_bind].
  rewrite u64_id by lia. rewrite Hf by (unfold room; rewrite length_replicate; lia).
  unfold cursor. cbn [fmap option_fmap option_map mbind option_bind default]. unfold id. rewrite u64_id by lia.
  now rewrite Nat2Z.id, take_app_length.
Qed.

Lemma invoice_writes r ws : invoice_format r ws -> key_writes BRPaymentProtocolInvoiceRequestSerialize r (message_bytes ws).
Proof.
  intros (c & q & pki & us & Ek & _ & Ep & Tp & Tm & Tu & _ & _ & _ & Hu & Hw & ->) p n Hroom. split_wires Hw.
  destruct r as [key amount pt data memo url sg ctx].
  cbn [i_senderPubKey i_amount i_pkiType i_pkiData i_memo i_notifyUrl i_signature i_ctx] in *. subst key pt.
  unfold BRPaymentProtocolInvoiceRequestSerialize. rewrite pub_key65_cached, bind_Some_l.
  rewrite <- (cursor_nil p). change (cursor p []) with (cursor p (message_bytes [])).
  put_next (put_bytes1 p n []) Hroom. rewrite app_nil_l. put_next put_int Hroom.
  put_next put_string_if Hroom; [|now apply Tp]. put_next put_bytes Hroom. put_next put_string Hroom. put_next put_string Hroom.
  put_next put_bytes Hroom. rewrite (put_unknown_fields p n _ invoice_req_signature _ us) by (done || wire_fits Hroom).
  rewrite bind_Some_l, <- !app_assoc. rewrite finish_cursor by done. done.
Qed.

Lemma pub_key_field_ser m k c p : created p ->
  pub_key_field (wire_field m (WBytes k (ec_pubkey_serialize c p))) = Some (cached 0 c p, true).
Proof. intros Hp. unfold pub_key_field. cbn [wire_field f_data]. now apply set_pub_key_ser. Qed.

Lemma invoice_parse r ws : invoice_format r ws -> len (message_bytes ws) < 0x10000000000000000 ->
  BRPaymentProtocolInvoiceRequestParse (Some (message_bytes ws)) (len (message_bytes ws)) = Some (Some r).
Proof.
  intros (c & q & pki & us & Ek & Hq & Ep & Tp & Tm & Tu & Hd & D0 & Dp & Hu & Hw & E) Hl.
  unfold BRPaymentProtocolInvoiceRequestParse. rewrite parse_fields_message by done.
  generalize (len (message_bytes ws)) as m. intros m. subst ws. rewrite for_each_app.
  destruct r as [key amount pt data memo url sg ctx].
  cbn [i_senderPubKey i_amount i_pkiType i_pkiData i_memo i_notifyUrl i_signature i_ctx] in *. subst key pt. split_wires Hw.
  set (c0 := set_default invoice_req_amount context_none). set (c1 := seen (written invoice_req_amount ctx) invoice_req_amount c0).
  set (pt := if written invoice_req_pki_type ctx then Some pki else None). set (k := cached 0 c q).
  rewrite run_one.
  change (invoice_field (mkInvoice (mkKey 0 (replicate 65 0) false) 0 None None None None None c0, false)
    (wire_field m (WBytes invoice_req_sender_pk (ec_pubkey_serialize c q)))) with
    ('(key, ok) ← pub_key_field (wire_field m (WBytes invoice_req_sender_pk (ec_pubkey_serialize c q)));
     Some (mkInvoice key 0 None None None None None c0, ok)).
  rewrite pub_key_field_ser by done. fold k.
  rewrite bind_Some_l. run_next. rewrite (run_if _ _ _ _ _ (mkInvoice k amount None None None None None c1, true)).
  2: { intros E. unfold c1. now rewrite E. }
  2: { intros E. unfold c1. rewrite E. apply negb_false_iff in E. now rewrite D0. }
  run_next. rewrite (run_if _ _ _ _ _ (mkInvoice k amount pt None None None None c1, true)) by (unfold pt; intros ->; done).
  run_next. rewrite (run_opt _ _ _ _ _ (mkInvoice k amount pt data None None None c1, true)) by (intros; subst; done).
  run_next. rewrite (run_opt _ _ _ _ _ (mkInvoice k amount pt data memo None None c1, true)) by (intros; subst; done).
  run_next. rewrite (run_opt _ _ _ _ _ (mkInvoice k amount pt data memo url None c1, true)) by (intros; subst; done).
  run_next. rewrite (run_opt _ _ _ _ _ (mkInvoice k amount pt data memo url sg c1, true)) by (intros; subst; done). run_next.
  set (cl := mkProtoContext (defaults ctx ∖ {[invoice_req_pki_type]}) (unknown ctx)).
  assert (E1 : defaults c1 = defaults cl) by (unfold c1, c0, cl; clear -Hd; seen_tac).
  assert (Eu1 : unknown c1 = None) by (unfold c1; now rewrite !seen_unknown).
  rewrite (run_unknown _ _ _ invoice_req_signature ctx us (mkInvoice k amount pt data memo url sg cl, true)); [|done| |].
  - rewrite bind_Some_l. unfold pt, cl. destruct (written invoice_req_pki_type ctx) eqn:Ew.
    + do 3 f_equal. apply context_eq; [now apply without_default|done].
    + do 3 f_equal; [|apply context_eq; [now apply with_default|done]]. apply negb_false_iff in Ew. now rewrite Dp.
  - intros w _ Eu Hk. unfold invoice_field. not_known Hk. now rewrite (add_unknown_eq invoice_req_signature m w c1 cl).
  - intros Eu. do 2 f_equal. apply context_eq; [done|]. now rewrite Eu1.
Qed.

(** *** Encrypted messages *)

Definition encrypted_format (x : BRPaymentProtocolEncryptedMessage) (ws : list Wire) : Prop :=
  exists message cr r cs s us, let ctx := e_ctx x in
  e_message x = Some message /\ e_receiverPubKey x = cached 0 cr r /\ e_senderPubKey x = cached 0 cs s /\ created r /\ created s /\
  0 <= e_msgType x < 0x100000000 /\ no_nul (e_statusMsg x) /\
  defaults ctx ⊆ {[encrypted_msg_status_code]} /\ (is_default encrypted_msg_status_code ctx = true -> e_statusCode x = 0) /\
  unknown_fields encrypted_msg_status_msg ctx us /\ Forall wire_ok ws /\
  ws = [WInt encrypted_msg_msg_type (e_msgType x)] ++ [WBytes encrypted_msg_message message] ++
       [WBytes encrypted_msg_receiver_pk (ec_pubkey_serialize cr r)] ++ [WBytes encrypted_msg_sender_pk (ec_pubkey_serialize cs s)] ++
       [WInt encrypted_msg_nonce (e_nonce x)] ++ opt_wire (e_signature x) (WBytes encrypted_msg_signature) ++
       opt_wire (e_identifier x) (WBytes encrypted_msg_identifier) ++
       if_wire (written encrypted_msg_status_code ctx) (WInt encrypted_msg_status_code (e_statusCode x)) ++
       opt_wire (e_statusMsg x) (WBytes encrypted_msg_status_msg) ++ us.

Lemma encrypted_writes x ws : encrypted_format x ws -> key_writes BRPaymentProtocolEncryptedMessageSerialize x (message_bytes ws).
Proof.
  intros (message & cr & r & cs & s & us & Em & Er & Es & _ & _ & _ & Tm & _ & _ & Hu & Hw & ->) p n Hroom. split_wires Hw.
  destruct x as [t msg rk sk nonce sg ident code smsg ctx].
  cbn [e_msgType e_message e_receiverPubKey e_senderPubKey e_nonce e_signature e_identifier e_statusCode e_statusMsg e_ctx] in *. subst msg rk sk.
  unfold BRPaymentProtocolEncryptedMessageSerialize. rewrite bind_Some_l.
  rewrite <- (cursor_nil p). change (cursor p []) with (cursor p (message_bytes [])).
  put_next (put_int1 p n []) Hroom. rewrite app_nil_l. put_next put_bytes1 Hroom. rewrite (pub_key65_cached 0 cr r), bind_Some_l.
  put_next put_bytes1 Hroom. rewrite (pub_key65_cached 0 cs s), bind_Some_l. put_next put_bytes1 Hroom. put_next put_int1 Hroom.
  put_next put_bytes Hroom. put_next put_bytes Hroom. put_next put_int Hroom. put_next put_string Hroom.
  rewrite (put_unknown_fields p n _ encrypted_msg_status_msg _ us) by (done || wire_fits Hroom).
  rewrite bind_Some_l, <- !app_assoc. rewrite finish_cursor by done. done.
Qed.

Lemma encrypted_parse x ws : encrypted_format x ws -> len (message_bytes ws) < 0x10000000000000000 ->
  BRPaymentProtocolEncryptedMessageParse (Some (message_bytes ws)) (len (message_bytes ws)) = Some (Some x).
Proof.
  intros (message & cr & r & cs & s & us & Em & Er & Es & Hr & Hs & Ht & Tm & Hd & D0 & Hu & Hw & E) Hl.
  unfold BRPaymentProtocolEncryptedMessageParse. rewrite parse_fields_message by done.
  generalize (len (message_bytes ws)) as m. intros m. subst ws. rewrite for_each_app.
  destruct x as [t msg rk sk nonce sg ident code smsg ctx].
  cbn [e_msgType e_message e_receiverPubKey e_senderPubKey e_nonce e_signature e_identifier e_statusCode e_statusMsg e_ctx] in *.
  subst msg rk sk. split_wires Hw. set (k0 := mkKey 0 (replicate 65 0) false). set (rk := cached 0 cr r). set (sk := cached 0 cs s).
  set (c0 := set_default encrypted_msg_status_code context_none).
  set (c1 := seen (written encrypted_msg_status_code ctx) encrypted_msg_status_code c0).
  rewrite run_one. change (encrypted_field (mkEncrypted 0 None k0 k0 0 None None 0 None c0, mkGot false false false false)
    (wire_field m (WInt encrypted_msg_msg_type t))) with
    (Some (mkEncrypted (u32 t) None k0 k0 0 None None 0 None c0, mkGot true false false false)). rewrite u32_id by done.
  run_next. rewrite run_one. change (encrypted_field (mkEncrypted t None k0 k0 0 None None 0 None c0, mkGot true false false false)
    (wire_field m (WBytes encrypted_msg_message message))) with
    (Some (mkEncrypted t (Some message) k0 k0 0 None None 0 None c0, mkGot true false false false)).
  run_next. rewrite run_one. change (encrypted_field (mkEncrypted t (Some message) k0 k0 0 None None 0 None c0, mkGot true false false false)
    (wire_field m (WBytes encrypted_msg_receiver_pk (ec_pubkey_serialize cr r)))) with
    ('(rk, ok) ← pub_key_field (wire_field m (WBytes encrypted_msg_receiver_pk (ec_pubkey_serialize cr r)));
     Some (mkEncrypted t (Some message) rk k0 0 None None 0 None c0, mkGot true false ok false)).
  rewrite pub_key_field_ser by done. fold rk. rewrite bind_Some_l.
  run_next. rewrite run_one. change (encrypted_field (mkEncrypted t (Some message) rk k0 0 None None 0 None c0, mkGot true false true false)
    (wire_field m (WBytes encrypted_msg_sender_pk (ec_pubkey_serialize cs s)))) with
    ('(sk, ok) ← pub_key_field (wire_field m (WBytes encrypted_msg_sender_pk (ec_pubkey_serialize cs s)));
     Some (mkEncrypted t (Some message) rk sk 0 None None 0 None c0, mkGot true false true ok)).
  rewrite pub_key_field_ser by done. fold sk. rewrite bind_Some_l. set (got := mkGot true true true true).
  run_next. rewrite run_one. change (encrypted_field (mkEncrypted t (Some message) rk sk 0 None None 0 None c0, mkGot true false true true)
    (wire_field m (WInt encrypted_msg_nonce nonce))) with (Some (mkEncrypted t (Some message) rk sk nonce None None 0 None c0, got)).
  run_next. rewrite (run_opt _ _ _ _ _ (mkEncrypted t (Some message) rk sk nonce sg None 0 None c0, got)) by (intros; subst; done).
  run_next. rewrite (run_opt _ _ _ _ _ (mkEncrypted t (Some message) rk sk nonce sg ident 0 None c0, got)) by (intros; subst; done).
  run_next. rewrite (run_if _ _ _ _ _ (mkEncrypted t (Some message) rk sk nonce sg ident code None c1, got)).
  2: { intros E. unfold c1. now rewrite E. }
  2: { intros E. unfold c1. rewrite E. apply negb_false_iff in E. now rewrite D0. }
  run_next. rewrite (run_opt _ _ _ _ _ (mkEncrypted t (Some message) rk sk nonce sg ident code smsg c1, got)) by (intros; subst; done). run_next.
  assert (E1 : defaults c1 = defaults ctx) by (unfold c1, c0; clear -Hd; seen_tac).
  assert (Eu1 : unknown c1 = None) by (unfold c1; now rewrite !seen_unknown).
  rewrite (run_unknown _ _ _ encrypted_msg_status_msg ctx us (mkEncrypted t (Some message) rk sk nonce sg ident code smsg ctx, got)); [done|done| |].
  - intros w _ Eu Hk. unfold encrypted_field. not_known Hk. now rewrite (add_unknown_eq encrypted_msg_status_msg m w c1 ctx).
  - intros Eu. do 2 f_equal. apply context_eq; [done|]. now rewrite Eu1.
Qed.

(** *** The shared secret *)

Lemma compressed_of_long (p : point) :
  let s := ec_pubkey_serialize false p in
  take 33 (upd s 0 (if wd s 64 mod 2 =? 1 then 3 else 2)) = ec_pubkey_serialize true p.
Proof.
  cbv zeta. rewrite serialize_forms. pose proof (ser_length false p) as L. generalize (if wd (ec_pubkey_serialize false p) 64 mod 2 =? 1 then 3 else 2).
  intros tag. destruct (ec_pubkey_serialize false p) as [|b l]; [done|]. change (upd (b :: l) 0 tag) with (tag :: l). done.
Qed.

Lemma ecdh_spec priv c p q : created p -> ec_pubkey_tweak_mul p (UInt256Set (secret priv)) = Some q ->
  _BRECDH priv (cached 0 c p) = Some (cached 0 c p, take 32 (drop 1 (ec_pubkey_serialize true q))).
Proof.
  intros Hp Hq. unfold _BRECDH. rewrite pub_key65_cached, bind_Some_l. rewrite ser_length.
  replace ((if c then 33 else 65) =? 0) with false by now destruct c. cbv zeta.
  assert (Em : BRSecp256k1PointMul (ec_pubkey_serialize true p) (secret priv) = (ec_pubkey_serialize true q, true)).
  { unfold BRSecp256k1PointMul, point_result. rewrite (created_parse true p Hp), bind_Some_l, Hq. done. }
  destruct c; cbn [Z.eqb Pos.eqb].
  - rewrite (take_ge (ec_pubkey_serialize true p)) by now rewrite serialize_length. rewrite Em. cbn [fst].
    rewrite (drop_ge (ec_pubkey_serialize true p)) by now rewrite serialize_length. now rewrite app_nil_r.
  - rewrite compressed_of_long, Em. cbn [fst]. rewrite drop_app_le, take_app_le; [done| |rewrite serialize_length; lia].
    rewrite length_drop, serialize_length. lia.
Qed.

(** The key and the nonce of the cipher. *)
Definition cipher_keys (q : point) (nonce : Z) : list Z * list Z :=
  let seed := BRSHA512 (take 32 (drop 1 (ec_pubkey_serialize true q))) in
  let '(cek, K, V) := BRHMACDRBG BRSHA256 32 32 [] [] (Some seed) (Some (reverse (le_bytes 8 nonce))) None in
  (cek, fst (fst (BRHMACDRBG BRSHA256 32 12 K V None None None))).

Lemma cek_spec x cr r cs s priv k c a q : created r -> created s ->
  e_receiverPubKey x = cached 0 cr r -> e_senderPubKey x = cached 0 cs s ->
  pub_key65 priv = Some (cached k c a, ec_pubkey_serialize c a) ->
  ec_pubkey_tweak_mul (if bool_decide (ec_pubkey_serialize c a = ec_pubkey_serialize cr r) then s else r) (UInt256Set k) = Some q ->
  _BRPaymentProtocolEncryptedMessageCEK x priv = Some (x, cached k c a, fst (cipher_keys q (e_nonce x)), snd (cipher_keys q (e_nonce x))).
Proof.
  intros Hr Hs Er Es Hp Hq. destruct x as [t m rk sk nonce sg ident code smsg ctx].
  cbn [e_receiverPubKey e_senderPubKey e_nonce] in *. subst rk sk. unfold _BRPaymentProtocolEncryptedMessageCEK.
  rewrite Hp, bind_Some_l, pub_key65_cached, bind_Some_l. unfold cipher_keys.
  destruct (bool_decide _); rewrite (ecdh_spec _ _ _ q) by done; rewrite !bind_Some_l; destruct (BRHMACDRBG _ _ 32 _ _ _ _ _) as [[cek K] V];
    destruct (BRHMACDRBG _ _ 12 _ _ _ _ _) as [[iv ?] ?]; done.
Qed.

Lemma iv_ok q nonce : bytes_ok (snd (cipher_keys q nonce)) /\ length (snd (cipher_keys q nonce)) = 12%nat.
Proof.
  unfold cipher_keys. destruct (BRHMACDRBG _ _ 32 _ _ _ _ _) as [[cek K] V]. cbn [snd].
  unfold BRHMACDRBG. cbn [bool_decide]. rewrite !bool_decide_eq_false_2 by (intros [? ?]; done). cbn [orb].
  change (Z.to_nat ((12 + 32 - 1) / 32)) with 1%nat. cbn [drbg_out fst]. rewrite app_nil_r.
  change (block_part 32 12 0 ?T) with (take 12 T).
  set (K' := BRHMAC BRSHA256 32 K _). pose proof (BRHMAC_hash BRSHA256 32 K') as HH. change (Z.of_nat 32) with 32 in HH.
  split; [apply Forall_take, hash_bytes|]. rewrite length_take, hash_length. done.
Qed.

(** *** From the sender to the receiver *)

Lemma digits_bytes fuel n s : 0 <= n -> bytes_ok s -> bytes_ok (digits_loop fuel n s).
Proof.
  revert n s. induction fuel as [|fuel IH]; intros n s Hn Hs; [done|]. cbn [digits_loop]. destruct (Z.ltb_spec n 10).
  - constructor; [unfold is_byte; lia|done].
  - apply IH; [zdiv_lia|]. constructor; [unfold is_byte; zdiv_lia|done].
Qed.

Lemma c_str_bytes s : bytes_ok s -> bytes_ok (c_str s).
Proof. induction 1 as [|b s Hb _ IH]; cbn; [constructor|]. destruct (b =? 0); [constructor|now constructor]. Qed.

Lemma wire_bytes_le w : len (wire_bytes w) <= 20 + match w with WInt _ _ => 0 | WBytes _ d => len d end.
Proof.
  destruct w as [k i|k d]; unfold wire_bytes; rewrite !length_app;
    [pose proof (pb_varint_length (8 * k)); pose proof (pb_varint_length i)
    |pose proof (pb_varint_length (8 * k + 2)); pose proof (pb_varint_length (len d))]; lia.
Qed.

Lemma message_bytes_one w : message_bytes [w] = wire_bytes w.
Proof. unfold message_bytes. cbn. apply app_nil_r. Qed.

Lemma opt_bytes_le o k : len (message_bytes (opt_wire o (WBytes k))) <= 20 + len (default [] o).
Proof. destruct o as [d|]; cbn [opt_wire]; [rewrite message_bytes_one; exact (wire_bytes_le (WBytes k d))|cbn; lia]. Qed.

Lemma has_priv_key_secret k c : secp256k1_ec_seckey_verify (UInt256Set k) = true ->
  has_priv_key (mkKey k (replicate 65 0) c) = Some true.
Proof.
  intros Hv. unfold has_priv_key, BRKeyPrivKey. cbn [secret compressed]. rewrite Hv.
  set (data := [BITCOIN_PRIVKEY] ++ _ ++ _).
  assert (Hd : bytes_ok data).
  { apply Forall_app; split; [repeat constructor; unfold is_byte, BITCOIN_PRIVKEY; lia|].
    apply Forall_app; split; [apply u256_bytes|destruct c; repeat constructor; unfold is_byte; lia]. }
  assert (Hl : len data = if c then 34 else 33).
  { unfold data. rewrite !length_app. destruct (u256_bytes k) as [_ ->]. now destruct c. }
  assert (Hlt : len data < 0x100000000) by (destruct c; lia).
  rewrite (writes_null _ _ 0 (check_encode_writes data Hd Hlt)).
  rewrite bind_Some_l. do 2 f_equal. fold (check_string data). pose proof (check_string_length data Hd) as L.
  pose proof (base58_string_length (data ++ take 4 (BRSHA256_2 data))) as U.
  rewrite length_app, sha_checksum_length in U. specialize (U ltac:(apply Forall_app; split; [done|apply Forall_take, hash_bytes])).
  apply negb_true_iff, Z.eqb_neq. unfold check_string in *. rewrite length_app. cbn [length].
  rewrite u64_id; [lia|]. assert (len data <= 34) by (destruct c; lia). revert U. zdiv_lia.
Qed.

Lemma has_priv_key_public c p : has_priv_key (cached 0 c p) = Some false.
Proof. reflexivity. Qed.

Context (s r : Z) (cs cr : bool) (S R Q : point).
Context (Hs : ec_pubkey_create (UInt256Set s) = Some S) (Hr : ec_pubkey_create (UInt256Set r) = Some R)
  (HQ : ec_pubkey_tweak_mul R (UInt256Set s) = Some Q).
Context (msgType nonce statusCode : Z) (message : list Z) (identifier statusMsg : option (list Z)).

Definition within_bounds : Prop :=
  0 <= msgType < 0x100000000 /\ is_u64 nonce /\ is_u64 statusCode /\
  bytes_ok message /\ len message / 64 < UINT32_MAX /\ no_nul statusMsg /\ bytes_ok (default [] statusMsg) /\
  len (default [] identifier) < 0x100000000 /\ len (default [] statusMsg) < 0x100000000.

(** The message with ciphertext [cipher] and signature [sg], and its fields. *)
Definition sealed (cipher : list Z) (sg : option (list Z)) : BRPaymentProtocolEncryptedMessage :=
  mkEncrypted msgType (Some cipher) (cached 0 cr R) (cached 0 cs S) nonce sg identifier statusCode statusMsg context_none.

Definition sealed_fields (cipher : list Z) (sg : option (list Z)) : list Wire :=
  [WInt encrypted_msg_msg_type msgType] ++ [WBytes encrypted_msg_message cipher] ++
  [WBytes encrypted_msg_receiver_pk (ec_pubkey_serialize cr R)] ++ [WBytes encrypted_msg_sender_pk (ec_pubkey_serialize cs S)] ++
  [WInt encrypted_msg_nonce nonce] ++ opt_wire sg (WBytes encrypted_msg_signature) ++
  opt_wire identifier (WBytes encrypted_msg_identifier) ++ [WInt encrypted_msg_status_code statusCode] ++
  opt_wire statusMsg (WBytes encrypted_msg_status_msg).

Definition small (cipher : list Z) (sg : option (list Z)) : Prop :=
  within_bounds /\ len cipher < 0x10000000000 /\ len (default [] sg) <= 73.

Lemma opt_wire_ok (o : option (list Z)) k : 0 <= k < 2 ^ 61 -> is_u64 (len (default [] o)) -> Forall wire_ok (opt_wire o (WBytes k)).
Proof. intros Hk Ho. destruct o; cbn [opt_wire]; [constructor; [split|]|]; done. Qed.

Lemma sealed_format cipher sg : small cipher sg -> encrypted_format (sealed cipher sg) (sealed_fields cipher sg).
Proof.
  intros ((Ht & Hn & Hc & _ & _ & Hm & _ & Hi & Hsm) & Hl & Hsg). exists cipher, cr, R, cs, S, []. cbv zeta.
  refine (conj eq_refl (conj eq_refl (conj eq_refl (conj (ex_intro _ r Hr) (conj (ex_intro _ s Hs) (conj Ht (conj Hm
    (conj (empty_subseteq _) (conj _ (conj eq_refl (conj _ _)))))))))));
    [intros E; apply is_default_spec, not_elem_of_empty in E; destruct E| |].
  - unfold sealed_fields. pose proof (ser_length cr R) as LR. pose proof (ser_length cs S) as LS.
    rewrite !Forall_app, !Forall_singleton. unfold wire_ok. cbn [wire_key].
    assert (K : forall k, 0 <= k <= 9 -> 0 <= k < 2 ^ 61) by lia.
    split_and!; first [apply opt_wire_ok; [apply K; vm_compute; split; congruence|lia]|apply K; vm_compute; split; congruence|destruct cr, cs; lia].
  - unfold sealed_fields. now rewrite app_nil_r.
Qed.

Lemma sealed_length cipher sg : small cipher sg -> len (message_bytes (sealed_fields cipher sg)) < 0x10000000000000000.
Proof.
  intros ((_ & _ & _ & _ & _ & _ & _ & Hi & Hsm) & Hl & Hsg). unfold sealed_fields. rewrite !message_bytes_app, !length_app, !message_bytes_one.
  pose proof (opt_bytes_le sg encrypted_msg_signature). pose proof (opt_bytes_le identifier encrypted_msg_identifier).
  pose proof (opt_bytes_le statusMsg encrypted_msg_status_msg). pose proof (ser_length cr R). pose proof (ser_length cs S).
  pose proof (wire_bytes_le (WInt encrypted_msg_msg_type msgType)). pose proof (wire_bytes_le (WBytes encrypted_msg_message cipher)).
  pose proof (wire_bytes_le (WBytes encrypted_msg_receiver_pk (ec_pubkey_serialize cr R))).
  pose proof (wire_bytes_le (WBytes encrypted_msg_sender_pk (ec_pubkey_serialize cs S))).
  pose proof (wire_bytes_le (WInt encrypted_msg_nonce nonce)). pose proof (wire_bytes_le (WInt encrypted_msg_status_code statusCode)).
  destruct cr, cs; lia.
Qed.

Lemma sealed_filled cipher sg : small cipher sg ->
  filled_key BRPaymentProtocolEncryptedMessageSerialize (sealed cipher sg) = Some (sealed cipher sg, message_bytes (sealed_fields cipher sg)).
Proof. intros Hb. apply filled_key_writes; [now apply encrypted_writes, sealed_format|now apply sealed_length]. Qed.

Definition sealed_digest (cipher : list Z) : Z := UInt256Get (BRSHA256 (message_bytes (sealed_fields cipher (Some [])))).

Lemma sealed_message_digest cipher : small cipher (Some []) ->
  message_digest (sealed cipher (Some [])) = Some (sealed cipher (Some []), sealed_digest cipher).
Proof. intros Hb. unfold message_digest. now rewrite (sealed_filled cipher (Some []) Hb). Qed.

Lemma seckey_ok k p : ec_pubkey_create (UInt256Set k) = Some p -> secp256k1_ec_seckey_verify (UInt256Set k) = true.
Proof. intros Hp. apply (create_valid (UInt256Set k) (u256_bytes k)). eauto. Qed.

(** The associated data, the ciphertext with its tag, and the signature. *)
Definition exchange_ad : list Z := decimal statusCode ++ c_str (default [] statusMsg).
Definition exchange_cipher : list Z :=
  let '(cek, iv) := cipher_keys Q nonce in
  let c := aead_cipher cek iv message in c ++ aead_tag cek iv c exchange_ad.

Lemma exchange_ad_bytes : within_bounds -> bytes_ok exchange_ad.
Proof.
  intros (_ & _ & Hc & _ & _ & _ & Hb & _). apply Forall_app; split; [apply digits_bytes; [lia|constructor]|now apply c_str_bytes].
Qed.

Lemma mac_bytes_ok h : bytes_ok (mac_bytes h).
Proof. destruct h as [[[[? ?] ?] ?] ?]. unfold mac_bytes. repeat (apply Forall_app; split); apply le_bytes_ok. Qed.

Lemma aead_tag_ok key iv c ad : bytes_ok (aead_tag key iv c ad) /\ length (aead_tag key iv c ad) = 16%nat.
Proof. split; [apply mac_bytes_ok|apply mac_bytes_length]. Qed.

Lemma exchange_length : within_bounds -> len exchange_cipher = len message + 16.
Proof.
  intros _. unfold exchange_cipher. destruct (iv_ok Q nonce) as [Bi Li]. destruct (cipher_keys Q nonce) as [cek iv]. cbn [snd] in *.
  rewrite length_app. destruct (aead_tag_ok cek iv (aead_cipher cek iv message) exchange_ad) as [_ ->].
  rewrite (proj1 (aead_cipher_ok cek iv message)). lia.
Qed.

Lemma exchange_small : within_bounds -> small exchange_cipher (Some []).
Proof.
  intros Hb. split; [done|]. rewrite (exchange_length Hb). destruct Hb as (_ & _ & _ & _ & Hl & _). unfold UINT32_MAX in Hl.
  cbn [default length]. split; [zdiv_lia|cbn; lia].
Qed.

Lemma exchange_encrypt : within_bounds -> let '(cek, iv) := cipher_keys Q nonce in
  let n := u64 (len message + 16) in
  exists p bufLen, BRChacha20Poly1305AEADEncrypt (Some (replicate (Z.to_nat n) 0)) n cek iv message exchange_ad = Some (p, bufLen) /\
    take (Z.to_nat bufLen) (default [] p) = exchange_cipher.
Proof.
  intros Hb. pose proof (exchange_ad_bytes Hb) as Ha. pose proof (exchange_length Hb) as Hx. destruct Hb as (_ & _ & _ & Hm & Hl & _).
  revert Hx. unfold exchange_cipher. destruct (iv_ok Q nonce) as [Bi Li]. destruct (cipher_keys Q nonce) as [cek iv]. cbn [snd] in *.
  pose proof (encrypt_writes cek iv Bi Li message exchange_ad Hm Ha Hl) as Hw. unfold UINT32_MAX in Hl. cbv zeta.
  assert (len message < 0x10000000000) by zdiv_lia. rewrite u64_id by lia. intros Hx.
  eexists _, _. split; [apply (writes_exact _ _ _ _ Hw); rewrite ?length_replicate; lia|]. cbn [default]. unfold id.
  now rewrite Nat2Z.id, take_app_length.
Qed.

Lemma exchange_decrypt m n : within_bounds -> len message <= n <= len m -> n + 16 < 2 ^ 64 ->
  BRChacha20Poly1305AEADDecrypt (Some m) n (fst (cipher_keys Q nonce)) (snd (cipher_keys Q nonce)) exchange_cipher exchange_ad =
  Some (Some (message ++ drop (length message) m), len message).
Proof.
  intros Hb Hn Hw. pose proof (exchange_ad_bytes Hb) as Ha. destruct Hb as (_ & _ & _ & Hm & Hl & _).
  unfold exchange_cipher. destruct (iv_ok Q nonce) as [Bi Li]. destruct (cipher_keys Q nonce) as [cek iv]. cbn [fst snd] in *.
  destruct (aead_cipher_ok cek iv message) as (Cl & Cb & Ci). destruct (aead_tag_ok cek iv (aead_cipher cek iv message) exchange_ad) as [Tb Tl].
  rewrite decrypt_ok by (rewrite ?Cl; auto). rewrite bool_decide_eq_true_2 by done. now rewrite Ci, Cl.
Qed.

(** Signing the digest, and the signature's verification. *)
Lemma exchange_sign md : exists p sigLen, BRKeySign (cached s cs S) (Some (replicate 73 0)) 73 md = Some (p, sigLen) /\
  let der := take (Z.to_nat sigLen) (default [] p) in
  len der <= 73 /\ option_map snd (BRKeyVerify (cached 0 cs S) md der) = Some true.
Proof.
  pose proof (u256_bytes md) as Bm. pose proof (u256_bytes s) as Bk.
  destruct (sign_total (UInt256Set md) (UInt256Set s) Bm Bk (seckey_ok s S Hs)) as [[x Hx] _].
  destruct (der_roundtrip _ _ _ Bm Bk Hx) as [Hder Hlen]. set (der := ecdsa_signature_serialize_der x) in *.
  exists (Some (der ++ drop (length der) (replicate 73 0))), (len der). split.
  { unfold BRKeySign. cbn [cached secret]. rewrite Hx. fold der. rewrite (proj2 (Z.leb_le _ 73)) by lia.
    rewrite mem_write_0 by (rewrite length_replicate; lia). done. }
  cbv zeta. cbn [default]. unfold id. rewrite Nat2Z.id, take_app_length. split; [lia|].
  unfold BRKeyVerify. rewrite (proj2 (Z.eqb_neq _ 0)) by lia. unfold BRKeyPubKey. rewrite key_point_cached. unfold write_result.
  rewrite !bind_Some_l. cbn [option_map snd].
  change (pubKey (cached 0 cs S)) with (ec_pubkey_serialize cs S ++ drop (length (ec_pubkey_serialize cs S)) (replicate 65 0)).
  rewrite Nat2Z.id, take_app_length. pose proof (ser_length cs S) as L. rewrite (u64_id (len _)) by (rewrite L; destruct cs; lia).
  rewrite (proj2 (Z.ltb_lt 0 _)) by (rewrite L; destruct cs; lia).
  rewrite Nat2Z.id, take_app_length, (create_parse cs s S Hs), Hder. f_equal. now apply (sign_verify _ (UInt256Set s)).
Qed.

Lemma exchange_new : within_bounds -> exists sg, len sg <= 73 /\
  option_map snd (BRKeyVerify (cached 0 cs S) (sealed_digest exchange_cipher) sg) = Some true /\
  BRPaymentProtocolEncryptedMessageNew msgType message (cached 0 cr R) (fst (BRKeySetSecret s cs)) nonce identifier statusCode statusMsg =
    Some (cached 0 cr R, cached s cs S, sealed exchange_cipher (Some sg)).
Proof.
  intros Hb. destruct (exchange_sign (sealed_digest exchange_cipher)) as (p & sigLen & Esign & Hlen & Hv).
  eexists. split; [exact Hlen|]. split; [exact Hv|]. unfold BRPaymentProtocolEncryptedMessageNew, BRKeySetSecret, BRKeyClean. cbn [fst pubKey].
  rewrite has_priv_key_public, bind_Some_l, (has_priv_key_secret s cs (seckey_ok s S Hs)), bind_Some_l. cbn [negb andb].
  rewrite pub_key65_cached, bind_Some_l, (set_pub_key_ser cr R) by now exists r. rewrite bind_Some_l.
  rewrite (pub_key65_fresh s cs S Hs), bind_Some_l, (set_pub_key_ser cs S) by now exists s. rewrite bind_Some_l.
  rewrite (cek_spec _ cr R cs S (cached s cs S) s cs S Q); [|now exists r|now exists s|done|done|apply pub_key65_cached|].
  - rewrite bind_Some_l. cbn [e_nonce]. fold exchange_ad. pose proof (exchange_encrypt Hb) as He.
    destruct (cipher_keys Q nonce) as [cek iv]. cbn [fst snd]. destruct He as (q & bufLen & He & Ht). rewrite He, bind_Some_l, Ht.
    fold (sealed exchange_cipher (Some [])). rewrite (sealed_message_digest _ (exchange_small Hb)), bind_Some_l, Esign. done.
  - case_bool_decide as E; [|done]. assert (HSR : S = R); [|now rewrite HSR].
    assert (E' : ec_pubkey_parse (ec_pubkey_serialize cs S) = ec_pubkey_parse (ec_pubkey_serialize cr R)) by now rewrite E.
    rewrite (create_parse cs s S Hs), (create_parse cr r R Hr) in E'. now injection E'.
Qed.
End key_proofs.

(** C19. The encrypted messages of BIP75, from the sender to the receiver.  The sender has a private key and
    the receiver's public key; when the product of the two keys exists,
    [BRPaymentProtocolEncryptedMessageNew] gives a message that is 16 bytes longer than the plaintext.  Its
    bytes, as [BRPaymentProtocolEncryptedMessageSerialize] writes them to a buffer of the size it asks for,
    are parsed to the same message; the signature of that message verifies with the sender's public key; and
    the receiver, with its private key and room for the plaintext, decrypts it. *)
Theorem encrypted_exchange {point sig rsig} `{ECDHLaws point sig rsig} s r cs cr S R Q msgType nonce statusCode message identifier statusMsg :
  ec_pubkey_create (UInt256Set s) = Some S -> ec_pubkey_create (UInt256Set r) = Some R ->
  ec_pubkey_tweak_mul R (UInt256Set s) = Some Q ->
  within_bounds msgType nonce statusCode message identifier statusMsg ->
  exists receiver sender msg bs,
    BRPaymentProtocolEncryptedMessageNew msgType message (fst (BRKeySetPubKey (public_key cr r))) (fst (BRKeySetSecret s cs)) nonce
      identifier statusCode statusMsg = Some (receiver, sender, msg) /\
    option_map (fun c => len c) (e_message msg) = Some (len message + 16) /\
    filled_key BRPaymentProtocolEncryptedMessageSerialize msg = Some (msg, bs) /\
    BRPaymentProtocolEncryptedMessageParse (Some bs) (len bs) = Some (Some msg) /\
    option_map snd (BRPaymentProtocolEncryptedMessageVerify msg (fst (BRKeySetPubKey (public_key cs s)))) = Some true /\
    forall m n, len message <= n <= len m -> n + 16 < 2 ^ 64 ->
      option_map snd (BRPaymentProtocolEncryptedMessageDecrypt msg (Some m) n (fst (BRKeySetSecret r cr))) =
      Some (Some (message ++ drop (length message) m), len message).
Proof.
  intros Hs Hr HQ Hb.
  assert (Kr : fst (BRKeySetPubKey (public_key cr r)) = cached 0 cr R).
  { unfold public_key, BRKeySetPubKey, cached. rewrite Hr, ser_length. cbn [fst]. now destruct cr. }
  assert (Ks : fst (BRKeySetPubKey (public_key cs s)) = cached 0 cs S).
  { unfold public_key, BRKeySetPubKey, cached. rewrite Hs, ser_length. cbn [fst]. now destruct cs. }
  rewrite Kr, Ks.
  destruct (exchange_new s r cs cr S R Q Hs Hr HQ msgType nonce statusCode message identifier statusMsg Hb) as (sg & Hsg & Hv & Hnew).
  set (c := exchange_cipher Q nonce statusCode message statusMsg) in *.
  set (msg := sealed cs cr S R msgType nonce statusCode identifier statusMsg c (Some sg)) in *.
  pose proof (exchange_small Q msgType nonce statusCode message identifier statusMsg Hb) as (_ & Hcl & _). fold c in Hcl.
  assert (Hsmall : small msgType nonce statusCode message identifier statusMsg c (Some sg)) by now split.
  eexists _, _, msg, _. split; [exact Hnew|]. split.
  { change (Some (len c) = Some (len message + 16)). f_equal. now apply (exchange_length Q msgType nonce statusCode message identifier statusMsg). }
  split; [now apply (sealed_filled s r cs cr S R Hs Hr msgType nonce statusCode message)|]. split.
  { apply encrypted_parse; [now apply (sealed_format s r cs cr S R Hs Hr msgType nonce statusCode message)|].
    now apply (sealed_length cs cr S R msgType nonce statusCode message). }
  split.
  - unfold BRPaymentProtocolEncryptedMessageVerify.
    change (set_e_signature ((fun _ => []) <$> e_signature msg) msg) with
      (sealed cs cr S R msgType nonce statusCode identifier statusMsg c (Some [])).
    rewrite (sealed_message_digest s r cs cr S R Hs Hr msgType nonce statusCode message), bind_Some_l by now split.
    cbn [e_signature msg sealed default]. unfold id. fold c in Hv. destruct (BRKeyVerify _ _ sg) as [[k' ok]|]; [|done].
    cbn in Hv |- *. exact Hv.
  - intros m n Hn Hw. unfold BRPaymentProtocolEncryptedMessageDecrypt. cbn [e_message msg sealed]. rewrite bind_Some_l.
    rewrite (cek_spec msg cr R cs S _ r cr R Q); [|now exists r|now exists s|done|done|now apply pub_key65_fresh|].
    + rewrite bind_Some_l. change (e_nonce msg) with nonce.
      change (decrypt_ad msg) with (exchange_ad statusCode statusMsg).
      unfold c. now rewrite (exchange_decrypt Q msgType nonce statusCode message identifier statusMsg m n Hb Hn Hw).
    + rewrite bool_decide_eq_true_2 by done. rewrite <- HQ. symmetry. apply tweak_mul_comm; [apply u256_bytes..|done|done].
Qed.

(** *** The model of the library's laws satisfies those of the key exchange *)

#[export] Instance exponent_ecdh : ECDHLaws (list Z) (list Z) (list Z).
Proof.
  split.
  - intros a b A B _ _ Ha Hb. destruct (exponent_Some a A Ha) as [-> Va]. destruct (exponent_Some b B Hb) as [-> Vb].
    unfold secp256k1_ec_seckey_verify in *. cbn [ec_pubkey_tweak_mul exponent_curve]. unfold secp256k1_ec_privkey_tweak_mul.
    destruct (scalar_set_b32 a) as [fa oa], (scalar_set_b32 b) as [fb ob]. cbn [fst snd]. rewrite Va, Vb. cbn [fst snd].
    now rewrite (Z.mul_comm fa).
  - intros p. cbv zeta. cbn [ec_pubkey_serialize exponent_curve]. set (x := take 32 _).
    assert (Lx : length x = 32%nat) by (unfold x; rewrite length_take, length_app, length_replicate; lia).
    assert (E : wd (4 :: x ++ replicate 32 0) 64 = 0).
    { change (wd (4 :: ?l) 64) with (wd l 63). unfold wd. rewrite lookup_app_r by (rewrite Lx; vm_compute; lia).
      rewrite lookup_replicate_2 by (rewrite Lx; vm_compute; lia). done. }
    rewrite E. cbn [drop]. rewrite drop_0, take_app_length' by done. change (replicate 0 0) with (@nil Z). now rewrite app_nil_r.
Qed.

Definition ex_message : list Z := [104; 101; 108; 108; 111].

Lemma encrypted_exchange_witness : exists receiver sender msg bs,
  BRPaymentProtocolEncryptedMessageNew 3 ex_message (fst (BRKeySetPubKey (public_key false 5))) (fst (BRKeySetSecret 3 true)) 77
    (Some [1; 2]) 200 (Some (text "ok")) = Some (receiver, sender, msg) /\
  BRPaymentProtocolEncryptedMessageParse (Some bs) (len bs) = Some (Some msg) /\
  option_map snd (BRPaymentProtocolEncryptedMessageDecrypt msg (Some (replicate 5 0)) 5 (fst (BRKeySetSecret 5 false))) =
    Some (Some ex_message, 5).
Proof.
  destruct (encrypted_exchange 3 5 true false (UInt256Set 3) (UInt256Set 5) (default [] (ec_pubkey_tweak_mul (UInt256Set 5) (UInt256Set 3))) 3 77 200 ex_message (Some [1; 2]) (Some (text "ok")))
    as (rk & sk & msg & bs & Hn & _ & _ & Hp & _ & Hd); [vm_compute; reflexivity..| |].
  - split_and!; try (vm_compute; congruence); [repeat constructor; unfold is_byte; lia|intros ? [= <-]; reflexivity|repeat constructor; unfold is_byte; lia].
  - exists rk, sk, msg, bs. split; [exact Hn|]. split; [exact Hp|]. apply (Hd (replicate 5 0) 5); [cbn; lia|lia].
Defined.
