(* ===== verification/Sequence.v ===== *)
(** * Sequence: hierarchical deterministic keys (BRBIP32Sequence.c, BRBIP32Sequence.h)

    Derivation of private and public child keys, the master public key, and the keys of a path.  A
    private key whose point cannot be computed leaves the bytes that are hashed uninitialised; the
    functions return [None] for reading them, and for a failed assertion. *)
From stdpp Require Import base numbers list.
From Stdlib Require Import ZArith Lia.
From S2P Require Import Prelude CMem Int Crypto Base58 Address Transaction Key.
Local Open Scope Z_scope.

Definition BIP32_HARD : Z := 0x80000000.
Definition SEQUENCE_GAP_LIMIT_EXTERNAL : Z := 10.
Definition SEQUENCE_GAP_LIMIT_INTERNAL : Z := 5.
Definition SEQUENCE_EXTERNAL_CHAIN : Z := 0.
Definition SEQUENCE_INTERNAL_CHAIN : Z := 1.

(** "Bitcoin seed" *)
Definition BIP32_SEED_KEY : list Z := [66; 105; 116; 99; 111; 105; 110; 32; 115; 101; 101; 100].

Record BRMasterPubKey := mkMaster { fingerPrint : Z; chainCode : Z; masterPoint : list Z }.

Definition BR_MASTER_PUBKEY_NONE : BRMasterPubKey := mkMaster 0 UINT256_ZERO (replicate 33 0).

#[export] Instance BRMasterPubKey_eq_dec : EqDecision BRMasterPubKey.
Proof. solve_decision. Defined.

Notation hmac512 := (BRHMAC BRSHA512 64).

(** The two halves of the 64-byte [I], as [UInt256] objects. *)
Definition left256 (I : list Z) : Z := UInt256Get I.
Definition right256 (I : list Z) : Z := UInt256Get (drop 32 I).

Section sequence.
Context {point sig rsig : Type} `{Secp256k1 point sig rsig}.

Definition is_hard (i : Z) : bool := negb (Z.land i BIP32_HARD =? 0).

(** The 33 bytes of [buf] before the index; [None] if they are left uninitialised. *)
Definition ckd_prefix (k i : Z) : option (list Z) :=
  if is_hard i then Some ([0] ++ UInt256Set k)
  else match BRSecp256k1PointGen [] k with (p, true) => Some p | (_, false) => None end.

(** The new secret and chain code. *)
Definition _CKDpriv (kc : Z * Z) (i : Z) : option (Z * Z) :=
  let '(k, c) := kc in
  option_map (fun p =>
    let I := hmac512 (UInt256Set c) (p ++ UInt32SetBE i) in
    (fst (BRSecp256k1ModAdd k (left256 I)), right256 I)) (ckd_prefix k i).

Definition _CKDpub (Kc : list Z * Z) (i : Z) : list Z * Z :=
  let '(K, c) := Kc in
  if Z.land i BIP32_HARD =? BIP32_HARD then (K, c)
  else
    let I := hmac512 (UInt256Set c) (K ++ UInt32SetBE i) in
    (fst (BRSecp256k1PointAdd K (left256 I)), right256 I).

(** The master secret and chain code of a seed. *)
Definition master_node (seed : list Z) : Z * Z :=
  let I := hmac512 BIP32_SEED_KEY seed in (left256 I, right256 I).

(** [BRKeyPubKey(&key, &mpk.pubKey, 33)] into a zeroed array. *)
Definition master_point (key : BRKey) : option (list Z) :=
  r ← BRKeyPubKey key (Some (replicate 33 0)) 33; Some (default [] (fst (snd r))).

Definition BRBIP32MasterPubKey (seed : list Z) : option BRMasterPubKey :=
  let '(secret, chain) := master_node seed in
  h ← BRKeyHash160 (fst (BRKeySetSecret secret true));
  kc ← _CKDpriv (secret, chain) (Z.lor 0 BIP32_HARD);
  K ← master_point (fst (BRKeySetSecret (fst kc) true));
  Some (mkMaster (wd (u32s (of_u8s (snd h))) 0) (snd kc) K).

Definition BRBIP32PubKey (mpk : BRMasterPubKey) (chain index : Z) (pubKey : ptr) (pubKeyLen : Z) : option (ptr * Z) :=
  if decide (mpk = BR_MASTER_PUBKEY_NONE) then None
  else
    let K := _CKDpub (_CKDpub (masterPoint mpk, chainCode mpk) chain) index in
    match pubKey with
    | Some m =>
        if 33 <=? pubKeyLen then m' ← mem_write m 0 (fst K); Some (Some m', 33) else Some (pubKey, 0)
    | None => Some (None, 33)
    end.

(** [depth] arguments of [vlist], each read by [va_arg]; reading past them is undefined. *)
Definition BRBIP32vPrivKeyPath (seed : list Z) (depth : Z) (vlist : list Z) : option BRKey :=
  if (depth <? 0) || (len vlist <? depth) then None
  else
    kc ← for_each _CKDpriv (master_node seed) (take (Z.to_nat depth) vlist);
    Some (fst (BRKeySetSecret (fst kc) true)).

Definition BRBIP32PrivKeyPath := BRBIP32vPrivKeyPath.

Definition BRBIP32PrivKey (seed : list Z) (chain index : Z) : option BRKey :=
  BRBIP32PrivKeyPath seed 3 [Z.lor 0 BIP32_HARD; chain; index].

(** The loop over [indexes]. *)
Fixpoint priv_keys (kc : Z * Z) (indexes : list Z) : option (list BRKey) :=
  match indexes with
  | [] => Some []
  | i :: indexes' =>
      sc ← _CKDpriv kc i; keys ← priv_keys kc indexes';
      Some (fst (BRKeySetSecret (fst sc) true) :: keys)
  end.

Definition BRBIP32PrivKeyList (seed : list Z) (chain : Z) (indexes : list Z) : option (list BRKey) :=
  if bool_decide (indexes = []) then Some []
  else
    kc ← _CKDpriv (master_node seed) (Z.lor 0 BIP32_HARD);
    kc ← _CKDpriv kc chain;
    priv_keys kc indexes.

Definition BRBIP32APIAuthKey (seed : list Z) : option BRKey :=
  BRBIP32PrivKeyPath seed 2 [Z.lor 1 BIP32_HARD; 0].

Definition BRBIP32BitIDKey (seed : list Z) (index : Z) (uri : list Z) : option BRKey :=
  let hash := BRSHA256 (UInt32SetLE index ++ uri) in
  let h i := Z.lor (UInt32GetLE (drop (4 * i) hash)) BIP32_HARD in
  BRBIP32PrivKeyPath seed 5 [Z.lor 13 BIP32_HARD; h 0%nat; h 1%nat; h 2%nat; h 3%nat].

(** The address of the [index]'th key of a chain, as the wallet computes it from the master public
    key: [Some None] when one of the calls reports a failure. *)
Definition chain_key_address (mpk : BRMasterPubKey) (chain index : Z) : option (option (list Z)) :=
  K ← BRBIP32PubKey mpk chain index (Some (replicate 33 0)) 33;
  let '(key, ok) := BRKeySetPubKey (default [] (fst K)) in
  if negb ok then Some None
  else
    r ← BRKeyAddress key (Some (replicate 36 0)) 36;
    let '(p, n) := snd r in
    let addr := c_str (default [] p) in
    Some (if (n =? 0) || bool_decide (addr = []) then None else Some addr).
End sequence.

(** ** Public derivation follows private derivation *)

Lemma not_hard i : 0 <= i < BIP32_HARD -> Z.land i BIP32_HARD = 0.
Proof.
  intros Hi. unfold BIP32_HARD in *. pose proof (land_bit_zero i 31 ltac:(lia)) as E.
  change (Z.shiftl 1 31) with 0x80000000 in E. apply Z.eqb_eq. rewrite E.
  apply negb_true_iff. rewrite Z.testbit_false by lia. change (2 ^ 31) with 0x80000000.
  now rewrite Z.div_small by lia.
Qed.

Section derivation.
Context {point sig rsig : Type} `{Secp256k1Laws point sig rsig}.

Lemma tweak_add_valid k t : secp256k1_ec_seckey_verify (fst (secp256k1_ec_privkey_tweak_add k t)) = true ->
  snd (secp256k1_ec_privkey_tweak_add k t) = true.
Proof.
  unfold secp256k1_ec_privkey_tweak_add. destruct (scalar_set_b32 t) as [a o].
  destruct (negb o && _); [done|]. vm_compute. done.
Qed.

Lemma public_key_point k p : ec_pubkey_create (UInt256Set k) = Some p -> forall c,
  public_key c k = ec_pubkey_serialize c p.
Proof. intros Hp c. unfold public_key. now rewrite Hp. Qed.

Lemma mod_add_point k t p : ec_pubkey_create (UInt256Set k) = Some p ->
  secp256k1_ec_seckey_verify (UInt256Set (fst (BRSecp256k1ModAdd k t))) = true ->
  fst (BRSecp256k1PointAdd (public_key true k) t) = public_key true (fst (BRSecp256k1ModAdd k t)).
Proof.
  intros Hp. unfold BRSecp256k1ModAdd, BRSecp256k1PointAdd. rewrite (public_key_point k p Hp), (create_parse true k p Hp).
  pose proof (tweak_add_bytes (UInt256Set k) (UInt256Set t)) as Bt.
  pose proof (create_tweak_add (UInt256Set k) (UInt256Set t) p (u256_bytes k) (u256_bytes t) Hp) as Ht.
  pose proof (tweak_add_valid (UInt256Set k) (UInt256Set t)) as Hok. cbn [mbind option_bind]. rewrite Ht.
  destruct (secp256k1_ec_privkey_tweak_add (UInt256Set k) (UInt256Set t)) as [r ok]. cbn [fst snd] in *.
  rewrite (UInt256Set_Get r) by apply Bt. intros Hv. rewrite (Hok Hv). unfold public_key.
  rewrite (UInt256Set_Get r) by apply Bt. apply (create_valid r Bt) in Hv as [p' ->]. done.
Qed.

(** One non-hardened step: the child point is the point of the child secret. *)
Lemma ckd_step k c i k' c' : 0 <= i < BIP32_HARD -> _CKDpriv (k, c) i = Some (k', c') ->
  secp256k1_ec_seckey_verify (UInt256Set k') = true ->
  secp256k1_ec_seckey_verify (UInt256Set k) = true /\ _CKDpub (public_key true k, c) i = (public_key true k', c').
Proof.
  intros Hi Hc Hv. pose proof (not_hard i Hi) as Hh. unfold _CKDpriv, ckd_prefix, is_hard in Hc.
  rewrite Hh in Hc. cbn [Z.eqb negb] in Hc. unfold BRSecp256k1PointGen, point_result in Hc.
  destruct (ec_pubkey_create (UInt256Set k)) as [p|] eqn:Hp; [|done].
  split; [apply (create_valid _ (u256_bytes k)); eauto|].
  unfold _CKDpub. rewrite Hh. change (0 =? BIP32_HARD) with false. cbn iota.
  pose proof (fun t => mod_add_point k t p Hp) as Hm. rewrite (public_key_point k p Hp) in *.
  cbn [option_map] in Hc. revert Hc. generalize (hmac512 (UInt256Set c) (ec_pubkey_serialize true p ++ UInt32SetBE i)).
  intros I Hc. assert (E : (fst (BRSecp256k1ModAdd k (left256 I)), right256 I) = (k', c')) by congruence.
  apply pair_eq in E as [<- <-]. now rewrite Hm.
Qed.

Lemma ckd_parent k c i k' c' : 0 <= i < BIP32_HARD -> _CKDpriv (k, c) i = Some (k', c') ->
  secp256k1_ec_seckey_verify (UInt256Set k) = true.
Proof.
  intros Hi Hc. pose proof (not_hard i Hi) as Hh. unfold _CKDpriv, ckd_prefix, is_hard in Hc.
  rewrite Hh in Hc. cbn [Z.eqb negb] in Hc. unfold BRSecp256k1PointGen, point_result in Hc.
  destruct (ec_pubkey_create (UInt256Set k)) as [p|] eqn:Hp; [|done].
  apply (create_valid _ (u256_bytes k)). eauto.
Qed.

Lemma public_key_length k : secp256k1_ec_seckey_verify (UInt256Set k) = true -> length (public_key true k) = 33%nat.
Proof. intros Hv. destruct (valid_point k Hv) as [p Hp]. rewrite (public_key_point k p Hp). apply serialize_length. Qed.

Lemma master_point_spec k : secp256k1_ec_seckey_verify (UInt256Set k) = true ->
  master_point (fst (BRKeySetSecret k true)) = Some (public_key true k).
Proof.
  intros Hv. destruct (valid_point k Hv) as [p Hp]. unfold master_point, BRKeyPubKey, BRKeySetSecret, BRKeyClean.
  cbn [fst pubKey]. rewrite (key_point_fresh k true p Hp), (public_key_point k p Hp). cbn [pubKey].
  rewrite Nat2Z.id, take_app_length. pose proof (serialize_length true p) as L. cbn in L. unfold write_result.
  rewrite L. change (Z.of_nat 33 <=? 33) with true. cbn iota. unfold mem_write. rewrite length_replicate, L.
  change ((0 <=? 0) && (0 + Z.of_nat 33 <=? Z.of_nat 33)) with true. cbn iota.
  change (drop _ (replicate 33 0)) with (@nil Z). rewrite app_nil_r. done.
Qed.

(** The node m/0H/chain, its parent m/0H and its child. *)
Lemma priv_key_path seed chain index key : BRBIP32PrivKey seed chain index = Some key ->
  exists k1 c1 k2 c2 c3, _CKDpriv (master_node seed) (Z.lor 0 BIP32_HARD) = Some (k1, c1) /\
    _CKDpriv (k1, c1) chain = Some (k2, c2) /\ _CKDpriv (k2, c2) index = Some (secret key, c3) /\
    key = fst (BRKeySetSecret (secret key) true).
Proof.
  unfold BRBIP32PrivKey, BRBIP32PrivKeyPath, BRBIP32vPrivKeyPath.
  change ((3 <? 0) || _) with false. cbn iota. change (take (Z.to_nat 3) ?l) with l. cbn [for_each].
  destruct (_CKDpriv (master_node seed) _) as [[k1 c1]|] eqn:E1; [|done]. cbn [mbind option_bind].
  destruct (_CKDpriv (k1, c1) chain) as [[k2 c2]|] eqn:E2; [|done]. cbn [mbind option_bind].
  destruct (_CKDpriv (k2, c2) index) as [[k3 c3]|] eqn:E3; [|done]. cbn [mbind option_bind].
  intros [= <-]. exists k1, c1, k2, c2, c3. auto.
Qed.

(** The address of a key depends only on its compressed public key. *)
Lemma hash160_fresh k : secp256k1_ec_seckey_verify (UInt256Set k) = true -> exists key',
  BRKeyHash160 (fst (BRKeySetSecret k true)) = Some (key', BRHash160 (public_key true k)).
Proof.
  intros Hv. destruct (valid_point k Hv) as [p Hp]. unfold BRKeyHash160, BRKeySetSecret, BRKeyClean.
  cbn [fst pubKey]. destruct (BRKeyPubKey_fresh k true p Hp) as (key' & -> & Ek). cbn [mbind option_bind snd].
  rewrite Nat2Z.id, Ek, (create_parse true k p Hp), bool_decide_eq_true_2 by eauto.
  rewrite (public_key_point k p Hp), serialize_length. exists key'. done.
Qed.

Lemma hash160_public k : secp256k1_ec_seckey_verify (UInt256Set k) = true -> exists key',
  BRKeyHash160 (fst (BRKeySetPubKey (public_key true k))) = Some (key', BRHash160 (public_key true k)).
Proof.
  intros Hv. destruct (valid_point k Hv) as [p Hp]. rewrite (public_key_point k p Hp).
  pose proof (serialize_length true p) as L. cbn in L.
  unfold BRKeyHash160, BRKeyPubKey, BRKeySetPubKey, key_point, BRKeyClean. cbn [fst compressed pubKey].
  rewrite L. change (Z.of_nat 33 <=? 33) with true. cbn iota.
  rewrite take_app_length' by done. rewrite bool_decide_eq_false_2; cycle 1.
  { intros E. destruct (serialize_not_zeros true p 33) as [Hn|]; [|done]. apply Hn. rewrite <- E at 1.
    rewrite take_ge; [done|]. rewrite E. done. }
  cbn [pubKey snd]. rewrite Nat2Z.id, take_app_length' by done. cbn [write_result mbind option_bind snd pubKey].
  rewrite L. change (u64 (Z.of_nat 33)) with 33. change (Z.to_nat 33) with 33%nat.
  rewrite take_app_length', (create_parse true k p Hp), bool_decide_eq_true_2 by eauto. eauto.
Qed.

Lemma address_of_hash key1 key2 key1' key2' h addr n : BRKeyHash160 key1 = Some (key1', h) ->
  BRKeyHash160 key2 = Some (key2', h) ->
  option_map snd (BRKeyAddress key1 addr n) = option_map snd (BRKeyAddress key2 addr n).
Proof.
  intros E1 E2. unfold BRKeyAddress. rewrite E1, E2. cbn [mbind option_bind].
  destruct (bool_decide _); [done|]. now destruct (BRBase58CheckEncode _ _ _).
Qed.

Lemma master_pubkey_spec seed k0 c0 k1 c1 : master_node seed = (k0, c0) ->
  _CKDpriv (k0, c0) (Z.lor 0 BIP32_HARD) = Some (k1, c1) ->
  secp256k1_ec_seckey_verify (UInt256Set k0) = true -> secp256k1_ec_seckey_verify (UInt256Set k1) = true ->
  exists fp, BRBIP32MasterPubKey seed = Some (mkMaster fp c1 (public_key true k1)).
Proof.
  intros E0 E1 H0' H1. unfold BRBIP32MasterPubKey. rewrite E0. destruct (hash160_fresh k0 H0') as [key' ->].
  rewrite bind_Some_l, E1, bind_Some_l. cbn [fst snd]. rewrite (master_point_spec k1 H1), bind_Some_l. eauto.
Qed.

Lemma priv_key_nodes seed chain index k1 c1 k2 c2 k3 c3 :
  _CKDpriv (master_node seed) (Z.lor 0 BIP32_HARD) = Some (k1, c1) -> _CKDpriv (k1, c1) chain = Some (k2, c2) ->
  _CKDpriv (k2, c2) index = Some (k3, c3) ->
  BRBIP32PrivKey seed chain index = Some (fst (BRKeySetSecret k3 true)).
Proof.
  intros E1 E2 E3. unfold BRBIP32PrivKey, BRBIP32PrivKeyPath, BRBIP32vPrivKeyPath.
  change ((3 <? 0) || _) with false. cbn iota. change (take (Z.to_nat 3) ?l) with l. cbn [for_each].
  rewrite E1, bind_Some_l, E2, bind_Some_l, E3, bind_Some_l. reflexivity.
Qed.

Lemma BRBIP32PubKey_step mpk chain index : mpk <> BR_MASTER_PUBKEY_NONE ->
  length (fst (_CKDpub (_CKDpub (masterPoint mpk, chainCode mpk) chain) index)) = 33%nat ->
  BRBIP32PubKey mpk chain index (Some (replicate 33 0)) 33 =
    Some (Some (fst (_CKDpub (_CKDpub (masterPoint mpk, chainCode mpk) chain) index)), 33).
Proof.
  intros Hn. unfold BRBIP32PubKey. destruct (decide _) as [E|_]; [done|].
  generalize (_CKDpub (_CKDpub (masterPoint mpk, chainCode mpk) chain) index). intros [K c] L. cbn [fst] in *.
  change (33 <=? 33) with true. cbn iota. unfold mem_write. rewrite length_replicate, L.
  change ((0 <=? 0) && (0 + Z.of_nat 33 <=? Z.of_nat 33)) with true. cbn iota.
  change (drop _ (replicate 33 0)) with (@nil Z). rewrite app_nil_r. done.
Qed.

Lemma chain_address_key mpk chain index K n key addr :
  BRBIP32PubKey mpk chain index (Some (replicate 33 0)) 33 = Some (Some K, n) ->
  option_map snd (BRKeyAddress (fst (BRKeySetPubKey K)) (Some (replicate 36 0)) 36) =
    option_map snd (BRKeyAddress key (Some (replicate 36 0)) 36) ->
  chain_key_address mpk chain index = Some (Some addr) -> key_address key = addr.
Proof.
  intros E EA. unfold chain_key_address. rewrite E, bind_Some_l. cbn [fst default]. change (id K) with K.
  unfold key_address, BRKey_ops. destruct (BRKeySetPubKey K) as [kp ok]. cbn [fst] in *.
  destruct ok; [|done]. cbn [negb].
  destruct (BRKeyAddress kp (Some (replicate 36 0)) 36) as [[kp' [pp i]]|]; [|done].
  destruct (BRKeyAddress key (Some (replicate 36 0)) 36) as [[kk [pk n']]|]; [|done].
  rewrite bind_Some_l. cbn [option_map snd] in *. injection EA as <- <-.
  destruct (i =? 0); [done|]. cbn [orb]. destruct pp as [m|]; cbn [default]; [|done].
  case_bool_decide; [done|]. now intros [= <-].
Qed.

(** The public key of a chain and index, and the address of it. *)
Definition derived_key (mpk : BRMasterPubKey) (chain index : Z) : list Z :=
  fst (_CKDpub (_CKDpub (masterPoint mpk, chainCode mpk) chain) index).

(** A serialized compressed point. *)
Definition compressed_point (K : list Z) : Prop := length K = 33%nat /\ wd K 0 <> 0.

Lemma derived_point K c i : compressed_point K -> compressed_point (fst (_CKDpub (K, c) i)).
Proof.
  intros HK. unfold _CKDpub. destruct (_ =? _); [exact HK|]. cbn [fst]. unfold BRSecp256k1PointAdd, point_result.
  destruct (_ ≫= _) as [p|]; [|exact HK]. split; [apply (serialize_length true)|apply serialize_tag].
Qed.

Lemma point_address K : compressed_point K ->
  option_map snd (BRKeyAddress (fst (BRKeySetPubKey K)) (Some (replicate 36 0)) 36) =
    Some (if bool_decide (is_Some (ec_pubkey_parse K)) && negb (bool_decide (BRHash160 K = UINT160_ZERO))
          then default (None, 0) (BRBase58CheckEncode (Some (replicate 36 0)) 36 (BITCOIN_PUBKEY_ADDRESS :: BRHash160 K))
          else (Some (replicate 36 0), 0)).
Proof.
  intros [L T]. assert (E : key_point (fst (BRKeySetPubKey K)) = (fst (BRKeySetPubKey K), 33)).
  { unfold key_point, BRKeySetPubKey. cbn [fst compressed pubKey]. rewrite L. change (Z.of_nat 33 <=? 33) with true. cbn iota.
    rewrite take_app_length' by done. rewrite bool_decide_eq_false_2; [done|]. intros E. apply T. now rewrite E. }
  unfold BRKeyAddress, BRKeyHash160, BRKeyPubKey. rewrite E. cbn [write_result]. rewrite !bind_Some_l. cbn [snd].
  change (Z.to_nat 33) with 33%nat. change (pubKey (fst (BRKeySetPubKey K))) with (K ++ drop (length K) (pubKey BRKeyClean)).
  rewrite take_app_length' by done. rewrite L. change (u64 (Z.of_nat 33)) with 33. change (Z.to_nat 33) with 33%nat.
  rewrite take_app_length' by done. change (0 <? 33) with true. cbn [andb].
  destruct (bool_decide (is_Some (ec_pubkey_parse K))); cbn [andb]; [|reflexivity].
  destruct (bool_decide (BRHash160 K = UINT160_ZERO)); cbn [negb]; [reflexivity|].
  destruct (written_address (BRHash160 K) (replicate 36 0)) as (m' & W & _); [split; [apply (hash_bytes (hash := BRHash160))|apply (hash_length (hash := BRHash160))]|rewrite length_replicate; lia|].
  change ([BITCOIN_PUBKEY_ADDRESS] ++ BRHash160 K) with (BITCOIN_PUBKEY_ADDRESS :: BRHash160 K). rewrite W. reflexivity.
Qed.

(** The address of every index: the derivation is defined, and fails only for a point or hash that is not one. *)
Lemma chain_key_address_spec mpk chain index : mpk <> BR_MASTER_PUBKEY_NONE -> compressed_point (masterPoint mpk) ->
  let K := derived_key mpk chain index in
  chain_key_address mpk chain index =
    Some (if bool_decide (is_Some (ec_pubkey_parse K)) && negb (bool_decide (BRHash160 K = UINT160_ZERO))
          then Some (address_string BITCOIN_PUBKEY_ADDRESS (BRHash160 K)) else None).
Proof.
  intros Hn Hp K. assert (HK : compressed_point K).
  { unfold K, derived_key. destruct (_CKDpub _ chain) as [K1 c1] eqn:E1. apply derived_point.
    replace K1 with (fst (_CKDpub (masterPoint mpk, chainCode mpk) chain)) by now rewrite E1. now apply derived_point. }
  unfold chain_key_address. rewrite BRBIP32PubKey_step by (done || apply HK). fold (derived_key mpk chain index). fold K. rewrite bind_Some_l. cbn [fst default id].
  pose proof (point_address K HK) as EA. destruct (BRKeySetPubKey K) as [key ok] eqn:Ek. cbn [fst] in EA.
  assert (Eok : ok = bool_decide (is_Some (ec_pubkey_parse K))) by now injection Ek as _ <-. rewrite Eok in *.
  destruct (bool_decide (is_Some (ec_pubkey_parse K))); cbn [negb andb] in *; [|done].
  destruct (BRKeyAddress key _ 36) as [[key' r]|]; [|discriminate]. apply (inj Some) in EA. cbn [snd] in EA. rewrite bind_Some_l. cbn [snd].
  destruct (bool_decide (BRHash160 K = UINT160_ZERO)); cbn [negb] in *; [now rewrite EA|].
  destruct (written_address (BRHash160 K) (replicate 36 0)) as (m' & W & Hc & Hz); [split; [apply (hash_bytes (hash := BRHash160))|apply (hash_length (hash := BRHash160))]|rewrite length_replicate; lia|].
  rewrite W in EA. rewrite EA. cbn [default id]. rewrite Hc. rewrite (proj2 (Z.eqb_neq _ 0)) by lia. cbn [orb].
  rewrite bool_decide_eq_false_2; [done|]. intros En. destruct m' as [|x m']; [done|]. apply Hz. cbn [c_str] in Hc. destruct (Z.eqb_spec x 0) as [->|]; [done|].
  rewrite <- Hc in En. discriminate.
Qed.
End derivation.

(** C28. The wallet can spend what it receives: for every non-hardened chain and index, the public key
    derived from the master public key of a seed is the public key of the private key derived from
    the seed itself, the address the wallet computes for it is the address of that private key, and
    [BRBIP32PrivKeyList] yields the same private key. *)
Theorem public_derivation {point sig rsig} `{Secp256k1Laws point sig rsig} seed chain index mpk key :
  0 <= chain < BIP32_HARD -> 0 <= index < BIP32_HARD ->
  BRBIP32MasterPubKey seed = Some mpk -> BRBIP32PrivKey seed chain index = Some key ->
  secp256k1_ec_seckey_verify (UInt256Set (secret key)) = true ->
  BRBIP32PubKey mpk chain index (Some (replicate 33 0)) 33 = Some (Some (public_key true (secret key)), 33) /\
  BRBIP32PrivKeyList seed chain [index] = Some [key] /\
  (forall addr, chain_key_address mpk chain index = Some (Some addr) -> key_address key = addr).
Proof.
  intros Hc Hi Hm Hk Hv. destruct (priv_key_path seed chain index key Hk) as (k1 & c1 & k2 & c2 & c3 & E1 & E2 & E3 & Ek).
  destruct (ckd_step k2 c2 index _ c3 Hi E3 Hv) as [Hv2 S3].
  destruct (ckd_step k1 c1 chain k2 c2 Hc E2 Hv2) as [Hv1 S2].
  assert (Hmpk : masterPoint mpk = public_key true k1 /\ chainCode mpk = c1).
  { unfold BRBIP32MasterPubKey in Hm. rewrite (surjective_pairing (master_node seed)) in Hm, E1.
    apply bind_Some in Hm as (h & _ & Hm). apply bind_Some in Hm as (kc & E & Hm).
    apply bind_Some in Hm as (K & EK & Hm). assert (kc = (k1, c1)) as -> by congruence.
    cbn [fst snd] in EK, Hm. rewrite (master_point_spec k1 Hv1) in EK.
    apply (inj Some) in EK as <-. apply (inj Some) in Hm as <-. split; reflexivity. }
  destruct Hmpk as [EP EC].
  assert (Hpub : BRBIP32PubKey mpk chain index (Some (replicate 33 0)) 33 = Some (Some (public_key true (secret key)), 33)).
  { rewrite BRBIP32PubKey_step; rewrite ?EP, ?EC, ?S2, ?S3; [done| |now apply public_key_length].
    intros E. assert (Z0 : public_key true k1 = replicate 33 0) by now rewrite <- EP, E.
    destruct (valid_point k1 Hv1) as [p Hp]. rewrite (public_key_point k1 p Hp) in Z0.
    destruct (serialize_not_zeros true p 33) as [Hn|]; [|done]. apply Hn. now rewrite Z0. }
  split; [exact Hpub|]. split.
  - unfold BRBIP32PrivKeyList. rewrite bool_decide_eq_false_2 by done. rewrite E1. cbn [mbind option_bind].
    rewrite E2. cbn [mbind option_bind priv_keys]. rewrite E3. cbn [mbind option_bind fst]. now rewrite <- Ek.
  - intros addr.
    destruct (hash160_fresh (secret key) Hv) as [key1 H1]. rewrite <- Ek in H1.
    destruct (hash160_public (secret key) Hv) as [key2 H2].
    pose proof (address_of_hash _ _ _ _ _ (Some (replicate 36 0)) 36 H1 H2) as EA.
    exact (chain_address_key mpk chain index _ _ key addr Hpub (eq_sym EA)).
Qed.

Definition ex_seed : list Z := [1; 2; 3; 4].

(** The nodes m, m/0H, m/0H/0 and the secret of m/0H/0/7 of this seed. *)
Definition ex_node0 : Z * Z := (31427705355046530406545868794193299706931669741279384995045931667169875157702,
  75712812814793574135974686065905003842855093728988134910600016179451700277294).
Definition ex_node1 : Z * Z := (58740810768918246318110748324419087471590624446984482892612451606115564222375,
  16121336161652269388128232070675350184448682219822081843574965451510893696811).
Definition ex_node2 : Z * Z := (110832143632771416964372487995543278996548557427840252835262054487055739883500,
  51883712600300577160616324447224441344702014431903424323846704232462078384884).
Definition ex_node3 : Z * Z := (70263389391402591881685032095049705700320392775547830698270036511617667495403,
  59112246484759766625713214451889707036443107782437128966059376040319981435825).

Lemma public_derivation_witness : exists mpk,
  BRBIP32MasterPubKey ex_seed = Some mpk /\
  BRBIP32PrivKey ex_seed 0 7 = Some (fst (BRKeySetSecret (fst ex_node3) true)) /\
  BRBIP32PubKey mpk 0 7 (Some (replicate 33 0)) 33 = Some (Some (public_key true (fst ex_node3)), 33).
Proof.
  assert (H0 : 0 <= 0 < BIP32_HARD) by (split; reflexivity || discriminate).
  assert (H7 : 0 <= 7 < BIP32_HARD) by (split; reflexivity || discriminate).
  assert (E0 : master_node ex_seed = ex_node0) by (vm_compute; reflexivity).
  assert (E1 : _CKDpriv ex_node0 (Z.lor 0 BIP32_HARD) = Some ex_node1) by (vm_compute; reflexivity).
  assert (E2 : _CKDpriv ex_node1 0 = Some ex_node2) by (vm_compute; reflexivity).
  assert (E3 : _CKDpriv ex_node2 7 = Some ex_node3) by (vm_compute; reflexivity).
  assert (V0 : secp256k1_ec_seckey_verify (UInt256Set (fst ex_node0)) = true) by (vm_compute; reflexivity).
  assert (V1 : secp256k1_ec_seckey_verify (UInt256Set (fst ex_node1)) = true) by (vm_compute; reflexivity).
  assert (V3 : secp256k1_ec_seckey_verify (UInt256Set (fst ex_node3)) = true) by (vm_compute; reflexivity).
  destruct (master_pubkey_spec ex_seed _ _ _ _ E0 E1 V0 V1) as [fp Hm]. rewrite <- E0 in E1.
  pose proof (priv_key_nodes ex_seed 0 7 _ _ _ _ _ _ E1 E2 E3) as Hk.
  eexists. split; [exact Hm|]. split; [exact Hk|].
  exact (proj1 (public_derivation ex_seed 0 7 _ _ H0 H7 Hm Hk V3)).
Defined.
