(* ===== verification/Bip38.v ===== *)
(** * Bip38: passphrase protected private keys (BRBIP38Key.c)

    AES-256 on one block, with the key schedule expanded and contracted in place next to the rounds, and
    the encryption and decryption of keys built on it.  The strings and the passphrase are lists of
    characters without the terminator; a [UInt256] that is handled as memory is its 32 bytes.  The four
    functions for intermediate codes are unimplemented in the source.  The theorems: the block cipher is
    inverted by its decryption for every key, and decrypting an encrypted private key with its passphrase
    gives the key back. *)
From stdpp Require Import base numbers list.
From Stdlib Require Import ZArith Lia Btauto.
From S2P Require Import Prelude CMem Int Crypto Scrypt Base58 Address Transaction Key.
Local Open Scope Z_scope.

(** ** AES-256 *)

Definition sbox : list Z :=
  [0x63; 0x7c; 0x77; 0x7b; 0xf2; 0x6b; 0x6f; 0xc5; 0x30; 0x01; 0x67; 0x2b; 0xfe; 0xd7; 0xab; 0x76;
   0xca; 0x82; 0xc9; 0x7d; 0xfa; 0x59; 0x47; 0xf0; 0xad; 0xd4; 0xa2; 0xaf; 0x9c; 0xa4; 0x72; 0xc0;
   0xb7; 0xfd; 0x93; 0x26; 0x36; 0x3f; 0xf7; 0xcc; 0x34; 0xa5; 0xe5; 0xf1; 0x71; 0xd8; 0x31; 0x15;
   0x04; 0xc7; 0x23; 0xc3; 0x18; 0x96; 0x05; 0x9a; 0x07; 0x12; 0x80; 0xe2; 0xeb; 0x27; 0xb2; 0x75;
   0x09; 0x83; 0x2c; 0x1a; 0x1b; 0x6e; 0x5a; 0xa0; 0x52; 0x3b; 0xd6; 0xb3; 0x29; 0xe3; 0x2f; 0x84;
   0x53; 0xd1; 0x00; 0xed; 0x20; 0xfc; 0xb1; 0x5b; 0x6a; 0xcb; 0xbe; 0x39; 0x4a; 0x4c; 0x58; 0xcf;
   0xd0; 0xef; 0xaa; 0xfb; 0x43; 0x4d; 0x33; 0x85; 0x45; 0xf9; 0x02; 0x7f; 0x50; 0x3c; 0x9f; 0xa8;
   0x51; 0xa3; 0x40; 0x8f; 0x92; 0x9d; 0x38; 0xf5; 0xbc; 0xb6; 0xda; 0x21; 0x10; 0xff; 0xf3; 0xd2;
   0xcd; 0x0c; 0x13; 0xec; 0x5f; 0x97; 0x44; 0x17; 0xc4; 0xa7; 0x7e; 0x3d; 0x64; 0x5d; 0x19; 0x73;
   0x60; 0x81; 0x4f; 0xdc; 0x22; 0x2a; 0x90; 0x88; 0x46; 0xee; 0xb8; 0x14; 0xde; 0x5e; 0x0b; 0xdb;
   0xe0; 0x32; 0x3a; 0x0a; 0x49; 0x06; 0x24; 0x5c; 0xc2; 0xd3; 0xac; 0x62; 0x91; 0x95; 0xe4; 0x79;
   0xe7; 0xc8; 0x37; 0x6d; 0x8d; 0xd5; 0x4e; 0xa9; 0x6c; 0x56; 0xf4; 0xea; 0x65; 0x7a; 0xae; 0x08;
   0xba; 0x78; 0x25; 0x2e; 0x1c; 0xa6; 0xb4; 0xc6; 0xe8; 0xdd; 0x74; 0x1f; 0x4b; 0xbd; 0x8b; 0x8a;
   0x70; 0x3e; 0xb5; 0x66; 0x48; 0x03; 0xf6; 0x0e; 0x61; 0x35; 0x57; 0xb9; 0x86; 0xc1; 0x1d; 0x9e;
   0xe1; 0xf8; 0x98; 0x11; 0x69; 0xd9; 0x8e; 0x94; 0x9b; 0x1e; 0x87; 0xe9; 0xce; 0x55; 0x28; 0xdf;
   0x8c; 0xa1; 0x89; 0x0d; 0xbf; 0xe6; 0x42; 0x68; 0x41; 0x99; 0x2d; 0x0f; 0xb0; 0x54; 0xbb; 0x16].

Definition sboxi : list Z :=
  [0x52; 0x09; 0x6a; 0xd5; 0x30; 0x36; 0xa5; 0x38; 0xbf; 0x40; 0xa3; 0x9e; 0x81; 0xf3; 0xd7; 0xfb;
   0x7c; 0xe3; 0x39; 0x82; 0x9b; 0x2f; 0xff; 0x87; 0x34; 0x8e; 0x43; 0x44; 0xc4; 0xde; 0xe9; 0xcb;
   0x54; 0x7b; 0x94; 0x32; 0xa6; 0xc2; 0x23; 0x3d; 0xee; 0x4c; 0x95; 0x0b; 0x42; 0xfa; 0xc3; 0x4e;
   0x08; 0x2e; 0xa1; 0x66; 0x28; 0xd9; 0x24; 0xb2; 0x76; 0x5b; 0xa2; 0x49; 0x6d; 0x8b; 0xd1; 0x25;
   0x72; 0xf8; 0xf6; 0x64; 0x86; 0x68; 0x98; 0x16; 0xd4; 0xa4; 0x5c; 0xcc; 0x5d; 0x65; 0xb6; 0x92;
   0x6c; 0x70; 0x48; 0x50; 0xfd; 0xed; 0xb9; 0xda; 0x5e; 0x15; 0x46; 0x57; 0xa7; 0x8d; 0x9d; 0x84;
   0x90; 0xd8; 0xab; 0x00; 0x8c; 0xbc; 0xd3; 0x0a; 0xf7; 0xe4; 0x58; 0x05; 0xb8; 0xb3; 0x45; 0x06;
   0xd0; 0x2c; 0x1e; 0x8f; 0xca; 0x3f; 0x0f; 0x02; 0xc1; 0xaf; 0xbd; 0x03; 0x01; 0x13; 0x8a; 0x6b;
   0x3a; 0x91; 0x11; 0x41; 0x4f; 0x67; 0xdc; 0xea; 0x97; 0xf2; 0xcf; 0xce; 0xf0; 0xb4; 0xe6; 0x73;
   0x96; 0xac; 0x74; 0x22; 0xe7; 0xad; 0x35; 0x85; 0xe2; 0xf9; 0x37; 0xe8; 0x1c; 0x75; 0xdf; 0x6e;
   0x47; 0xf1; 0x1a; 0x71; 0x1d; 0x29; 0xc5; 0x89; 0x6f; 0xb7; 0x62; 0x0e; 0xaa; 0x18; 0xbe; 0x1b;
   0xfc; 0x56; 0x3e; 0x4b; 0xc6; 0xd2; 0x79; 0x20; 0x9a; 0xdb; 0xc0; 0xfe; 0x78; 0xcd; 0x5a; 0xf4;
   0x1f; 0xdd; 0xa8; 0x33; 0x88; 0x07; 0xc7; 0x31; 0xb1; 0x12; 0x10; 0x59; 0x27; 0x80; 0xec; 0x5f;
   0x60; 0x51; 0x7f; 0xa9; 0x19; 0xb5; 0x4a; 0x0d; 0x2d; 0xe5; 0x7a; 0x9f; 0x93; 0xc9; 0x9c; 0xef;
   0xa0; 0xe0; 0x3b; 0x4d; 0xae; 0x2a; 0xf5; 0xb0; 0xc8; 0xeb; 0xbb; 0x3c; 0x83; 0x53; 0x99; 0x61;
   0x17; 0x2b; 0x04; 0x7e; 0xba; 0x77; 0xd6; 0x26; 0xe1; 0x69; 0x14; 0x63; 0x55; 0x21; 0x0c; 0x7d].

(** The macro works on [int]; its results are truncated when they are stored. *)
Definition xt (x : Z) : Z := Z.lxor (Z.shiftl x 1) (Z.land (Z.shiftr x 7) 1 * 0x1b).

(** [x[i] ^= v] on [uint8_t] *)
Definition xor_at (x : list Z) (i v : Z) : list Z := upd x i (u8 (Z.lxor (wd x i) v)).

(** [_x[j] ^= _k[j+(i & 1)*4]] for the four words. *)
Definition add_key (x k : list Z) (i : Z) : list Z :=
  zip_with Z.lxor x (take 16 (drop (Z.to_nat (Z.land i 1 * 16)) k)).

Definition sub_bytes (box x : list Z) : list Z := wd box <$> x.

(** [a = x[i], x[i] = x[j], x[j] = x[k], x[k] = x[l], x[l] = a] and [a = x[i], x[i] = x[j], x[j] = a] *)
Definition rot4 (x : list Z) (i j k l : Z) : list Z :=
  let a := wd x i in
  let x := upd x i (wd x j) in let x := upd x j (wd x k) in let x := upd x k (wd x l) in upd x l a.
Definition swap2 (x : list Z) (i j : Z) : list Z := let a := wd x i in let x := upd x i (wd x j) in upd x j a.

Definition shift_rows (x : list Z) : list Z := swap2 (rot4 (swap2 (rot4 x 1 5 9 13) 10 2) 3 15 11 7) 14 6.
Definition unshift_rows (x : list Z) : list Z := swap2 (rot4 (swap2 (rot4 x 1 13 9 5) 2 10) 3 7 11 15) 6 14.

(** The column at [j]. *)
Definition mix_at (x : list Z) (j : Z) : list Z :=
  let a := wd x j in let b := wd x (j + 1) in let c := wd x (j + 2) in let d := wd x (j + 3) in
  let e := Z.lxor (Z.lxor (Z.lxor a b) c) d in
  let x := xor_at x j (Z.lxor e (xt (Z.lxor a b))) in
  let x := xor_at x (j + 1) (Z.lxor e (xt (Z.lxor b c))) in
  let x := xor_at x (j + 2) (Z.lxor e (xt (Z.lxor c d))) in
  xor_at x (j + 3) (Z.lxor e (xt (Z.lxor d a))).

Definition unmix_at (x : list Z) (j : Z) : list Z :=
  let a := wd x j in let b := wd x (j + 1) in let c := wd x (j + 2) in let d := wd x (j + 3) in
  let e := Z.lxor (Z.lxor (Z.lxor a b) c) d in
  let h := u8 (xt e) in
  let f := u8 (Z.lxor e (xt (xt (Z.lxor (Z.lxor h a) c)))) in
  let g := u8 (Z.lxor e (xt (xt (Z.lxor (Z.lxor h b) d)))) in
  let x := xor_at x j (Z.lxor f (xt (Z.lxor a b))) in
  let x := xor_at x (j + 1) (Z.lxor g (xt (Z.lxor b c))) in
  let x := xor_at x (j + 2) (Z.lxor f (xt (Z.lxor c d))) in
  xor_at x (j + 3) (Z.lxor g (xt (Z.lxor d a))).

Definition mix_columns (x : list Z) : list Z := foldl mix_at x [0; 4; 8; 12].
Definition unmix_columns (x : list Z) : list Z := foldl unmix_at x [0; 4; 8; 12].

(** [k[j] ^= k[j-4], k[j+1] ^= k[j-3], k[j+2] ^= k[j-2], k[j+3] ^= k[j-1]] *)
Definition key_word (k : list Z) (j : Z) : list Z :=
  let k := xor_at k j (wd k (j - 4)) in
  let k := xor_at k (j + 1) (wd k (j - 3)) in
  let k := xor_at k (j + 2) (wd k (j - 2)) in
  xor_at k (j + 3) (wd k (j - 1)).

(** The words 0 and 4 of the schedule. *)
Definition key_head (k : list Z) (r : Z) : list Z :=
  let k := xor_at k 0 (Z.lxor (wd sbox (wd k 29)) r) in
  let k := xor_at k 1 (wd sbox (wd k 30)) in
  let k := xor_at k 2 (wd sbox (wd k 31)) in
  xor_at k 3 (wd sbox (wd k 28)).
Definition key_middle (k : list Z) : list Z :=
  let k := xor_at k 16 (wd sbox (wd k 12)) in
  let k := xor_at k 17 (wd sbox (wd k 13)) in
  let k := xor_at k 18 (wd sbox (wd k 14)) in
  xor_at k 19 (wd sbox (wd k 15)).

(** [expand key] and [unexpand key], with the round constant [r] *)
Definition expand_key (kr : list Z * Z) : list Z * Z :=
  let k := foldl key_word (key_head (fst kr) (snd kr)) [4; 8; 12] in
  (foldl key_word (key_middle k) [20; 24; 28], u8 (xt (snd kr))).
Definition unexpand_key (kr : list Z * Z) : list Z * Z :=
  let k := foldl key_word (fst kr) [28; 24; 20] in
  let k := foldl key_word (key_middle k) [12; 8; 4] in
  let r := Z.lxor (Z.shiftr (snd kr) 1) (Z.land (snd kr) 1 * 0x8d) in
  (key_head k r, r).

(** The body of [for (i = 0; i < 14; i++)] on [_x] and [_k], [r]. *)
Definition encrypt_round (st : list Z * (list Z * Z)) (i : Z) : list Z * (list Z * Z) :=
  let '(x, kr) := st in
  let x := shift_rows (sub_bytes sbox (add_key x (fst kr) i)) in
  let x := if i <? 13 then mix_columns x else x in
  (x, if negb (i mod 2 =? 0) then expand_key kr else kr).

Definition decrypt_round (st : list Z * (list Z * Z)) (i : Z) : list Z * (list Z * Z) :=
  let '(x, kr) := st in
  let x := add_key x (fst kr) i in
  let x := if 0 <? i then unmix_columns x else x in
  let x := sub_bytes sboxi (unshift_rows x) in
  (x, if i mod 2 =? 0 then unexpand_key kr else kr).

Definition _BRAES256ECBEncrypt (key buf : list Z) : list Z :=
  let '(x, kr) := foldl encrypt_round (buf, (key, 1)) (seqZ 0 14) in add_key x (fst kr) 0.

Definition _BRAES256ECBDecrypt (key buf : list Z) : list Z :=
  let '(x, kr) := foldl decrypt_round (buf, Nat.iter 7 expand_key (key, 1)) (seqZ 0 14) in add_key x (fst kr) 0.

(** ** Encrypted keys *)

Definition BIP38_NOEC_PREFIX : Z := 0x0142.
Definition BIP38_EC_PREFIX : Z := 0x0143.
Definition BIP38_NOEC_FLAG : Z := Z.lor 0x80 0x40.
Definition BIP38_COMPRESSED_FLAG : Z := 0x20.
Definition BIP38_LOTSEQUENCE_FLAG : Z := 0x04.
Definition BIP38_INVALID_FLAG : Z := Z.lor (Z.lor (Z.lor 0x10 0x08) 0x02) 0x01.
Definition BIP38_SCRYPT_N : Z := 16384.
Definition BIP38_SCRYPT_R : Z := 8.
Definition BIP38_SCRYPT_P : Z := 8.
Definition BIP38_SCRYPT_EC_N : Z := 1024.
Definition BIP38_SCRYPT_EC_R : Z := 1.
Definition BIP38_SCRYPT_EC_P : Z := 1.

Definition has_flag (flag mask : Z) : bool := c_true (Z.land flag mask).

(** The bytes of the factor; [entropy] is what follows the pointer. *)
Definition _BRBIP38DerivePassfactor (flag : Z) (entropy passphrase : list Z) : list Z :=
  let prefactor := BRScrypt 32 passphrase (take (if has_flag flag BIP38_LOTSEQUENCE_FLAG then 4 else 8) entropy)
                     BIP38_SCRYPT_N BIP38_SCRYPT_R BIP38_SCRYPT_P in
  if has_flag flag BIP38_LOTSEQUENCE_FLAG then BRSHA256_2 (prefactor ++ take 8 entropy) else prefactor.

Definition _BRBIP38DeriveKey (passpoint addresshash entropy : list Z) : list Z :=
  BRScrypt 64 passpoint (take 4 addresshash ++ take 8 entropy) BIP38_SCRYPT_EC_N BIP38_SCRYPT_EC_R BIP38_SCRYPT_EC_P.

(** [BRBase58CheckDecode(data, sizeof(data), bip38Key)] with [uint8_t data[39]]: the array and the result. *)
Definition decode39 (s : list Z) : option (list Z * Z) :=
  r ← BRBase58CheckDecode (Some (replicate 39 0)) 39 s; Some (default [] (fst r), snd r).

Definition BRBIP38KeyIsValid (bip38Key : list Z) : option bool :=
  '(data, n) ← decode39 bip38Key;
  Some (if negb (n =? 39) then false
        else
          let prefix := UInt16GetBE data in
          let flag := wd data 2 in
          if prefix =? BIP38_NOEC_PREFIX then
            (Z.land flag BIP38_NOEC_FLAG =? BIP38_NOEC_FLAG) && (Z.land flag BIP38_LOTSEQUENCE_FLAG =? 0) &&
            (Z.land flag BIP38_INVALID_FLAG =? 0)
          else if prefix =? BIP38_EC_PREFIX then
            (Z.land flag BIP38_NOEC_FLAG =? 0) && (Z.land flag BIP38_INVALID_FLAG =? 0)
          else false).

(** The two halves of a derived key. *)
Definition derived1 (dk : list Z) : list Z := take 32 dk.
Definition derived2 (dk : list Z) : list Z := drop 32 dk.

(** The secret of a key that is not EC multiplied. *)
Definition secret_noec (data passphrase : list Z) : list Z :=
  let encrypted1 := take 16 (drop 7 data) in
  let encrypted2 := take 16 (drop 23 data) in
  let derived := BRScrypt 64 passphrase (take 4 (drop 3 data)) BIP38_SCRYPT_N BIP38_SCRYPT_R BIP38_SCRYPT_P in
  let encrypted1 := _BRAES256ECBDecrypt (derived2 derived) encrypted1 in
  let encrypted2 := _BRAES256ECBDecrypt (derived2 derived) encrypted2 in
  zip_with Z.lxor encrypted1 (take 16 (derived1 derived)) ++
  zip_with Z.lxor encrypted2 (take 16 (drop 16 (derived1 derived))).

Section bip38.
Context {point sig rsig : Type} `{Secp256k1 point sig rsig}.

(** The secret of an EC multiplied key; [None] where [passpoint] stays uninitialized. *)
Definition secret_ec (data passphrase : list Z) : option (list Z) :=
  let flag := wd data 2 in
  let addresshash := drop 3 data in
  let entropy := drop 7 data in
  let passfactor := _BRBIP38DerivePassfactor flag entropy passphrase in
  let '(passpoint, ok) := BRSecp256k1PointGen (replicate 33 0) (UInt256Get passfactor) in
  if negb ok then None
  else
    let derived := _BRBIP38DeriveKey passpoint addresshash entropy in
    let d1 := derived1 derived in
    let encrypted2 := _BRAES256ECBDecrypt (derived2 derived) (take 16 (drop 23 data)) in
    let encrypted1 := take 8 (drop 15 data) ++ zip_with Z.lxor (take 8 encrypted2) (take 8 (drop 16 d1)) in
    let seedb2 := zip_with Z.lxor (drop 8 encrypted2) (take 8 (drop 24 d1)) in
    let encrypted1 := _BRAES256ECBDecrypt (derived2 derived) encrypted1 in
    let seedb := zip_with Z.lxor encrypted1 (take 16 d1) ++ seedb2 in
    let factorb := BRSHA256_2 seedb in
    Some (UInt256Set (fst (BRSecp256k1ModMul (UInt256Get passfactor) (UInt256Get factorb)))).

(** [None]: with another prefix [secret] is not initialized. *)
Definition BRKeySetBIP38Key (key : BRKey) (bip38Key passphrase : list Z) : option (BRKey * bool) :=
  '(data, n) ← decode39 bip38Key;
  if negb (n =? 39) then Some (key, false)
  else
    let prefix := UInt16GetBE data in
    let flag := wd data 2 in
    secret ← (if prefix =? BIP38_NOEC_PREFIX then Some (secret_noec data passphrase)
              else if prefix =? BIP38_EC_PREFIX then secret_ec data passphrase else None);
    let key := fst (BRKeySetSecret (UInt256Get secret) (has_flag flag BIP38_COMPRESSED_FLAG)) in
    '(key, r) ← BRKeyAddress key (Some (replicate 36 0)) 36;
    let address := default [] (fst r) in
    let hash := BRSHA256_2 (c_str address) in
    Some (key, negb ((wd address 0 =? 0) || negb (bool_decide (take 4 hash = take 4 (drop 3 data))))).

(** [stack] is the uninitialized [address]; [None] when no address is written into it. *)
Definition BRKeyBIP38Key (stack : list Z) (key : BRKey) (bip38Key : ptr) (bip38KeyLen : Z) (passphrase : list Z) :
    option (BRKey * (ptr * Z)) :=
  match bip38Key with
  | None => Some (key, (None, 43 * 138 / 100 + 2))
  | Some _ =>
      let flag := if compressed key then Z.lor BIP38_NOEC_FLAG BIP38_COMPRESSED_FLAG else BIP38_NOEC_FLAG in
      '(key, r) ← BRKeyAddress key (Some stack) 36;
      if snd r =? 0 then None
      else
        let salt := take 4 (BRSHA256_2 (c_str (default [] (fst r)))) in
        let derived := BRScrypt 64 passphrase salt BIP38_SCRYPT_N BIP38_SCRYPT_R BIP38_SCRYPT_P in
        let secret := UInt256Set (secret key) in
        let encrypted1 := _BRAES256ECBEncrypt (derived2 derived) (zip_with Z.lxor (take 16 secret) (take 16 (derived1 derived))) in
        let encrypted2 := _BRAES256ECBEncrypt (derived2 derived) (zip_with Z.lxor (drop 16 secret) (take 16 (drop 16 (derived1 derived)))) in
        let buf := [Z.shiftr BIP38_NOEC_PREFIX 8; u8 BIP38_NOEC_PREFIX] ++ [flag] ++ salt ++ encrypted1 ++ encrypted2 in
        r ← BRBase58CheckEncode bip38Key bip38KeyLen buf;
        Some (key, r)
  end.
End bip38.

(** The example vectors of FIPS 197. *)
Example aes256_kat :
  _BRAES256ECBEncrypt (seqZ 0 32) ((fun i => 17 * i) <$> seqZ 0 16) =
    reverse (le_bytes 16 0x8ea2b7ca516745bfeafc49904b496089) /\
  _BRAES256ECBDecrypt (seqZ 0 32) (reverse (le_bytes 16 0x8ea2b7ca516745bfeafc49904b496089)) =
    ((fun i => 17 * i) <$> seqZ 0 16).
Proof. split; vm_compute; reflexivity. Qed.


(** ** The block cipher is inverted

    [X] is the multiplication by x in the field: additive, and insensitive to the untruncated bits of
    its argument. *)
Definition X (z : Z) : Z := u8 (xt z).

Lemma u8_land x : u8 x = Z.land x 0xff.
Proof. symmetry. apply land_0xff. Qed.

Lemma u8_lxor a b : u8 (Z.lxor a b) = Z.lxor (u8 a) (u8 b).
Proof. rewrite !u8_land. apply Z.bits_inj'. intros i Hi. rewrite !Z.land_spec, !Z.lxor_spec, !Z.land_spec. btauto. Qed.

Lemma xt_lxor a b : xt (Z.lxor a b) = Z.lxor (xt a) (xt b).
Proof.
  unfold xt. rewrite Z.shiftl_lxor, Z.shiftr_lxor.
  assert (E : forall z, Z.land z 1 = Z.b2z (Z.odd z)).
  { intros z. change 1 with (Z.ones 1) at 1. rewrite Z.land_ones, Zmod_odd by lia. now destruct (Z.odd z). }
  rewrite !E. rewrite <- !Z.bit0_odd, Z.lxor_spec.
  generalize (Z.testbit (Z.shiftr a 7) 0) as p, (Z.testbit (Z.shiftr b 7) 0) as q. intros p q.
  assert (L : Z.b2z (xorb p q) * 27 = Z.lxor (Z.b2z p * 27) (Z.b2z q * 27)) by now destruct p, q.
  rewrite L. generalize (Z.b2z p * 27) (Z.b2z q * 27). intros u v.
  apply Z.bits_inj'. intros i Hi. rewrite !Z.lxor_spec. btauto.
Qed.

Lemma X_lxor a b : X (Z.lxor a b) = Z.lxor (X a) (X b).
Proof. unfold X. now rewrite xt_lxor, u8_lxor. Qed.

Lemma X_u8 z : X (u8 z) = X z.
Proof.
  unfold X, xt. rewrite !u8_lxor. f_equal.
  - rewrite !Z.shiftl_mul_pow2 by lia. uint.
  - do 2 f_equal. rewrite u8_land. apply Z.bits_inj'. intros i Hi.
    rewrite !Z.land_spec, !Z.shiftr_spec, Z.land_spec by lia. destruct (Z.eq_dec i 0) as [->|N].
    + change (Z.testbit 255 (0 + 7)) with true. btauto.
    + replace (Z.testbit 1 i) with false; [btauto|]. symmetry. apply (Z.bits_above_log2 1); simpl; lia.
Qed.

Lemma u8_xt z : u8 (xt z) = X z.
Proof. reflexivity. Qed.

Lemma u8_byte z : is_byte z -> u8 z = z.
Proof. intros H. apply u8_id. exact H. Qed.

Lemma u8_is_byte z : is_byte (u8 z).
Proof. apply u8_range. Qed.

(** One column: the identity holds without the reduction polynomial. *)
Lemma column a b c d : is_byte a -> is_byte b -> is_byte c -> is_byte d ->
  let e := Z.lxor (Z.lxor (Z.lxor a b) c) d in
  let a' := u8 (Z.lxor a (Z.lxor e (xt (Z.lxor a b)))) in
  let b' := u8 (Z.lxor b (Z.lxor e (xt (Z.lxor b c)))) in
  let c' := u8 (Z.lxor c (Z.lxor e (xt (Z.lxor c d)))) in
  let d' := u8 (Z.lxor d (Z.lxor e (xt (Z.lxor d a)))) in
  let e' := Z.lxor (Z.lxor (Z.lxor a' b') c') d' in
  let h := u8 (xt e') in
  let f := u8 (Z.lxor e' (xt (xt (Z.lxor (Z.lxor h a') c')))) in
  let g := u8 (Z.lxor e' (xt (xt (Z.lxor (Z.lxor h b') d')))) in
  u8 (Z.lxor a' (Z.lxor f (xt (Z.lxor a' b')))) = a /\ u8 (Z.lxor b' (Z.lxor g (xt (Z.lxor b' c')))) = b /\
  u8 (Z.lxor c' (Z.lxor f (xt (Z.lxor c' d')))) = c /\ u8 (Z.lxor d' (Z.lxor g (xt (Z.lxor d' a')))) = d.
Proof.
  intros Ha Hb Hc Hd. cbv zeta.
  assert (XX : forall z, u8 (xt (xt z)) = X (X z)) by (intros z; symmetry; exact (X_u8 (xt z))).
  assert (UU : forall z, u8 (u8 z) = u8 z) by (intros; uint).
  assert (UX : forall z, u8 (X z) = X z) by (intros; apply UU).
  repeat rewrite ?u8_lxor, ?xt_lxor, ?XX, ?u8_xt, ?X_u8, ?X_lxor, ?UU, ?UX.
  rewrite (u8_byte a), (u8_byte b), (u8_byte c), (u8_byte d) by assumption.
  split_and!; apply Z.bits_inj'; intros i Hi; rewrite !Z.lxor_spec; btauto.
Qed.

Definition mix_col (a b c d : Z) : list Z :=
  let e := Z.lxor (Z.lxor (Z.lxor a b) c) d in
  [u8 (Z.lxor a (Z.lxor e (xt (Z.lxor a b)))); u8 (Z.lxor b (Z.lxor e (xt (Z.lxor b c))));
   u8 (Z.lxor c (Z.lxor e (xt (Z.lxor c d)))); u8 (Z.lxor d (Z.lxor e (xt (Z.lxor d a))))].

Definition unmix_col (a b c d : Z) : list Z :=
  let e := Z.lxor (Z.lxor (Z.lxor a b) c) d in
  let h := u8 (xt e) in
  let f := u8 (Z.lxor e (xt (xt (Z.lxor (Z.lxor h a) c)))) in
  let g := u8 (Z.lxor e (xt (xt (Z.lxor (Z.lxor h b) d)))) in
  [u8 (Z.lxor a (Z.lxor f (xt (Z.lxor a b)))); u8 (Z.lxor b (Z.lxor g (xt (Z.lxor b c))));
   u8 (Z.lxor c (Z.lxor f (xt (Z.lxor c d)))); u8 (Z.lxor d (Z.lxor g (xt (Z.lxor d a))))].

Lemma wd_app_at (pre l : list Z) j i : j = len pre + i -> 0 <= i -> wd (pre ++ l) j = wd l i.
Proof. intros -> Hi. unfold wd. rewrite lookup_app_r by lia. do 2 f_equal. lia. Qed.

Lemma upd_app_at (pre l : list Z) j i x : j = len pre + i -> 0 <= i -> upd (pre ++ l) j x = pre ++ upd l i x.
Proof. intros -> Hi. unfold upd. rewrite insert_app_r_alt by lia. do 2 f_equal. lia. Qed.

Lemma xor_at_app (pre l : list Z) j i x : j = len pre + i -> 0 <= i -> xor_at (pre ++ l) j x = pre ++ xor_at l i x.
Proof. intros H Hi. unfold xor_at. now rewrite (wd_app_at _ _ _ i), (upd_app_at _ _ _ i). Qed.

Lemma mix_at_app pre a b c d post j : j = len pre ->
  mix_at (pre ++ [a; b; c; d] ++ post) j = pre ++ mix_col a b c d ++ post.
Proof.
  intros Hj. unfold mix_at.
  rewrite (wd_app_at _ _ j 0), (wd_app_at _ _ (j + 1) 1), (wd_app_at _ _ (j + 2) 2), (wd_app_at _ _ (j + 3) 3) by lia.
  cbv zeta. rewrite (xor_at_app _ _ j 0), (xor_at_app _ _ (j + 1) 1), (xor_at_app _ _ (j + 2) 2), (xor_at_app _ _ (j + 3) 3) by lia.
  reflexivity.
Qed.

Lemma unmix_at_app pre a b c d post j : j = len pre ->
  unmix_at (pre ++ [a; b; c; d] ++ post) j = pre ++ unmix_col a b c d ++ post.
Proof.
  intros Hj. unfold unmix_at.
  rewrite (wd_app_at _ _ j 0), (wd_app_at _ _ (j + 1) 1), (wd_app_at _ _ (j + 2) 2), (wd_app_at _ _ (j + 3) 3) by lia.
  cbv zeta. rewrite (xor_at_app _ _ j 0), (xor_at_app _ _ (j + 1) 1), (xor_at_app _ _ (j + 2) 2), (xor_at_app _ _ (j + 3) 3) by lia.
  reflexivity.
Qed.

(** The four columns, each by itself. *)
Definition on_col (f : Z -> Z -> Z -> Z -> list Z) (l : list Z) : list Z := f (wd l 0) (wd l 1) (wd l 2) (wd l 3).

Lemma columns_fold (f_at : list Z -> Z -> list Z) f c0 c1 c2 c3 :
  (forall pre a b c d post j, j = len pre -> f_at (pre ++ [a; b; c; d] ++ post) j = pre ++ f a b c d ++ post) ->
  (forall a b c d, length (f a b c d) = 4%nat) ->
  length c0 = 4%nat -> length c1 = 4%nat -> length c2 = 4%nat -> length c3 = 4%nat ->
  foldl f_at (c0 ++ c1 ++ c2 ++ c3) [0; 4; 8; 12] = on_col f c0 ++ on_col f c1 ++ on_col f c2 ++ on_col f c3.
Proof.
  intros Hf Hl L0 L1 L2 L3.
  assert (G : forall pre l post j, length l = 4%nat -> j = len pre -> f_at (pre ++ l ++ post) j = pre ++ on_col f l ++ post).
  { intros pre l post j L Hj. do 4 (destruct l as [|? l]; [discriminate|]). destruct l; [|discriminate]. now apply Hf. }
  cbn [foldl]. pose proof (G [] c0 (c1 ++ c2 ++ c3) 0 L0 eq_refl) as G0. cbn [app] in G0. rewrite G0.
  rewrite (G (on_col f c0) c1) by (unfold on_col; rewrite ?Hl; done).
  rewrite (app_assoc (on_col f c0)), (G _ c2) by (unfold on_col; rewrite ?length_app, ?Hl; done).
  rewrite (app_assoc _ (on_col f c2)), <- (app_nil_r c3), (G _ c3) by (unfold on_col; rewrite ?length_app, ?Hl; done).
  now rewrite !app_nil_r, <- !app_assoc.
Qed.

Lemma on_col_inv l : bytes_ok l -> length l = 4%nat -> on_col unmix_col (on_col mix_col l) = l.
Proof.
  intros Hb Hl. do 4 (destruct l as [|? l]; [discriminate|]). destruct l; [|discriminate].
  rewrite !Forall_cons in Hb. destruct Hb as (Ha & Hb & Hc & Hd & _).
  destruct (column _ _ _ _ Ha Hb Hc Hd) as (E0 & E1 & E2 & E3). cbv zeta in *.
  change (on_col mix_col [z; z0; z1; z2]) with (mix_col z z0 z1 z2). unfold mix_col. cbv zeta.
  match goal with |- on_col unmix_col [?a; ?b; ?c; ?d] = _ => change (on_col unmix_col [a; b; c; d]) with (unmix_col a b c d) end.
  unfold unmix_col. cbv zeta. now rewrite E0, E1, E2, E3.
Qed.

(** Blocks of 16 bytes. *)
Notation block16 l := (bytes_ok l /\ length l = 16%nat).

Lemma unmix_mix x : block16 x -> unmix_columns (mix_columns x) = x.
Proof.
  intros [Hb Hl]. unfold unmix_columns, mix_columns.
  rewrite <- (take_drop 4 x), <- (take_drop 4 (drop 4 x)), <- (take_drop 4 (drop 4 (drop 4 x))).
  set (c0 := take 4 x). set (c1 := take 4 _). set (c2 := take 4 _). set (c3 := drop 4 _).
  assert (L : length c0 = 4%nat /\ length c1 = 4%nat /\ length c2 = 4%nat /\ length c3 = 4%nat).
  { subst c0 c1 c2 c3. rewrite !length_take, !length_drop, Hl. auto. }
  assert (B : bytes_ok c0 /\ bytes_ok c1 /\ bytes_ok c2 /\ bytes_ok c3).
  { subst c0 c1 c2 c3. split_and!; repeat (first [apply Forall_take | apply Forall_drop]); done. }
  clearbody c0 c1 c2 c3. destruct L as (L0 & L1 & L2 & L3), B as (B0 & B1 & B2 & B3).
  rewrite (columns_fold mix_at mix_col) by (try apply mix_at_app; done).
  rewrite (columns_fold unmix_at unmix_col) by (try apply unmix_at_app; done). now rewrite !on_col_inv.
Qed.

Lemma mix_columns_ok x : block16 x -> block16 (mix_columns x).
Proof.
  intros [Hb Hl]. unfold mix_columns.
  rewrite <- (take_drop 4 x), <- (take_drop 4 (drop 4 x)), <- (take_drop 4 (drop 4 (drop 4 x))).
  rewrite (columns_fold mix_at mix_col);
    [|apply mix_at_app|reflexivity|rewrite ?length_take, ?length_drop, Hl; reflexivity..].
  split; [|reflexivity]. unfold on_col, mix_col. cbv zeta. rewrite !Forall_app, !Forall_cons.
  split_and!; try apply u8_is_byte; apply Forall_nil_2.
Qed.

(** *** Rows and boxes *)

Lemma unshift_shift x : length x = 16%nat -> unshift_rows (shift_rows x) = x.
Proof. intros Hl. do 16 (destruct x as [|? x]; [discriminate|]). destruct x; [reflexivity|discriminate]. Qed.

Lemma shift_rows_ok x : block16 x -> block16 (shift_rows x).
Proof.
  intros [Hb Hl]. do 16 (destruct x as [|? x]; [discriminate|]). destruct x; [|discriminate].
  rewrite !Forall_cons in Hb. destruct_and! Hb.
  split; [|reflexivity]. match goal with |- Forall _ ?l => let l' := eval vm_compute in l in change l with l' end.
  rewrite !Forall_cons. split_and!; try assumption.
Qed.

(** The two tables, entry by entry. *)
Lemma boxes_inverse : forallb (fun i => (wd sboxi (wd sbox i) =? i) && (0 <=? wd sbox i) && (wd sbox i <? 256)) (seqZ 0 256) = true.
Proof. vm_compute. reflexivity. Qed.

Lemma sbox_inv z : is_byte z -> wd sboxi (wd sbox z) = z /\ is_byte (wd sbox z).
Proof.
  intros Hz. pose proof boxes_inverse as B. rewrite forallb_forall in B. specialize (B z).
  rewrite !andb_true_iff, Z.eqb_eq, Z.leb_le, Z.ltb_lt in B. unfold is_byte in *.
  destruct B as [[B1 B2] B3]; [|lia]. apply list_elem_of_In, elem_of_seqZ. lia.
Qed.

Lemma unsub_sub x : bytes_ok x -> sub_bytes sboxi (sub_bytes sbox x) = x.
Proof.
  intros Hx. unfold sub_bytes. rewrite <- list_fmap_compose. rewrite <- (list_fmap_id x) at 2.
  apply list_fmap_ext. intros i z Hz. unfold compose. apply sbox_inv. exact (proj1 (Forall_lookup _ _) Hx i z Hz).
Qed.

Lemma sub_bytes_ok x : block16 x -> block16 (sub_bytes sbox x).
Proof.
  intros [Hb Hl]. unfold sub_bytes. split; [|now rewrite length_fmap].
  apply Forall_fmap. eapply Forall_impl; [exact Hb|]. intros z Hz. now apply sbox_inv.
Qed.

(** *** The key schedule

    Every step of the schedule xors values at places that are not among those it reads, so it undoes
    itself. *)
Definition xors (k : list Z) (l : list (Z * Z)) : list Z := foldl (fun k iv => xor_at k (fst iv) (snd iv)) k l.

Lemma length_xor_at k i v : length (xor_at k i v) = length k.
Proof. apply length_insert. Qed.

Lemma xor_at_bytes k i v : bytes_ok k -> bytes_ok (xor_at k i v).
Proof. intros. apply Forall_insert; [done|apply u8_is_byte]. Qed.

Lemma length_xors l k : length (xors k l) = length k.
Proof. revert k; induction l as [|[i v] l IH]; intros k; [done|]. cbn. now rewrite IH, length_xor_at. Qed.

Lemma xors_bytes l k : bytes_ok k -> bytes_ok (xors k l).
Proof. revert k; induction l as [|[i v] l IH]; intros k Hk; [done|]. apply IH. now apply xor_at_bytes. Qed.

Lemma wd_xor_at_ne k i j v : 0 <= i -> 0 <= j -> i <> j -> wd (xor_at k i v) j = wd k j.
Proof. intros. unfold wd, xor_at, upd. rewrite list_lookup_insert_ne by lia. reflexivity. Qed.

Lemma xor_at_comm k i j v w : 0 <= i -> 0 <= j -> i <> j -> xor_at (xor_at k i v) j w = xor_at (xor_at k j w) i v.
Proof.
  intros. unfold xor_at at 1 3. rewrite !wd_xor_at_ne by lia. unfold xor_at, upd. apply list_insert_insert_ne. lia.
Qed.

Lemma xor_twice b v : is_byte b -> u8 (Z.lxor (u8 (Z.lxor b v)) v) = b.
Proof.
  intros Hb. assert (UU : forall z, u8 (u8 z) = u8 z) by (intros; uint).
  rewrite !u8_lxor, !UU, Z.lxor_assoc, Z.lxor_nilpotent, Z.lxor_0_r. now apply u8_byte.
Qed.

Lemma xor_at_inv k i v : bytes_ok k -> 0 <= i < len k -> xor_at (xor_at k i v) i v = k.
Proof.
  intros Hk Hi. unfold xor_at, upd. rewrite list_insert_insert_eq.
  destruct (lookup_lt_is_Some_2 k (Z.to_nat i)) as [b Hb]; [lia|].
  unfold wd. rewrite list_lookup_insert_eq by lia. rewrite Hb. cbn [default id from_option].
  rewrite xor_twice by exact (proj1 (Forall_lookup _ _) Hk _ _ Hb).
  now apply list_insert_id.
Qed.

Lemma wd_xors_ne l k i : 0 <= i -> Forall (fun j => 0 <= j) l.*1 -> i ∉ l.*1 -> wd (xors k l) i = wd k i.
Proof.
  revert k; induction l as [|[j v] l IH]; intros k Hi Hl Hn; [done|]. cbn in *.
  apply not_elem_of_cons in Hn as [Hn1 Hn2]. apply Forall_cons in Hl as [Hj Hl].
  rewrite IH by done. now apply wd_xor_at_ne.
Qed.

Lemma xors_xor_at l k i v : 0 <= i -> Forall (fun j => 0 <= j) l.*1 -> i ∉ l.*1 ->
  xor_at (xors k l) i v = xors (xor_at k i v) l.
Proof.
  revert k; induction l as [|[j w] l IH]; intros k Hi Hl Hn; [done|]. cbn in *.
  apply not_elem_of_cons in Hn as [Hn1 Hn2]. apply Forall_cons in Hl as [Hj Hl].
  rewrite IH by done. f_equal. apply xor_at_comm; done || congruence.
Qed.

Lemma xors_inv l k : bytes_ok k -> Forall (fun j => 0 <= j < len k) l.*1 -> NoDup l.*1 -> xors (xors k l) l = k.
Proof.
  revert k; induction l as [|[i v] l IH]; intros k Hk Hl Hn; [done|]. cbn in *.
  apply Forall_cons in Hl as [Hi Hl]. apply NoDup_cons in Hn as [Hn1 Hn2].
  rewrite xors_xor_at; [|lia|eapply Forall_impl; [exact Hl|simpl; lia]|done].
  rewrite xor_at_inv by done. now apply IH.
Qed.

Lemma key_word_xors k j : 4 <= j ->
  key_word k j = xors k [(j, wd k (j - 4)); (j + 1, wd k (j - 3)); (j + 2, wd k (j - 2)); (j + 3, wd k (j - 1))].
Proof. intros. unfold key_word, xors. cbv zeta. cbn [foldl fst snd]. rewrite !wd_xor_at_ne by lia. reflexivity. Qed.

Lemma key_head_xors k r :
  key_head k r = xors k [(0, Z.lxor (wd sbox (wd k 29)) r); (1, wd sbox (wd k 30)); (2, wd sbox (wd k 31)); (3, wd sbox (wd k 28))].
Proof. unfold key_head, xors. cbv zeta. cbn [foldl fst snd]. rewrite !wd_xor_at_ne by lia. reflexivity. Qed.

Lemma key_middle_xors k :
  key_middle k = xors k [(16, wd sbox (wd k 12)); (17, wd sbox (wd k 13)); (18, wd sbox (wd k 14)); (19, wd sbox (wd k 15))].
Proof. unfold key_middle, xors. cbv zeta. cbn [foldl fst snd]. rewrite !wd_xor_at_ne by lia. reflexivity. Qed.

Notation key32 k := (bytes_ok k /\ length k = 32%nat).

Lemma xors_ok l k : key32 k -> key32 (xors k l).
Proof. intros [Hb Hl]. split; [now apply xors_bytes|now rewrite length_xors]. Qed.

Ltac xors_side :=
  cbn [fmap list_fmap fst];
  first [lia | rewrite !Forall_cons; split_and!; try apply Forall_nil_2; lia
        | rewrite !not_elem_of_cons; split_and!; try apply not_elem_of_nil; lia
        | rewrite !NoDup_cons, !not_elem_of_cons; split_and!; try apply not_elem_of_nil; try apply NoDup_nil_2; lia].

Lemma key_word_inv k j : key32 k -> 4 <= j <= 28 -> key_word (key_word k j) j = k.
Proof.
  intros [Hb Hl] Hj. rewrite (key_word_xors (key_word k j)), key_word_xors by lia.
  rewrite !wd_xors_ne by xors_side. apply xors_inv; [done|xors_side|xors_side].
Qed.

Lemma key_head_inv k r : key32 k -> key_head (key_head k r) r = k.
Proof.
  intros [Hb Hl]. rewrite (key_head_xors (key_head k r)), key_head_xors.
  rewrite !wd_xors_ne by xors_side. apply xors_inv; [done|xors_side|xors_side].
Qed.

Lemma key_middle_inv k : key32 k -> key_middle (key_middle k) = k.
Proof.
  intros [Hb Hl]. rewrite (key_middle_xors (key_middle k)), key_middle_xors.
  rewrite !wd_xors_ne by xors_side. apply xors_inv; [done|xors_side|xors_side].
Qed.

Lemma key_words_ok l k : key32 k -> Forall (fun j => 4 <= j) l -> key32 (foldl key_word k l).
Proof.
  revert k; induction l as [|j l IH]; intros k Hk Hl; [done|]. apply Forall_cons in Hl as [Hj Hl].
  cbn [foldl]. apply IH; [|done]. rewrite key_word_xors by done. now apply xors_ok.
Qed.

(** The round constant, byte by byte. *)
Lemma round_constants : forallb (fun r => Z.lxor (Z.shiftr (u8 (xt r)) 1) (Z.land (u8 (xt r)) 1 * 0x8d) =? r) (seqZ 0 256) = true.
Proof. vm_compute. reflexivity. Qed.

Lemma unexpand_expand kr : key32 (fst kr) -> is_byte (snd kr) -> unexpand_key (expand_key kr) = kr.
Proof.
  destruct kr as [k r]. intros Hk Hr. cbn [fst snd] in *.
  assert (R : Z.lxor (Z.shiftr (u8 (xt r)) 1) (Z.land (u8 (xt r)) 1 * 0x8d) = r).
  { pose proof round_constants as C. rewrite forallb_forall in C. apply Z.eqb_eq, C.
    apply list_elem_of_In, elem_of_seqZ. unfold is_byte in Hr. lia. }
  assert (F : forall l, l = [4; 8; 12] \/ l = [20; 24; 28] -> Forall (fun j => 4 <= j) l).
  { intros l [-> | ->]; rewrite !Forall_cons; split_and!; try apply Forall_nil_2; lia. }
  assert (K0 : key32 (key_head k r)) by (rewrite key_head_xors; now apply xors_ok).
  pose proof (key_words_ok [4; 8; 12] _ K0 (F _ (or_introl eq_refl))) as K1.
  assert (K2 : key32 (key_middle (foldl key_word (key_head k r) [4; 8; 12]))) by (rewrite key_middle_xors; now apply xors_ok).
  unfold unexpand_key, expand_key. cbv zeta. cbn [fst snd]. rewrite R. revert K0 K1 K2. cbn [foldl]. intros K0 K1 K2.
  assert (W : forall k j, key32 k -> 4 <= j -> key32 (key_word k j)) by (intros; rewrite key_word_xors by done; now apply xors_ok).
  rewrite (key_word_inv _ 28), (key_word_inv _ 24), (key_word_inv _ 20), key_middle_inv, (key_word_inv _ 12),
    (key_word_inv _ 8), (key_word_inv _ 4), key_head_inv by (first [lia | repeat first [assumption | apply W; [|lia]]]).
  reflexivity.
Qed.

Lemma expand_ok kr : key32 (fst kr) /\ is_byte (snd kr) -> key32 (fst (expand_key kr)) /\ is_byte (snd (expand_key kr)).
Proof.
  intros [Hk Hr]. split; [|apply u8_is_byte]. unfold expand_key. cbv zeta. cbn [fst].
  apply key_words_ok; [|rewrite !Forall_cons; split_and!; try apply Forall_nil_2; lia].
  rewrite key_middle_xors. apply xors_ok.
  apply key_words_ok; [|rewrite !Forall_cons; split_and!; try apply Forall_nil_2; lia].
  rewrite key_head_xors. now apply xors_ok.
Qed.

(** *** The rounds *)

Lemma parity i : Z.land i 1 = i mod 2.
Proof. change 1 with (Z.ones 1). rewrite Z.land_ones by lia. reflexivity. Qed.

(** The half of the key that round [i] adds. *)
Lemma key_half_ok k i : key32 k -> block16 (take 16 (drop (Z.to_nat (Z.land i 1 * 16)) k)).
Proof.
  intros [Hk Lk]. split; [now apply Forall_take, Forall_drop|]. rewrite parity, length_take, length_drop, Lk.
  pose proof (Z.mod_pos_bound i 2 ltac:(lia)). lia.
Qed.

Lemma add_key_ok x k i : block16 x -> key32 k -> block16 (add_key x k i).
Proof.
  intros [Hx Lx] Hk. destruct (key_half_ok k i Hk) as [Hy Ly]. split; [now apply zip_lxor_bytes|].
  unfold add_key. rewrite length_zip_with, Lx, Ly. reflexivity.
Qed.

Lemma add_key_inv x k i : block16 x -> key32 k -> add_key (add_key x k i) k i = x.
Proof. intros [Hx Lx] Hk. destruct (key_half_ok k i Hk) as [Hy Ly]. apply zip_lxor_twice. lia. Qed.

Section aes.
Context (key buf : list Z) (Hkey : key32 key) (Hbuf : block16 buf).

(** The expanded key after [j] expansions, and the block after [i] rounds. *)
Definition round_key (j : nat) : list Z * Z := Nat.iter j expand_key (key, 1).
Definition round_block (i : nat) : list Z := fst (foldl encrypt_round (buf, (key, 1)) (seqZ 0 (Z.of_nat i))).

Lemma round_key_ok j : key32 (fst (round_key j)) /\ is_byte (snd (round_key j)).
Proof. induction j as [|j IH]; [split; [exact Hkey|unfold is_byte; simpl; lia]|]. now apply expand_ok. Qed.

Lemma seqZ_snoc i : seqZ 0 (Z.of_nat (S i)) = seqZ 0 (Z.of_nat i) ++ [Z.of_nat i].
Proof. rewrite Nat2Z.inj_succ, <- Z.add_1_r, seqZ_app by lia. reflexivity. Qed.

Lemma encrypt_state i : foldl encrypt_round (buf, (key, 1)) (seqZ 0 (Z.of_nat i)) = (round_block i, round_key (i / 2)).
Proof.
  unfold round_block. induction i as [|i IH]; [reflexivity|]. rewrite seqZ_snoc, foldl_app, IH. cbn [foldl].
  unfold encrypt_round. cbn [fst]. apply pair_eq. split; [reflexivity|].
  replace (Z.of_nat i mod 2) with (Z.of_nat (i mod 2)) by now rewrite Nat2Z.inj_mod.
  pose proof (Nat.div_mod_eq i 2). pose proof (Nat.mod_upper_bound i 2 ltac:(lia)).
  pose proof (Nat.div_mod_eq (S i) 2). pose proof (Nat.mod_upper_bound (S i) 2 ltac:(lia)).
  destruct (Z.eqb_spec (Z.of_nat (i mod 2)) 0); cbn [negb].
  - now replace (S i / 2)%nat with (i / 2)%nat by lia.
  - now replace (S i / 2)%nat with (S (i / 2))%nat by lia.
Qed.

Lemma round_block_S i :
  round_block (S i) =
    let x := shift_rows (sub_bytes sbox (add_key (round_block i) (fst (round_key (i / 2))) (Z.of_nat i))) in
    if Z.of_nat i <? 13 then mix_columns x else x.
Proof. unfold round_block at 1. rewrite seqZ_snoc, foldl_app, encrypt_state. reflexivity. Qed.

Lemma round_block_ok i : block16 (round_block i).
Proof.
  induction i as [|i IH]; [exact Hbuf|]. rewrite round_block_S. cbv zeta.
  assert (H : block16 (shift_rows (sub_bytes sbox (add_key (round_block i) (fst (round_key (i / 2))) (Z.of_nat i))))).
  { apply shift_rows_ok, sub_bytes_ok, add_key_ok; [exact IH|apply round_key_ok]. }
  destruct (_ <? _); [now apply mix_columns_ok|exact H].
Qed.

(** After [n] rounds of decryption, the block before round [14 - n] of the encryption with its key added. *)
Lemma decrypt_state n : (n <= 14)%nat ->
  foldl decrypt_round (add_key (round_block 14) (fst (round_key 7)) 0, round_key 7) (seqZ 0 (Z.of_nat n)) =
  (add_key (round_block (14 - n)) (fst (round_key ((14 - n) / 2))) (Z.of_nat (14 - n)), round_key ((14 - n) / 2)).
Proof.
  induction n as [|n IH]; intros Hn.
  { change (seqZ 0 (Z.of_nat 0)) with (@nil Z). change (14 - 0)%nat with 14%nat. change (14 / 2)%nat with 7%nat.
    cbn [foldl]. unfold add_key. change (Z.land (Z.of_nat 14) 1) with 0. change (Z.land 0 1) with 0. reflexivity. }
  rewrite seqZ_snoc, foldl_app, IH by lia. cbn [foldl].
  remember (13 - n)%nat as m eqn:Em. replace (14 - S n)%nat with m by lia. replace (14 - n)%nat with (S m) by lia.
  destruct (round_key_ok (S m / 2)) as [K1 R1]. pose proof (round_block_ok (S m)) as Bm.
  pose proof (Nat.div_mod_eq m 2). pose proof (Nat.mod_upper_bound m 2 ltac:(lia)).
  pose proof (Nat.div_mod_eq (S m) 2). pose proof (Nat.mod_upper_bound (S m) 2 ltac:(lia)).
  unfold decrypt_round. cbn [fst].
  assert (P : add_key (add_key (round_block (S m)) (fst (round_key (S m / 2))) (Z.of_nat (S m)))
                (fst (round_key (S m / 2))) (Z.of_nat n) = round_block (S m)).
  { replace (add_key _ (fst (round_key (S m / 2))) (Z.of_nat n)) with
      (add_key (add_key (round_block (S m)) (fst (round_key (S m / 2))) (Z.of_nat (S m))) (fst (round_key (S m / 2))) (Z.of_nat (S m))).
    - now apply add_key_inv.
    - unfold add_key. rewrite !parity. now replace (Z.of_nat (S m) mod 2) with (Z.of_nat n mod 2) by zdiv_lia. }
  rewrite P, round_block_S. cbv zeta.
  set (y := add_key (round_block m) (fst (round_key (m / 2))) (Z.of_nat m)).
  assert (By : block16 y) by (apply add_key_ok; [apply round_block_ok|apply round_key_ok]).
  assert (Q : sub_bytes sboxi (unshift_rows (shift_rows (sub_bytes sbox y))) = y).
  { rewrite unshift_shift by apply (sub_bytes_ok y By). apply unsub_sub, By. }
  apply pair_eq. split.
  - destruct (Z.ltb_spec (Z.of_nat m) 13), (Z.ltb_spec 0 (Z.of_nat n)); try lia; [|exact Q].
    rewrite unmix_mix; [exact Q|]. now apply shift_rows_ok, sub_bytes_ok.
  - replace (Z.of_nat n mod 2) with (Z.of_nat (S m mod 2)) by (subst m; rewrite Nat2Z.inj_mod; zdiv_lia).
    destruct (Z.eqb_spec (Z.of_nat (S m mod 2)) 0).
    + replace (S m / 2)%nat with (S (m / 2)) by lia. apply unexpand_expand; apply round_key_ok.
    + now replace (S m / 2)%nat with (m / 2)%nat by lia.
Qed.

Lemma encrypt_ok : block16 (_BRAES256ECBEncrypt key buf).
Proof.
  unfold _BRAES256ECBEncrypt. change (seqZ 0 14) with (seqZ 0 (Z.of_nat 14)). rewrite encrypt_state.
  apply add_key_ok; [apply round_block_ok|apply round_key_ok].
Qed.

Lemma decrypt_encrypt : _BRAES256ECBDecrypt key (_BRAES256ECBEncrypt key buf) = buf.
Proof.
  unfold _BRAES256ECBDecrypt, _BRAES256ECBEncrypt. change (seqZ 0 14) with (seqZ 0 (Z.of_nat 14)).
  rewrite encrypt_state. change (14 / 2)%nat with 7%nat. change (Nat.iter 7 expand_key (key, 1)) with (round_key 7).
  rewrite decrypt_state by lia. change ((14 - 14) / 2)%nat with 0%nat. change (14 - 14)%nat with 0%nat.
  apply add_key_inv; [exact Hbuf|exact Hkey].
Qed.
End aes.

Example bip38_valid : BRBIP38KeyIsValid [54; 80; 82; 86; 87; 85; 98; 107; 122; 122; 115; 98; 99; 86; 97; 99; 50; 113; 119; 102;
  115; 115; 111; 85; 74; 65; 78; 49; 88; 104; 114; 103; 54; 98; 78; 107; 56; 74; 55; 78; 122; 109; 53; 72; 55; 107; 120; 69; 98;
  110; 50; 78; 104; 50; 90; 111; 71; 103] = Some true.
Proof. vm_compute. reflexivity. Qed.

(** ** Encrypted keys are decrypted *)

Lemma c_str_zeros n : c_str (replicate n 0) = [].
Proof. now destruct n. Qed.

Section bip38_proofs.
Context {point sig rsig : Type} `{Secp256k1Laws point sig rsig}.

(** A key just set from a valid secret has the address of its public key, written where there is room. *)
Lemma fresh_address k c m : secp256k1_ec_seckey_verify (UInt256Set k) = true ->
  BRHash160 (public_key c k) <> UINT160_ZERO -> 36 <= len m ->
  let a := address_string BITCOIN_PUBKEY_ADDRESS (BRHash160 (public_key c k)) in
  exists pk m', BRKeyAddress (mkKey k (replicate 65 0) c) (Some m) 36 = Some (mkKey k pk c, (Some m', len a + 1)) /\
    c_str m' = a /\ wd m' 0 <> 0.
Proof.
  intros Hv Hnz Hm a. destruct (valid_point k Hv) as [p Hp].
  unfold BRKeyAddress, BRKeyHash160, BRKeyPubKey. rewrite (key_point_fresh k c p Hp).
  set (s := ec_pubkey_serialize c p). set (key' := mkKey _ _ _).
  assert (Hs : public_key c k = s) by (unfold public_key; now rewrite Hp).
  assert (Ls : 0 < len s <= 65) by (unfold s; rewrite serialize_length; destruct c; lia).
  cbn [pubKey key' write_result]. rewrite bind_Some_l.
  cbn [snd]. rewrite Nat2Z.id, take_app_length, u64_id by lia. rewrite !bind_Some_l.
  cbn [snd]. change (pubKey key') with (s ++ drop (length s) (replicate 65 0)).
  rewrite Nat2Z.id, take_app_length, (proj2 (Z.ltb_lt 0 _)) by lia.
  assert (Hparse : is_Some (ec_pubkey_parse s)) by (unfold s; rewrite (create_parse c k p Hp); eauto).
  rewrite (bool_decide_eq_true_2 (is_Some _)) by exact Hparse. cbn [andb]. rewrite <- Hs.
  rewrite bool_decide_eq_false_2 by exact Hnz.
  assert (Hh : hash20 (BRHash160 (public_key c k))) by (split; [apply (hash_bytes (hash := BRHash160))|apply (hash_length (hash := BRHash160))]).
  revert Hnz a Hh. generalize (BRHash160 (public_key c k)) as h. intros h _ a Hh.
  destruct (written_address h m Hh Hm) as (m' & W & Hc & Hz). change ([BITCOIN_PUBKEY_ADDRESS] ++ h) with (BITCOIN_PUBKEY_ADDRESS :: h).
  rewrite W, bind_Some_l. exists (s ++ drop (length s) (replicate 65 0)), m'. split; [reflexivity|]. split; [exact Hc|exact Hz].
Qed.

#[local] Opaque BRScrypt _BRAES256ECBEncrypt _BRAES256ECBDecrypt BRSHA256_2.

(** The payload of an encrypted key. *)
Definition bip38_payload (k : Z) (c : bool) (pw : list Z) : list Z :=
  let salt := take 4 (BRSHA256_2 (address_string BITCOIN_PUBKEY_ADDRESS (BRHash160 (public_key c k)))) in
  let derived := BRScrypt 64 pw salt 16384 8 8 in
  let enc x y := _BRAES256ECBEncrypt (derived2 derived) (zip_with Z.lxor x y) in
  [1; 0x42] ++ [if c then 0xe0 else 0xc0] ++ salt ++
  enc (take 16 (UInt256Set k)) (take 16 (derived1 derived)) ++
  enc (drop 16 (UInt256Set k)) (take 16 (drop 16 (derived1 derived))).

Lemma derived_ok pw salt n r p : let dk := BRScrypt 64 pw salt n r p in
  key32 (derived2 dk) /\ block16 (take 16 (derived1 dk)) /\ block16 (take 16 (drop 16 (derived1 dk))).
Proof.
  intros dk. destruct (scrypt_ok 64 pw salt n r p) as [Hb Hl]; [lia|]. fold dk in Hb, Hl. clearbody dk.
  unfold derived1, derived2.
  split_and!; rewrite ?length_take, ?length_drop, ?length_take; try lia;
    repeat (first [apply Forall_take | apply Forall_drop]); exact Hb.
Qed.

Lemma secret_halves k : block16 (take 16 (UInt256Set k)) /\ block16 (drop 16 (UInt256Set k)).
Proof.
  destruct (u256_bytes k) as [Hb Hl]. split_and!; rewrite ?length_take, ?length_drop, ?Hl; try reflexivity;
    first [apply Forall_take | apply Forall_drop]; exact Hb.
Qed.

Lemma zip_lxor_ok x y : block16 x -> block16 y -> block16 (zip_with Z.lxor x y).
Proof. intros [Hx Lx] [Hy Ly]. split; [now apply zip_lxor_bytes|]. rewrite length_zip_with. lia. Qed.

Lemma payload_ok k c pw : bytes_ok (bip38_payload k c pw) /\ length (bip38_payload k c pw) = 39%nat.
Proof.
  unfold bip38_payload. cbv zeta. set (h := BRSHA256_2 _).
  assert (Hh : bytes_ok h /\ length h = 32%nat) by (split; [apply hash_bytes|apply hash_length]). clearbody h.
  destruct (derived_ok pw (take 4 h) 16384 8 8) as (D2 & D1 & D1'). destruct (secret_halves k) as [S1 S2].
  destruct (encrypt_ok _ _ D2 (zip_lxor_ok _ _ S1 D1)) as [E1 L1].
  destruct (encrypt_ok _ _ D2 (zip_lxor_ok _ _ S2 D1')) as [E2 L2].
  clear D2 D1 D1' S1 S2. revert E1 L1 E2 L2.
  generalize (_BRAES256ECBEncrypt (derived2 (BRScrypt 64 pw (take 4 h) 16384 8 8))
    (zip_with Z.lxor (take 16 (UInt256Set k)) (take 16 (derived1 (BRScrypt 64 pw (take 4 h) 16384 8 8))))) as e1.
  generalize (_BRAES256ECBEncrypt (derived2 (BRScrypt 64 pw (take 4 h) 16384 8 8))
    (zip_with Z.lxor (drop 16 (UInt256Set k)) (take 16 (drop 16 (derived1 (BRScrypt 64 pw (take 4 h) 16384 8 8)))))) as e2.
  destruct Hh as [Hh Lh]. intros e2 e1 E1 L1 E2 L2. split.
  - rewrite !Forall_app, !Forall_cons, !Forall_nil. split_and!; try done; try (unfold is_byte; destruct c; lia).
    now apply Forall_take.
  - rewrite !length_app, L1, L2, length_take. cbn [length]. lia.
Qed.

Lemma payload_slices f salt e1 e2 : length salt = 4%nat -> length e1 = 16%nat -> length e2 = 16%nat ->
  let data := [1; 0x42] ++ [f] ++ salt ++ e1 ++ e2 in
  take 4 (drop 3 data) = salt /\ take 16 (drop 7 data) = e1 /\ take 16 (drop 23 data) = e2.
Proof.
  intros Ls L1 L2 data.
  assert (E3 : drop 3 data = salt ++ e1 ++ e2) by reflexivity.
  assert (E7 : drop 7 data = e1 ++ e2).
  { change 7%nat with (3 + 4)%nat. rewrite <- drop_drop, E3. now apply drop_app_length'. }
  assert (E23 : drop 23 data = e2).
  { change 23%nat with (7 + 16)%nat. rewrite <- drop_drop, E7. now apply drop_app_length'. }
  rewrite E3, E7, E23. split_and!; [now apply take_app_length'..|]. apply take_ge. lia.
Qed.

Lemma secret_noec_core data pw salt e1 e2 s1 s2 dk :
  take 4 (drop 3 data) = salt -> take 16 (drop 7 data) = e1 -> take 16 (drop 23 data) = e2 ->
  BRScrypt 64 pw salt BIP38_SCRYPT_N BIP38_SCRYPT_R BIP38_SCRYPT_P = dk ->
  _BRAES256ECBDecrypt (derived2 dk) e1 = zip_with Z.lxor s1 (take 16 (derived1 dk)) ->
  _BRAES256ECBDecrypt (derived2 dk) e2 = zip_with Z.lxor s2 (take 16 (drop 16 (derived1 dk))) ->
  length s1 = 16%nat -> length s2 = 16%nat -> length (take 16 (derived1 dk)) = 16%nat ->
  length (take 16 (drop 16 (derived1 dk))) = 16%nat ->
  secret_noec data pw = s1 ++ s2.
Proof.
  intros Hs H1 H2 Hd D1 D2 L1 L2 M1 M2. unfold secret_noec. cbv zeta.
  rewrite Hs, H1, H2, Hd, D1, D2, !zip_lxor_twice; [reflexivity| |]; rewrite ?L1, ?L2, ?M1, ?M2; reflexivity.
Qed.

Lemma secret_noec_payload k c pw : secret_noec (bip38_payload k c pw) pw = UInt256Set k.
Proof.
  rewrite <- (take_drop 16 (UInt256Set k)). unfold bip38_payload. cbv zeta.
  set (h := BRSHA256_2 _).
  assert (Lh : length (take 4 h) = 4%nat) by (rewrite length_take; unfold h; rewrite hash_length; reflexivity). clearbody h.
  revert Lh. generalize (take 4 h) as salt. clear h. intros salt Ls.
  destruct (derived_ok pw salt 16384 8 8) as (D2 & D1 & D1'). destruct (secret_halves k) as [S1 S2].
  pose proof (decrypt_encrypt _ _ D2 (zip_lxor_ok _ _ S1 D1)) as Q1.
  pose proof (decrypt_encrypt _ _ D2 (zip_lxor_ok _ _ S2 D1')) as Q2.
  destruct (encrypt_ok _ _ D2 (zip_lxor_ok _ _ S1 D1)) as [_ L1].
  destruct (encrypt_ok _ _ D2 (zip_lxor_ok _ _ S2 D1')) as [_ L2].
  destruct (payload_slices (if c then 0xe0 else 0xc0) salt _ _ Ls L1 L2) as (T0 & T1 & T2).
  exact (secret_noec_core _ pw salt _ _ _ _ _ T0 T1 T2 eq_refl Q1 Q2 (proj2 S1) (proj2 S2) (proj2 D1) (proj2 D1')).
Qed.

(** C38. [BRKeyBIP38Key] and [BRKeySetBIP38Key] are inverse: for every valid key whose public key hash
    is not zero and every passphrase, the string written is a valid BIP38 key without NUL characters, and
    decrypting it with the same passphrase succeeds and gives back the secret and the compression flag.  The
    proof covers the AES-256 rounds and key schedule, whatever the bytes scrypt derives. *)
Theorem bip38_roundtrip k c (pw stack : list Z) :
  is_u256 k -> secp256k1_ec_seckey_verify (UInt256Set k) = true -> BRHash160 (public_key c k) <> UINT160_ZERO ->
  36 <= len stack ->
  exists s, 0 ∉ s /\ BRBIP38KeyIsValid s = Some true /\
    (forall m n, len s + 1 <= n <= len m -> n < 2 ^ 64 -> exists pk,
       BRKeyBIP38Key stack (fst (BRKeySetSecret k c)) (Some m) n pw =
       Some (mkKey k pk c, (Some (s ++ [0] ++ drop (length s + 1) m), len s + 1))) /\
    (forall k0, exists pk, BRKeySetBIP38Key k0 s pw = Some (mkKey k pk c, true)).
Proof.
  intros Hu Hv Hnz Hst. destruct (payload_ok k c pw) as [Pb Pl].
  set (data := bip38_payload k c pw) in *. exists (check_string data).
  assert (Hdec : decode39 (check_string data) = Some (data, 39)).
  { unfold decode39. rewrite check_string_decode by (exact Pb || (rewrite Pl; lia)).
    unfold write_result. rewrite Pl. change (Z.of_nat 39 <=? 39) with true. cbv iota.
    unfold mem_write. rewrite Pl. change ((0 <=? 0) && (0 + Z.of_nat 39 <=? len (replicate 39 0))) with true. cbv iota.
    rewrite bind_Some_l. change (drop (Z.to_nat 0 + 39) (replicate 39 0)) with (@nil Z). rewrite app_nil_r. reflexivity. }
  assert (Hp : UInt16GetBE data = BIP38_NOEC_PREFIX) by reflexivity.
  assert (Hf : wd data 2 = if c then 0xe0 else 0xc0) by reflexivity.
  assert (Hsec : secret_noec data pw = UInt256Set k) by apply secret_noec_payload.
  assert (Hfull : bytes_ok (data ++ take 4 (BRSHA256_2 data))) by (apply Forall_app; split; [exact Pb|apply Forall_take, hash_bytes]).
  assert (Hsalt : take 4 (drop 3 data) =
    take 4 (BRSHA256_2 (address_string BITCOIN_PUBKEY_ADDRESS (BRHash160 (public_key c k))))).
  { unfold data, bip38_payload. cbv zeta. set (h := BRSHA256_2 _).
    assert (Lh : length (take 4 h) = 4%nat) by (rewrite length_take; unfold h; rewrite hash_length; reflexivity).
    clearbody h. revert Lh. generalize (take 4 h). intros salt Ls. cbn [app drop]. now apply take_app_length'. }
  split; [now apply base58_string_no_nul|]. split; [|split].
  - unfold BRBIP38KeyIsValid. rewrite Hdec, bind_Some_l, Hp, Hf. now destruct c.
  - intros m n Hn Hn'. change (fst (BRKeySetSecret k c)) with (mkKey k (replicate 65 0) c).
    destruct (fresh_address k c stack Hv Hnz Hst) as (pk & m' & Ea & Es & _). exists pk.
    unfold BRKeyBIP38Key. cbn [compressed]. rewrite Ea, bind_Some_l. cbn [snd fst default].
    rewrite (proj2 (Z.eqb_neq _ 0)) by lia. cbn [default id]. rewrite Es. cbn [secret].
    pose proof (check_encode_writes data Pb ltac:(rewrite Pl; lia) (Some m) n) as W.
    change (base58_string (data ++ take 4 (BRSHA256_2 data))) with (check_string data) in W.
    match goal with |- (BRBase58CheckEncode _ _ ?d ≫= _) = _ => replace d with data by now destruct c end.
    rewrite W by (unfold room; rewrite length_app; cbn [length]; lia). unfold cursor. cbn [fmap option_fmap option_map].
    rewrite bind_Some_l, <- app_assoc, length_app, u64_id by (cbn [length]; lia). rewrite Nat2Z.inj_add. reflexivity.
  - intros k0. unfold BRKeySetBIP38Key. rewrite Hdec, bind_Some_l.
    change (negb (39 =? 39)) with false. cbv iota zeta. rewrite Hp, Hf.
    change (BIP38_NOEC_PREFIX =? BIP38_NOEC_PREFIX) with true. cbv iota. rewrite bind_Some_l, Hsec, UInt256Get_Set by exact Hu.
    replace (has_flag (if c then 0xe0 else 0xc0) BIP38_COMPRESSED_FLAG) with c by now destruct c.
    change (fst (BRKeySetSecret k c)) with (mkKey k (replicate 65 0) c).
    destruct (fresh_address k c (replicate 36 0) Hv Hnz ltac:(reflexivity)) as (pk & m' & -> & Es & Hw). exists pk.
    rewrite bind_Some_l. cbn [fst default id]. rewrite Es, Hsalt, bool_decide_eq_true_2 by reflexivity.
    now rewrite (proj2 (Z.eqb_neq _ 0)) by exact Hw.
Qed.
End bip38_proofs.

#[local] Transparent BRScrypt _BRAES256ECBEncrypt _BRAES256ECBDecrypt BRSHA256_2.

Lemma bip38_roundtrip_witness : exists s, BRBIP38KeyIsValid s = Some true /\
  (forall k0, exists pk, BRKeySetBIP38Key k0 s [83; 97; 116; 111; 115; 104; 105] = Some (mkKey 3 pk true, true)).
Proof.
  destruct (bip38_roundtrip 3 true [83; 97; 116; 111; 115; 104; 105] (replicate 36 7)) as (s & _ & Hv & _ & Hd).
  - unfold is_u256, U256; lia.
  - vm_compute. reflexivity.
  - vm_compute. discriminate.
  - vm_compute. discriminate.
  - exists s. split; [exact Hv|exact Hd].
Defined.
