(* ===== verification/Mnemonic.v ===== *)
(** * Mnemonic: recovery phrases (BRBIP39Mnemonic.c, BRBIP39WordsEn.h)

    Encoding of entropy and its checksum as words of 11 bits, decoding with the checksum test, and the
    derivation of the seed.  Strings are lists of characters without the terminator; a suffix of the phrase
    stands for the pointer [word].  The theorems hold for every well-formed word list and are
    instantiated with the English one, which is translated. *)
From Stdlib Require Import ZArith Lia Ascii String.
From stdpp Require Import base numbers list.
From S2P Require Import Prelude CMem Int Crypto.
Local Open Scope Z_scope.

Definition BIP39_WORDLIST_COUNT : Z := 2048.

Definition BRBIP39WordsEn : list (list Z) := Eval vm_compute in
  chars <$>
  ["abandon"; "ability"; "able"; "about"; "above"; "absent"; "absorb"; "abstract"; "absurd"; "abuse";
   "access"; "accident"; "account"; "accuse"; "achieve"; "acid"; "acoustic"; "acquire"; "across"; "act";
   "action"; "actor"; "actress"; "actual"; "adapt"; "add"; "addict"; "address"; "adjust"; "admit"; "adult";
   "advance"; "advice"; "aerobic"; "affair"; "afford"; "afraid"; "again"; "age"; "agent"; "agree"; "ahead";
   "aim"; "air"; "airport"; "aisle"; "alarm"; "album"; "alcohol"; "alert"; "alien"; "all"; "alley"; "allow";
   "almost"; "alone"; "alpha"; "already"; "also"; "alter"; "always"; "amateur"; "amazing"; "among"; "amount";
   "amused"; "analyst"; "anchor"; "ancient"; "anger"; "angle"; "angry"; "animal"; "ankle"; "announce";
   "annual"; "another"; "answer"; "antenna"; "antique"; "anxiety"; "any"; "apart"; "apology"; "appear";
   "apple"; "approve"; "april"; "arch"; "arctic"; "area"; "arena"; "argue"; "arm"; "armed"; "armor"; "army";
   "around"; "arrange"; "arrest"; "arrive"; "arrow"; "art"; "artefact"; "artist"; "artwork"; "ask"; "aspect";
   "assault"; "asset"; "assist"; "assume"; "asthma"; "athlete"; "atom"; "attack"; "attend"; "attitude";
   "attract"; "auction"; "audit"; "august"; "aunt"; "author"; "auto"; "autumn"; "average"; "avocado"; "avoid";
   "awake"; "aware"; "away"; "awesome"; "awful"; "awkward"; "axis"; "baby"; "bachelor"; "bacon"; "badge";
   "bag"; "balance"; "balcony"; "ball"; "bamboo"; "banana"; "banner"; "bar"; "barely"; "bargain"; "barrel";
   "base"; "basic"; "basket"; "battle"; "beach"; "bean"; "beauty"; "because"; "become"; "beef"; "before";
   "begin"; "behave"; "behind"; "believe"; "below"; "belt"; "bench"; "benefit"; "best"; "betray"; "better";
   "between"; "beyond"; "bicycle"; "bid"; "bike"; "bind"; "biology"; "bird"; "birth"; "bitter"; "black";
   "blade"; "blame"; "blanket"; "blast"; "bleak"; "bless"; "blind"; "blood"; "blossom"; "blouse"; "blue";
   "blur"; "blush"; "board"; "boat"; "body"; "boil"; "bomb"; "bone"; "bonus"; "book"; "boost"; "border";
   "boring"; "borrow"; "boss"; "bottom"; "bounce"; "box"; "boy"; "bracket"; "brain"; "brand"; "brass";
   "brave"; "bread"; "breeze"; "brick"; "bridge"; "brief"; "bright"; "bring"; "brisk"; "broccoli"; "broken";
   "bronze"; "broom"; "brother"; "brown"; "brush"; "bubble"; "buddy"; "budget"; "buffalo"; "build"; "bulb";
   "bulk"; "bullet"; "bundle"; "bunker"; "burden"; "burger"; "burst"; "bus"; "business"; "busy"; "butter";
   "buyer"; "buzz"; "cabbage"; "cabin"; "cable"; "cactus"; "cage"; "cake"; "call"; "calm"; "camera"; "camp";
   "can"; "canal"; "cancel"; "candy"; "cannon"; "canoe"; "canvas"; "canyon"; "capable"; "capital"; "captain";
   "car"; "carbon"; "card"; "cargo"; "carpet"; "carry"; "cart"; "case"; "cash"; "casino"; "castle"; "casual";
   "cat"; "catalog"; "catch"; "category"; "cattle"; "caught"; "cause"; "caution"; "cave"; "ceiling"; "celery";
   "cement"; "census"; "century"; "cereal"; "certain"; "chair"; "chalk"; "champion"; "change"; "chaos";
   "chapter"; "charge"; "chase"; "chat"; "cheap"; "check"; "cheese"; "chef"; "cherry"; "chest"; "chicken";
   "chief"; "child"; "chimney"; "choice"; "choose"; "chronic"; "chuckle"; "chunk"; "churn"; "cigar";
   "cinnamon"; "circle"; "citizen"; "city"; "civil"; "claim"; "clap"; "clarify"; "claw"; "clay"; "clean";
   "clerk"; "clever"; "click"; "client"; "cliff"; "climb"; "clinic"; "clip"; "clock"; "clog"; "close";
   "cloth"; "cloud"; "clown"; "club"; "clump"; "cluster"; "clutch"; "coach"; "coast"; "coconut"; "code";
   "coffee"; "coil"; "coin"; "collect"; "color"; "column"; "combine"; "come"; "comfort"; "comic"; "common";
   "company"; "concert"; "conduct"; "confirm"; "congress"; "connect"; "consider"; "control"; "convince";
   "cook"; "cool"; "copper"; "copy"; "coral"; "core"; "corn"; "correct"; "cost"; "cotton"; "couch"; "country";
   "couple"; "course"; "cousin"; "cover"; "coyote"; "crack"; "cradle"; "craft"; "cram"; "crane"; "crash";
   "crater"; "crawl"; "crazy"; "cream"; "credit"; "creek"; "crew"; "cricket"; "crime"; "crisp"; "critic";
   "crop"; "cross"; "crouch"; "crowd"; "crucial"; "cruel"; "cruise"; "crumble"; "crunch"; "crush"; "cry";
   "crystal"; "cube"; "culture"; "cup"; "cupboard"; "curious"; "current"; "curtain"; "curve"; "cushion";
   "custom"; "cute"; "cycle"; "dad"; "damage"; "damp"; "dance"; "danger"; "daring"; "dash"; "daughter";
   "dawn"; "day"; "deal"; "debate"; "debris"; "decade"; "december"; "decide"; "decline"; "decorate";
   "decrease"; "deer"; "defense"; "define"; "defy"; "degree"; "delay"; "deliver"; "demand"; "demise";
   "denial"; "dentist"; "deny"; "depart"; "depend"; "deposit"; "depth"; "deputy"; "derive"; "describe";
   "desert"; "design"; "desk"; "despair"; "destroy"; "detail"; "detect"; "develop"; "device"; "devote";
   "diagram"; "dial"; "diamond"; "diary"; "dice"; "diesel"; "diet"; "differ"; "digital"; "dignity"; "dilemma";
   "dinner"; "dinosaur"; "direct"; "dirt"; "disagree"; "discover"; "disease"; "dish"; "dismiss"; "disorder";
   "display"; "distance"; "divert"; "divide"; "divorce"; "dizzy"; "doctor"; "document"; "dog"; "doll";
   "dolphin"; "domain"; "donate"; "donkey"; "donor"; "door"; "dose"; "double"; "dove"; "draft"; "dragon";
   "drama"; "drastic"; "draw"; "dream"; "dress"; "drift"; "drill"; "drink"; "drip"; "drive"; "drop"; "drum";
   "dry"; "duck"; "dumb"; "dune"; "during"; "dust"; "dutch"; "duty"; "dwarf"; "dynamic"; "eager"; "eagle";
   "early"; "earn"; "earth"; "easily"; "east"; "easy"; "echo"; "ecology"; "economy"; "edge"; "edit";
   "educate"; "effort"; "egg"; "eight"; "either"; "elbow"; "elder"; "electric"; "elegant"; "element";
   "elephant"; "elevator"; "elite"; "else"; "embark"; "embody"; "embrace"; "emerge"; "emotion"; "employ";
   "empower"; "empty"; "enable"; "enact"; "end"; "endless"; "endorse"; "enemy"; "energy"; "enforce"; "engage";
   "engine"; "enhance"; "enjoy"; "enlist"; "enough"; "enrich"; "enroll"; "ensure"; "enter"; "entire"; "entry";
   "envelope"; "episode"; "equal"; "equip"; "era"; "erase"; "erode"; "erosion"; "error"; "erupt"; "escape";
   "essay"; "essence"; "estate"; "eternal"; "ethics"; "evidence"; "evil"; "evoke"; "evolve"; "exact";
   "example"; "excess"; "exchange"; "excite"; "exclude"; "excuse"; "execute"; "exercise"; "exhaust";
   "exhibit"; "exile"; "exist"; "exit"; "exotic"; "expand"; "expect"; "expire"; "explain"; "expose";
   "express"; "extend"; "extra"; "eye"; "eyebrow"; "fabric"; "face"; "faculty"; "fade"; "faint"; "faith";
   "fall"; "false"; "fame"; "family"; "famous"; "fan"; "fancy"; "fantasy"; "farm"; "fashion"; "fat"; "fatal";
   "father"; "fatigue"; "fault"; "favorite"; "feature"; "february"; "federal"; "fee"; "feed"; "feel";
   "female"; "fence"; "festival"; "fetch"; "fever"; "few"; "fiber"; "fiction"; "field"; "figure"; "file";
   "film"; "filter"; "final"; "find"; "fine"; "finger"; "finish"; "fire"; "firm"; "first"; "fiscal"; "fish";
   "fit"; "fitness"; "fix"; "flag"; "flame"; "flash"; "flat"; "flavor"; "flee"; "flight"; "flip"; "float";
   "flock"; "floor"; "flower"; "fluid"; "flush"; "fly"; "foam"; "focus"; "fog"; "foil"; "fold"; "follow";
   "food"; "foot"; "force"; "forest"; "forget"; "fork"; "fortune"; "forum"; "forward"; "fossil"; "foster";
   "found"; "fox"; "fragile"; "frame"; "frequent"; "fresh"; "friend"; "fringe"; "frog"; "front"; "frost";
   "frown"; "frozen"; "fruit"; "fuel"; "fun"; "funny"; "furnace"; "fury"; "future"; "gadget"; "gain";
   "galaxy"; "gallery"; "game"; "gap"; "garage"; "garbage"; "garden"; "garlic"; "garment"; "gas"; "gasp";
   "gate"; "gather"; "gauge"; "gaze"; "general"; "genius"; "genre"; "gentle"; "genuine"; "gesture"; "ghost";
   "giant"; "gift"; "giggle"; "ginger"; "giraffe"; "girl"; "give"; "glad"; "glance"; "glare"; "glass";
   "glide"; "glimpse"; "globe"; "gloom"; "glory"; "glove"; "glow"; "glue"; "goat"; "goddess"; "gold"; "good";
   "goose"; "gorilla"; "gospel"; "gossip"; "govern"; "gown"; "grab"; "grace"; "grain"; "grant"; "grape";
   "grass"; "gravity"; "great"; "green"; "grid"; "grief"; "grit"; "grocery"; "group"; "grow"; "grunt";
   "guard"; "guess"; "guide"; "guilt"; "guitar"; "gun"; "gym"; "habit"; "hair"; "half"; "hammer"; "hamster";
   "hand"; "happy"; "harbor"; "hard"; "harsh"; "harvest"; "hat"; "have"; "hawk"; "hazard"; "head"; "health";
   "heart"; "heavy"; "hedgehog"; "height"; "hello"; "helmet"; "help"; "hen"; "hero"; "hidden"; "high"; "hill";
   "hint"; "hip"; "hire"; "history"; "hobby"; "hockey"; "hold"; "hole"; "holiday"; "hollow"; "home"; "honey";
   "hood"; "hope"; "horn"; "horror"; "horse"; "hospital"; "host"; "hotel"; "hour"; "hover"; "hub"; "huge";
   "human"; "humble"; "humor"; "hundred"; "hungry"; "hunt"; "hurdle"; "hurry"; "hurt"; "husband"; "hybrid";
   "ice"; "icon"; "idea"; "identify"; "idle"; "ignore"; "ill"; "illegal"; "illness"; "image"; "imitate";
   "immense"; "immune"; "impact"; "impose"; "improve"; "impulse"; "inch"; "include"; "income"; "increase";
   "index"; "indicate"; "indoor"; "industry"; "infant"; "inflict"; "inform"; "inhale"; "inherit"; "initial";
   "inject"; "injury"; "inmate"; "inner"; "innocent"; "input"; "inquiry"; "insane"; "insect"; "inside";
   "inspire"; "install"; "intact"; "interest"; "into"; "invest"; "invite"; "involve"; "iron"; "island";
   "isolate"; "issue"; "item"; "ivory"; "jacket"; "jaguar"; "jar"; "jazz"; "jealous"; "jeans"; "jelly";
   "jewel"; "job"; "join"; "joke"; "journey"; "joy"; "judge"; "juice"; "jump"; "jungle"; "junior"; "junk";
   "just"; "kangaroo"; "keen"; "keep"; "ketchup"; "key"; "kick"; "kid"; "kidney"; "kind"; "kingdom"; "kiss";
   "kit"; "kitchen"; "kite"; "kitten"; "kiwi"; "knee"; "knife"; "knock"; "know"; "lab"; "label"; "labor";
   "ladder"; "lady"; "lake"; "lamp"; "language"; "laptop"; "large"; "later"; "latin"; "laugh"; "laundry";
   "lava"; "law"; "lawn"; "lawsuit"; "layer"; "lazy"; "leader"; "leaf"; "learn"; "leave"; "lecture"; "left";
   "leg"; "legal"; "legend"; "leisure"; "lemon"; "lend"; "length"; "lens"; "leopard"; "lesson"; "letter";
   "level"; "liar"; "liberty"; "library"; "license"; "life"; "lift"; "light"; "like"; "limb"; "limit"; "link";
   "lion"; "liquid"; "list"; "little"; "live"; "lizard"; "load"; "loan"; "lobster"; "local"; "lock"; "logic";
   "lonely"; "long"; "loop"; "lottery"; "loud"; "lounge"; "love"; "loyal"; "lucky"; "luggage"; "lumber";
   "lunar"; "lunch"; "luxury"; "lyrics"; "machine"; "mad"; "magic"; "magnet"; "maid"; "mail"; "main"; "major";
   "make"; "mammal"; "man"; "manage"; "mandate"; "mango"; "mansion"; "manual"; "maple"; "marble"; "march";
   "margin"; "marine"; "market"; "marriage"; "mask"; "mass"; "master"; "match"; "material"; "math"; "matrix";
   "matter"; "maximum"; "maze"; "meadow"; "mean"; "measure"; "meat"; "mechanic"; "medal"; "media"; "melody";
   "melt"; "member"; "memory"; "mention"; "menu"; "mercy"; "merge"; "merit"; "merry"; "mesh"; "message";
   "metal"; "method"; "middle"; "midnight"; "milk"; "million"; "mimic"; "mind"; "minimum"; "minor"; "minute";
   "miracle"; "mirror"; "misery"; "miss"; "mistake"; "mix"; "mixed"; "mixture"; "mobile"; "model"; "modify";
   "mom"; "moment"; "monitor"; "monkey"; "monster"; "month"; "moon"; "moral"; "more"; "morning"; "mosquito";
   "mother"; "motion"; "motor"; "mountain"; "mouse"; "move"; "movie"; "much"; "muffin"; "mule"; "multiply";
   "muscle"; "museum"; "mushroom"; "music"; "must"; "mutual"; "myself"; "mystery"; "myth"; "naive"; "name";
   "napkin"; "narrow"; "nasty"; "nation"; "nature"; "near"; "neck"; "need"; "negative"; "neglect"; "neither";
   "nephew"; "nerve"; "nest"; "net"; "network"; "neutral"; "never"; "news"; "next"; "nice"; "night"; "noble";
   "noise"; "nominee"; "noodle"; "normal"; "north"; "nose"; "notable"; "note"; "nothing"; "notice"; "novel";
   "now"; "nuclear"; "number"; "nurse"; "nut"; "oak"; "obey"; "object"; "oblige"; "obscure"; "observe";
   "obtain"; "obvious"; "occur"; "ocean"; "october"; "odor"; "off"; "offer"; "office"; "often"; "oil"; "okay";
   "old"; "olive"; "olympic"; "omit"; "once"; "one"; "onion"; "online"; "only"; "open"; "opera"; "opinion";
   "oppose"; "option"; "orange"; "orbit"; "orchard"; "order"; "ordinary"; "organ"; "orient"; "original";
   "orphan"; "ostrich"; "other"; "outdoor"; "outer"; "output"; "outside"; "oval"; "oven"; "over"; "own";
   "owner"; "oxygen"; "oyster"; "ozone"; "pact"; "paddle"; "page"; "pair"; "palace"; "palm"; "panda"; "panel";
   "panic"; "panther"; "paper"; "parade"; "parent"; "park"; "parrot"; "party"; "pass"; "patch"; "path";
   "patient"; "patrol"; "pattern"; "pause"; "pave"; "payment"; "peace"; "peanut"; "pear"; "peasant";
   "pelican"; "pen"; "penalty"; "pencil"; "people"; "pepper"; "perfect"; "permit"; "person"; "pet"; "phone";
   "photo"; "phrase"; "physical"; "piano"; "picnic"; "picture"; "piece"; "pig"; "pigeon"; "pill"; "pilot";
   "pink"; "pioneer"; "pipe"; "pistol"; "pitch"; "pizza"; "place"; "planet"; "plastic"; "plate"; "play";
   "please"; "pledge"; "pluck"; "plug"; "plunge"; "poem"; "poet"; "point"; "polar"; "pole"; "police"; "pond";
   "pony"; "pool"; "popular"; "portion"; "position"; "possible"; "post"; "potato"; "pottery"; "poverty";
   "powder"; "power"; "practice"; "praise"; "predict"; "prefer"; "prepare"; "present"; "pretty"; "prevent";
   "price"; "pride"; "primary"; "print"; "priority"; "prison"; "private"; "prize"; "problem"; "process";
   "produce"; "profit"; "program"; "project"; "promote"; "proof"; "property"; "prosper"; "protect"; "proud";
   "provide"; "public"; "pudding"; "pull"; "pulp"; "pulse"; "pumpkin"; "punch"; "pupil"; "puppy"; "purchase";
   "purity"; "purpose"; "purse"; "push"; "put"; "puzzle"; "pyramid"; "quality"; "quantum"; "quarter";
   "question"; "quick"; "quit"; "quiz"; "quote"; "rabbit"; "raccoon"; "race"; "rack"; "radar"; "radio";
   "rail"; "rain"; "raise"; "rally"; "ramp"; "ranch"; "random"; "range"; "rapid"; "rare"; "rate"; "rather";
   "raven"; "raw"; "razor"; "ready"; "real"; "reason"; "rebel"; "rebuild"; "recall"; "receive"; "recipe";
   "record"; "recycle"; "reduce"; "reflect"; "reform"; "refuse"; "region"; "regret"; "regular"; "reject";
   "relax"; "release"; "relief"; "rely"; "remain"; "remember"; "remind"; "remove"; "render"; "renew"; "rent";
   "reopen"; "repair"; "repeat"; "replace"; "report"; "require"; "rescue"; "resemble"; "resist"; "resource";
   "response"; "result"; "retire"; "retreat"; "return"; "reunion"; "reveal"; "review"; "reward"; "rhythm";
   "rib"; "ribbon"; "rice"; "rich"; "ride"; "ridge"; "rifle"; "right"; "rigid"; "ring"; "riot"; "ripple";
   "risk"; "ritual"; "rival"; "river"; "road"; "roast"; "robot"; "robust"; "rocket"; "romance"; "roof";
   "rookie"; "room"; "rose"; "rotate"; "rough"; "round"; "route"; "royal"; "rubber"; "rude"; "rug"; "rule";
   "run"; "runway"; "rural"; "sad"; "saddle"; "sadness"; "safe"; "sail"; "salad"; "salmon"; "salon"; "salt";
   "salute"; "same"; "sample"; "sand"; "satisfy"; "satoshi"; "sauce"; "sausage"; "save"; "say"; "scale";
   "scan"; "scare"; "scatter"; "scene"; "scheme"; "school"; "science"; "scissors"; "scorpion"; "scout";
   "scrap"; "screen"; "script"; "scrub"; "sea"; "search"; "season"; "seat"; "second"; "secret"; "section";
   "security"; "seed"; "seek"; "segment"; "select"; "sell"; "seminar"; "senior"; "sense"; "sentence";
   "series"; "service"; "session"; "settle"; "setup"; "seven"; "shadow"; "shaft"; "shallow"; "share"; "shed";
   "shell"; "sheriff"; "shield"; "shift"; "shine"; "ship"; "shiver"; "shock"; "shoe"; "shoot"; "shop";
   "short"; "shoulder"; "shove"; "shrimp"; "shrug"; "shuffle"; "shy"; "sibling"; "sick"; "side"; "siege";
   "sight"; "sign"; "silent"; "silk"; "silly"; "silver"; "similar"; "simple"; "since"; "sing"; "siren";
   "sister"; "situate"; "six"; "size"; "skate"; "sketch"; "ski"; "skill"; "skin"; "skirt"; "skull"; "slab";
   "slam"; "sleep"; "slender"; "slice"; "slide"; "slight"; "slim"; "slogan"; "slot"; "slow"; "slush"; "small";
   "smart"; "smile"; "smoke"; "smooth"; "snack"; "snake"; "snap"; "sniff"; "snow"; "soap"; "soccer"; "social";
   "sock"; "soda"; "soft"; "solar"; "soldier"; "solid"; "solution"; "solve"; "someone"; "song"; "soon";
   "sorry"; "sort"; "soul"; "sound"; "soup"; "source"; "south"; "space"; "spare"; "spatial"; "spawn"; "speak";
   "special"; "speed"; "spell"; "spend"; "sphere"; "spice"; "spider"; "spike"; "spin"; "spirit"; "split";
   "spoil"; "sponsor"; "spoon"; "sport"; "spot"; "spray"; "spread"; "spring"; "spy"; "square"; "squeeze";
   "squirrel"; "stable"; "stadium"; "staff"; "stage"; "stairs"; "stamp"; "stand"; "start"; "state"; "stay";
   "steak"; "steel"; "stem"; "step"; "stereo"; "stick"; "still"; "sting"; "stock"; "stomach"; "stone";
   "stool"; "story"; "stove"; "strategy"; "street"; "strike"; "strong"; "struggle"; "student"; "stuff";
   "stumble"; "style"; "subject"; "submit"; "subway"; "success"; "such"; "sudden"; "suffer"; "sugar";
   "suggest"; "suit"; "summer"; "sun"; "sunny"; "sunset"; "super"; "supply"; "supreme"; "sure"; "surface";
   "surge"; "surprise"; "surround"; "survey"; "suspect"; "sustain"; "swallow"; "swamp"; "swap"; "swarm";
   "swear"; "sweet"; "swift"; "swim"; "swing"; "switch"; "sword"; "symbol"; "symptom"; "syrup"; "system";
   "table"; "tackle"; "tag"; "tail"; "talent"; "talk"; "tank"; "tape"; "target"; "task"; "taste"; "tattoo";
   "taxi"; "teach"; "team"; "tell"; "ten"; "tenant"; "tennis"; "tent"; "term"; "test"; "text"; "thank";
   "that"; "theme"; "then"; "theory"; "there"; "they"; "thing"; "this"; "thought"; "three"; "thrive"; "throw";
   "thumb"; "thunder"; "ticket"; "tide"; "tiger"; "tilt"; "timber"; "time"; "tiny"; "tip"; "tired"; "tissue";
   "title"; "toast"; "tobacco"; "today"; "toddler"; "toe"; "together"; "toilet"; "token"; "tomato";
   "tomorrow"; "tone"; "tongue"; "tonight"; "tool"; "tooth"; "top"; "topic"; "topple"; "torch"; "tornado";
   "tortoise"; "toss"; "total"; "tourist"; "toward"; "tower"; "town"; "toy"; "track"; "trade"; "traffic";
   "tragic"; "train"; "transfer"; "trap"; "trash"; "travel"; "tray"; "treat"; "tree"; "trend"; "trial";
   "tribe"; "trick"; "trigger"; "trim"; "trip"; "trophy"; "trouble"; "truck"; "true"; "truly"; "trumpet";
   "trust"; "truth"; "try"; "tube"; "tuition"; "tumble"; "tuna"; "tunnel"; "turkey"; "turn"; "turtle";
   "twelve"; "twenty"; "twice"; "twin"; "twist"; "two"; "type"; "typical"; "ugly"; "umbrella"; "unable";
   "unaware"; "uncle"; "uncover"; "under"; "undo"; "unfair"; "unfold"; "unhappy"; "uniform"; "unique"; "unit";
   "universe"; "unknown"; "unlock"; "until"; "unusual"; "unveil"; "update"; "upgrade"; "uphold"; "upon";
   "upper"; "upset"; "urban"; "urge"; "usage"; "use"; "used"; "useful"; "useless"; "usual"; "utility";
   "vacant"; "vacuum"; "vague"; "valid"; "valley"; "valve"; "van"; "vanish"; "vapor"; "various"; "vast";
   "vault"; "vehicle"; "velvet"; "vendor"; "venture"; "venue"; "verb"; "verify"; "version"; "very"; "vessel";
   "veteran"; "viable"; "vibrant"; "vicious"; "victory"; "video"; "view"; "village"; "vintage"; "violin";
   "virtual"; "virus"; "visa"; "visit"; "visual"; "vital"; "vivid"; "vocal"; "voice"; "void"; "volcano";
   "volume"; "vote"; "voyage"; "wage"; "wagon"; "wait"; "walk"; "wall"; "walnut"; "want"; "warfare"; "warm";
   "warrior"; "wash"; "wasp"; "waste"; "water"; "wave"; "way"; "wealth"; "weapon"; "wear"; "weasel";
   "weather"; "web"; "wedding"; "weekend"; "weird"; "welcome"; "west"; "wet"; "whale"; "what"; "wheat";
   "wheel"; "when"; "where"; "whip"; "whisper"; "wide"; "width"; "wife"; "wild"; "will"; "win"; "window";
   "wine"; "wing"; "wink"; "winner"; "winter"; "wire"; "wisdom"; "wise"; "wish"; "witness"; "wolf"; "woman";
   "wonder"; "wood"; "wool"; "word"; "work"; "world"; "worry"; "worth"; "wrap"; "wreck"; "wrestle"; "wrist";
   "write"; "wrong"; "yard"; "year"; "yellow"; "you"; "young"; "youth"; "zebra"; "zero"; "zone"; "zoo"]%string.

(** ** Encoding *)

(** The index of word [i] in [buf], the data followed by its hash. *)
Definition word_index (buf : list Z) (i : Z) : Z :=
  let x := UInt32GetBE (take 4 (drop (Z.to_nat (i * 11 / 8)) buf)) in
  Z.shiftr x (32 - (11 + (i * 11) mod 8)) mod BIP39_WORDLIST_COUNT.

(** [strncpy(dst, word, n)]: [n] bytes, the rest after a shorter word filled with zeros. *)
Definition strncpy (word : list Z) (n : Z) : list Z :=
  take (Z.to_nat n) word ++ replicate (Z.to_nat n - length word) 0.

(** The body of the loop for word [i], on the phrase and [len]. *)
Definition encode_word (phraseLen : Z) (wordList : list (list Z)) (buf : list Z) (st : ptr * Z) (i : Z) : option (ptr * Z) :=
  let '(phrase, l) := st in
  word ← wordList !! Z.to_nat (word_index buf i);
  phrase ← match phrase with
           | Some m => if (0 <? i) && (l <? phraseLen) then m' ← mem_write m l [32]; Some (Some m') else Some phrase
           | None => Some phrase
           end;
  let l := if 0 <? i then l + 1 else l in
  phrase ← match phrase with
           | Some m => if l <? phraseLen then m' ← mem_write m l (strncpy word (phraseLen - l)); Some (Some m') else Some phrase
           | None => Some phrase
           end;
  Some (phrase, l + len word).

Fixpoint encode_words (phraseLen : Z) (wordList : list (list Z)) (buf : list Z) (st : ptr * Z) (is_ : list Z) : option (ptr * Z) :=
  match is_ with
  | [] => Some st
  | i :: is_' => st ← encode_word phraseLen wordList buf st i; encode_words phraseLen wordList buf st is_'
  end.

(** [None]: a failed assertion, or an access outside [phrase] or the word list. *)
Definition BRBIP39Encode (phrase : ptr) (phraseLen : Z) (wordList : list (list Z)) (data : list Z) : option (ptr * Z) :=
  if (0 <? len data) && (len data mod 4 =? 0) then
    let buf := data ++ BRSHA256 data in
    '(phrase, l) ← encode_words phraseLen wordList buf (phrase, 0) (seqZ 0 (len data * 3 / 4));
    Some (phrase, match phrase with
                  | None => l + 1
                  | Some _ => if l + 1 <=? phraseLen then l + 1 else 0
                  end)
  else None.

(** ** Decoding *)

(** [strncmp(word, w, strlen(w)) == 0] and the character after it is a space or the end. *)
Definition word_matches (word w : list Z) : bool :=
  bool_decide (take (length w) word = w) &&
  match word !! length w with None => true | Some c => c =? 32 end.

(** The first matching index: [None] is [INT32_MAX]. *)
Fixpoint find_word (word : list Z) (wordList : list (list Z)) (i : Z) : option Z :=
  match wordList with
  | [] => None
  | w :: wordList' => if word_matches word w then Some i else find_word word wordList' (i + 1)
  end.

(** [word = strchr(word, ' '); if (word) word++;]: [None] is NULL. *)
Fixpoint next_word (word : list Z) : option (list Z) :=
  match word with
  | [] => None
  | c :: word' => if c =? 32 then Some word' else next_word word'
  end.

(** The loop with [n = 24 - count]: the indexes read and the pointer left. *)
Fixpoint read_words (n : nat) (wordList : list (list Z)) (word : option (list Z)) : list Z * option (list Z) :=
  match n, word with
  | S n', Some ((_ :: _) as w) =>
      match find_word w wordList 0 with
      | Some i => let '(idx, rest) := read_words n' wordList (next_word w) in (i :: idx, rest)
      | None => ([], word)
      end
  | _, _ => ([], word)
  end.

(** [buf[i]] *)
Definition decode_byte (idx : list Z) (count i : Z) : Z :=
  let x := wd idx (i * 8 / 11) in
  let y := if i * 8 / 11 + 1 <? count then wd idx (i * 8 / 11 + 1) else 0 in
  Z.land (Z.shiftr (u32 (x * BIP39_WORDLIST_COUNT + y)) ((i * 8 / 11 + 2) * 11 - (i + 1) * 8)) 0xff.

Definition BRBIP39Decode (data : ptr) (dataLen : Z) (wordList : list (list Z)) (phrase : list Z) : option (ptr * Z) :=
  let '(idx, word) := read_words 24 wordList (Some phrase) in
  let count := len idx in
  '(data, r) ←
    (if (count mod 3 =? 0) && match word with None | Some [] => true | _ => false end then
       let buf := decode_byte idx count <$> seqZ 0 ((count * 11 + 7) / 8) in
       let b := List.last buf 0 in
       let hash := BRSHA256 (take (Z.to_nat (count * 4 / 3)) buf) in
       if Z.shiftr b (8 - count / 3) =? Z.shiftr (wd hash 0) (8 - count / 3) then
         let r := count * 4 / 3 in
         match data with
         | Some m => if r <=? dataLen then m' ← mem_write m 0 (take (Z.to_nat r) buf); Some (Some m', r) else Some (data, r)
         | None => Some (data, r)
         end
       else Some (data, 0)
     else Some (data, 0));
  Some (data, match data with None => r | Some _ => if r <=? dataLen then r else 0 end).

Definition BRBIP39PhraseIsValid (wordList : list (list Z)) (phrase : list Z) : option bool :=
  '(_, r) ← BRBIP39Decode None 0 wordList phrase; Some (0 <? r).

(** [passphrase] is [None] for NULL. *)
Definition BRBIP39DeriveKey (phrase : list Z) (passphrase : option (list Z)) : list Z :=
  BRPBKDF2 BRSHA512 64 64 phrase (chars "mnemonic" ++ default [] passphrase) 2048.

(** Vectors of [test.c]. *)
Example mnemonic_zeros :
  BRBIP39Encode (Some (replicate 95 1)) 95 BRBIP39WordsEn (replicate 16 0) =
    Some (Some (mjoin (replicate 11 (chars "abandon ")) ++ chars "about" ++ replicate 2 0), 94).
Proof. vm_compute. reflexivity. Qed.

Example mnemonic_zeros_decoded :
  BRBIP39Decode (Some (replicate 16 1)) 16 BRBIP39WordsEn (mjoin (replicate 11 (chars "abandon ")) ++ chars "about") =
    Some (Some (replicate 16 0), 16).
Proof. vm_compute. reflexivity. Qed.


(** ** Bits

    Bit [k] of a byte string and of a list of 11-bit words, the most significant one first. *)
Definition byte_bit (l : list Z) (k : Z) : bool := Z.testbit (wd l (k / 8)) (7 - k mod 8).
Definition word_bit (l : list Z) (k : Z) : bool := Z.testbit (wd l (k / 11)) (10 - k mod 11).

Lemma testbit_high x n m : 0 <= x < 2 ^ n -> 0 <= n <= m -> Z.testbit x m = false.
Proof. intros Hx Hm. rewrite <- (Z.mod_small x (2 ^ n) Hx). apply Z.mod_pow2_bits_high. lia. Qed.

Lemma testbit_digit x y n m : 0 <= n -> 0 <= y < 2 ^ n -> 0 <= m ->
  Z.testbit (x * 2 ^ n + y) m = if m <? n then Z.testbit y m else Z.testbit x (m - n).
Proof.
  intros Hn Hy Hm. rewrite <- (lor_disjoint x y n) by lia. rewrite Z.lor_spec, <- Z.shiftl_mul_pow2, Z.shiftl_spec by lia.
  destruct (Z.ltb_spec m n).
  - now rewrite (Z.testbit_neg_r x (m - n)) by lia.
  - rewrite (testbit_high y n m) by lia. apply orb_false_r.
Qed.

Lemma testbit_le_val l k : bytes_ok l -> 0 <= k -> Z.testbit (le_val l) k = Z.testbit (wd l (k / 8)) (k mod 8).
Proof.
  intros Hl. revert k; induction Hl as [|b l Hb Hl IH]; intros k Hk.
  - cbn [le_num]. unfold wd. rewrite lookup_nil. cbn. now rewrite !Z.bits_0.
  - cbn [le_num]. replace (b + 256 * le_val l) with (le_val l * 2 ^ 8 + b) by (change (2 ^ 8) with 256; lia).
    rewrite testbit_digit by (first [lia | exact Hb]). destruct (Z.ltb_spec k 8).
    + rewrite (Z.div_small k 8), (Z.mod_small k 8) by lia. reflexivity.
    + rewrite IH by lia. replace (k / 8) with (1 + (k - 8) / 8) by zdiv_lia. replace (k mod 8) with ((k - 8) mod 8) by zdiv_lia.
      f_equal. unfold wd. replace (Z.to_nat (1 + (k - 8) / 8)) with (S (Z.to_nat ((k - 8) / 8))) by zdiv_lia. reflexivity.
Qed.

(** Equality of [n]-bit numbers by their bits from the top. *)
Lemma bits_eq n x y : 0 <= n -> 0 <= x < 2 ^ n -> 0 <= y < 2 ^ n ->
  (forall j, 0 <= j < n -> Z.testbit x (n - 1 - j) = Z.testbit y (n - 1 - j)) -> x = y.
Proof.
  intros Hn Hx Hy H. apply Z.bits_inj'. intros i Hi. destruct (Z.ltb_spec i n).
  - specialize (H (n - 1 - i) ltac:(lia)). now replace (n - 1 - (n - 1 - i)) with i in H by lia.
  - rewrite (testbit_high x n i), (testbit_high y n i) by lia. reflexivity.
Qed.

Lemma wd_take_drop l s q : 0 <= s -> 0 <= q < 4 -> wd (take 4 (drop (Z.to_nat s) l)) q = wd l (s + q).
Proof.
  intros. unfold wd. rewrite lookup_take_lt by lia. rewrite lookup_drop. do 2 f_equal. lia.
Qed.

Lemma word_index_bit buf i j : bytes_ok buf -> 0 <= i -> i * 11 / 8 + 4 <= len buf -> 0 <= j < 11 ->
  Z.testbit (word_index buf i) (10 - j) = byte_bit buf (11 * i + j).
Proof.
  intros Hb Hi Hlen Hj. unfold word_index, byte_bit.
  pose proof (Z.mod_pos_bound (i * 11) 8 ltac:(lia)) as Hs. set (s := (i * 11) mod 8) in *. set (q := i * 11 / 8) in *.
  assert (Hq : 11 * i = 8 * q + s) by (subst q s; zdiv_lia). assert (0 <= q) by (subst q; zdiv_lia). clearbody q s.
  set (l := take 4 (drop (Z.to_nat q) buf)).
  assert (Hl : bytes_ok l) by now apply Forall_take, Forall_drop.
  assert (Ll : length l = 4%nat) by (unfold l; rewrite length_take, length_drop; lia).
  rewrite UInt32GetBE_spec by done. change BIP39_WORDLIST_COUNT with (2 ^ 11).
  rewrite Z.mod_pow2_bits_low, Z.shiftr_spec by lia.
  replace (10 - j + (32 - (11 + s))) with (31 - (s + j)) by lia.
  rewrite testbit_le_val by (first [lia | now apply Forall_reverse]).
  replace ((31 - (s + j)) mod 8) with (7 - (11 * i + j) mod 8) by (rewrite Hq; zdiv_lia). f_equal.
  replace ((11 * i + j) / 8) with (q + (s + j) / 8) by (rewrite Hq; zdiv_lia).
  rewrite <- (wd_take_drop buf q) by zdiv_lia. fold l.
  replace ((31 - (s + j)) / 8) with (3 - (s + j) / 8) by zdiv_lia.
  assert (R : 0 <= (s + j) / 8 < 4) by zdiv_lia. revert R. generalize ((s + j) / 8) as t. intros t R.
  do 4 (destruct l as [|? l]; [discriminate|]). destruct l; [|discriminate].
  assert (E : t = 0 \/ t = 1 \/ t = 2 \/ t = 3) by lia. now destruct E as [-> |[-> |[-> | ->]]].
Qed.

Notation indexes_ok := (Forall (fun x => 0 <= x < 2048)).

Lemma wd_index idx k : indexes_ok idx -> 0 <= wd idx k < 2 ^ 11.
Proof.
  intros H. unfold wd. destruct (idx !! Z.to_nat k) as [x|] eqn:E; cbn; [|lia].
  exact (proj1 (Forall_lookup _ _) H _ _ E).
Qed.

Lemma decode_byte_range idx c i : 0 <= decode_byte idx c i < 2 ^ 8.
Proof. unfold decode_byte. rewrite land_0xff. apply Z.mod_pos_bound. lia. Qed.

Lemma decode_byte_bit idx i j : indexes_ok idx -> 0 <= i -> 0 <= j < 8 ->
  Z.testbit (decode_byte idx (len idx) i) (7 - j) = word_bit idx (8 * i + j).
Proof.
  intros Hx Hi Hj. unfold decode_byte, word_bit.
  replace (if i * 8 / 11 + 1 <? len idx then wd idx (i * 8 / 11 + 1) else 0) with (wd idx (i * 8 / 11 + 1)).
  2: { destruct (Z.ltb_spec (i * 8 / 11 + 1) (len idx)); [reflexivity|]. unfold wd. now rewrite lookup_ge_None_2 by lia. }
  set (q := i * 8 / 11). assert (Hq : 0 <= 8 * i - 11 * q < 11) by (subst q; zdiv_lia).
  assert (Hq0 : 0 <= q) by (subst q; zdiv_lia). clearbody q.
  pose proof (wd_index idx q Hx) as Rx. pose proof (wd_index idx (q + 1) Hx) as Ry.
  change BIP39_WORDLIST_COUNT with (2 ^ 11). rewrite u32_id by lia.
  rewrite (land_0xff (Z.shiftr _ _)). change 256 with (2 ^ 8).
  rewrite Z.mod_pow2_bits_low, Z.shiftr_spec by lia.
  replace (7 - j + ((q + 2) * 11 - (i + 1) * 8)) with (21 - (8 * i + j - 11 * q)) by lia.
  rewrite testbit_digit by lia. destruct (Z.ltb_spec (21 - (8 * i + j - 11 * q)) 11).
  - replace ((8 * i + j) / 11) with (q + 1) by zdiv_lia. f_equal. zdiv_lia.
  - replace ((8 * i + j) / 11) with q by zdiv_lia. f_equal. zdiv_lia.
Qed.

(** ** Entropy and indexes *)

(** The words of some entropy, and the entropy of some words if the checksum is right. *)
Definition indexes_of (data : list Z) : list Z := word_index (data ++ BRSHA256 data) <$> seqZ 0 (len data * 3 / 4).

Definition entropy_of (idx : list Z) : option (list Z) :=
  let count := len idx in
  let buf := decode_byte idx count <$> seqZ 0 ((count * 11 + 7) / 8) in
  let data := take (Z.to_nat (count * 4 / 3)) buf in
  if Z.shiftr (List.last buf 0) (8 - count / 3) =? Z.shiftr (wd (BRSHA256 data) 0) (8 - count / 3) then Some data else None.

Lemma wd_fmap_seqZ (f : Z -> Z) n k : 0 <= k < n -> wd (f <$> seqZ 0 n) k = f k.
Proof.
  intros Hk. unfold wd. rewrite list_lookup_fmap, lookup_seqZ_lt by lia. cbn. f_equal. lia.
Qed.

Lemma last_seqZ (f : Z -> Z) n : 0 <= n -> List.last (f <$> seqZ 0 (n + 1)) 0 = f n.
Proof.
  intros Hn. rewrite seqZ_app by lia. rewrite fmap_app. apply List.last_last.
Qed.

Section entropy.
Context (data : list Z) (n : Z) (Hb : bytes_ok data) (Hn : 1 <= n <= 8) (Hl : len data = 4 * n).
Notation buf := (data ++ BRSHA256 data).

Lemma buf_ok : bytes_ok buf /\ len buf = 4 * n + 32.
Proof.
  split; [apply Forall_app; split; [exact Hb|apply (hash_bytes (hash := BRSHA256))]|].
  rewrite length_app, (hash_length (hash := BRSHA256)). lia.
Qed.

Lemma wd_buf i : 0 <= i <= 4 * n -> wd buf i = if i <? 4 * n then wd data i else wd (BRSHA256 data) 0.
Proof.
  intros Hi. unfold wd. destruct (Z.ltb_spec i (4 * n)).
  - rewrite lookup_app_l by lia. reflexivity.
  - rewrite lookup_app_r by lia. replace (Z.to_nat i - length data)%nat with O by lia. reflexivity.
Qed.

Lemma indexes_length : len (indexes_of data) = 3 * n.
Proof. unfold indexes_of. rewrite length_fmap, length_seqZ, Hl. zdiv_lia. Qed.

Lemma indexes_range : indexes_ok (indexes_of data).
Proof.
  unfold indexes_of. apply Forall_fmap, Forall_true. intros i. unfold compose, word_index.
  change BIP39_WORDLIST_COUNT with 2048. apply Z.mod_pos_bound. lia.
Qed.

(** Lists of words that agree bit by bit with the data and its hash. *)
Definition agrees (idx : list Z) : Prop :=
  indexes_ok idx /\ len idx = 3 * n /\ forall k, 0 <= k < 33 * n -> word_bit idx k = byte_bit buf k.

Lemma indexes_agree : agrees (indexes_of data).
Proof.
  split; [apply indexes_range|split; [apply indexes_length|]]. intros k Hk. unfold word_bit.
  assert (Hq : 0 <= k / 11 < 3 * n) by zdiv_lia. unfold indexes_of.
  rewrite wd_fmap_seqZ by (rewrite Hl; zdiv_lia). destruct buf_ok as [Bb Bl].
  rewrite word_index_bit by (first [exact Bb | zdiv_lia]). f_equal. zdiv_lia.
Qed.

Lemma agrees_indexes idx : agrees idx -> idx = indexes_of data.
Proof.
  intros (Hx & Lx & Hk). destruct indexes_agree as (Hx' & Lx' & Hk').
  apply list_eq_same_length with (length (indexes_of data)); [reflexivity|lia|]. intros i x y Hi Ex Ey.
  assert (Wx : forall l z, l !! i = Some z -> wd l (Z.of_nat i) = z) by (intros l z E; unfold wd; now rewrite Nat2Z.id, E).
  apply (bits_eq 11); [lia|exact (proj1 (Forall_lookup _ _) Hx _ _ Ex)|exact (proj1 (Forall_lookup _ _) Hx' _ _ Ey)|].
  intros j Hj. specialize (Hk (11 * Z.of_nat i + j) ltac:(lia)). specialize (Hk' (11 * Z.of_nat i + j) ltac:(lia)).
  rewrite <- Hk' in Hk. unfold word_bit in Hk.
  replace ((11 * Z.of_nat i + j) / 11) with (Z.of_nat i) in Hk by zdiv_lia.
  replace ((11 * Z.of_nat i + j) mod 11) with j in Hk by zdiv_lia.
  now rewrite (Wx _ _ Ex), (Wx _ _ Ey) in Hk.
Qed.

Lemma agrees_bytes idx i : agrees idx -> 0 <= i < 4 * n -> decode_byte idx (3 * n) i = wd data i.
Proof.
  intros (Hx & Lx & Hk) Hi. rewrite <- Lx. apply (bits_eq 8); [lia|apply decode_byte_range|apply (wd_byte data i Hb)|].
  intros j Hj. change (8 - 1 - j) with (7 - j). rewrite decode_byte_bit, Hk by (done || lia). unfold byte_bit.
  replace ((8 * i + j) / 8) with i by zdiv_lia. replace ((8 * i + j) mod 8) with j by zdiv_lia.
  rewrite wd_buf by lia. now rewrite (proj2 (Z.ltb_lt _ _)) by lia.
Qed.

Lemma shiftr_bits x y m : 0 <= m <= 8 -> 0 <= x < 2 ^ 8 -> 0 <= y < 2 ^ 8 ->
  Z.shiftr x (8 - m) = Z.shiftr y (8 - m) <-> forall j, 0 <= j < m -> Z.testbit x (7 - j) = Z.testbit y (7 - j).
Proof.
  intros Hm Hx Hy. split.
  - intros E j Hj. apply (f_equal (fun z => Z.testbit z (m - 1 - j))) in E. rewrite !Z.shiftr_spec in E by lia.
    now replace (m - 1 - j + (8 - m)) with (7 - j) in E by lia.
  - intros H. apply Z.bits_inj'. intros i Hi. rewrite !Z.shiftr_spec by lia.
    destruct (Z.ltb_spec (i + (8 - m)) 8).
    + specialize (H (7 - (i + (8 - m))) ltac:(lia)). now replace (7 - (7 - (i + (8 - m)))) with (i + (8 - m)) in H by lia.
    + rewrite (testbit_high x 8), (testbit_high y 8) by lia. reflexivity.
Qed.

Lemma hash_byte : 0 <= wd (BRSHA256 data) 0 < 2 ^ 8.
Proof. apply (wd_byte (BRSHA256 data) 0), (hash_bytes (hash := BRSHA256)). Qed.

Lemma checksum_bits idx : indexes_ok idx -> len idx = 3 * n ->
  Z.shiftr (decode_byte idx (3 * n) (4 * n)) (8 - n) = Z.shiftr (wd (BRSHA256 data) 0) (8 - n) <->
  forall k, 32 * n <= k < 33 * n -> word_bit idx k = byte_bit buf k.
Proof.
  intros Hx Lx. rewrite shiftr_bits by (first [lia | apply decode_byte_range | apply hash_byte]).
  rewrite <- Lx.
  assert (E : forall j, 0 <= j < n -> Z.testbit (decode_byte idx (len idx) (4 * n)) (7 - j) = word_bit idx (32 * n + j) /\
    Z.testbit (wd (BRSHA256 data) 0) (7 - j) = byte_bit buf (32 * n + j)).
  { intros j Hj. rewrite decode_byte_bit by (done || lia). split; [f_equal; lia|]. unfold byte_bit.
    replace ((32 * n + j) / 8) with (4 * n) by zdiv_lia. replace ((32 * n + j) mod 8) with j by zdiv_lia.
    rewrite wd_buf by lia. now rewrite (proj2 (Z.ltb_ge _ _)) by lia. }
  split.
  - intros H k Hk. destruct (E (k - 32 * n) ltac:(lia)) as [E1 E2]. replace (32 * n + (k - 32 * n)) with k in E1, E2 by lia.
    rewrite <- E1, <- E2. apply H. lia.
  - intros H j Hj. destruct (E j Hj) as [-> ->]. apply H. lia.
Qed.
End entropy.

Lemma count_lengths n : 0 <= n <= 8 -> 3 * n * 4 / 3 = 4 * n /\ 3 * n / 3 = n /\
  (3 * n * 11 + 7) / 8 = (if n =? 0 then 0 else 4 * n + 1).
Proof. intros. destruct (Z.eqb_spec n 0); split_and!; zdiv_lia. Qed.

(** The bytes decoded, without the checksum. *)
Lemma decoded_take idx n : 1 <= n <= 8 -> len idx = 3 * n ->
  let data := take (Z.to_nat (4 * n)) (decode_byte idx (3 * n) <$> seqZ 0 (4 * n + 1)) in
  bytes_ok data /\ len data = 4 * n /\ forall i, 0 <= i < 4 * n -> wd data i = decode_byte idx (3 * n) i.
Proof.
  intros Hn Hl data. split_and!.
  - apply Forall_take, Forall_fmap, Forall_true. intros i. apply decode_byte_range.
  - unfold data. rewrite length_take, length_fmap, length_seqZ. lia.
  - intros i Hi. unfold data. rewrite <- (wd_fmap_seqZ (decode_byte idx (3 * n)) (4 * n + 1) i) by lia.
    unfold wd. now rewrite lookup_take_lt by lia.
Qed.

Lemma wd_ext a b : length a = length b -> (forall i, 0 <= i < len a -> wd a i = wd b i) -> a = b.
Proof.
  intros Hl H. apply list_eq_same_length with (length b); [reflexivity|lia|]. intros i x y Hi Ex Ey.
  specialize (H (Z.of_nat i) ltac:(lia)). unfold wd in H. now rewrite Nat2Z.id, Ex, Ey in H.
Qed.

Lemma entropy_of_indexes data n : bytes_ok data -> 1 <= n <= 8 -> len data = 4 * n ->
  entropy_of (indexes_of data) = Some data.
Proof.
  intros Hb Hn Hl. pose proof (indexes_agree data n Hb Hn Hl) as Ag. destruct Ag as (Hx & Lx & Hk) eqn:EA. clear EA.
  unfold entropy_of. rewrite Lx. destruct (count_lengths n ltac:(lia)) as (-> & -> & ->).
  rewrite (proj2 (Z.eqb_neq n 0)) by lia. cbv zeta.
  destruct (decoded_take _ n Hn Lx) as (Db & Dl & Dw).
  assert (E : take (Z.to_nat (4 * n)) (decode_byte (indexes_of data) (3 * n) <$> seqZ 0 (4 * n + 1)) = data).
  { apply wd_ext; [lia|]. intros i Hi. rewrite Dw by lia. apply agrees_bytes; done || lia. }
  rewrite E, last_seqZ by lia. rewrite (proj2 (Z.eqb_eq _ _)); [reflexivity|].
  apply checksum_bits; try done. intros k Hk'. apply Hk. lia.
Qed.

Lemma entropy_of_sound idx data n : indexes_ok idx -> len idx = 3 * n -> 1 <= n <= 8 -> entropy_of idx = Some data ->
  bytes_ok data /\ len data = 4 * n /\ idx = indexes_of data.
Proof.
  intros Hx Lx Hn. unfold entropy_of. rewrite Lx. destruct (count_lengths n ltac:(lia)) as (-> & -> & ->).
  rewrite (proj2 (Z.eqb_neq n 0)) by lia. cbv zeta.
  destruct (decoded_take _ n Hn Lx) as (Db & Dl & Dw). revert Db Dl Dw.
  generalize (take (Z.to_nat (4 * n)) (decode_byte idx (3 * n) <$> seqZ 0 (4 * n + 1))) as d. intros d Db Dl Dw.
  rewrite last_seqZ by lia. destruct (Z.eqb_spec (Z.shiftr (decode_byte idx (3 * n) (4 * n)) (8 - n)) (Z.shiftr (wd (BRSHA256 d) 0) (8 - n)))
    as [E|]; [|discriminate].
  intros [= <-]. split_and!; [done|done|]. apply (agrees_indexes d n Db Hn Dl). split_and!; [done|done|].
  pose proof (proj1 (checksum_bits d n Hn Dl idx Hx Lx) E) as C. intros k Hk.
  destruct (Z.ltb_spec k (32 * n)); [|apply C; lia].
  unfold byte_bit. rewrite wd_buf with (n := n) by (done || zdiv_lia). rewrite (proj2 (Z.ltb_lt (k / 8) (4 * n))) by zdiv_lia.
  rewrite Dw by zdiv_lia. rewrite <- Lx, decode_byte_bit by (done || zdiv_lia). f_equal. zdiv_lia.
Qed.

(** ** Phrases *)

(** A word list that can be used: distinct, non-empty words without spaces or terminators. *)
Definition words_ok (wl : list (list Z)) : Prop :=
  len wl = BIP39_WORDLIST_COUNT /\ NoDup wl /\ Forall (fun w => w <> [] /\ 0 ∉ w /\ 32 ∉ w) wl.

(** Words separated by spaces. *)
Definition phrase_of (ws : list (list Z)) : list Z :=
  match ws with [] => [] | w :: ws' => foldl (fun P w => P ++ 32 :: w) w ws' end.

Definition words_at (wl : list (list Z)) (idx : list Z) (ws : list (list Z)) : Prop :=
  Forall2 (fun i w => 0 <= i /\ wl !! Z.to_nat i = Some w) idx ws.

Lemma phrase_app P Q ws : foldl (fun P w => P ++ 32 :: w) (P ++ Q) ws = P ++ foldl (fun P w => P ++ 32 :: w) Q ws.
Proof. revert Q; induction ws as [|w ws IH]; intros Q; [done|]. cbn [foldl]. now rewrite <- app_assoc, IH. Qed.

Lemma phrase_cons w w' ws : phrase_of (w :: w' :: ws) = w ++ 32 :: phrase_of (w' :: ws).
Proof. cbn [phrase_of foldl]. rewrite phrase_app. f_equal. exact (phrase_app [32] w' ws). Qed.

(** What may follow a word. *)
Definition ends (rest : list Z) : Prop := rest = [] \/ exists r, rest = 32 :: r.

Lemma word_matches_spec s w : word_matches s w = true <-> exists rest, s = w ++ rest /\ ends rest.
Proof.
  unfold word_matches. rewrite andb_true_iff, bool_decide_eq_true. split.
  - intros [E1 E2]. exists (drop (length w) s). split; [rewrite <- E1 at 1; symmetry; apply take_drop|].
    unfold ends. destruct (s !! length w) as [c|] eqn:E.
    + apply Z.eqb_eq in E2 as ->. right. exists (drop (S (length w)) s). now apply drop_S.
    + left. apply drop_ge. now apply lookup_ge_None.
  - intros (rest & -> & Hr). rewrite take_app_length. split; [done|].
    rewrite lookup_app_r, Nat.sub_diag by lia. destruct Hr as [-> |[r ->]]; done.
Qed.

(** The word in front is determined. *)
Lemma ends_inj w w' rest rest' : 32 ∉ w -> 32 ∉ w' -> ends rest -> ends rest' -> w ++ rest = w' ++ rest' ->
  w = w' /\ rest = rest'.
Proof.
  revert w'; induction w as [|c w IH]; intros [|c' w'] Hw Hw' He He' E; cbn in *.
  - done.
  - destruct He as [-> |[r ->]]; [done|]. injection E as <- _. exfalso. apply Hw'. left.
  - destruct He' as [-> |[r ->]]; [done|]. injection E as -> _. exfalso. apply Hw. left.
  - injection E as -> E. apply not_elem_of_cons in Hw as [_ Hw]. apply not_elem_of_cons in Hw' as [_ Hw'].
    destruct (IH w' Hw Hw' He He' E) as [-> ->]. done.
Qed.

Lemma next_word_app w rest : 32 ∉ w -> ends rest ->
  next_word (w ++ rest) = match rest with [] => None | _ :: r => Some r end.
Proof.
  intros Hw He. induction w as [|c w IH]; cbn.
  - destruct He as [-> |[r ->]]; done.
  - apply not_elem_of_cons in Hw as [Hc Hw]. rewrite (proj2 (Z.eqb_neq c 32)) by congruence. now apply IH.
Qed.

Lemma find_word_spec wl s k : match find_word s wl k with
  | Some i => k <= i < k + len wl /\ exists w, wl !! Z.to_nat (i - k) = Some w /\ word_matches s w = true
  | None => Forall (fun w => word_matches s w = false) wl
  end.
Proof.
  revert k; induction wl as [|w wl IH]; intros k; cbn [find_word]; [constructor|].
  destruct (word_matches s w) eqn:E.
  - split; [cbn; lia|]. exists w. now rewrite Z.sub_diag.
  - specialize (IH (k + 1)). destruct (find_word s wl (k + 1)) as [i|].
    + destruct IH as (Hi & w' & Hw' & Em). split; [cbn; lia|]. exists w'. split; [|done].
      replace (Z.to_nat (i - k)) with (S (Z.to_nat (i - (k + 1)))) by lia. exact Hw'.
    + now constructor.
Qed.

Section words.
Context (wl : list (list Z)) (Hwl : words_ok wl).

Lemma word_ok i w : wl !! i = Some w -> w <> [] /\ 0 ∉ w /\ 32 ∉ w.
Proof. destruct Hwl as (_ & _ & H). intros E. exact (proj1 (Forall_lookup _ _) H i w E). Qed.

Lemma find_word_hit i w rest : 0 <= i -> wl !! Z.to_nat i = Some w -> ends rest -> find_word (w ++ rest) wl 0 = Some i.
Proof.
  intros Hi Hw He. pose proof (find_word_spec wl (w ++ rest) 0) as F.
  assert (M : word_matches (w ++ rest) w = true) by (apply word_matches_spec; eauto).
  destruct (find_word (w ++ rest) wl 0) as [j|].
  - destruct F as (Hj & w' & Hw' & E). rewrite Z.sub_0_r in Hw'. apply word_matches_spec in E as (rest' & E & He').
    destruct (ends_inj w w' rest rest') as [-> _]; try done; [apply (word_ok _ _ Hw)|apply (word_ok _ _ Hw')|].
    destruct Hwl as (_ & N & _). pose proof (proj1 (NoDup_alt wl) N _ _ _ Hw Hw'). f_equal. lia.
  - pose proof (proj1 (Forall_lookup _ _) F _ _ Hw) as E. congruence.
Qed.

Lemma read_phrase idx ws n : words_at wl idx ws -> idx <> [] -> (length idx <= n)%nat ->
  read_words n wl (Some (phrase_of ws)) = (idx, None).
Proof.
  intros H. revert n. induction H as [|i w idx ws [Hi Hw] H IH]; intros n Hne Hn; [done|].
  destruct n as [|n]; [cbn in Hn; lia|]. destruct (word_ok _ _ Hw) as (Wn & W0 & W32).
  assert (R : forall rest, ends rest -> read_words (S n) wl (Some (w ++ rest)) =
    let '(idx, r) := read_words n wl (next_word (w ++ rest)) in (i :: idx, r)).
  { intros rest He. cbn [read_words]. destruct (w ++ rest) as [|c s] eqn:E; [now destruct w|].
    rewrite <- E, (find_word_hit i w rest Hi Hw He). reflexivity. }
  destruct H as [|i' w' idx ws Hw' H].
  - cbn [phrase_of foldl]. rewrite <- (app_nil_r w) at 1. rewrite R by now left.
    rewrite next_word_app by (done || now left). now destruct n.
  - rewrite phrase_cons, R by (right; eauto). rewrite next_word_app by (done || (right; eauto)).
    rewrite IH; [done|done|]. cbn in *. lia.
Qed.

Lemma read_words_sound n : forall word idx rest, read_words n wl word = (idx, rest) -> rest = None \/ rest = Some [] ->
  (length idx <= n)%nat /\ indexes_ok idx /\ exists ws, words_at wl idx ws /\
  match word with
  | None => ws = []
  | Some s => s = phrase_of ws \/ (ws <> [] /\ s = phrase_of ws ++ [32])
  end.
Proof.
  induction n as [|n IH]; intros word idx rest E Hr; cbn [read_words] in E.
  - injection E as <- <-. split_and!; [done|constructor|]. exists []. split; [constructor|]. destruct Hr as [-> | ->]; [done|]. now left.
  - destruct word as [[|c s]|]; cycle 1; [|injection E as <- <-; split_and!; [cbn; lia|constructor|]; exists []; split; [constructor|done]|].
    2: { injection E as <- <-. split_and!; [cbn; lia|constructor|]. exists []. split; [constructor|now left]. }
    pose proof (find_word_spec wl (c :: s) 0) as F. destruct (find_word (c :: s) wl 0) as [i|].
    2: { injection E as <- <-. now destruct Hr. }
    destruct F as (Hi & w & Hw & M). rewrite Z.sub_0_r in Hw. apply word_matches_spec in M as (rest' & Es & He).
    destruct (word_ok _ _ Hw) as (Wn & W0 & W32). rewrite Es, next_word_app in E by done.
    destruct (read_words n wl _) as [idx' r] eqn:Er in E. injection E as <- <-.
    destruct (IH _ _ _ Er Hr) as (Ln & Hx & ws & Hws & Hs). split_and!; [cbn; lia| |].
    + constructor; [|done]. destruct Hwl as (Lw & _). unfold BIP39_WORDLIST_COUNT in Lw. lia.
    + exists (w :: ws). split; [constructor; [split; [lia|done]|done]|]. rewrite Es.
      destruct He as [-> |[r' ->]].
      * subst ws. left. now rewrite app_nil_r.
      * destruct ws as [|w' ws].
        -- cbn in Hs. destruct Hs as [-> |[N _]]; [|done]. right. split; [done|reflexivity].
        -- rewrite phrase_cons. destruct Hs as [-> |[_ ->]]; [now left|right]. split; [done|]. now rewrite <- app_assoc.
Qed.
End words.

(** *** Writing the phrase *)

Lemma phrase_longer P ws : len P <= len (foldl (fun P w => P ++ 32 :: w) P ws).
Proof.
  revert P; induction ws as [|w ws IH]; intros P; cbn [foldl]; [lia|]. specialize (IH (P ++ 32 :: w)).
  rewrite length_app in IH. cbn [length] in IH. lia.
Qed.

Section encode.
Context (wl : list (list Z)) (buf m0 : list Z) (phraseLen : Z) (Hroom : 0 <= phraseLen <= len m0).

(** The buffer once [P] has been written: [strncpy] has cleared the rest of it. *)
Definition image (P : list Z) : list Z :=
  P ++ replicate (Z.to_nat phraseLen - length P) 0 ++ drop (Z.to_nat phraseLen) m0.

Lemma strncpy_word w n : len w <= n -> strncpy w n = w ++ replicate (Z.to_nat n - length w) 0.
Proof. intros. unfold strncpy. now rewrite take_ge by lia. Qed.

Lemma write_word P w : len P + len w <= phraseLen ->
  mem_write (image P) (len P) (strncpy w (phraseLen - len P)) = Some (image (P ++ w)).
Proof.
  intros H. rewrite strncpy_word by lia. unfold image. rewrite (mem_write_mid P _ _ (drop (Z.to_nat phraseLen) m0)).
  - rewrite length_app, <- !app_assoc. do 5 f_equal. lia.
  - reflexivity.
  - rewrite length_app, !length_replicate. lia.
Qed.

Lemma write_space P : len P < phraseLen -> mem_write (image P) (len P) [32] = Some (image (P ++ [32])).
Proof.
  intros H. unfold image. rewrite length_app. cbn [length].
  replace (Z.to_nat phraseLen - length P)%nat with (S (Z.to_nat phraseLen - (length P + 1))) by lia.
  change (replicate (S (Z.to_nat phraseLen - (length P + 1))) 0) with ([0] ++ replicate (Z.to_nat phraseLen - (length P + 1)) 0).
  rewrite <- app_assoc. rewrite (mem_write_mid P [0] [32]) by reflexivity. now rewrite <- app_assoc.
Qed.

Lemma encode_next P i w : 0 < i -> wl !! Z.to_nat (word_index buf i) = Some w -> len P + 1 + len w < phraseLen ->
  encode_word phraseLen wl buf (Some (image P), len P) i = Some (Some (image (P ++ 32 :: w)), len (P ++ 32 :: w)).
Proof.
  intros Hi Hw Hl. unfold encode_word. rewrite Hw. cbn [mbind option_bind].
  rewrite (proj2 (Z.ltb_lt 0 i)), (proj2 (Z.ltb_lt (len P) phraseLen)) by lia. cbn [andb].
  rewrite write_space by lia. cbn [mbind option_bind].
  replace (len P + 1) with (len (P ++ [32])) by (rewrite length_app; cbn [length]; lia).
  rewrite (proj2 (Z.ltb_lt _ phraseLen)), write_word by (rewrite length_app; cbn [length]; lia). cbn [mbind option_bind].
  rewrite <- app_assoc. cbn [app]. f_equal. f_equal. rewrite !length_app. cbn [length]. lia.
Qed.

Lemma encode_first w : wl !! Z.to_nat (word_index buf 0) = Some w -> len w < phraseLen ->
  encode_word phraseLen wl buf (Some m0, 0) 0 = Some (Some (image w), len w).
Proof.
  intros Hw Hl. unfold encode_word. rewrite Hw. cbn [mbind option_bind]. change (0 <? 0) with false. cbn [andb mbind option_bind].
  rewrite (proj2 (Z.ltb_lt 0 phraseLen)) by lia. rewrite Z.sub_0_r, strncpy_word by lia.
  rewrite <- (take_drop (Z.to_nat phraseLen) m0) at 1.
  rewrite (mem_write_mid [] (take (Z.to_nat phraseLen) m0) _ (drop (Z.to_nat phraseLen) m0) 0 eq_refl)
    by (rewrite length_app, length_take, length_replicate; lia).
  cbn [mbind option_bind app]. unfold image. rewrite <- app_assoc. reflexivity.
Qed.

Lemma encode_rest is_ ws P : Forall2 (fun i w => 0 < i /\ wl !! Z.to_nat (word_index buf i) = Some w) is_ ws ->
  let s := foldl (fun P w => P ++ 32 :: w) P ws in len s < phraseLen ->
  encode_words phraseLen wl buf (Some (image P), len P) is_ = Some (Some (image s), len s).
Proof.
  intros H. revert P. induction H as [|i w is_ ws [Hi Hw] H IH]; intros P s Hs; [done|]. cbn [encode_words foldl] in *.
  pose proof (phrase_longer (P ++ 32 :: w) ws) as L. rewrite length_app in L. cbn [length] in L. fold s in L.
  rewrite (encode_next P i w Hi Hw) by lia. cbn [mbind option_bind]. now apply IH.
Qed.

End encode.

Lemma encode_null wl buf phraseLen P is_ ws : Forall2 (fun i w => 0 < i /\ wl !! Z.to_nat (word_index buf i) = Some w) is_ ws ->
  encode_words phraseLen wl buf (None, len P) is_ = Some (None, len (foldl (fun P w => P ++ 32 :: w) P ws)).
Proof.
  intros H. revert P. induction H as [|i w is_ ws [Hi Hw] H IH]; intros P; [done|]. cbn [encode_words foldl].
  unfold encode_word. rewrite Hw. cbn [mbind option_bind]. rewrite (proj2 (Z.ltb_lt 0 i)) by lia.
  replace (len P + 1 + len w) with (len (P ++ 32 :: w)) by (rewrite length_app; cbn [length]; lia). apply IH.
Qed.

(** The words of the data exist, one for each index. *)
Lemma words_exist wl data n : words_ok wl -> bytes_ok data -> 1 <= n <= 8 -> len data = 4 * n ->
  exists ws, words_at wl (indexes_of data) ws.
Proof.
  intros (Lw & _) Hb Hn Hl. pose proof (indexes_range data) as R. unfold BIP39_WORDLIST_COUNT in Lw.
  induction R as [|i idx Hi R IH]; [exists []; constructor|]. destruct IH as [ws Hws].
  destruct (lookup_lt_is_Some_2 wl (Z.to_nat i)) as [w Hw]; [lia|]. exists (w :: ws). constructor; [split; [lia|done]|done].
Qed.

(** The loop of the encoder, split at its first word. *)
Lemma encode_split wl data n ws : 1 <= n <= 8 -> len data = 4 * n -> words_at wl (indexes_of data) ws ->
  exists w ws', ws = w :: ws' /\ seqZ 0 (len data * 3 / 4) = 0 :: seqZ 1 (3 * n - 1) /\
    wl !! Z.to_nat (word_index (data ++ BRSHA256 data) 0) = Some w /\
    Forall2 (fun i w => 0 < i /\ wl !! Z.to_nat (word_index (data ++ BRSHA256 data) i) = Some w) (seqZ 1 (3 * n - 1)) ws'.
Proof.
  intros Hn Hl H.
  assert (E : seqZ 0 (len data * 3 / 4) = 0 :: seqZ 1 (3 * n - 1)).
  { replace (len data * 3 / 4) with (3 * n) by (rewrite Hl; zdiv_lia). rewrite seqZ_cons by lia.
    change (Z.succ 0) with 1. now replace (Z.pred (3 * n)) with (3 * n - 1) by lia. }
  unfold words_at, indexes_of in H. rewrite E in *. revert H. generalize (data ++ BRSHA256 data) as b. intros b H.
  cbn [fmap list_fmap] in H. apply Forall2_cons_inv_l in H as (w & ws' & [_ Hw] & H & ->).
  exists w, ws'. split_and!; [reflexivity|reflexivity|exact Hw|]. apply Forall2_fmap_l in H.
  apply Forall2_same_length_lookup. split; [exact (Forall2_length _ _ _ H)|]. intros i x y Hx Hy.
  split; [apply lookup_seqZ in Hx; lia|]. exact (proj2 (Forall2_lookup_lr _ _ _ _ _ _ H Hx Hy)).
Qed.

Lemma decode_eq p k wl s idx word : read_words 24 wl (Some s) = (idx, word) ->
  BRBIP39Decode p k wl s =
    if (len idx mod 3 =? 0) && match word with None | Some [] => true | _ => false end then
      match entropy_of idx with
      | Some data =>
          let r := len idx * 4 / 3 in
          match p with
          | None => Some (None, r)
          | Some m => if r <=? k then m' ← mem_write m 0 data; Some (Some m', r) else Some (p, 0)
          end
      | None => Some (p, 0)
      end
    else Some (p, 0).
Proof.
  intros E. unfold BRBIP39Decode, entropy_of. rewrite E. cbv zeta. destruct (_ && _).
  - destruct (_ =? _) eqn:Q.
    + destruct p as [m|]; [|reflexivity]. destruct (_ <=? k) eqn:L.
      * destruct (mem_write m 0 _); [|reflexivity]. cbn [mbind option_bind]. now rewrite L.
      * cbn [mbind option_bind]. now rewrite L.
    + cbn [mbind option_bind]. destruct p; [now destruct (_ <=? _)|reflexivity].
  - cbn [mbind option_bind]. destruct p; [now destruct (_ <=? _)|reflexivity].
Qed.

Lemma no_nul_phrase wl idx ws : words_ok wl -> words_at wl idx ws -> 0 ∉ phrase_of ws.
Proof.
  intros Hwl H. destruct H as [|i w idx ws [_ Hw] H]; [apply not_elem_of_nil|]. cbn [phrase_of].
  assert (W0 : 0 ∉ w) by apply (word_ok wl Hwl _ _ Hw). clear Hw. revert w W0.
  induction H as [|i' w' idx ws [_ Hw'] H IH]; intros w W0; [done|]. cbn [foldl]. apply IH.
  rewrite not_elem_of_app, not_elem_of_cons. split_and!; [done|done|apply (word_ok wl Hwl _ _ Hw')].
Qed.

Lemma index_counts data n : 1 <= n <= 8 -> len data = 4 * n ->
  len (indexes_of data) = 3 * n /\ (len (indexes_of data) mod 3 =? 0) = true /\ len (indexes_of data) * 4 / 3 = 4 * n.
Proof.
  intros Hn Hl. pose proof (indexes_length data n Hn Hl) as L. rewrite L. split_and!; [done| |zdiv_lia].
  apply Z.eqb_eq. zdiv_lia.
Qed.

(** C36. Recovery phrases round-trip: for every usable word list and every entropy of 4 to 32 bytes (a
    multiple of 4), [BRBIP39Encode] asks for, and writes, the words of the entropy and its checksum separated
    by single spaces and terminated (clearing the rest of the buffer); the phrase contains no NUL, is
    reported valid, and [BRBIP39Decode] gives exactly the entropy back. *)
Theorem mnemonic_roundtrip wl (data : list Z) n :
  words_ok wl -> bytes_ok data -> 1 <= n <= 8 -> len data = 4 * n ->
  exists ws, let s := phrase_of ws in
  words_at wl (indexes_of data) ws /\ 0 ∉ s /\
  BRBIP39Encode None 0 wl data = Some (None, len s + 1) /\
  (forall m phraseLen, len s + 1 <= phraseLen <= len m ->
     BRBIP39Encode (Some m) phraseLen wl data =
     Some (Some (s ++ replicate (Z.to_nat phraseLen - length s) 0 ++ drop (Z.to_nat phraseLen) m), len s + 1)) /\
  BRBIP39PhraseIsValid wl s = Some true /\
  (forall m k, len data <= k <= len m ->
     BRBIP39Decode (Some m) k wl s = Some (Some (data ++ drop (length data) m), len data)).
Proof.
  intros Hwl Hb Hn Hl. destruct (words_exist wl data n Hwl Hb Hn Hl) as [ws Hws]. exists ws. cbv zeta.
  assert (Henc : forall p k, BRBIP39Encode p k wl data =
    '(phrase, l) ← encode_words k wl (data ++ BRSHA256 data) (p, 0) (seqZ 0 (len data * 3 / 4));
    Some (phrase, match phrase with None => l + 1 | Some _ => if l + 1 <=? k then l + 1 else 0 end)).
  { intros p k. unfold BRBIP39Encode. rewrite (proj2 (Z.ltb_lt 0 _)) by lia.
    rewrite (proj2 (Z.eqb_eq (len data mod 4) 0)) by (rewrite Hl; zdiv_lia). reflexivity. }
  destruct (encode_split wl data n ws Hn Hl Hws) as (w & ws' & -> & Es & Hw & Hws').
  assert (Hread : read_words 24 wl (Some (phrase_of (w :: ws'))) = (indexes_of data, None)).
  { destruct (index_counts data n Hn Hl) as (Lc & _ & _). apply read_phrase; [done|done| |lia].
    intros E. rewrite E in Lc. cbn in Lc. lia. }
  destruct (index_counts data n Hn Hl) as (Lc & Lm & Lr).
  pose proof (entropy_of_indexes data n Hb Hn Hl) as He.
  split_and!; [done|now apply (no_nul_phrase wl (indexes_of data))| | | |].
  - rewrite Henc, Es. cbn [encode_words encode_word]. rewrite Hw. cbn [mbind option_bind].
    change (0 <? 0) with false. cbv iota. rewrite Z.add_0_l, (encode_null wl _ 0 w _ ws' Hws'). reflexivity.
  - intros m k Hk. rewrite Henc, Es. cbn [encode_words].
    pose proof (phrase_longer w ws') as Lw. cbn [phrase_of] in *.
    rewrite (encode_first wl _ m k ltac:(lia) w Hw) by lia. cbn [mbind option_bind].
    rewrite (encode_rest wl _ m k ltac:(lia) _ ws' w Hws') by lia. cbn [mbind option_bind].
    now rewrite (proj2 (Z.leb_le _ k)) by lia.
  - unfold BRBIP39PhraseIsValid. rewrite (decode_eq None 0 wl _ _ _ Hread), Lm, He. cbn [andb mbind option_bind].
    rewrite Lr. now rewrite (proj2 (Z.ltb_lt _ _)) by lia.
  - intros m k Hk. rewrite (decode_eq (Some m) k wl _ _ _ Hread), Lm, He. cbn [andb]. cbv zeta. rewrite Lr.
    rewrite (proj2 (Z.leb_le _ k)), mem_write_0 by lia. cbn [mbind option_bind]. now rewrite Hl.
Qed.

(** C37. [BRBIP39Decode] accepts nothing but encodings: when it reports [r > 0] bytes for a phrase, it has
    written some entropy of [r] bytes, and the phrase is the encoding of that entropy, possibly followed by
    one space; so a phrase with an unknown word, a wrong number of words, a wrong checksum or other spacing is
    refused, and two phrases that differ in more than a final space never decode to the same entropy. *)
Theorem mnemonic_sound wl (s : list Z) m k m' r :
  words_ok wl -> BRBIP39Decode (Some m) k wl s = Some (Some m', r) -> 0 < r -> k <= len m ->
  exists data n ws, bytes_ok data /\ 1 <= n <= 8 /\ r = 4 * n /\ len data = r /\
    m' = data ++ drop (length data) m /\ words_at wl (indexes_of data) ws /\
    (s = phrase_of ws \/ s = phrase_of ws ++ [32]).
Proof.
  intros Hwl E Hr Hk. destruct (read_words 24 wl (Some s)) as [idx word] eqn:Er.
  rewrite (decode_eq (Some m) k wl s idx word Er) in E. destruct (Z.eqb_spec (len idx mod 3) 0) as [M|]; cbn [andb] in E;
    [|injection E as _ <-; lia].
  assert (Hw : (word = None \/ word = Some []) \/ 0 = r).
  { destruct word as [[|? ?]|]; [left; now right| |left; now left]. right. now injection E. }
  destruct Hw as [Hw|]; [|lia].
  destruct (read_words_sound wl Hwl 24 _ _ _ Er Hw) as (Ln & Hx & ws & Hws & Hs).
  assert (E' : (match entropy_of idx with
    | Some data => if len idx * 4 / 3 <=? k then m'' ← mem_write m 0 data; Some (Some m'', len idx * 4 / 3) else Some (Some m, 0)
    | None => Some (Some m, 0) end) = Some (Some m', r)) by (destruct Hw as [-> | ->]; exact E).
  destruct (entropy_of idx) as [data|] eqn:Ee; [|injection E' as _ <-; lia].
  destruct (Z.leb_spec (len idx * 4 / 3) k) as [Lk|]; [|injection E' as _ <-; lia].
  assert (Hn : 1 <= len idx / 3 <= 8 /\ len idx = 3 * (len idx / 3)).
  { assert (len idx <> 0) by (intros Z0; rewrite Z0 in E'; destruct (mem_write m 0 data); [|discriminate]; injection E' as _ <-; zdiv_lia).
    zdiv_lia. }
  destruct Hn as [Hn Li]. destruct (entropy_of_sound idx data (len idx / 3) Hx Li Hn Ee) as (Db & Dl & Di).
  rewrite mem_write_0 in E' by zdiv_lia. injection E' as <- <-.
  exists data, (len idx / 3), ws. rewrite <- Di. split_and!; try done; try zdiv_lia.
  destruct Hs as [Hs|[_ Hs]]; [now left|now right].
Qed.

(** *** The English list *)

Fixpoint increasing (lo : Z) (l : list Z) : bool :=
  match l with [] => true | x :: l' => (lo <? x) && increasing x l' end.

Lemma increasing_NoDup lo l : increasing lo l = true -> NoDup l /\ Forall (fun x => lo < x) l.
Proof.
  revert lo; induction l as [|x l IH]; intros lo H; cbn in *; [split; constructor|].
  apply andb_true_iff in H as [H1 H2]. apply Z.ltb_lt in H1. destruct (IH x H2) as [N F]. split.
  - constructor; [|done]. intros Hin. pose proof (proj1 (Forall_forall _ _) F x Hin) as L. simpl in L. lia.
  - constructor; [done|]. eapply Forall_impl; [exact F|]. simpl. lia.
Qed.

(** A word as a number of eight digits, so that the dictionary order is the order of numbers. *)
Definition word_key (w : list Z) : Z := foldl (fun a c => a * 256 + c) 0 (w ++ replicate (8 - length w) 0).

Lemma english_words_ok : words_ok BRBIP39WordsEn.
Proof.
  split; [vm_compute; reflexivity|]. split.
  - apply (NoDup_fmap_1 word_key), (increasing_NoDup 0). vm_compute. reflexivity.
  - apply Forall_forall. intros w Hw.
    assert (B : forallb (fun w => negb (Nat.eqb (length w) 0) && forallb (fun c => (97 <=? c) && (c <=? 122)) w) BRBIP39WordsEn = true)
      by (vm_compute; reflexivity).
    rewrite forallb_forall in B. specialize (B w (proj1 (list_elem_of_In _ _) Hw)). apply andb_true_iff in B as [B1 B2].
    rewrite forallb_forall in B2. split_and!.
    + intros ->. discriminate.
    + intros H. specialize (B2 0 (proj1 (list_elem_of_In _ _) H)). discriminate.
    + intros H. specialize (B2 32 (proj1 (list_elem_of_In _ _) H)). discriminate.
Qed.

Lemma mnemonic_roundtrip_witness : exists ws,
  BRBIP39PhraseIsValid BRBIP39WordsEn (phrase_of ws) = Some true /\
  BRBIP39Decode (Some (replicate 16 0)) 16 BRBIP39WordsEn (phrase_of ws) = Some (Some (replicate 16 0x7f), 16).
Proof.
  destruct (mnemonic_roundtrip BRBIP39WordsEn (replicate 16 0x7f) 4) as (ws & _ & _ & _ & _ & Hv & Hd).
  - exact english_words_ok.
  - apply Forall_replicate. unfold is_byte; lia.
  - lia.
  - reflexivity.
  - exists ws. split; [exact Hv|]. exact (Hd (replicate 16 0) 16 ltac:(rewrite !length_replicate; lia)).
Defined.

Lemma mnemonic_sound_witness : exists data n ws,
  replicate 16 0 = data ++ drop (length data) (replicate 16 1) /\ 16 = 4 * n /\
  words_at BRBIP39WordsEn (indexes_of data) ws.
Proof.
  destruct (mnemonic_sound BRBIP39WordsEn (mjoin (replicate 11 (chars "abandon ")) ++ chars "about") (replicate 16 1) 16
    (replicate 16 0) 16 english_words_ok mnemonic_zeros_decoded) as (data & n & ws & _ & _ & Hn & _ & Hm & Hws & _);
    [lia|rewrite length_replicate; lia|]. exists data, n, ws. split; [exact Hm|]. split; [exact Hn|exact Hws].
Defined.
