(* ===== verification/Wallet.v ===== *)
(** * Wallet: the state of the wallet and its balance (BRWallet.c, BRWallet.h)

    The hash tables of the wallet are finite maps and sets (SetTable proves that BRSet refines them).
    [allTx] is the store of transaction objects: pointers to them, in [transactions] and in the sets,
    are their hashes, so that setting the height or the time stamp of a transaction through one
    pointer is seen through all of them; a dangling pointer makes an operation return [None], as does
    a failed assertion.  The fields that [_BRWalletUpdateBalance] recomputes are the [Ledger].  The
    time and whether an array was moved by [realloc] are arguments; callbacks are returned as a list
    of events; the lock is not modelled (every operation is one atomic step). *)
From stdpp Require Import base numbers list gmap sets sorting.
From Stdlib Require Import ZArith Lia.
From S2P Require Import Prelude CMem Int Crypto Address Transaction Key Sequence.
Local Open Scope Z_scope.

(** ** Data *)

Notation BRUTXO := (Z * Z)%type.

(** The hash table callbacks; the product is taken at 32 bits. *)
Definition BRUTXOHash (utxo : BRUTXO) : Z := u32 (Z.lxor (wd (u32s (fst utxo)) 0) (snd utxo) * 0x01000193).
Definition BRUTXOEq (utxo otherUtxo : BRUTXO) : bool :=
  UInt256Eq (fst utxo) (fst otherUtxo) && (snd utxo =? snd otherUtxo).

Definition DEFAULT_FEE_PER_KB : Z := (5000 * 1000 + 99) / 100.
Definition MIN_FEE_PER_KB : Z := (TX_FEE_PER_KB * 1000 + 190) / 191.

Record Ledger := mkLedger {
  utxos : list BRUTXO;
  balanceHist : list Z;
  spentOutputs : gset BRUTXO;
  invalidTx : gset Z;
  pendingTx : gset Z;
  usedAddrs : gset (list Z);
  totalSent : Z;
  totalReceived : Z;
  balance : Z;
}.

Definition ledger0 : Ledger := mkLedger [] [] ∅ ∅ ∅ ∅ 0 0 0.

Record BRWallet := mkWallet {
  feePerKb : Z;
  walletHeight : Z;
  transactions : list Z;
  allTx : gmap Z BRTransaction;
  masterPubKey : BRMasterPubKey;
  internalChain : list (list Z);
  externalChain : list (list Z);
  allAddrs : gset (list Z);
  ledger : Ledger;
}.

Definition set_ledger (w : BRWallet) (l : Ledger) : BRWallet :=
  mkWallet (feePerKb w) (walletHeight w) (transactions w) (allTx w) (masterPubKey w) (internalChain w)
    (externalChain w) (allAddrs w) l.
Definition set_transactions (w : BRWallet) (txs : list Z) : BRWallet :=
  mkWallet (feePerKb w) (walletHeight w) txs (allTx w) (masterPubKey w) (internalChain w)
    (externalChain w) (allAddrs w) (ledger w).
Definition set_allTx (w : BRWallet) (m : gmap Z BRTransaction) : BRWallet :=
  mkWallet (feePerKb w) (walletHeight w) (transactions w) m (masterPubKey w) (internalChain w)
    (externalChain w) (allAddrs w) (ledger w).
Definition set_height (w : BRWallet) (h : Z) : BRWallet :=
  mkWallet (feePerKb w) h (transactions w) (allTx w) (masterPubKey w) (internalChain w)
    (externalChain w) (allAddrs w) (ledger w).

(** The callbacks the wallet makes. *)
Inductive Event :=
  | balanceChanged (balance : Z)
  | txAdded (txHash : Z)
  | txUpdated (txHashes : list Z) (blockHeight timestamp : Z)
  | txDeleted (txHash : Z) (notifyUser recommendRescan : bool).

(** The addresses of the chains of a master public key, as BRBIP32Sequence.c and BRKey.c compute them:
    [None] is a failed assertion, [Some None] a failed call.  [sequence_chain] below is that computation. *)
Class AddressChain := chain_address : BRMasterPubKey -> Z -> Z -> option (option (list Z)).

(** ** Fees and ordering *)

Definition _txFee (feePerKb size : Z) : Z :=
  let standardFee := u64 (size * TX_FEE_PER_KB) / 1000 in
  let fee := u64 (u64 (u64 (size * feePerKb) / 1000 + 99) / 100 * 100) in
  if standardFee <? fee then fee else standardFee.

(** The loop from [i = n] down. *)
Fixpoint chain_index (n : nat) (tx : BRTransaction) (addrChain : list (list Z)) : Z :=
  match n with
  | O => SIZE_MAX
  | S n' =>
      if existsb (fun o => BRAddressEq (out_address o) (default [] (addrChain !! n'))) (outputs tx)
      then Z.of_nat n' else chain_index n' tx addrChain
  end.

Definition _txChainIndex (tx : BRTransaction) (addrChain : list (list Z)) : Z :=
  chain_index (length addrChain) tx addrChain.

(** [for (...) if (f(a)) return 1;] with a body that may fail. *)
Fixpoint any_of {A} (f : A -> option bool) (l : list A) : option bool :=
  match l with
  | [] => Some false
  | a :: l' => r ← f a; if (r : bool) then Some true else any_of f l'
  end.

(** The recursion through the inputs of [tx1]; NULL is [None]. *)
Fixpoint ascending (fuel : nat) (m : gmap Z BRTransaction) (tx1 : option BRTransaction) (tx2 : BRTransaction) : option bool :=
  match fuel with
  | O => None
  | S fuel' =>
      match tx1 with
      | None => Some false
      | Some tx1 =>
          if blockHeight tx2 <? blockHeight tx1 then Some true
          else if blockHeight tx1 <? blockHeight tx2 then Some false
          else if existsb (fun i => UInt256Eq (in_txHash i) (txHash tx2)) (inputs tx1) then Some true
          else if existsb (fun i => UInt256Eq (in_txHash i) (txHash tx1)) (inputs tx2) then Some false
          else any_of (fun i => ascending fuel' m (m !! in_txHash i) tx2) (inputs tx1)
      end
  end.

(** Enough fuel for a recursion through the ancestors of a transaction. *)
Definition tx_fuel (m : gmap Z BRTransaction) : nat := S (S (size m)).

Definition _BRWalletTxIsAscending (w : BRWallet) (tx1 tx2 : BRTransaction) : option bool :=
  ascending (tx_fuel (allTx w)) (allTx w) (Some tx1) tx2.

Definition _BRWalletTxCompare (w : BRWallet) (tx1 tx2 : BRTransaction) : option Z :=
  a ← _BRWalletTxIsAscending w tx1 tx2;
  if (a : bool) then Some 1
  else
    b ← _BRWalletTxIsAscending w tx2 tx1;
    if (b : bool) then Some (-1)
    else
      let i := _txChainIndex tx1 (internalChain w) in
      let j := _txChainIndex tx2 (if i =? SIZE_MAX then externalChain w else internalChain w) in
      let i := if (i =? SIZE_MAX) && negb (j =? SIZE_MAX) then _txChainIndex tx1 (externalChain w) else i in
      Some (if negb (i =? SIZE_MAX) && negb (j =? SIZE_MAX) && negb (i =? j) then (if j <? i then 1 else -1) else 0).

(** The insertion sort from the end of the array; [l] is the part not yet passed, last element first. *)
Fixpoint insert_from (w : BRWallet) (tx : BRTransaction) (l : list Z) : option (list Z) :=
  match l with
  | [] => Some [txHash tx]
  | h :: l' =>
      t ← allTx w !! h;
      c ← _BRWalletTxCompare w t tx;
      if 0 <? c then r ← insert_from w tx l'; Some (h :: r) else Some (txHash tx :: l)
  end.

Definition _BRWalletInsertTx (w : BRWallet) (tx : BRTransaction) : option BRWallet :=
  l ← insert_from w tx (reverse (transactions w)); Some (set_transactions w (reverse l)).

(** ** Which transactions concern the wallet *)

Definition owned (addrs : gset (list Z)) (o : BRTxOutput) : bool := bool_decide (out_address o ∈ addrs).

(** The output an input spends, if its transaction is known. *)
Definition spent_output (m : gmap Z BRTransaction) (i : BRTxInput) : option BRTxOutput :=
  t ← m !! in_txHash i; outputs t !! Z.to_nat (in_index i).

Definition _BRWalletContainsTx (w : BRWallet) (tx : BRTransaction) : bool :=
  existsb (owned (allAddrs w)) (outputs tx) ||
  existsb (fun i => match spent_output (allTx w) i with Some o => owned (allAddrs w) o | None => false end) (inputs tx).

(** ** The balance *)

Definition input_utxo (i : BRTxInput) : BRUTXO := (in_txHash i, in_index i).
Definition is_unconfirmed (tx : BRTransaction) : bool := blockHeight tx =? TX_UNCONFIRMED.

Definition inputs_invalid (l : Ledger) (tx : BRTransaction) : bool :=
  existsb (fun i => bool_decide (input_utxo i ∈ spentOutputs l) || bool_decide (in_txHash i ∈ invalidTx l)) (inputs tx).

(** The checks that depend only on the transaction, the height and the time. *)
Definition postdated (height now : Z) (lockTime : Z) (i : BRTxInput) : bool :=
  (in_sequence i <? UINT32_MAX - 1) ||
  ((in_sequence i <? UINT32_MAX) && (lockTime <? TX_MAX_LOCK_HEIGHT) && (u32 (height + 1) <? lockTime)) ||
  ((in_sequence i <? UINT32_MAX) && (now <? lockTime)).

Definition has_dust (tx : BRTransaction) : bool := existsb (fun o => out_amount o <? TX_MIN_OUTPUT_AMOUNT) (outputs tx).

Definition inputs_pending (height now : Z) (l : Ledger) (tx : BRTransaction) : bool :=
  (TX_MAX_SIZE <? BRTransactionSize tx) || has_dust tx ||
  existsb (fun i => postdated height now (lockTime tx) i || bool_decide (in_txHash i ∈ pendingTx l)) (inputs tx).

Definition add_spent (l : Ledger) (tx : BRTransaction) : Ledger :=
  mkLedger (utxos l) (balanceHist l) (spentOutputs l ∪ list_to_set (input_utxo <$> inputs tx)) (invalidTx l)
    (pendingTx l) (usedAddrs l) (totalSent l) (totalReceived l) (balance l).

Definition add_hist (l : Ledger) : Ledger :=
  mkLedger (utxos l) (balanceHist l ++ [balance l]) (spentOutputs l) (invalidTx l) (pendingTx l) (usedAddrs l)
    (totalSent l) (totalReceived l) (balance l).

Definition add_invalid (l : Ledger) (tx : BRTransaction) : Ledger :=
  mkLedger (utxos l) (balanceHist l) (spentOutputs l) ({[txHash tx]} ∪ invalidTx l) (pendingTx l) (usedAddrs l)
    (totalSent l) (totalReceived l) (balance l).

Definition add_pending (l : Ledger) (tx : BRTransaction) : Ledger :=
  mkLedger (utxos l) (balanceHist l) (spentOutputs l) (invalidTx l) ({[txHash tx]} ∪ pendingTx l) (usedAddrs l)
    (totalSent l) (totalReceived l) (balance l).

Definition set_utxos (l : Ledger) (us : list BRUTXO) (b : Z) : Ledger :=
  mkLedger us (balanceHist l) (spentOutputs l) (invalidTx l) (pendingTx l) (usedAddrs l) (totalSent l) (totalReceived l) b.

Definition use_addr (l : Ledger) (a : list Z) : Ledger :=
  mkLedger (utxos l) (balanceHist l) (spentOutputs l) (invalidTx l) (pendingTx l) ({[a]} ∪ usedAddrs l)
    (totalSent l) (totalReceived l) (balance l).

(** The loop over the outputs, from output [j] on. *)
Fixpoint add_outputs (addrs : gset (list Z)) (hash : Z) (j : Z) (outs : list BRTxOutput) (l : Ledger) : Ledger :=
  match outs with
  | [] => l
  | o :: outs' =>
      let l := if bool_decide (out_address o = []) then l
               else
                 let l := use_addr l (out_address o) in
                 if owned addrs o then set_utxos l (utxos l ++ [(hash, u32 j)]) (u64 (balance l + out_amount o)) else l in
      add_outputs addrs hash (j + 1) outs' l
  end.

(** The amount of an output, read through the store. *)
Definition utxo_amount (m : gmap Z BRTransaction) (u : BRUTXO) : option Z :=
  t ← m !! fst u; option_map out_amount (outputs t !! Z.to_nat (snd u)).

(** [for (j = array_count(utxos); j > 0; j--)]: the end of the array is swept first. *)
Fixpoint sweep (m : gmap Z BRTransaction) (spent : gset BRUTXO) (us : list BRUTXO) (b : Z) : option (list BRUTXO * Z) :=
  match us with
  | [] => Some ([], b)
  | u :: us' =>
      r ← sweep m spent us' b;
      if decide (u ∈ spent) then a ← utxo_amount m u; Some (fst r, u64 (snd r - a))
      else Some (u :: fst r, snd r)
  end.

Definition add_totals (prevBalance : Z) (l : Ledger) : Ledger :=
  mkLedger (utxos l) (balanceHist l) (spentOutputs l) (invalidTx l) (pendingTx l) (usedAddrs l)
    (if balance l <? prevBalance then u64 (totalSent l + u64 (prevBalance - balance l)) else totalSent l)
    (if prevBalance <? balance l then u64 (totalReceived l + u64 (balance l - prevBalance)) else totalReceived l)
    (balance l).

(** One iteration; the state is the ledger and [prevBalance]. *)
Definition scan_tx (w : BRWallet) (now : Z) (st : Ledger * Z) (h : Z) : option (Ledger * Z) :=
  let '(l, prevBalance) := st in
  tx ← allTx w !! h;
  if is_unconfirmed tx && inputs_invalid l tx then Some (add_hist (add_invalid l tx), prevBalance)
  else
    let l := add_spent l tx in
    if is_unconfirmed tx && inputs_pending (walletHeight w) now l tx then Some (add_hist (add_pending l tx), prevBalance)
    else
      let l := add_outputs (allAddrs w) (txHash tx) 0 (outputs tx) l in
      r ← sweep (allTx w) (spentOutputs l) (utxos l) (balance l);
      let l := add_totals prevBalance (set_utxos l (fst r) (snd r)) in
      Some (add_hist l, balance l).

Definition _BRWalletUpdateBalance (w : BRWallet) (now : Z) : option BRWallet :=
  st ← for_each (scan_tx w now) (ledger0, 0) (transactions w);
  if Z.of_nat (length (balanceHist (fst st))) =? len (transactions w) then Some (set_ledger w (fst st)) else None.

(** ** Address chains *)

Section chains.
Context `{AddressChain}.

(** The index after the last used address, from the end; [l] is the chain reversed. *)
Fixpoint first_unused (used : gset (list Z)) (l : list (list Z)) : Z :=
  match l with
  | [] => 0
  | a :: l' => if bool_decide (a ∈ used) then len l else first_unused used l'
  end.

(** [while (i + gapLimit > count)]: the extended chain and the last [i]. *)
Fixpoint gen_addrs (fuel : nat) (mpk : BRMasterPubKey) (chain gapLimit : Z) (used : gset (list Z)) (i : Z)
    (addrChain : list (list Z)) : option (list (list Z) * Z) :=
  let count := len addrChain in
  if count <? i + gapLimit then
    match fuel with
    | O => None
    | S fuel' =>
        r ← chain_address mpk chain (u32 count);
        match r with
        | None => Some (addrChain, i)
        | Some address =>
            gen_addrs fuel' mpk chain gapLimit used (if bool_decide (address ∈ used) then count + 1 else i)
              (addrChain ++ [address])
        end
    end
  else Some (addrChain, i).

Definition gap_fuel (gapLimit : Z) (used : gset (list Z)) : nat := (Z.to_nat gapLimit * S (size used))%nat.

Definition wallet_chain (w : BRWallet) (internal : bool) : list (list Z) :=
  if internal then internalChain w else externalChain w.

Definition set_chain (w : BRWallet) (internal : bool) (chain : list (list Z)) (addrs : gset (list Z)) : BRWallet :=
  mkWallet (feePerKb w) (walletHeight w) (transactions w) (allTx w) (masterPubKey w)
    (if internal then chain else internalChain w) (if internal then externalChain w else chain) addrs (ledger w).

(** The new wallet and the addresses written; [moved] says whether the array was moved to a new
    memory location. *)
Definition BRWalletUnusedAddrs (moved : bool) (w : BRWallet) (addrs : bool) (gapLimit : Z) (internal : bool)
    : option (BRWallet * list (list Z)) :=
  if gapLimit <=? 0 then None
  else
    let chain := if internal then SEQUENCE_INTERNAL_CHAIN else SEQUENCE_EXTERNAL_CHAIN in
    let addrChain := wallet_chain w internal in
    let used := usedAddrs (ledger w) in
    r ← gen_addrs (gap_fuel gapLimit used) (masterPubKey w) chain gapLimit used
          (first_unused used (reverse addrChain)) addrChain;
    let '(newChain, i) := r in
    let w' := set_chain w internal newChain (allAddrs w) in
    let all := if moved then list_to_set (internalChain w') ∪ list_to_set (externalChain w')
               else allAddrs w ∪ list_to_set (drop (length addrChain) newChain) in
    Some (set_chain w internal newChain all,
          if addrs && (i + gapLimit <=? len newChain)
          then take (Z.to_nat gapLimit) (drop (Z.to_nat i) newChain) else []).
End chains.

(** ** Loops *)

(** An invariant of the prefix processed so far, for a body that succeeds as long as it holds. *)
Lemma for_each_total {S A} (P : list A -> S -> Prop) (f : S -> A -> option S) l s :
  P [] s ->
  (forall pre a post s, l = pre ++ a :: post -> P pre s -> exists s', f s a = Some s' /\ P (pre ++ [a]) s') ->
  exists s', for_each f s l = Some s' /\ P l s'.
Proof.
  intros H0 Hstep. cut (forall post pre s, l = pre ++ post -> P pre s -> exists s', for_each f s post = Some s' /\ P l s').
  { intros H. exact (H l [] s eq_refl H0). }
  induction post as [|a post IH]; intros pre s1 El Hs.
  - rewrite app_nil_r in El. subst pre. exists s1. done.
  - destruct (Hstep pre a post s1 El Hs) as (s2 & E & H2). cbn [for_each]. rewrite E, bind_Some_l.
    apply (IH (pre ++ [a])); [now rewrite <- app_assoc|done].
Qed.

(** ** Sums of amounts *)

Definition utxo_value (m : gmap Z BRTransaction) (u : BRUTXO) : Z := default 0 (utxo_amount m u).
Definition total (m : gmap Z BRTransaction) (us : list BRUTXO) : Z := foldr Z.add 0 (utxo_value m <$> us).

Lemma total_app m us vs : total m (us ++ vs) = total m us + total m vs.
Proof. induction us as [|u us IH]; [done|]. unfold total in *. cbn. rewrite IH. lia. Qed.

Lemma total_cons m u us : total m (u :: us) = utxo_value m u + total m us.
Proof. done. Qed.

Notation unspent spent := (fun u : BRUTXO => u ∉ (spent : gset BRUTXO)).

(** The sweep keeps the unspent entries, in order, and subtracts the amounts of the others. *)
Lemma sweep_spec m spent us b : 0 <= b < 0x10000000000000000 ->
  Forall (fun u => is_Some (utxo_amount m u)) us ->
  exists r, sweep m spent us b = Some r /\ fst r = filter (unspent spent) us /\
    snd r = u64 (b - total m us + total m (filter (unspent spent) us)).
Proof.
  intros Hb. induction 1 as [|u us [a Ha] Hus IH]; cbn [sweep].
  - exists ([], b). split; [done|]. split; [done|]. cbn. rewrite u64_id; lia.
  - destruct IH as ([us' b'] & -> & Eu & Eb). cbn [fst snd] in *. rewrite bind_Some_l. cbn [fst snd].
    rewrite filter_cons, total_cons. unfold utxo_value. rewrite Ha. cbn [default].
    destruct (decide (u ∈ spent)) as [Hu|Hu].
    + rewrite bind_Some_l. rewrite (decide_False (P := u ∉ spent)) by tauto. eexists. split; [done|].
      split; [done|]. cbn [snd]. rewrite Eb, u64_sub_l. f_equal. change (id a) with a. lia.
    + rewrite (decide_True (P := u ∉ spent)) by done. eexists. split; [done|]. split; [cbn; now rewrite Eu|].
      cbn [snd]. rewrite total_cons. unfold utxo_value. rewrite Ha. cbn [default]. rewrite Eb. f_equal. lia.
Qed.

(** ** New outputs *)

Fixpoint new_utxos (addrs : gset (list Z)) (hash j : Z) (outs : list BRTxOutput) : list BRUTXO :=
  match outs with
  | [] => []
  | o :: outs' =>
      (if bool_decide (out_address o <> []) && owned addrs o then [(hash, j)] else []) ++ new_utxos addrs hash (j + 1) outs'
  end.

Definition output_addrs (outs : list BRTxOutput) : list (list Z) := filter (fun a => a <> []) (out_address <$> outs).

Lemma elem_of_new_utxos addrs hash outs u : forall j, u ∈ new_utxos addrs hash j outs <->
  fst u = hash /\ exists k o, snd u = j + Z.of_nat k /\ outs !! k = Some o /\ out_address o <> [] /\ owned addrs o = true.
Proof.
  induction outs as [|o outs IH]; intros j; cbn [new_utxos].
  - split; [intros []%elem_of_nil|intros (_ & k & o & _ & E & _); done].
  - rewrite elem_of_app, IH. split.
    + intros [Hu|[E (k & o' & En & Ho)]].
      * case_bool_decide; cbn [andb] in Hu; [|now apply elem_of_nil in Hu].
        destruct (owned addrs o) eqn:Eo; [|now apply elem_of_nil in Hu].
        apply list_elem_of_singleton in Hu as ->. split; [done|]. exists O, o. split; [cbn; lia|done].
      * split; [done|]. exists (S k), o'. split; [lia|done].
    + intros [E (k & o' & En & Ho & Ha & Hw)]. destruct k as [|k].
      * injection Ho as <-. left. rewrite bool_decide_eq_true_2, Hw by done. cbn [andb].
        apply list_elem_of_singleton. destruct u; cbn in *. f_equal; lia || congruence.
      * right. split; [done|]. exists k, o'. split; [lia|done].
Qed.

Lemma NoDup_new_utxos addrs hash outs : forall j, NoDup (new_utxos addrs hash j outs).
Proof.
  induction outs as [|o outs IH]; intros j; cbn [new_utxos]; [constructor|].
  apply NoDup_app. split; [destruct (_ && _); [apply NoDup_singleton|constructor]|]. split; [|apply IH].
  intros u Hu Hn. apply elem_of_new_utxos in Hn as (_ & k & _ & En & _).
  destruct (_ && _); [|now apply elem_of_nil in Hu]. apply list_elem_of_singleton in Hu as ->. cbn in En. lia.
Qed.

Lemma drop_cons_lookup {A} (l : list A) i x l' : drop i l = x :: l' -> l !! i = Some x /\ drop (S i) l = l'.
Proof.
  intros E. split.
  - rewrite <- (Nat.add_0_r i), <- lookup_drop, E. done.
  - replace (S i) with (i + 1)%nat by lia. now rewrite <- drop_drop, E.
Qed.

Lemma ledger_id l : l = mkLedger (utxos l) (balanceHist l) (spentOutputs l) (invalidTx l) (pendingTx l) (usedAddrs l)
  (totalSent l) (totalReceived l) (balance l).
Proof. now destruct l. Qed.

Ltac ledger_simpl :=
  unfold use_addr, set_utxos, add_spent, add_hist, add_invalid, add_pending, add_totals in *;
  cbn [utxos balanceHist spentOutputs invalidTx pendingTx usedAddrs totalSent totalReceived balance] in *.

Lemma add_outputs_spec m addrs hash t outs : m !! hash = Some t -> forall j l, 0 <= j ->
  drop (Z.to_nat j) (outputs t) = outs -> j + len outs <= 0x100000000 -> 0 <= balance l < 0x10000000000000000 ->
  add_outputs addrs hash j outs l =
    mkLedger (utxos l ++ new_utxos addrs hash j outs) (balanceHist l) (spentOutputs l) (invalidTx l) (pendingTx l)
      (list_to_set (output_addrs outs) ∪ usedAddrs l) (totalSent l) (totalReceived l)
      (u64 (balance l + total m (new_utxos addrs hash j outs))).
Proof.
  intros Ht. induction outs as [|o outs IH]; intros j l Hj Ed Hl Hb; cbn [add_outputs new_utxos].
  - rewrite app_nil_r. unfold total; cbn [fmap list_fmap foldr]. rewrite Z.add_0_r, u64_id by lia. cbn.
    rewrite union_empty_l_L. apply ledger_id.
  - destruct (drop_cons_lookup _ _ _ _ Ed) as [Eo Ed']. cbn [length] in Hl.
    assert (Ev : utxo_value m (hash, j) = out_amount o).
    { unfold utxo_value, utxo_amount. cbn [fst snd]. rewrite Ht, bind_Some_l, Eo. done. }
    unfold output_addrs. cbn [fmap list_fmap]. rewrite filter_cons.
    case_bool_decide as Ha; [rewrite (bool_decide_eq_false_2 (_ <> [])), decide_False by tauto
                            |rewrite (bool_decide_eq_true_2 (_ <> [])), decide_True by done].
    + cbn [andb app]. apply IH; try lia. now rewrite Z2Nat.inj_add, Nat.add_1_r by lia.
    + cbn [andb]. destruct (owned addrs o) eqn:Ew.
      * rewrite IH; [|lia|now rewrite Z2Nat.inj_add, Nat.add_1_r by lia|lia|apply u64_range].
        ledger_simpl. cbn [app]. rewrite total_cons, (u32_id j), Ev, <- app_assoc, u64_add_l by lia.
        f_equal; [set_solver|]. f_equal. lia.
      * rewrite IH; [|lia|now rewrite Z2Nat.inj_add, Nat.add_1_r by lia|lia|done].
        ledger_simpl. f_equal. set_solver.
Qed.

(** ** What the scan computes *)

Section balance.
Context (w : BRWallet) (now : Z).
Notation m := (allTx w).

(** The transaction is neither invalid nor pending. *)
Definition counted (l : Ledger) (h : Z) : Prop := h ∉ invalidTx l /\ h ∉ pendingTx l.

(** An output of a known transaction that pays to a wallet address. *)
Definition own_utxo (u : BRUTXO) : Prop := exists t o, m !! fst u = Some t /\ 0 <= snd u /\
  outputs t !! Z.to_nat (snd u) = Some o /\ out_address o <> [] /\ owned (allAddrs w) o = true.

(** [h] spends [u]. *)
Definition spends (h : Z) (u : BRUTXO) : Prop := exists t i, m !! h = Some t /\ i ∈ inputs t /\ input_utxo i = u.

Record scan_ok (txs : list Z) (l : Ledger) : Prop := {
  so_hist : length (balanceHist l) = length txs;
  so_last : default 0 (last (balanceHist l)) = balance l;
  so_sum : balance l = u64 (total m (utxos l));
  so_totals : balance l = u64 (totalReceived l - totalSent l);
  so_marked h : h ∈ invalidTx l \/ h ∈ pendingTx l -> h ∈ txs;
  so_spent u : u ∈ spentOutputs l <-> exists h, h ∈ txs /\ h ∉ invalidTx l /\ spends h u;
  so_used a : a ∈ usedAddrs l <->
    a <> [] /\ exists h t o, h ∈ txs /\ counted l h /\ m !! h = Some t /\ o ∈ outputs t /\ out_address o = a;
  so_owned u : u ∈ utxos l -> fst u ∈ txs /\ counted l (fst u) /\ own_utxo u;
  so_unspent u h : u ∈ utxos l -> h ∈ txs -> counted l h -> ~ spends h u;
  so_complete u : fst u ∈ txs -> counted l (fst u) -> own_utxo u -> u ∉ spentOutputs l -> u ∈ utxos l;
  so_nodup : NoDup (utxos l);
}.

(** The transactions are well formed as the scan needs it. *)
Record listed_ok : Prop := {
  lo_store h t : m !! h = Some t -> txHash t = h /\ outCount t <= 0x100000000;
  lo_known h : h ∈ transactions w -> is_Some (m !! h);
  lo_nodup : NoDup (transactions w);
}.

Lemma scan_ok_nil : scan_ok [] ledger0.
Proof.
  split; cbn; try done.
  - intros h [Hh|Hh]; now apply elem_of_empty in Hh.
  - intros u. split; [now intros Hu%elem_of_empty|]. intros (h & Hh & _). now apply elem_of_nil in Hh.
  - intros a. split; [now intros Hu%elem_of_empty|]. intros (_ & h & _ & _ & Hh & _). now apply elem_of_nil in Hh.
  - intros u Hu. now apply elem_of_nil in Hu.
  - intros u h Hu. now apply elem_of_nil in Hu.
  - intros u Hu. now apply elem_of_nil in Hu.
  - constructor.
Qed.

Lemma spends_tx h t u : m !! h = Some t -> spends h u <-> u ∈ input_utxo <$> inputs t.
Proof.
  intros Ht. unfold spends. rewrite list_elem_of_fmap. split.
  - intros (t' & i & E & Hi & <-). assert (t' = t) as -> by congruence. eauto.
  - intros (i & -> & Hi). eauto.
Qed.

Lemma last_snoc_default {A} (d : A) l x : default d (last (l ++ [x])) = x.
Proof. now rewrite last_snoc. Qed.

(** The three outcomes for the next transaction [h]. *)
Section step.
Context (pre : list Z) (l : Ledger) (h : Z) (t : BRTransaction).
Context (Hok : scan_ok pre l) (Hnew : h ∉ pre) (Ht : m !! h = Some t) (Hh : txHash t = h).

Lemma unmarked : h ∉ invalidTx l /\ h ∉ pendingTx l.
Proof. split; intros Hm; apply Hnew, (so_marked _ _ Hok); auto. Qed.

Lemma pre_ne x : x ∈ pre -> x <> h.
Proof. intros Hx ->. now apply Hnew. Qed.

Lemma scan_invalid : scan_ok (pre ++ [h]) (add_hist (add_invalid l t)).
Proof.
  destruct unmarked as [Hi Hp]. pose proof pre_ne as Hne. destruct Hok. ledger_simpl. rewrite Hh.
  split; unfold counted in *; ledger_simpl; try done.
  - rewrite !length_app. cbn. lia.
  - apply last_snoc_default.
  - intros x. set_solver.
  - intros u. rewrite so_spent0. split.
    + intros (x & Hx & Hxi & Hs). exists x. specialize (Hne x Hx). set_solver.
    + intros (x & Hx & Hxi & Hs). exists x. set_solver.
  - intros a. rewrite so_used0. split; intros [Ha (x & tx & o & Hx & [Hc1 Hc2] & Hr)].
    + split; [done|]. exists x, tx, o. specialize (Hne x Hx). set_solver.
    + split; [done|]. exists x, tx, o. set_solver.
  - intros u Hu. destruct (so_owned0 u Hu) as (Hx & [Hc1 Hc2] & Ho). specialize (Hne _ Hx). set_solver.
  - intros u x Hu Hx [Hc1 Hc2]. apply so_unspent0; set_solver.
  - intros u Hx [Hc1 Hc2] Ho Hs. apply so_complete0; set_solver.
Qed.

Lemma spent_after u : u ∈ spentOutputs (add_spent l t) <-> u ∈ spentOutputs l \/ spends h u.
Proof. cbn. rewrite elem_of_union, elem_of_list_to_set, (spends_tx h t u Ht). done. Qed.

Lemma scan_pending : scan_ok (pre ++ [h]) (add_hist (add_pending (add_spent l t) t)).
Proof.
  destruct unmarked as [Hi Hp]. pose proof pre_ne as Hne. pose proof spent_after as Hs. destruct Hok.
  ledger_simpl. rewrite Hh. split; unfold counted in *; ledger_simpl; try done.
  - rewrite !length_app. cbn. lia.
  - apply last_snoc_default.
  - intros x. set_solver.
  - intros u. rewrite Hs, so_spent0. split.
    + intros [(x & Hx & Hxi & Hsx)|Hu]; [exists x|exists h]; set_solver.
    + intros (x & Hx & Hxi & Hsx). apply elem_of_app in Hx as [Hx| ->%list_elem_of_singleton]; [left; eauto|now right].
  - intros a. rewrite so_used0. split; intros [Ha (x & tx & o & Hx & [Hc1 Hc2] & Hr)].
    + split; [done|]. exists x, tx, o. specialize (Hne x Hx). set_solver.
    + split; [done|]. exists x, tx, o. set_solver.
  - intros u Hu. destruct (so_owned0 u Hu) as (Hx & [Hc1 Hc2] & Ho). specialize (Hne _ Hx). set_solver.
  - intros u x Hu Hx [Hc1 Hc2]. apply so_unspent0; set_solver.
  - intros u Hx [Hc1 Hc2] Ho Hsu. rewrite Hs in Hsu. apply so_complete0; [set_solver|set_solver|done|tauto].
Qed.

(** The outputs of [h] that pay to the wallet. *)
Lemma new_own : outCount t <= 0x100000000 -> forall u,
  u ∈ new_utxos (allAddrs w) h 0 (outputs t) <-> fst u = h /\ own_utxo u.
Proof.
  intros Hc u. rewrite elem_of_new_utxos. split.
  - intros [E (k & o & En & Ho & Hr)]. split; [done|]. exists t, o. rewrite E. split; [done|].
    split; [lia|]. rewrite En, Z.add_0_l, Nat2Z.id. done.
  - intros [E (t' & o & Et & Hn & Ho & Hr)]. split; [done|]. assert (t' = t) as -> by congruence.
    exists (Z.to_nat (snd u)), o. split; [lia|]. done.
Qed.

Lemma own_amount u : own_utxo u -> is_Some (utxo_amount m u).
Proof.
  intros (t' & o & Et & _ & Eo & _). unfold utxo_amount. rewrite Et, bind_Some_l, Eo. eauto.
Qed.

Lemma counted_step : outCount t <= 0x100000000 ->
  let l1 := add_outputs (allAddrs w) h 0 (outputs t) (add_spent l t) in
  exists r, sweep m (spentOutputs l1) (utxos l1) (balance l1) = Some r /\
    scan_ok (pre ++ [h]) (add_hist (add_totals (balance l) (set_utxos l1 (fst r) (snd r)))) /\
    snd r = balance (add_hist (add_totals (balance l) (set_utxos l1 (fst r) (snd r)))).
Proof.
  intros Hcount l1. destruct unmarked as [Hi Hp]. pose proof pre_ne as Hne. pose proof spent_after as Hs.
  assert (Hb : 0 <= balance l < 0x10000000000000000) by (rewrite (so_sum _ _ Hok); apply u64_range).
  pose proof (new_own Hcount) as Hown. set (new := new_utxos (allAddrs w) h 0 (outputs t)) in *.
  assert (E1 : l1 = mkLedger (utxos l ++ new) (balanceHist l) (spentOutputs (add_spent l t)) (invalidTx l) (pendingTx l)
    (list_to_set (output_addrs (outputs t)) ∪ usedAddrs l) (totalSent l) (totalReceived l) (u64 (balance l + total m new))).
  { unfold l1, new. rewrite (add_outputs_spec m _ h t (outputs t) Ht); [done|done|done|exact Hcount|exact Hb]. }
  clearbody l1. subst l1. cbn [spentOutputs utxos balance].
  assert (Hall : forall u, u ∈ utxos l ++ new -> own_utxo u /\ (fst u ∈ pre /\ u ∈ utxos l /\ counted l (fst u) \/ fst u = h)).
  { intros u [Hu|Hu]%elem_of_app; [destruct (so_owned _ _ Hok u Hu) as (? & ? & ?)|apply Hown in Hu]; tauto. }
  destruct (sweep_spec m (spentOutputs (add_spent l t)) (utxos l ++ new) (u64 (balance l + total m new)))
    as (r & Er & Eu & Eb); [apply u64_range|apply Forall_forall; intros u Hu; apply own_amount, Hall, Hu|].
  exists r. split; [exact Er|]. clear Er. split; [|done].
  assert (Hin : forall u, u ∈ fst r <-> (u ∉ spentOutputs l /\ ~ spends h u) /\ u ∈ utxos l ++ new).
  { intros u. rewrite Eu, list_elem_of_filter, Hs. tauto. }
  assert (Ebal : snd r = u64 (total m (fst r))).
  { rewrite Eb, Eu, total_app, (so_sum _ _ Hok). u64_eq. }
  pose proof (so_totals _ _ Hok) as Htot. destruct Hok. clear Eb.
  ledger_simpl. split; unfold counted in *; ledger_simpl.
  - rewrite !length_app. cbn. lia.
  - apply last_snoc_default.
  - exact Ebal.
  - assert (Hr : 0 <= snd r < 0x10000000000000000) by (rewrite Ebal; apply u64_range).
    revert Htot Hr. clear. generalize (snd r) (balance l) (totalReceived l) (totalSent l). intros c b x y Hxy Hr.
    rewrite <- (u64_id c) at 1 by done.
    destruct (Z.ltb_spec c b), (Z.ltb_spec b c); try lia; [..|replace c with b by lia]; rewrite ?Hxy, ?u64_u64; u64_eq.
  - intros x Hx. apply elem_of_app. left. now apply so_marked0.
  - intros u. rewrite Hs, so_spent0. split.
    + intros [(x & Hx & Hxi & Hsx)|Hu]; [exists x|exists h]; set_solver.
    + intros (x & Hx & Hxi & Hsx). apply elem_of_app in Hx as [Hx| ->%list_elem_of_singleton]; [left; eauto|now right].
  - intros a. rewrite elem_of_union, elem_of_list_to_set, so_used0. unfold output_addrs.
    rewrite list_elem_of_filter, list_elem_of_fmap. split.
    + intros [[Ha (o & -> & Ho)]|[Ha (x & tx & o & Hx & Hc & Hr)]]; (split; [done|]).
      * exists h, t, o. rewrite elem_of_app, list_elem_of_singleton. tauto.
      * exists x, tx, o. rewrite elem_of_app. tauto.
    + intros [Ha (x & tx & o & Hx & Hc & Ex & Ho & <-)].
      apply elem_of_app in Hx as [Hx| ->%list_elem_of_singleton].
      * right. split; [done|]. exists x, tx, o. tauto.
      * left. assert (tx = t) as -> by congruence. eauto.
  - intros u Hu. apply Hin in Hu as [_ Hu]. apply Hall in Hu as [Ho [(Hx & _ & Hc)|Ex]].
    + rewrite elem_of_app. tauto.
    + rewrite Ex, elem_of_app, list_elem_of_singleton. tauto.
  - intros u x Hu Hx Hc Hsx. apply Hin in Hu as [[Hu1 Hu2] _].
    apply elem_of_app in Hx as [Hx| ->%list_elem_of_singleton]; [|done].
    apply Hu1, so_spent0. exists x. tauto.
  - intros u Hx Hc Ho Hsu. rewrite Hs in Hsu. apply Hin. split; [tauto|].
    apply elem_of_app in Hx as [Hx|Ex%list_elem_of_singleton]; apply elem_of_app.
    + left. apply so_complete0; tauto.
    + right. apply Hown. tauto.
  - rewrite Eu. apply NoDup_filter, NoDup_app. split; [done|]. split; [|apply NoDup_new_utxos].
    intros u Hu Hn. apply Hown in Hn as [E _]. destruct (so_owned0 u Hu) as [Hx _]. now rewrite E in Hx.
Qed.
End step.

(** *** Which transactions are invalid and which are pending *)

(** An input of [t] is spent by an earlier valid transaction or comes from an invalid one. *)
Definition conflicted (pre : list Z) (l : Ledger) (t : BRTransaction) : Prop := exists i, i ∈ inputs t /\
  (in_txHash i ∈ pre /\ in_txHash i ∈ invalidTx l \/
   exists h, h ∈ pre /\ h ∉ invalidTx l /\ spends h (input_utxo i)).

(** [t] is too large, has dust outputs, is replaceable, locked in the future, or spends a pending one. *)
Definition delayed (pre : list Z) (l : Ledger) (t : BRTransaction) : Prop :=
  TX_MAX_SIZE < BRTransactionSize t \/ has_dust t = true \/
  exists i, i ∈ inputs t /\ (postdated (walletHeight w) now (lockTime t) i = true \/
    in_txHash i ∈ pre /\ in_txHash i ∈ pendingTx l).

Definition mark_ok (pre : list Z) (l : Ledger) (h : Z) : Prop := forall t, m !! h = Some t ->
  (h ∈ invalidTx l <-> is_unconfirmed t = true /\ conflicted pre l t) /\
  (h ∈ pendingTx l <-> is_unconfirmed t = true /\ h ∉ invalidTx l /\ delayed pre l t).

Definition marks_ok (txs : list Z) (l : Ledger) : Prop := forall pre h post, txs = pre ++ h :: post -> mark_ok pre l h.

Definition same_marks (l l' : Ledger) (h : Z) : Prop :=
  (h ∈ invalidTx l <-> h ∈ invalidTx l') /\ (h ∈ pendingTx l <-> h ∈ pendingTx l').

Lemma conflicted_same pre l l' t : (forall x, x ∈ pre -> same_marks l l' x) ->
  conflicted pre l t <-> conflicted pre l' t.
Proof.
  unfold same_marks, conflicted. intros Hs. split; intros (i & Hii & Hr); exists i; (split; [done|]);
    (destruct Hr as [[Hx Hy]|(x & Hx & Hy & Hz)]; [left|right; exists x]); destruct (Hs _ Hx); tauto.
Qed.

Lemma delayed_same pre l l' t : (forall x, x ∈ pre -> same_marks l l' x) -> delayed pre l t <-> delayed pre l' t.
Proof.
  unfold same_marks, delayed. intros Hs. split; intros [?|[?|(i & Hii & Hr)]]; try tauto; right; right; exists i;
    (split; [done|]); (destruct Hr as [?|[Hx Hy]]; [tauto|right]); destruct (Hs _ Hx); tauto.
Qed.

Lemma mark_ok_same pre l l' h : (forall x, x ∈ h :: pre -> same_marks l l' x) -> mark_ok pre l h -> mark_ok pre l' h.
Proof.
  intros Hs Hm t Ht. destruct (Hm t Ht) as [Hi Hp].
  pose proof (conflicted_same pre l l' t (fun x Hx => Hs x (list_elem_of_further _ _ _ Hx))).
  pose proof (delayed_same pre l l' t (fun x Hx => Hs x (list_elem_of_further _ _ _ Hx))).
  destruct (Hs h (list_elem_of_here _ _)). tauto.
Qed.

Lemma marks_snoc pre l l' h : marks_ok pre l -> (forall x, x ∈ pre -> same_marks l l' x) -> mark_ok pre l' h ->
  marks_ok (pre ++ [h]) l'.
Proof.
  intros Hm Hs Hh pre' x post E. destruct (decide (post = [])) as [->|Hne].
  - apply app_inj_tail in E as [<- <-]. done.
  - destruct (exists_last Hne) as (post' & y & ->). rewrite app_comm_cons, app_assoc in E.
    apply app_inj_tail in E as [Epre _]. apply (mark_ok_same pre' l); [|now apply (Hm _ _ post')].
    intros z Hz. apply Hs. rewrite Epre. apply elem_of_cons in Hz. rewrite elem_of_app, elem_of_cons. tauto.
Qed.

Lemma inputs_invalid_spec pre l t : scan_ok pre l -> inputs_invalid l t = true <-> conflicted pre l t.
Proof.
  intros Hok. unfold inputs_invalid, conflicted. rewrite existsb_exists. split.
  - intros (i & Hi & Hr). exists i. split; [now apply list_elem_of_In|].
    apply orb_true_iff in Hr as [Hr|Hr]; apply bool_decide_eq_true in Hr.
    + right. apply (so_spent _ _ Hok) in Hr as (h & Hh). exists h. tauto.
    + left. split; [apply (so_marked _ _ Hok); auto|done].
  - intros (i & Hi & Hr). exists i. split; [now apply list_elem_of_In|].
    apply orb_true_iff. destruct Hr as [[_ Hr]|Hr]; [right|left]; apply bool_decide_eq_true; [done|].
    apply (so_spent _ _ Hok). destruct Hr as (h & Hh). exists h. tauto.
Qed.

Lemma inputs_pending_spec pre l l' t : scan_ok pre l -> pendingTx l' = pendingTx l ->
  inputs_pending (walletHeight w) now l' t = true <-> delayed pre l t.
Proof.
  intros Hok E. unfold inputs_pending, delayed. rewrite !orb_true_iff, Z.ltb_lt, existsb_exists, E. split.
  - intros [[?|?]|(i & Hi & Hr)]; [tauto|tauto|]. right; right. exists i. split; [now apply list_elem_of_In|].
    apply orb_true_iff in Hr as [Hr|Hr]; [tauto|]. apply bool_decide_eq_true in Hr. right.
    split; [apply (so_marked _ _ Hok); auto|done].
  - intros [?|[?|(i & Hi & Hr)]]; [tauto|tauto|]. right. exists i. split; [now apply list_elem_of_In|].
    rewrite orb_true_iff, bool_decide_eq_true. tauto.
Qed.

Lemma scan_tx_step pre h post l : listed_ok -> transactions w = pre ++ h :: post -> scan_ok pre l -> marks_ok pre l ->
  exists l', scan_tx w now (l, balance l) h = Some (l', balance l') /\ scan_ok (pre ++ [h]) l' /\ marks_ok (pre ++ [h]) l'.
Proof.
  intros Hl E Hok Hm. destruct (lo_known Hl h) as [t Ht]; [rewrite E; set_solver|].
  destruct (lo_store Hl h t Ht) as [Hh Hc].
  assert (Hnew : h ∉ pre).
  { pose proof (lo_nodup Hl) as Hn. rewrite E in Hn. apply NoDup_app in Hn as (_ & Hn & _). intros Hx.
    apply (Hn h Hx). left. }
  destruct (unmarked pre l h Hok Hnew) as [Ui Up].
  pose proof (inputs_invalid_spec pre l t Hok) as Hi. unfold scan_tx. rewrite Ht, bind_Some_l.
  assert (Hne : forall x, x ∈ pre -> x <> h) by (intros x Hx ->; done).
  destruct (is_unconfirmed t && inputs_invalid l t) eqn:E1; [|destruct (is_unconfirmed t && inputs_pending (walletHeight w) now (add_spent l t) t) eqn:E2].
  - apply andb_true_iff in E1 as [Eu E1]. exists (add_hist (add_invalid l t)).
    split; [done|]. split; [now apply scan_invalid|].
    assert (Hs : forall x, x ∈ pre -> same_marks l (add_hist (add_invalid l t)) x).
    { intros x Hx. specialize (Hne x Hx). unfold same_marks. ledger_simpl. rewrite Hh. set_solver. }
    apply (marks_snoc pre l); [done|exact Hs|]. intros t' Ht'. assert (t' = t) as -> by congruence.
    rewrite <- (conflicted_same pre l) by exact Hs. apply Hi in E1. ledger_simpl. rewrite Hh. split.
    + split; [tauto|]. intros _. set_solver.
    + split; [tauto|]. intros (_ & Hx & _). set_solver.
  - apply andb_true_iff in E2 as [Eu E2]. rewrite Eu in E1. cbn [andb] in E1.
    exists (add_hist (add_pending (add_spent l t) t)). split; [done|]. split; [now apply scan_pending|].
    assert (Hs : forall x, x ∈ pre -> same_marks l (add_hist (add_pending (add_spent l t) t)) x).
    { intros x Hx. specialize (Hne x Hx). unfold same_marks. ledger_simpl. rewrite Hh. set_solver. }
    apply (marks_snoc pre l); [done|exact Hs|]. intros t' Ht'. assert (t' = t) as -> by congruence.
    rewrite <- (conflicted_same pre l), <- (delayed_same pre l) by exact Hs.
    apply (inputs_pending_spec pre l _ t Hok eq_refl) in E2.
    assert (~ conflicted pre l t) by (rewrite <- Hi; congruence).
    ledger_simpl. rewrite Hh. split; split; try tauto; intros _; set_solver.
  - destruct (counted_step pre l h t Hok Hnew Ht Hh Hc) as (r & Er & Hok' & Eb).
    rewrite Hh, Er, bind_Some_l. exists (add_hist (add_totals (balance l) (set_utxos
      (add_outputs (allAddrs w) h 0 (outputs t) (add_spent l t)) (fst r) (snd r)))).
    split; [done|]. split; [exact Hok'|].
    assert (Hinv : forall l1, invalidTx (add_outputs (allAddrs w) h 0 (outputs t) l1) = invalidTx l1 /\
                              pendingTx (add_outputs (allAddrs w) h 0 (outputs t) l1) = pendingTx l1).
    { clear. generalize 0. induction (outputs t) as [|o outs IH]; intros j l1; cbn [add_outputs]; [done|].
      case_bool_decide; [apply IH|]. destruct (owned _ _); (split; [etrans; [apply IH|done]..]). }
    destruct (Hinv (add_spent l t)) as [I1 I2].
    assert (Hs : forall x, same_marks l (add_hist (add_totals (balance l) (set_utxos
      (add_outputs (allAddrs w) h 0 (outputs t) (add_spent l t)) (fst r) (snd r)))) x).
    { intros x. unfold same_marks, add_hist, add_totals, set_utxos. cbn. now rewrite I1, I2. }
    apply (marks_snoc pre l); [done|intros; apply Hs|]. apply (mark_ok_same pre l); [intros; apply Hs|].
    intros t' Ht'. assert (t' = t) as -> by congruence.
    rewrite <- Hi, <- (inputs_pending_spec pre l (add_spent l t) t Hok eq_refl).
    destruct (is_unconfirmed t); cbn [andb] in *; [rewrite E1, E2|]; split; split; try tauto; intros; destruct_and?; done.
Qed.

(** The recomputed ledger. *)
Lemma update_balance_ok : listed_ok -> exists l, _BRWalletUpdateBalance w now = Some (set_ledger w l) /\
  scan_ok (transactions w) l /\ marks_ok (transactions w) l.
Proof.
  intros Hl. destruct (for_each_total (fun pre st => snd st = balance (fst st) /\ scan_ok pre (fst st) /\ marks_ok pre (fst st))
    (scan_tx w now) (transactions w) (ledger0, 0)) as ([l b] & E & Eb & Hok & Hm).
  - split; [done|]. split; [apply scan_ok_nil|]. intros pre h post Ep. now destruct pre.
  - intros pre h post [l b] Ep (Eb & Hok & Hm). cbn [fst snd] in *. subst b.
    destruct (scan_tx_step pre h post l Hl Ep Hok Hm) as (l' & Es & Hok' & Hm'). exists (l', balance l'). done.
  - exists l. unfold _BRWalletUpdateBalance. rewrite E, bind_Some_l. cbn [fst]. cbn [fst] in Hok.
    rewrite (so_hist _ _ Hok), Z.eqb_refl. done.
Qed.
End balance.

(** ** The order of the transactions *)

Section order.
(** A topological rank of transaction hashes: a transaction comes after the ones it spends.  It exists
    because a hash covers the hashes of the inputs. *)
Context (rank : Z -> nat).

(** Transactions as they are registered; the inputs of coinbase transactions have a zero hash, which the
    wallet's assertions do not allow for. *)
Record tx_ok (t : BRTransaction) : Prop := {
  tk_signed : BRTransactionIsSigned t = true;
  tk_rank i : i ∈ inputs t -> (rank (in_txHash i) < rank (txHash t))%nat;
  tk_count : outCount t <= 0x100000000;
  tk_height : 0 <= blockHeight t <= TX_UNCONFIRMED;
  tk_hash : is_u256 (txHash t);
  tk_hash_nonzero : txHash t <> 0;
  tk_input i : i ∈ inputs t -> is_u256 (in_txHash i) /\ in_txHash i <> 0 /\ 0 <= in_index i;
}.

Definition store_ok (m : gmap Z BRTransaction) : Prop := forall h t, m !! h = Some t -> txHash t = h /\ tx_ok t.

(** The known transactions of rank below [r]. *)
Definition below (m : gmap Z BRTransaction) (r : nat) : nat := size (filter (fun h => (rank h < r)%nat) (dom m)).

Lemma below_le m r : (below m r <= size m)%nat.
Proof. unfold below. rewrite <- size_dom. apply subseteq_size. intros x Hx. now apply elem_of_filter in Hx. Qed.

Lemma below_lt m h r : is_Some (m !! h) -> (rank h < r)%nat -> (below m (rank h) < below m r)%nat.
Proof.
  intros Hh Hr. apply subset_size. split.
  - intros x Hx. apply elem_of_filter in Hx as [Hx Hd]. apply elem_of_filter. split; [lia|done].
  - intros Hsub. assert (Hx : h ∈ filter (fun x => (rank x < r)%nat) (dom m)).
    { apply elem_of_filter. split; [done|]. now apply elem_of_dom. }
    apply Hsub, elem_of_filter in Hx as [Hx _]. lia.
Qed.

Lemma any_of_total {A} (f : A -> option bool) l : (forall a, a ∈ l -> is_Some (f a)) -> is_Some (any_of f l).
Proof.
  induction l as [|a l IH]; intros Hf; cbn [any_of]; [eauto|].
  destruct (Hf a (list_elem_of_here _ _)) as [b ->]. rewrite bind_Some_l. destruct b; [eauto|].
  apply IH. intros x Hx. apply Hf. now right.
Qed.

Lemma ascending_total m t2 : store_ok m -> forall fuel t1, (1 <= fuel)%nat ->
  (forall t, t1 = Some t -> tx_ok t /\ (below m (rank (txHash t)) + 2 <= fuel)%nat) ->
  is_Some (ascending fuel m t1 t2).
Proof.
  intros Hm. induction fuel as [|fuel IH]; intros t1 Hf H1; [lia|]. cbn [ascending].
  destruct t1 as [t|]; [|eauto]. destruct (H1 t eq_refl) as [Hok Hb].
  repeat (destruct (_ : bool); [eauto|]). apply any_of_total. intros i Hi. apply IH; [lia|].
  intros t' Ht'. destruct (Hm _ _ Ht') as [E Hok']. split; [done|].
  pose proof (below_lt m (in_txHash i) (rank (txHash t)) (ex_intro _ _ Ht') (tk_rank t Hok i Hi)). rewrite E. lia.
Qed.

Lemma ascending_height fuel m a b r : ascending fuel m (Some a) b = Some r ->
  (blockHeight b < blockHeight a -> r = true) /\ (blockHeight a < blockHeight b -> r = false).
Proof.
  destruct fuel as [|fuel]; [done|]. cbn [ascending].
  destruct (Z.ltb_spec (blockHeight b) (blockHeight a)); [intros [= <-]; split; [done|lia]|].
  destruct (Z.ltb_spec (blockHeight a) (blockHeight b)); [intros [= <-]; split; [lia|done]|]. lia.
Qed.

Lemma compare_spec w a b : store_ok (allTx w) -> tx_ok a -> tx_ok b ->
  exists c, _BRWalletTxCompare w a b = Some c /\
    (blockHeight b < blockHeight a -> 0 < c) /\ (blockHeight a < blockHeight b -> c <= 0).
Proof.
  intros Hm Ha Hb. unfold _BRWalletTxCompare, _BRWalletTxIsAscending, tx_fuel.
  assert (T : forall x y, tx_ok x -> is_Some (ascending (S (S (size (allTx w)))) (allTx w) (Some x) y)).
  { intros x y Hx. apply ascending_total; [done|lia|]. intros t [= <-]. split; [done|].
    pose proof (below_le (allTx w) (rank (txHash x))). lia. }
  destruct (T a b Ha) as [r1 E1]. destruct (T b a Hb) as [r2 E2]. rewrite E1, bind_Some_l.
  destruct (ascending_height _ _ _ _ _ E1), (ascending_height _ _ _ _ _ E2).
  destruct r1; [exists 1; split; [done|]; split; [lia|]; intros; discriminate (H0 ltac:(done))|].
  rewrite E2, bind_Some_l. destruct r2; [exists (-1); split; [done|]; split; [|lia]; intros; discriminate (H ltac:(done))|].
  eexists. split; [done|]. split; intros Hlt; [discriminate (H Hlt)|discriminate (H1 Hlt)].
Qed.

Definition tx_height (m : gmap Z BRTransaction) (h : Z) : Z := default 0 (blockHeight <$> m !! h).

(** Oldest first. *)
Definition oldest_first (m : gmap Z BRTransaction) : list Z -> Prop := StronglySorted (fun a b => tx_height m a <= tx_height m b).
Definition newest_first (m : gmap Z BRTransaction) : list Z -> Prop := StronglySorted (fun a b => tx_height m b <= tx_height m a).

Lemma insert_from_spec w tx l : store_ok (allTx w) -> allTx w !! txHash tx = Some tx ->
  Forall (fun h => is_Some (allTx w !! h)) l ->
  exists l', insert_from w tx l = Some l' /\ l' ≡ₚ txHash tx :: l /\
    (newest_first (allTx w) l -> newest_first (allTx w) l').
Proof.
  intros Hm Htx. destruct (Hm _ _ Htx) as [_ Hok].
  assert (Eh : tx_height (allTx w) (txHash tx) = blockHeight tx) by (unfold tx_height; now rewrite Htx).
  induction 1 as [|h l [t Ht] Hl IH]; cbn [insert_from].
  { eexists. split; [done|]. split; [done|]. intros _. constructor; constructor. }
  destruct (Hm _ _ Ht) as [_ Hokt]. assert (Et : tx_height (allTx w) h = blockHeight t) by (unfold tx_height; now rewrite Ht).
  rewrite Ht, bind_Some_l. destruct (compare_spec w t tx Hm Hokt Hok) as (c & -> & H1 & H2). rewrite bind_Some_l.
  destruct (Z.ltb_spec 0 c) as [Hc|Hc].
  - destruct IH as (l' & -> & Hp & Hs). rewrite bind_Some_l. eexists. split; [done|]. split; [rewrite Hp; apply perm_swap|].
    intros Hsort. apply StronglySorted_inv in Hsort as [Hsort Hf]. constructor; [now apply Hs|]. rewrite Hp. constructor; [|done].
    rewrite Eh, Et. destruct (Z_lt_le_dec (blockHeight t) (blockHeight tx)); [specialize (H2 l0)|]; lia.
  - eexists. split; [done|]. split; [done|]. intros Hsort. constructor; [done|].
    apply StronglySorted_inv in Hsort as [Hsort Hf]. assert (Hle : blockHeight t <= blockHeight tx).
    { destruct (Z_lt_le_dec (blockHeight tx) (blockHeight t)) as [Hlt|]; [specialize (H1 Hlt)|]; lia. }
    rewrite Eh. constructor; [lia|]. eapply Forall_impl; [exact Hf|]. intros x. cbn. lia.
Qed.
End order.

(** ** Address chains *)

(** What the wallet relies on: the calls succeed or report failure, and no two indexes of a chain have
    the same address (addresses are hashes of distinct public keys). *)
Class ChainLaws `{AddressChain} (mpk : BRMasterPubKey) : Prop := {
  chain_defined c i : is_Some (chain_address mpk c i);
  chain_inj c i j a : 0 <= i < 0x100000000 -> 0 <= j < 0x100000000 ->
    chain_address mpk c i = Some (Some a) -> chain_address mpk c j = Some (Some a) -> i = j;
  chain_nonempty c i a : chain_address mpk c i = Some (Some a) -> a <> [];
}.

(** *** The chains of BRBIP32Sequence.c

    The class is implemented by [chain_key_address], which derives the addresses; its laws hold for every master public
    key whose derived keys have distinct hashes. *)
Section sequence_chain.
Context {point sig rsig : Type} `{Secp256k1Laws point sig rsig}.

Definition sequence_chain : AddressChain := chain_key_address.

Definition master_ok (mpk : BRMasterPubKey) : Prop := mpk <> BR_MASTER_PUBKEY_NONE /\ compressed_point (masterPoint mpk).

(** No collision of [BRHash160] on the keys of a chain. *)
Definition distinct_keys (mpk : BRMasterPubKey) : Prop := forall c i j, 0 <= i < 0x100000000 -> 0 <= j < 0x100000000 ->
  BRHash160 (derived_key mpk c i) = BRHash160 (derived_key mpk c j) -> i = j.

Lemma sequence_address mpk c i a : master_ok mpk -> chain_key_address mpk c i = Some (Some a) ->
  hash20 (BRHash160 (derived_key mpk c i)) /\ a = address_string BITCOIN_PUBKEY_ADDRESS (BRHash160 (derived_key mpk c i)).
Proof.
  intros [Hn Hp]. rewrite (chain_key_address_spec mpk c i Hn Hp). destruct (_ && _); [|done]. intros [= <-].
  split; [|done]. split; [apply (hash_bytes (hash := BRHash160))|apply (hash_length (hash := BRHash160))].
Qed.

Lemma sequence_chain_laws mpk : master_ok mpk -> distinct_keys mpk -> ChainLaws (H := sequence_chain) mpk.
Proof.
  assert (Hv : 0 <= BITCOIN_PUBKEY_ADDRESS < 256) by (unfold BITCOIN_PUBKEY_ADDRESS; lia).
  intros Hm Hd. split.
  - intros c i. unfold chain_address, sequence_chain. rewrite (chain_key_address_spec mpk c i) by apply Hm. eauto.
  - intros c i j a Hi Hj Ei Ej. destruct (sequence_address mpk c i a Hm Ei) as [H1 E1], (sequence_address mpk c j a Hm Ej) as [H2 E2].
    apply (Hd c i j Hi Hj). pose proof (decode21_address _ _ Hv H1) as D. rewrite <- E1, E2, (decode21_address _ _ Hv H2) in D. congruence.
  - intros c i a E ->. destruct (sequence_address mpk c i [] Hm E) as [H1 E1]. pose proof (decode21_address _ _ Hv H1) as D.
    rewrite <- E1 in D. discriminate D.
Qed.
End sequence_chain.

Section chain_proofs.
Context `{AddressChain}.

(** The addresses of a chain are those of its first indexes. *)
Definition chain_ok (mpk : BRMasterPubKey) (c : Z) (l : list (list Z)) : Prop :=
  forall k a, l !! k = Some a -> chain_address mpk c (Z.of_nat k) = Some (Some a).

Lemma chain_ok_snoc mpk c l a : chain_ok mpk c l -> chain_address mpk c (len l) = Some (Some a) -> chain_ok mpk c (l ++ [a]).
Proof.
  intros Hl Ha k x [Hk|[Hk Hx]]%lookup_app_Some; [now apply Hl|].
  apply list_lookup_singleton_Some in Hx as [Ek <-]. now replace k with (length l) by lia.
Qed.

Lemma chain_fresh `{!ChainLaws mpk} c l a : chain_ok mpk c l -> len l < 0x100000000 ->
  chain_address mpk c (len l) = Some (Some a) -> a ∉ l.
Proof.
  intros Hl Hlen Ha [k Hk]%list_elem_of_lookup. pose proof (Hl k a Hk) as Hk'. apply lookup_lt_Some in Hk.
  pose proof (chain_inj c (Z.of_nat k) (len l) a ltac:(lia) ltac:(lia) Hk' Ha). lia.
Qed.

(** [i] follows the last used address of the chain. *)
Definition last_used (used : gset (list Z)) (l : list (list Z)) (i : Z) : Prop :=
  0 <= i <= len l /\ (forall k a, l !! k = Some a -> i <= Z.of_nat k -> a ∉ used) /\
  (i = 0 \/ exists a, l !! Z.to_nat (i - 1) = Some a /\ a ∈ used).

Lemma first_unused_spec used l : last_used used l (first_unused used (reverse l)).
Proof.
  induction l as [|a l IH] using rev_ind.
  - cbn. split; [cbn; lia|]. split; [|now left]. intros k a Hk. now rewrite lookup_nil in Hk.
  - rewrite reverse_snoc. cbn [first_unused]. case_bool_decide as Ha.
    + change (len (a :: reverse l)) with (Z.of_nat (S (length (reverse l)))). rewrite length_reverse.
      split; [rewrite length_app; cbn; lia|]. split.
      * intros k x Hk Hle. apply lookup_lt_Some in Hk. rewrite length_app in Hk. cbn in Hk. lia.
      * right. exists a. split; [|done]. replace (Z.to_nat (Z.of_nat (S (length l)) - 1)) with (length l) by lia.
        now apply list_lookup_middle.
    + destruct IH as (Hr & Hu & Hl). split; [rewrite length_app; cbn; lia|]. split.
      * intros k x [Hk|[Hk Hx]]%lookup_app_Some Hle; [eauto|]. now apply list_lookup_singleton_Some in Hx as [_ <-].
      * destruct Hl as [?|(x & Hx & Hxu)]; [now left|right]. exists x. split; [|done]. now apply lookup_app_l_Some.
Qed.

Lemma gen_addrs_spec `{!ChainLaws mpk} c gap used fuel : 0 < gap -> forall i l, chain_ok mpk c l -> last_used used l i ->
  gap * Z.of_nat (size (used ∖ list_to_set l)) + (i + gap - len l) <= Z.of_nat fuel -> len l + Z.of_nat fuel < 0x100000000 ->
  exists l' i', gen_addrs fuel mpk c gap used i l = Some (l', i') /\ l `prefix_of` l' /\ chain_ok mpk c l' /\
    last_used used l' i' /\ (i' + gap <= len l' \/ chain_address mpk c (len l') = Some None).
Proof.
  intros Hg. induction fuel as [|fuel IH]; intros i l Hl Hi Hf Hb; cbn [gen_addrs].
  - rewrite (proj2 (Z.ltb_ge _ _)) by (destruct Hi; nia). exists l, i. do 4 (split; [done|]). left. destruct Hi; nia.
  - destruct (Z.ltb_spec (len l) (i + gap)) as [Hlt|Hge]; [|exists l, i; do 4 (split; [done|]); left; lia].
    rewrite u32_id by lia. destruct (chain_defined (mpk := mpk) c (len l)) as [[a|] Ha]; rewrite Ha, bind_Some_l;
      [|exists l, i; do 4 (split; [done|]); now right].
    pose proof (chain_fresh c l a Hl ltac:(lia) Ha) as Hfresh.
    assert (Hl2 : len (l ++ [a]) = len l + 1) by (rewrite length_app; cbn; lia).
    destruct (IH (if bool_decide (a ∈ used) then len l + 1 else i) (l ++ [a])) as (l' & i' & E & Hpre & Hr).
    + now apply chain_ok_snoc.
    + destruct Hi as (Hr & Hu & Hlast). case_bool_decide as Ha'.
      * split; [rewrite Hl2; lia|]. split.
        -- intros k x Hk Hle. apply lookup_lt_Some in Hk. lia.
        -- right. exists a. split; [|done]. replace (Z.to_nat (len l + 1 - 1)) with (length l) by lia.
           now apply list_lookup_middle.
      * split; [rewrite Hl2; lia|]. split.
        -- intros k x [Hk|[Hk Hx]]%lookup_app_Some Hle; [eauto|]. now apply list_lookup_singleton_Some in Hx as [_ <-].
        -- destruct Hlast as [?|(x & Hx & Hxu)]; [now left|right]. exists x. split; [|done]. now apply lookup_app_l_Some.
    + rewrite Hl2. case_bool_decide as Ha'.
      * assert (size (used ∖ list_to_set (l ++ [a])) < size (used ∖ list_to_set l))%nat; [|nia].
        apply subset_size. split; [set_solver|]. intros Hsub.
        assert (Hx : a ∈ used ∖ list_to_set (C := gset (list Z)) l) by (rewrite elem_of_difference, elem_of_list_to_set; done).
        apply Hsub in Hx. rewrite elem_of_difference, elem_of_list_to_set in Hx. apply Hx. set_solver.
      * assert (size (used ∖ list_to_set (l ++ [a])) <= size (used ∖ list_to_set l))%nat; [|nia].
        apply subseteq_size. set_solver.
    + lia.
    + exists l', i'. split; [done|]. split; [|done]. etrans; [|exact Hpre]. now exists [a].
Qed.

(** Both chains are chains of the master public key, and [allAddrs] contains exactly their addresses. *)
Record chains_ok (w : BRWallet) : Prop := {
  ck_internal : chain_ok (masterPubKey w) SEQUENCE_INTERNAL_CHAIN (internalChain w);
  ck_external : chain_ok (masterPubKey w) SEQUENCE_EXTERNAL_CHAIN (externalChain w);
  ck_all : allAddrs w = list_to_set (internalChain w) ∪ list_to_set (externalChain w);
}.

Definition chain_id (internal : bool) : Z := if internal then SEQUENCE_INTERNAL_CHAIN else SEQUENCE_EXTERNAL_CHAIN.

(** The index space of the chain is not exhausted. *)
Definition chain_room (w : BRWallet) (gap : Z) (internal : bool) : Prop :=
  len (wallet_chain w internal) + gap * (1 + Z.of_nat (size (usedAddrs (ledger w)))) < 0x100000000.

Lemma chains_ok_at w internal : chains_ok w -> chain_ok (masterPubKey w) (chain_id internal) (wallet_chain w internal).
Proof. intros []. now destruct internal. Qed.

Lemma unused_addrs_ok `{!ChainLaws (masterPubKey w)} want gap internal : chains_ok w -> 0 < gap -> chain_room w gap internal ->
  exists ch i, let w' := set_chain w internal ch (list_to_set (internalChain (set_chain w internal ch ∅)) ∪
                                                  list_to_set (externalChain (set_chain w internal ch ∅))) in
  (forall moved, BRWalletUnusedAddrs moved w want gap internal =
    Some (w', if want && (i + gap <=? len ch) then take (Z.to_nat gap) (drop (Z.to_nat i) ch) else [])) /\
  chains_ok w' /\ wallet_chain w internal `prefix_of` ch /\ last_used (usedAddrs (ledger w)) ch i /\
  (i + gap <= len ch \/ chain_address (masterPubKey w) (chain_id internal) (len ch) = Some None).
Proof.
  intros Hok Hg Hroom. unfold chain_room in Hroom. set (used := usedAddrs (ledger w)) in *.
  pose proof (chains_ok_at w internal Hok) as Hch.
  destruct (gen_addrs_spec (chain_id internal) gap used (gap_fuel gap used) Hg (first_unused used (reverse (wallet_chain w internal)))
              (wallet_chain w internal) Hch (first_unused_spec _ _)) as (ch & i & E & Hpre & Hc & Hlast & Hend).
  { destruct (first_unused_spec used (wallet_chain w internal)) as (Hr & _). unfold gap_fuel.
    assert (size (used ∖ list_to_set (wallet_chain w internal)) <= size used)%nat by (apply subseteq_size; set_solver). nia. }
  { unfold gap_fuel. nia. }
  exists ch, i. destruct Hpre as [ext ->].
  assert (Hall : allAddrs w ∪ list_to_set (drop (length (wallet_chain w internal)) (wallet_chain w internal ++ ext)) =
    list_to_set (internalChain (set_chain w internal (wallet_chain w internal ++ ext) ∅)) ∪
    list_to_set (externalChain (set_chain w internal (wallet_chain w internal ++ ext) ∅))).
  { rewrite drop_app_length, (ck_all w Hok). destruct internal; cbn; rewrite list_to_set_app_L; set_solver. }
  split; [|split; [|split; [now eexists|done]]].
  - intros moved. unfold BRWalletUnusedAddrs. rewrite (proj2 (Z.leb_gt gap 0)) by lia. fold used. fold (chain_id internal).
    rewrite E, bind_Some_l, Hall. destruct moved, internal; done.
  - destruct Hok. split; cbn; [destruct internal; done|destruct internal; done|done].
Qed.
End chain_proofs.

(** ** An example

    5 pays to the wallet and is confirmed; 6 spends that output, pays back to the wallet and is
    unconfirmed; 7 double spends it; 8 spends the output of 6 and is replaceable, hence pending. *)
Definition ex_input (hash index sequence : Z) : BRTxInput := mkInput hash index [] 0 None (Some [1]) sequence.
Definition ex_tx (hash : Z) (ins : list BRTxInput) (outs : list BRTxOutput) (height : Z) : BRTransaction :=
  mkTx hash 1 ins outs 0 height 0.
Definition ex_out (address : list Z) (amount : Z) : BRTxOutput := mkOutput address amount None.

Definition ex_txs : list BRTransaction :=
  [ ex_tx 5 [ex_input 3 0 UINT32_MAX] [ex_out [0; 1] 100000; ex_out [9] 50000] 10;
    ex_tx 6 [ex_input 5 0 UINT32_MAX] [ex_out [1; 1] 60000; ex_out [9] 30000] TX_UNCONFIRMED;
    ex_tx 7 [ex_input 5 0 UINT32_MAX] [ex_out [9] 90000] TX_UNCONFIRMED;
    ex_tx 8 [ex_input 6 0 0] [ex_out [9] 50000] TX_UNCONFIRMED ].

Definition ex_store (txs : list BRTransaction) : gmap Z BRTransaction :=
  list_to_map ((fun t => (txHash t, t)) <$> txs).

(** The address of index [i] of chain [c] is [[c; i + 1]]. *)
Definition ex_chain : AddressChain := fun _ c i => Some (Some [c; i + 1]).

Definition ex_wallet : BRWallet :=
  mkWallet DEFAULT_FEE_PER_KB 100 [5; 6; 7; 8] (ex_store ex_txs) BR_MASTER_PUBKEY_NONE [ [1; 1] ] [ [0; 1] ] {[ [1; 1]; [0; 1] ]} ledger0.

Lemma ex_store_elem txs h t : ex_store txs !! h = Some t -> t ∈ txs /\ txHash t = h.
Proof.
  intros Ht%elem_of_list_to_map_2%list_elem_of_fmap. destruct Ht as (t' & [= -> ->] & Hin). done.
Qed.

(** Case analysis on the elements of a concrete list. *)
Ltac each_element H := repeat (apply elem_of_cons in H as [-> |H]); [..|now apply elem_of_nil in H].

Lemma ex_listed : listed_ok ex_wallet.
Proof.
  split; [|intros h Hh; each_element Hh; vm_compute; eauto|exact (bool_decide_eq_true_1 (NoDup [5; 6; 7; 8]) eq_refl)].
  intros h t [Ht <-]%ex_store_elem. each_element Ht; vm_compute; done.
Qed.

Lemma ex_laws mpk : @ChainLaws ex_chain mpk.
Proof.
  split; [intros c i; eexists; reflexivity| |].
  - intros c i j a _ _ [= <-] [= E]. lia.
  - intros c i a [= <-]. discriminate.
Qed.

Lemma ex_chains : @chains_ok ex_chain ex_wallet.
Proof.
  split; [intros k a Hk..|vm_compute; reflexivity]; destruct k as [|k]; try discriminate Hk; cbn in Hk;
    injection Hk as <-; reflexivity.
Qed.

(** ** Properties *)

(** C8. [_BRWalletUpdateBalance] succeeds on every list of distinct known transactions and recomputes
    the ledger from them: the balance is the sum of the amounts of [utxos] (modulo 2^64), which are
    distinct wallet outputs of transactions that are neither invalid nor pending, none of them spent by
    such a transaction, and every other such output is spent by a valid transaction; there is one
    history entry per transaction, the last one is the balance, and received minus sent is the balance. *)
Theorem balance_spec w now : listed_ok w -> exists w', _BRWalletUpdateBalance w now = Some w' /\
  let l := ledger w' in w' = set_ledger w l /\
  balance l = u64 (total (allTx w) (utxos l)) /\ NoDup (utxos l) /\
  (forall u, u ∈ utxos l -> own_utxo w u /\ fst u ∈ transactions w /\ counted l (fst u)) /\
  (forall u h, u ∈ utxos l -> h ∈ transactions w -> counted l h -> ~ spends w h u) /\
  (forall u, own_utxo w u -> fst u ∈ transactions w -> counted l (fst u) ->
     u ∈ utxos l \/ exists h, h ∈ transactions w /\ h ∉ invalidTx l /\ spends w h u) /\
  length (balanceHist l) = length (transactions w) /\ default 0 (last (balanceHist l)) = balance l /\
  balance l = u64 (totalReceived l - totalSent l).
Proof.
  intros Hl. destruct (update_balance_ok w now Hl) as (l & E & Hs & _). exists (set_ledger w l).
  split; [done|]. cbn. split; [done|]. destruct Hs.
  split; [done|]. split; [done|]. split; [intros u Hu; destruct (so_owned0 u Hu); tauto|]. split; [done|].
  split; [|done]. intros u Ho Hx Hc. destruct (decide (u ∈ spentOutputs l)) as [Hu|Hu]; [right; now apply so_spent0|left; auto].
Qed.

Lemma balance_spec_witness : listed_ok ex_wallet /\ exists w', _BRWalletUpdateBalance ex_wallet 0 = Some w' /\
  balance (ledger w') = 60000 /\ utxos (ledger w') = [(6, 0)] /\ balance (ledger w') = u64 (total (allTx w') (utxos (ledger w'))).
Proof.
  pose proof ex_listed as H.
  split; [exact H|]. destruct (balance_spec ex_wallet 0 H) as (w' & E & Ew & Eb & _). exists w'. split; [exact E|].
  assert (Ev : option_map (fun w => (balance (ledger w), utxos (ledger w))) (_BRWalletUpdateBalance ex_wallet 0) = Some (60000, [(6, 0)]))
    by (vm_compute; reflexivity).
  rewrite E in Ev. injection Ev as -> ->. split; [reflexivity|]. split; [reflexivity|]. rewrite Ew. reflexivity.
Defined.

(** C9. The classification of the transactions: a transaction is invalid exactly when it is
    unconfirmed and one of its inputs is already spent by an earlier valid transaction, or comes from
    an earlier invalid one; it is pending exactly when it is unconfirmed, valid, and too large, dusty,
    replaceable, locked in the future, or spends an earlier pending one.  So confirmed transactions
    always count, and a valid unconfirmed transaction never shares an input with an earlier valid one. *)
Theorem classification w now w' : listed_ok w -> _BRWalletUpdateBalance w now = Some w' ->
  forall pre h post t, transactions w = pre ++ h :: post -> allTx w !! h = Some t ->
  let l := ledger w' in
  (h ∈ invalidTx l <-> is_unconfirmed t = true /\ conflicted w pre l t) /\
  (h ∈ pendingTx l <-> is_unconfirmed t = true /\ h ∉ invalidTx l /\ delayed w now pre l t) /\
  (is_unconfirmed t = false -> counted l h) /\
  (is_unconfirmed t = true -> h ∉ invalidTx l -> forall h' i, h' ∈ pre -> h' ∉ invalidTx l -> i ∈ inputs t ->
     ~ spends w h' (input_utxo i)).
Proof.
  intros Hl E pre h post t Ep Ht l. destruct (update_balance_ok w now Hl) as (l' & E' & _ & Hm).
  assert (l = l') as -> by (unfold l; replace w' with (set_ledger w l') by congruence; done).
  destruct (Hm pre h post Ep t Ht) as [Hi Hp]. split; [exact Hi|]. split; [exact Hp|]. split.
  - intros Hu. split; [rewrite Hi|rewrite Hp]; rewrite Hu; intros [? _]; done.
  - intros Hu Hn h' i Hh Hn' Hin Hs. apply Hn, Hi. split; [done|]. exists i. split; [done|]. right. eauto.
Qed.

Lemma classification_witness : exists w', _BRWalletUpdateBalance ex_wallet 0 = Some w' /\
  7 ∈ invalidTx (ledger w') /\ 8 ∈ pendingTx (ledger w') /\ counted (ledger w') 5.
Proof.
  pose proof ex_listed as H.
  destruct (update_balance_ok ex_wallet 0 H) as (l & E & _). exists (set_ledger ex_wallet l). split; [exact E|].
  assert (Ev : (fun w => (bool_decide (7 ∈ invalidTx (ledger w)), bool_decide (8 ∈ pendingTx (ledger w)))) <$>
    _BRWalletUpdateBalance ex_wallet 0 = Some (true, true)) by (vm_compute; reflexivity).
  rewrite E in Ev. apply (inj Some) in Ev. apply pair_eq in Ev as [E1%bool_decide_eq_true E2%bool_decide_eq_true].
  split; [exact E1|]. split; [exact E2|].
  destruct (classification ex_wallet 0 (set_ledger ex_wallet l) H E [] 5 [6; 7; 8]
    (ex_tx 5 [ex_input 3 0 UINT32_MAX] [ex_out [0; 1] 100000; ex_out [9] 50000] 10) eq_refl eq_refl) as (_ & _ & Hc & _).
  exact (Hc eq_refl).
Defined.

(** C16. [BRWalletUnusedAddrs] terminates and extends the chain, whatever [realloc] does, by addresses
    of the following indexes; [allAddrs] stays the set of the addresses of both chains.  With [i] the index
    after the last used address of the extended chain, either the chain then has [gapLimit] addresses from [i]
    on, and these are the addresses returned, none of them used; or the derivation of the next address failed
    before, and no address is returned. *)
Theorem unused_addrs_spec `{AddressChain} w gap internal :
  ChainLaws (masterPubKey w) -> chains_ok w -> 0 < gap -> chain_room w gap internal ->
  exists w' addrs i, (forall moved, BRWalletUnusedAddrs moved w true gap internal = Some (w', addrs)) /\ chains_ok w' /\
    wallet_chain w internal `prefix_of` wallet_chain w' internal /\ wallet_chain w' (negb internal) = wallet_chain w (negb internal) /\
    last_used (usedAddrs (ledger w)) (wallet_chain w' internal) (Z.of_nat i) /\
    ((Z.of_nat i + gap <= len (wallet_chain w' internal) /\ len addrs = gap /\
        addrs `prefix_of` drop i (wallet_chain w' internal) /\ (forall a, a ∈ addrs -> a ∉ usedAddrs (ledger w))) \/
     (len (wallet_chain w' internal) < Z.of_nat i + gap /\ addrs = [] /\
        chain_address (masterPubKey w) (chain_id internal) (len (wallet_chain w' internal)) = Some None)).
Proof.
  intros Hlaws Hok Hg Hroom. destruct (unused_addrs_ok true gap internal Hok Hg Hroom) as (ch & i & E & Hch & Hpre & Hlast & Hend).
  pose proof Hlast as (Hr & Hu & _). eexists _, _, (Z.to_nat i). split; [exact E|]. cbv zeta in Hch. split; [exact Hch|].
  assert (Ew : wallet_chain (set_chain w internal ch (list_to_set (internalChain (set_chain w internal ch ∅)) ∪
    list_to_set (externalChain (set_chain w internal ch ∅)))) internal = ch) by now destruct internal.
  rewrite Ew, Z2Nat.id by lia. split; [done|]. split; [now destruct internal|]. split; [done|]. cbn [andb].
  destruct (Z.leb_spec (i + gap) (len ch)) as [Hle|Hlt]; [left|right; destruct Hend as [Hend|Hend]; [lia|done]].
  split; [done|]. split; [rewrite length_take, length_drop; lia|]. split; [apply prefix_take|].
  intros a Ha. apply list_elem_of_lookup in Ha as [k Hk]. apply lookup_take_Some in Hk as [Hk _]. rewrite lookup_drop in Hk.
  apply (Hu _ a Hk). lia.
Qed.

Lemma unused_addrs_spec_witness : exists w' addrs,
  (forall moved, @BRWalletUnusedAddrs ex_chain moved ex_wallet true 2 true = Some (w', addrs)) /\ addrs = [[1; 1]; [1; 2]].
Proof.
  destruct (@unused_addrs_spec ex_chain ex_wallet 2 true) as (w' & addrs & i & E & _).
  - apply ex_laws.
  - apply ex_chains.
  - lia.
  - reflexivity.
  - exists w', addrs. split; [exact E|].
    assert (Ev : snd <$> @BRWalletUnusedAddrs ex_chain false ex_wallet true 2 true = Some [[1; 1]; [1; 2]]) by (vm_compute; reflexivity).
    rewrite (E false) in Ev. now injection Ev.
Defined.
