(* ===== verification/WalletOps.v ===== *)
(** * WalletOps: registering, removing and updating transactions (BRWallet.c)

    The operations of the wallet that change which transactions it holds, and its queries.  A callback
    is always set; [moved1] and [moved2] say whether generating addresses moved the two chains. *)
From stdpp Require Import base numbers list gmap sets sorting.
From Stdlib Require Import ZArith Lia.
From S2P Require Import Prelude CMem Int Address Transaction Key Sequence Wallet.
Local Open Scope Z_scope.

(** ** Queries *)

Definition BRWalletBalance (w : BRWallet) : Z := balance (ledger w).
Definition BRWalletTotalSent (w : BRWallet) : Z := totalSent (ledger w).
Definition BRWalletTotalReceived (w : BRWallet) : Z := totalReceived (ledger w).
Definition BRWalletFeePerKb (w : BRWallet) : Z := feePerKb w.

Definition BRWalletSetFeePerKb (w : BRWallet) (fee : Z) : BRWallet :=
  mkWallet fee (walletHeight w) (transactions w) (allTx w) (masterPubKey w) (internalChain w) (externalChain w)
    (allAddrs w) (ledger w).

(** The elements written to an array of the given capacity, and the number returned; no array (NULL)
    asks for the number available. *)
Definition write_out {A} (l : list A) (capacity : option Z) : list A * Z :=
  match capacity with
  | None => ([], len l)
  | Some n => let n := if len l <? n then len l else n in (take (Z.to_nat n) l, n)
  end.

Definition BRWalletUTXOs (w : BRWallet) (utxosCount : option Z) : list BRUTXO * Z := write_out (utxos (ledger w)) utxosCount.
Definition BRWalletTransactions (w : BRWallet) (txCount : option Z) : list Z * Z := write_out (transactions w) txCount.

(** [while (n < total && transactions[(total - n) - 1]->blockHeight >= blockHeight) n++], on the
    transactions from the end. *)
Fixpoint count_from (m : gmap Z BRTransaction) (blockHeight : Z) (l : list Z) : option nat :=
  match l with
  | [] => Some O
  | h :: l' =>
      t ← m !! h;
      if blockHeight <=? Transaction.blockHeight t then n ← count_from m blockHeight l'; Some (S n) else Some O
  end.

Definition BRWalletTxUnconfirmedBefore (w : BRWallet) (txCount : option Z) (blockHeight : Z) : option (list Z * Z) :=
  n ← count_from (allTx w) blockHeight (reverse (transactions w));
  Some (write_out (drop (length (transactions w) - n) (transactions w)) txCount).

(** The internal addresses first; the second capacity is what the first loop left ([size_t]). *)
Definition BRWalletAllAddrs (w : BRWallet) (addrsCount : option Z) : list (list Z) * Z :=
  let '(i, internalCount) := write_out (internalChain w) addrsCount in
  let '(e, externalCount) := write_out (externalChain w) (option_map (fun n => u64 (n - internalCount)) addrsCount) in
  (i ++ e, u64 (internalCount + externalCount)).

Definition BRWalletContainsAddress (w : BRWallet) (addr : list Z) : bool := bool_decide (addr ∈ allAddrs w).
Definition BRWalletAddressIsUsed (w : BRWallet) (addr : list Z) : bool := bool_decide (addr ∈ usedAddrs (ledger w)).
Definition BRWalletContainsTransaction (w : BRWallet) (tx : BRTransaction) : bool := _BRWalletContainsTx w tx.

(** [assert(! UInt256IsZero(txHash))] *)
Definition BRWalletTransactionForHash (w : BRWallet) (txHash : Z) : option (option BRTransaction) :=
  if UInt256IsZero txHash then None else Some (allTx w !! txHash).

Definition BRWalletAmountReceivedFromTx (w : BRWallet) (tx : BRTransaction) : Z :=
  foldl (fun amount o => if owned (allAddrs w) o then u64 (amount + out_amount o) else amount) 0 (outputs tx).

Definition BRWalletAmountSentByTx (w : BRWallet) (tx : BRTransaction) : Z :=
  foldl (fun amount i => match spent_output (allTx w) i with
                         | Some o => if owned (allAddrs w) o then u64 (amount + out_amount o) else amount
                         | None => amount
                         end) 0 (inputs tx).

(** ** Validity of a transaction

    The calls through the inputs go to the ancestors of [tx]; [prev] is the recursive call. *)

(** [t = BRWalletTransactionForHash(...); if (t && f(t)) ...] *)
Definition on_parent (w : BRWallet) (f : BRTransaction -> option bool) (i : BRTxInput) : option bool :=
  t ← BRWalletTransactionForHash w (in_txHash i);
  match t with Some t => f t | None => Some false end.

Fixpoint valid_rec (fuel : nat) (w : BRWallet) (tx : BRTransaction) : option bool :=
  match fuel with
  | O => None
  | S fuel' =>
      if negb (BRTransactionIsSigned tx) then None
      else if is_unconfirmed tx then
        let r := if bool_decide (is_Some (allTx w !! txHash tx)) then bool_decide (txHash tx ∉ invalidTx (ledger w))
                 else negb (existsb (fun i => bool_decide (input_utxo i ∈ spentOutputs (ledger w))) (inputs tx)) in
        if r then
          bad ← any_of (on_parent w (fun t => v ← valid_rec fuel' w t; Some (negb v))) (inputs tx);
          Some (negb bad)
        else Some false
      else Some true
  end.

Definition BRWalletTransactionIsValid (w : BRWallet) (tx : BRTransaction) : option bool :=
  valid_rec (tx_fuel (allTx w)) w tx.

Fixpoint pending_rec (fuel : nat) (w : BRWallet) (now : Z) (tx : BRTransaction) : option bool :=
  match fuel with
  | O => None
  | S fuel' =>
      if negb (BRTransactionIsSigned tx) then None
      else if is_unconfirmed tx then
        if (TX_MAX_SIZE <? BRTransactionSize tx) || existsb (postdated (walletHeight w) now (lockTime tx)) (inputs tx) || has_dust tx
        then Some true
        else any_of (on_parent w (pending_rec fuel' w now)) (inputs tx)
      else Some false
  end.

Definition BRWalletTransactionIsPending (w : BRWallet) (now : Z) (tx : BRTransaction) : option bool :=
  pending_rec (tx_fuel (allTx w)) w now tx.

Fixpoint verified_rec (fuel : nat) (w : BRWallet) (now : Z) (tx : BRTransaction) : option bool :=
  match fuel with
  | O => None
  | S fuel' =>
      if negb (BRTransactionIsSigned tx) then None
      else if is_unconfirmed tx then
        if timestamp tx =? 0 then Some false
        else
          v ← BRWalletTransactionIsValid w tx;
          if negb v then Some false
          else
            p ← BRWalletTransactionIsPending w now tx;
            if (p : bool) then Some false
            else
              bad ← any_of (on_parent w (fun t => v ← verified_rec fuel' w now t; Some (negb v))) (inputs tx);
              Some (negb bad)
      else Some true
  end.

Definition BRWalletTransactionIsVerified (w : BRWallet) (now : Z) (tx : BRTransaction) : option bool :=
  verified_rec (tx_fuel (allTx w)) w now tx.

(** ** Creating a wallet and registering transactions *)

Section ops.
Context `{AddressChain}.

Definition use_outputs (l : Ledger) (tx : BRTransaction) : Ledger :=
  foldl (fun l o => if bool_decide (out_address o = []) then l else use_addr l (out_address o)) l (outputs tx).

(** One iteration of the loop over the transactions given. *)
Definition new_tx (w : BRWallet) (tx : BRTransaction) : option BRWallet :=
  if negb (BRTransactionIsSigned tx) || bool_decide (is_Some (allTx w !! txHash tx)) then Some w
  else
    w ← _BRWalletInsertTx (set_allTx w (<[txHash tx := tx]> (allTx w))) tx;
    Some (set_ledger w (use_outputs (ledger w) tx)).

(** The two calls that replace used addresses. *)
Definition refill (moved1 moved2 : bool) (w : BRWallet) : option BRWallet :=
  r ← BRWalletUnusedAddrs moved1 w false SEQUENCE_GAP_LIMIT_EXTERNAL false;
  r ← BRWalletUnusedAddrs moved2 (fst r) false SEQUENCE_GAP_LIMIT_INTERNAL true;
  Some (fst r).

(** [Some None] is NULL: the first transaction does not belong to the master public key. *)
Definition BRWalletNew (moved1 moved2 : bool) (now : Z) (txs : list BRTransaction) (mpk : BRMasterPubKey) : option (option BRWallet) :=
  w ← for_each new_tx (mkWallet DEFAULT_FEE_PER_KB 0 [] ∅ mpk [] [] ∅ ledger0) txs;
  w ← refill moved1 moved2 w;
  w ← _BRWalletUpdateBalance w now;
  Some (match txs with
        | tx :: _ => if _BRWalletContainsTx w tx then Some w else None
        | [] => Some w
        end).

(** The new wallet, the return value and the callbacks. *)
Definition BRWalletRegisterTransaction (moved1 moved2 : bool) (now : Z) (w : BRWallet) (tx : BRTransaction)
    : option (BRWallet * bool * list Event) :=
  if negb (BRTransactionIsSigned tx) then None
  else if bool_decide (is_Some (allTx w !! txHash tx)) then Some (w, true, [])
  else if _BRWalletContainsTx w tx then
    w ← _BRWalletInsertTx (set_allTx w (<[txHash tx := tx]> (allTx w))) tx;
    w ← _BRWalletUpdateBalance w now;
    w ← refill moved1 moved2 w;
    Some (w, true, [balanceChanged (balance (ledger w)); txAdded (txHash tx)])
  else if is_unconfirmed tx then Some (set_allTx w (<[txHash tx := tx]> (allTx w)), false, [])
  else Some (w, false, []).
End ops.

(** ** Removing transactions *)

(** The transactions after [tx] that spend one of its outputs; [l] is scanned from the end and the
    hashes are in the order found. *)
Fixpoint dependents (m : gmap Z BRTransaction) (tx : BRTransaction) (hash : Z) (l : list Z) : option (list Z) :=
  match l with
  | [] => Some []
  | h :: l' =>
      t ← m !! h;
      if blockHeight t <? blockHeight tx then Some []
      else
        r ← dependents m tx hash l';
        Some (if negb (BRTransactionEq tx t) && existsb (fun i => UInt256Eq (in_txHash i) hash) (inputs t)
              then txHash t :: r else r)
  end.

(** [array_rm] of the last element equal to [tx]; [l] is the array reversed. *)
Fixpoint rm_tx (m : gmap Z BRTransaction) (tx : BRTransaction) (l : list Z) : option (list Z) :=
  match l with
  | [] => Some []
  | h :: l' =>
      t ← m !! h;
      if BRTransactionEq t tx then Some l' else r ← rm_tx m tx l'; Some (h :: r)
  end.

(** All inputs come from known confirmed transactions. *)
Definition all_confirmed (w : BRWallet) (tx : BRTransaction) : option bool :=
  bad ← any_of (fun i =>
    t ← BRWalletTransactionForHash w (in_txHash i);
    Some (match t with Some t => is_unconfirmed t | None => true end)) (inputs tx);
  Some (negb bad).

(** The call for a transaction without dependents. *)
Definition remove_one (now : Z) (w : BRWallet) (tx : BRTransaction) : option (BRWallet * list Event) :=
  l ← rm_tx (allTx w) tx (reverse (transactions w));
  w ← _BRWalletUpdateBalance (set_transactions w (reverse l)) now;
  notifyUser ← (if 0 <? BRWalletAmountSentByTx w tx then BRWalletTransactionIsValid w tx else Some false);
  recommendRescan ← (if (notifyUser : bool) then all_confirmed w tx else Some false);
  Some (w, [balanceChanged (balance (ledger w)); txDeleted (txHash tx) notifyUser recommendRescan]).

Fixpoint remove_rec (fuel : nat) (now : Z) (w : BRWallet) (hash : Z) : option (BRWallet * list Event) :=
  match fuel with
  | O => None
  | S fuel' =>
      if UInt256IsZero hash then None
      else
        match allTx w !! hash with
        | None => Some (w, [])
        | Some tx =>
            hashes ← dependents (allTx w) tx hash (reverse (transactions w));
            if bool_decide (hashes = []) then remove_one now w tx
            else
              st ← for_each (fun st h => r ← remove_rec fuel' now (fst st) h; Some (fst r, snd st ++ snd r)) (w, []) (reverse hashes);
              r ← remove_rec fuel' now (fst st) hash;
              Some (fst r, snd st ++ snd r)
        end
  end.

Definition BRWalletRemoveTransaction (now : Z) (w : BRWallet) (hash : Z) : option (BRWallet * list Event) :=
  remove_rec (S (S (length (transactions w)))) now w hash.

(** ** Heights *)

Definition set_confirmed (tx : BRTransaction) (height time : Z) : BRTransaction :=
  mkTx (txHash tx) (version tx) (inputs tx) (outputs tx) (lockTime tx) height time.

(** Remove and re-insert [tx]; [None] of [rm_found] if it is not in the array. *)
Fixpoint rm_found (m : gmap Z BRTransaction) (tx : BRTransaction) (l : list Z) : option (option (list Z)) :=
  match l with
  | [] => Some None
  | h :: l' =>
      t ← m !! h;
      if BRTransactionEq t tx then Some (Some l')
      else r ← rm_found m tx l'; Some (option_map (cons h) r)
  end.

Definition reinsert (w : BRWallet) (tx : BRTransaction) : option BRWallet :=
  r ← rm_found (allTx w) tx (reverse (transactions w));
  match r with
  | Some l => _BRWalletInsertTx (set_transactions w (reverse l)) tx
  | None => Some w
  end.

(** One hash; the state is the wallet, the hashes updated so far and [needsUpdate]. *)
Definition update_one (height time : Z) (st : BRWallet * list Z * bool) (hash : Z) : option (BRWallet * list Z * bool) :=
  let '(w, hashes, needsUpdate) := st in
  match allTx w !! hash with
  | None => Some st
  | Some tx =>
      if (blockHeight tx =? height) && (timestamp tx =? time) then Some st
      else
        let tx := set_confirmed tx height time in
        let w := set_allTx w (<[hash := tx]> (allTx w)) in
        if _BRWalletContainsTx w tx then
          w ← reinsert w tx;
          Some (w, hashes ++ [hash],
                needsUpdate || bool_decide (txHash tx ∈ pendingTx (ledger w)) || bool_decide (txHash tx ∈ invalidTx (ledger w)))
        else if negb (height =? TX_UNCONFIRMED) then Some (set_allTx w (delete hash (allTx w)), hashes, needsUpdate)
        else Some (w, hashes, needsUpdate)
  end.

Definition BRWalletUpdateTransactions (now : Z) (w : BRWallet) (txHashes : list Z) (height time : Z)
    : option (BRWallet * list Event) :=
  let w := if walletHeight w <? height then set_height w height else w in
  st ← for_each (update_one height time) (w, [], false) txHashes;
  let '(w, hashes, needsUpdate) := st in
  w ← (if (needsUpdate : bool) then _BRWalletUpdateBalance w now else Some w);
  Some (w, if bool_decide (hashes = []) then [] else [txUpdated hashes height time]).

(** [wallet->transactions[i + j]->blockHeight = TX_UNCONFIRMED] *)
Definition unconfirm (m : gmap Z BRTransaction) (h : Z) : option (gmap Z BRTransaction) :=
  t ← m !! h; Some (<[h := set_confirmed t TX_UNCONFIRMED (timestamp t)]> m).

(** [count_from] counts heights above [blockHeight]. *)
Definition BRWalletSetTxUnconfirmedAfter (now : Z) (w : BRWallet) (blockHeight : Z) : option (BRWallet * list Event) :=
  let w := set_height w blockHeight in
  n ← count_from (allTx w) (blockHeight + 1) (reverse (transactions w));
  let hashes := drop (length (transactions w) - n) (transactions w) in
  m ← for_each unconfirm (allTx w) hashes;
  let w := set_allTx w m in
  if bool_decide (hashes = []) then Some (w, [])
  else w ← _BRWalletUpdateBalance w now; Some (w, [txUpdated hashes TX_UNCONFIRMED 0]).

(** ** The invariant of the wallet *)

Lemma StronglySorted_reverse {A} (R : A -> A -> Prop) l : StronglySorted R l -> StronglySorted (flip R) (reverse l).
Proof.
  induction 1 as [|a l Hl IH Ha]; [constructor|]. rewrite reverse_cons. apply StronglySorted_app.
  split; [|split; [done|repeat constructor]]. intros x y Hx Hy. apply list_elem_of_singleton in Hy as ->. unfold flip.
  rewrite Forall_forall in Ha. apply Ha. now apply elem_of_reverse.
Qed.

Lemma StronglySorted_filter {A} (R : A -> A -> Prop) (P : A -> Prop) `{!forall x, Decision (P x)} l :
  StronglySorted R l -> StronglySorted R (filter P l).
Proof.
  induction 1 as [|a l Hl IH Ha]; [constructor|]. rewrite filter_cons. destruct (decide (P a)); [|done].
  constructor; [done|]. rewrite Forall_forall in *. intros x Hx. apply list_elem_of_filter in Hx as [_ Hx]. auto.
Qed.

Lemma oldest_newest m l : oldest_first m l <-> newest_first m (reverse l).
Proof.
  split; intros Hs; apply StronglySorted_reverse in Hs; [exact Hs|]. rewrite reverse_involutive in Hs. exact Hs.
Qed.

Lemma sorted_ext m m' l : (forall h, h ∈ l -> tx_height m h = tx_height m' h) -> oldest_first m l -> oldest_first m' l.
Proof.
  intros He Hs. induction Hs as [|a l Hl IH Ha]; [constructor|]. constructor.
  - apply IH. intros h Hh. apply He. now right.
  - rewrite Forall_forall in *. intros x Hx. rewrite <- !He; [now apply Ha|now right|left].
Qed.

Notation without h := (filter (fun x : Z => x <> h)).

Lemma without_id h (l : list Z) : h ∉ l -> without h l = l.
Proof.
  induction l as [|x l IH]; intros Hh; [done|]. rewrite filter_cons, not_elem_of_cons in *. destruct Hh.
  rewrite decide_True by congruence. f_equal. now apply IH.
Qed.

Section invariant.
Context (rank : Z -> nat) `{AddressChain}.
Notation store_ok := (store_ok rank).
Notation tx_ok := (tx_ok rank).

Record ledger_ok (w : BRWallet) : Prop := {
  lk_hist : length (balanceHist (ledger w)) = length (transactions w);
  lk_sum : balance (ledger w) = u64 (total (allTx w) (utxos (ledger w)));
  lk_utxos u : u ∈ utxos (ledger w) -> fst u ∈ transactions w /\ own_utxo w u;
  lk_marked h : h ∈ invalidTx (ledger w) \/ h ∈ pendingTx (ledger w) -> h ∈ transactions w;
  lk_nodup : NoDup (utxos (ledger w));
}.

(** Everything but the ledger. *)
Record core_ok (w : BRWallet) : Prop := {
  ok_store : store_ok (allTx w);
  ok_nodup : NoDup (transactions w);
  ok_mine h : h ∈ transactions w -> exists t, allTx w !! h = Some t /\ _BRWalletContainsTx w t = true;
  ok_sorted : oldest_first (allTx w) (transactions w);
  ok_chains : chains_ok w;
}.

Definition wallet_ok (w : BRWallet) : Prop := core_ok w /\ ledger_ok w.

Lemma chains_same w w' : masterPubKey w' = masterPubKey w -> internalChain w' = internalChain w ->
  externalChain w' = externalChain w -> allAddrs w' = allAddrs w -> chains_ok w -> chains_ok w'.
Proof. intros E1 E2 E3 E4 []. split; rewrite ?E1, ?E2, ?E3, ?E4; done. Qed.

Ltac core_split := split; cbn; try done; try (eapply chains_same; [..|eassumption]; done).

Lemma core_ledger w l : core_ok w -> core_ok (set_ledger w l).
Proof. intros []. core_split. Qed.

Lemma core_listed w : core_ok w -> listed_ok w.
Proof.
  intros []. split; [|intros h Hh; destruct (ok_mine0 h Hh) as (t & Ht & _); eauto|done].
  intros h t Ht. destruct (ok_store0 h t Ht) as [E Hok]. split; [done|apply Hok].
Qed.

Lemma core_known w l : core_ok w -> l ⊆ transactions w -> Forall (fun h => is_Some (allTx w !! h)) l.
Proof.
  intros Hc Hl. apply Forall_forall. intros h Hh. destruct (ok_mine w Hc h (Hl h Hh)) as (t & Ht & _). eauto.
Qed.

Lemma update_balance_core w now : core_ok w -> exists l, _BRWalletUpdateBalance w now = Some (set_ledger w l) /\
  wallet_ok (set_ledger w l) /\ scan_ok w (transactions w) l /\ marks_ok w now (transactions w) l.
Proof.
  intros Hc. destruct (update_balance_ok w now (core_listed w Hc)) as (l & E & Hs & Hm). exists l.
  split; [done|]. split; [|done]. split; [now apply core_ledger|]. destruct Hs. split; cbn; try done.
  intros u Hu. destruct (so_owned u Hu) as (? & _ & ?). done.
Qed.

(** *** Which transactions concern the wallet, as the wallet grows *)

Lemma contains_mono w w' t : allAddrs w ⊆ allAddrs w' ->
  (forall i o, spent_output (allTx w) i = Some o -> owned (allAddrs w) o = true -> spent_output (allTx w') i = Some o) ->
  _BRWalletContainsTx w t = true -> _BRWalletContainsTx w' t = true.
Proof.
  intros Ha Hs. unfold _BRWalletContainsTx. rewrite !orb_true_iff, !existsb_exists.
  assert (Ho : forall o, owned (allAddrs w) o = true -> owned (allAddrs w') o = true).
  { unfold owned. intros o. rewrite !bool_decide_eq_true. auto. }
  intros [(o & Hin & Hr)|(i & Hin & Hr)]; [left; eauto|right]. exists i. split; [done|].
  destruct (spent_output (allTx w) i) as [o|] eqn:E; [|done]. rewrite (Hs i o E Hr). auto.
Qed.

Lemma spent_output_insert m h t i o : m !! h = None -> spent_output m i = Some o -> spent_output (<[h := t]> m) i = Some o.
Proof.
  unfold spent_output. intros Hn Hs. apply bind_Some in Hs as (t' & Ht & Ho).
  rewrite lookup_insert_ne, Ht; [done|]. intros E. congruence.
Qed.

Lemma core_insert w t : core_ok w -> tx_ok t -> allTx w !! txHash t = None -> core_ok (set_allTx w (<[txHash t := t]> (allTx w))).
Proof.
  intros Hc Ht Hn. pose proof (core_listed w Hc) as Hl. destruct Hc. core_split.
  - intros h t' Ht'. apply lookup_insert_Some in Ht' as [[<- <-]|[_ Ht']]; [done|]. now apply ok_store0.
  - intros h Hh. destruct (ok_mine0 h Hh) as (t' & Ht' & Hcon). exists t'. split.
    + rewrite lookup_insert_ne; [done|]. intros <-. congruence.
    + apply (contains_mono w); cbn; [done|intros; now apply spent_output_insert|done].
  - apply (sorted_ext (allTx w)); [|done]. intros h Hh. unfold tx_height.
    destruct (ok_mine0 h Hh) as (t' & Ht' & _). rewrite lookup_insert_ne; [done|]. intros <-. congruence.
Qed.

(** The wallet with a transaction inserted in the array. *)
Lemma insert_core w t : core_ok w -> allTx w !! txHash t = Some t -> _BRWalletContainsTx w t = true ->
  txHash t ∉ transactions w ->
  exists l, _BRWalletInsertTx w t = Some (set_transactions w l) /\ core_ok (set_transactions w l) /\
    l ≡ₚ txHash t :: transactions w.
Proof.
  intros Hc Ht Hcon Hn. destruct (insert_from_spec rank w t (reverse (transactions w)) (ok_store w Hc) Ht) as (l & E & Hp & Hs).
  { apply (core_known w); [done|]. intros h. now rewrite elem_of_reverse. }
  rewrite (reverse_Permutation (transactions w)) in Hp.
  exists (reverse l). unfold _BRWalletInsertTx. rewrite E, bind_Some_l. split; [done|].
  assert (Hp' : reverse l ≡ₚ txHash t :: transactions w) by (rewrite reverse_Permutation; done).
  split; [|done]. destruct Hc. core_split.
  - rewrite Hp'. now constructor.
  - intros h. rewrite Hp', elem_of_cons. intros [->|Hh]; [eauto|]. now apply ok_mine0.
  - apply oldest_newest. rewrite reverse_involutive. apply Hs. now apply oldest_newest.
Qed.

Lemma set_transactions_twice w l l' : set_transactions (set_transactions w l) l' = set_transactions w l'.
Proof. done. Qed.

Lemma core_without w h : core_ok w -> core_ok (set_transactions w (without h (transactions w))).
Proof.
  intros []. core_split.
  - now apply NoDup_filter.
  - intros x Hx. apply list_elem_of_filter in Hx as [_ Hx]. now apply ok_mine0.
  - now apply StronglySorted_filter.
Qed.

(** *** Generating addresses *)

Lemma own_utxo_grow w internal ch addrs u : allAddrs w ⊆ addrs -> own_utxo w u -> own_utxo (set_chain w internal ch addrs) u.
Proof.
  intros Ha (t & o & Ht & Hn & Ho & Hne & Hw). exists t, o. split; [done|]. split; [done|]. split; [done|]. split; [done|].
  unfold owned in *. rewrite bool_decide_eq_true in *. apply Ha, Hw.
Qed.

Lemma grow_ok w internal ch addrs : wallet_ok w -> chains_ok (set_chain w internal ch addrs) -> allAddrs w ⊆ addrs ->
  wallet_ok (set_chain w internal ch addrs).
Proof.
  intros [Hc Hl] Hch Ha. split.
  - destruct Hc. split; cbn; try done. intros h Hh. destruct (ok_mine0 h Hh) as (t & Ht & Hcon). exists t. split; [done|].
    now apply (contains_mono w).
  - destruct Hl. split; cbn; try done. intros u Hu. destruct (lk_utxos0 u Hu) as [Hin Hown].
    split; [done|]. now apply own_utxo_grow.
Qed.

(** [A] contains the addresses of all known outputs, and the chains have room for as many again. *)
Record addresses_bounded (w : BRWallet) (A : gset (list Z)) : Prop := {
  ab_known h t o : allTx w !! h = Some t -> o ∈ outputs t -> out_address o ∈ A;
  ab_room internal : len (wallet_chain w internal) + 10 * (1 + Z.of_nat (size A)) < 0x100000000;
}.

(** A chain extended to [gap] addresses after the last used one, as far as addresses could be derived. *)
Definition refilled (w w' : BRWallet) (gap : Z) (internal : bool) : Prop :=
  wallet_chain w internal `prefix_of` wallet_chain w' internal /\
  exists i, last_used (usedAddrs (ledger w')) (wallet_chain w' internal) i /\
    (i + gap <= len (wallet_chain w' internal) \/
     chain_address (masterPubKey w') (chain_id internal) (len (wallet_chain w' internal)) = Some None).

Lemma unused_chain `{!ChainLaws (masterPubKey w)} want gap internal : chains_ok w -> 0 < gap -> chain_room w gap internal ->
  exists ch addrs r, (forall moved, BRWalletUnusedAddrs moved w want gap internal = Some (set_chain w internal ch addrs, r)) /\
    chains_ok (set_chain w internal ch addrs) /\ allAddrs w ⊆ addrs /\ refilled w (set_chain w internal ch addrs) gap internal.
Proof.
  intros Hok Hg Hroom. destruct (unused_addrs_ok want gap internal Hok Hg Hroom) as (ch & i & E & Hch & Hpre & Hlast & Hend).
  eexists ch, _, _. split; [exact E|]. split; [exact Hch|]. split; [|destruct internal; (split; [done|]); exists i; done].
  rewrite (ck_all w Hok). destruct Hpre as [ext ->].
  destruct internal; cbn; rewrite list_to_set_app_L; set_solver.
Qed.

Lemma unused_ok `{!ChainLaws (masterPubKey w)} want gap internal : wallet_ok w -> 0 < gap -> chain_room w gap internal ->
  exists ch addrs r, (forall moved, BRWalletUnusedAddrs moved w want gap internal = Some (set_chain w internal ch addrs, r)) /\
    wallet_ok (set_chain w internal ch addrs).
Proof.
  intros Hok Hg Hroom. destruct (unused_chain want gap internal (ok_chains w (proj1 Hok)) Hg Hroom) as (ch & addrs & r & E & Hc & Ha & _).
  exists ch, addrs, r. split; [exact E|]. now apply grow_ok.
Qed.

(** Both calls at once. *)
Lemma refill_chains w A : ChainLaws (masterPubKey w) -> chains_ok w -> usedAddrs (ledger w) ⊆ A ->
  (forall internal, len (wallet_chain w internal) + 10 * (1 + Z.of_nat (size A)) < 0x100000000) ->
  exists ext int a1 a2, let w1 := set_chain w false ext a1 in let w2 := set_chain w1 true int a2 in
    (forall moved1 moved2, refill moved1 moved2 w = Some w2) /\ chains_ok w1 /\ chains_ok w2 /\
    allAddrs w ⊆ a1 /\ a1 ⊆ a2 /\
    refilled w w2 SEQUENCE_GAP_LIMIT_EXTERNAL false /\ refilled w w2 SEQUENCE_GAP_LIMIT_INTERNAL true.
Proof.
  intros Hlaws Hok Hu Hroom. pose proof (subseteq_size _ _ Hu) as Hs.
  pose proof (Hroom false) as R1. pose proof (Hroom true) as R2.
  destruct (unused_chain (w := w) false SEQUENCE_GAP_LIMIT_EXTERNAL false Hok) as (ch & addrs & r & E & Hok1 & Hsub1 & Hr1);
    [done|unfold chain_room, SEQUENCE_GAP_LIMIT_EXTERNAL; lia|].
  set (w1 := set_chain w false ch addrs) in *. assert (Hlaws1 : ChainLaws (masterPubKey w1)) by exact Hlaws.
  destruct (unused_chain (w := w1) false SEQUENCE_GAP_LIMIT_INTERNAL true Hok1) as (ch2 & addrs2 & r2 & E2 & Hok2 & Hsub2 & Hr2);
    [done|unfold chain_room, SEQUENCE_GAP_LIMIT_INTERNAL; cbn in *; lia|].
  exists ch, ch2, addrs, addrs2. cbv zeta. fold w1. split; [|done].
  intros m1 m2. unfold refill. rewrite E, bind_Some_l. cbn [fst]. fold w1. rewrite E2, bind_Some_l. done.
Qed.

Lemma refill_ok w A : ChainLaws (masterPubKey w) -> wallet_ok w -> addresses_bounded w A ->
  usedAddrs (ledger w) ⊆ A ->
  exists w', (forall moved1 moved2, refill moved1 moved2 w = Some w') /\ wallet_ok w' /\ transactions w' = transactions w /\
    allTx w' = allTx w /\ ledger w' = ledger w /\ walletHeight w' = walletHeight w /\ masterPubKey w' = masterPubKey w /\
    refilled w w' SEQUENCE_GAP_LIMIT_EXTERNAL false /\ refilled w w' SEQUENCE_GAP_LIMIT_INTERNAL true.
Proof.
  intros Hlaws Hok Hb Hu.
  destruct (refill_chains w A Hlaws (ok_chains w (proj1 Hok)) Hu (ab_room w A Hb)) as (ext & int & a1 & a2 & E & H1 & H2 & S1 & S2 & R).
  eexists. split; [exact E|]. split; [|destruct R; done]. apply grow_ok; [now apply grow_ok|done|done].
Qed.

(** The addresses the recomputed ledger reports as used are addresses of known outputs. *)
Lemma used_bounded w txs l A : scan_ok w txs l -> (forall h t o, allTx w !! h = Some t -> o ∈ outputs t -> out_address o ∈ A) ->
  usedAddrs l ⊆ A.
Proof.
  intros Hs Ha a Hin. apply (so_used _ _ _ Hs) in Hin as (_ & h & t & o & _ & _ & Ht & Ho & <-). eauto.
Qed.

(** *** Registering *)

Lemma register_ok moved1 moved2 now w t A : ChainLaws (masterPubKey w) -> wallet_ok w -> tx_ok t ->
  addresses_bounded (set_allTx w (<[txHash t := t]> (allTx w))) A ->
  exists w' r ev, BRWalletRegisterTransaction moved1 moved2 now w t = Some (w', r, ev) /\ wallet_ok w' /\
    masterPubKey w' = masterPubKey w /\
    (allTx w !! txHash t = None -> _BRWalletContainsTx w t = true ->
       r = true /\ allTx w' = <[txHash t := t]> (allTx w) /\ transactions w' ≡ₚ txHash t :: transactions w /\
       (exists w0, scan_ok w0 (transactions w') (ledger w') /\ marks_ok w0 now (transactions w') (ledger w') /\
          allTx w0 = allTx w' /\ allAddrs w0 = allAddrs w /\ walletHeight w0 = walletHeight w) /\
       (refilled w w' SEQUENCE_GAP_LIMIT_EXTERNAL false /\ refilled w w' SEQUENCE_GAP_LIMIT_INTERNAL true) /\
       ev = [balanceChanged (balance (ledger w')); txAdded (txHash t)]).
Proof.
  intros Hlaws Hok Ht Hb. unfold BRWalletRegisterTransaction. rewrite (tk_signed rank t Ht). cbn [negb].
  case_bool_decide as Hin.
  { exists w, true, []. split; [done|]. split; [done|]. split; [done|]. intros Hn. destruct Hin. congruence. }
  assert (Hn : allTx w !! txHash t = None) by (destruct (allTx w !! txHash t) eqn:E; [destruct Hin; eauto|done]).
  set (w1 := set_allTx w (<[txHash t := t]> (allTx w))) in *.
  assert (Hc1 : core_ok w1) by (apply core_insert; [apply Hok|done|done]).
  assert (Hlist : txHash t ∉ transactions w).
  { intros Hx. destruct (ok_mine w (proj1 Hok) _ Hx) as (t' & Ht' & _). congruence. }
  destruct (_BRWalletContainsTx w t) eqn:Hcon.
  - destruct (insert_core w1 t Hc1) as (l & E1 & Hc2 & Hp); [apply lookup_insert_eq| |done|].
    { apply (contains_mono w); [done|intros; now apply spent_output_insert|done]. }
    rewrite E1, bind_Some_l. set (w2 := set_transactions w1 l) in *.
    destruct (update_balance_core w2 now Hc2) as (l2 & E2 & Hok3 & Hs & Hm). rewrite E2, bind_Some_l.
    destruct (refill_ok (set_ledger w2 l2) A Hlaws Hok3) as (w' & E3 & Hok4 & F1 & F2 & F3 & F4 & F5 & R1 & R2).
    { destruct Hb. split; done. }
    { apply (used_bounded w2 _ _ _ Hs). apply Hb. }
    rewrite E3, bind_Some_l. exists w', true, [balanceChanged (balance (ledger w')); txAdded (txHash t)].
    split; [done|]. split; [done|]. split; [now rewrite F5|]. intros _ _. rewrite F1, F2, F3.
    split; [done|]. split; [done|]. split; [exact Hp|]. split; [exists w2; done|]. split; [|done].
    split; [exact R1|exact R2].
  - destruct (is_unconfirmed t).
    + exists w1, false, []. split; [done|]. split; [|done]. split; [done|]. destruct Hok as [_ []]. split; cbn; try done.
      * rewrite lk_sum0. f_equal. unfold total. f_equal. apply list_fmap_ext. intros i u Hu.
        apply list_elem_of_lookup_2, lk_utxos0 in Hu as [_ (t' & o & Ht' & _)].
        unfold utxo_value, utxo_amount. rewrite lookup_insert_ne; [done|]. intros E. congruence.
      * intros u Hu. destruct (lk_utxos0 u Hu) as [? (t' & o & Ht' & Hr)]. split; [done|]. exists t', o. split; [|done].
        cbn. rewrite lookup_insert_ne; [done|]. intros E. congruence.
    + exists w, false, []. done.
Qed.

(** *** Creating *)

(** The wallet under construction, after the transactions [pre]. *)
Record building (mpk : BRMasterPubKey) (A : gset (list Z)) (pre : list BRTransaction) (w : BRWallet) : Prop := {
  bd_store : store_ok (allTx w);
  bd_nodup : NoDup (transactions w);
  bd_listed h : h ∈ transactions w <-> is_Some (allTx w !! h);
  bd_all h : h ∈ transactions w <-> h ∈ txHash <$> pre;
  bd_from h t : allTx w !! h = Some t -> t ∈ pre;
  bd_sorted : oldest_first (allTx w) (transactions w);
  bd_empty : internalChain w = [] /\ externalChain w = [] /\ allAddrs w = ∅ /\ masterPubKey w = mpk;
  bd_used : usedAddrs (ledger w) ⊆ A;
}.

Lemma use_outputs_used l t A : usedAddrs l ⊆ A -> (forall o, o ∈ outputs t -> out_address o ∈ A) -> usedAddrs (use_outputs l t) ⊆ A.
Proof.
  unfold use_outputs. revert l. induction (outputs t) as [|o outs IH]; intros l Hl Ho; [done|]. cbn [foldl]. apply IH.
  - case_bool_decide; [done|]. cbn. pose proof (Ho o (list_elem_of_here _ _)). set_solver.
  - intros x Hx. apply Ho. now right.
Qed.

Lemma new_tx_ok mpk A pre w t : building mpk A pre w -> tx_ok t -> (forall o, o ∈ outputs t -> out_address o ∈ A) ->
  exists w', new_tx w t = Some w' /\ building mpk A (pre ++ [t]) w'.
Proof.
  intros [Hm Hn Hl Ha Hfrom Hs He Hu] Ht Ho. unfold new_tx. rewrite (tk_signed rank t Ht). cbn [negb orb].
  case_bool_decide as Hin.
  { exists w. split; [done|]. split; try done; [|intros; apply elem_of_app; left; eauto]. intros h. rewrite fmap_app, elem_of_app, Ha. cbn.
    rewrite list_elem_of_singleton. split; [tauto|]. intros [?| ->]; [done|]. now apply Ha, Hl. }
  set (m := <[txHash t := t]> (allTx w)). assert (Hm' : store_ok m).
  { intros h t' Ht'. apply lookup_insert_Some in Ht' as [[<- <-]|[_ Ht']]; [done|]. now apply Hm. }
  assert (Hnew : txHash t ∉ transactions w) by now rewrite Hl.
  destruct (insert_from_spec rank (set_allTx w m) t (reverse (transactions w)) Hm') as (l & E & Hp & Hsort).
  { apply lookup_insert_eq. }
  { apply Forall_forall. intros h Hh. rewrite elem_of_reverse in Hh.
    assert (h <> txHash t) by (intros ->; done). unfold m. cbn. rewrite lookup_insert_ne by done. now apply Hl. }
  unfold _BRWalletInsertTx. cbn [transactions set_allTx]. rewrite E, !bind_Some_l. eexists. split; [done|].
  assert (Hp' : reverse l ≡ₚ txHash t :: transactions w) by (rewrite reverse_Permutation, Hp; f_equiv; apply reverse_Permutation).
  split; cbn; [done|rewrite Hp'; now constructor|..].
  - intros h. rewrite Hp', elem_of_cons, Hl. unfold m. destruct (decide (h = txHash t)) as [->|Hne].
    + rewrite lookup_insert_eq. split; [eauto|now left].
    + rewrite lookup_insert_ne by done. naive_solver.
  - intros h. rewrite Hp', elem_of_cons, fmap_app, elem_of_app, Ha. cbn. rewrite list_elem_of_singleton. tauto.
  - intros h t' Ht'. apply elem_of_app. apply lookup_insert_Some in Ht' as [[_ <-]|[_ Ht']]; [right; left|left; eauto].
  - apply oldest_newest. rewrite reverse_involutive. apply Hsort, oldest_newest.
    apply (sorted_ext (allTx w)); [|done]. intros h Hh. assert (h <> txHash t) by (intros ->; done).
    unfold tx_height, m. cbn. now rewrite lookup_insert_ne.
  - done.
  - now apply use_outputs_used.
Qed.

(** The sum of the ledger after [_BRWalletUpdateBalance] in a wallet whose transactions all concern it. *)
Lemma new_ok (mpk : BRMasterPubKey) (now : Z) (txs : list BRTransaction) (A : gset (list Z)) : ChainLaws mpk -> (forall t, t ∈ txs -> tx_ok t) ->
  (forall t o, t ∈ txs -> o ∈ outputs t -> out_address o ∈ A) -> 10 * (1 + Z.of_nat (size A)) < 0x100000000 ->
  exists w, (forall moved1 moved2, BRWalletNew moved1 moved2 now txs mpk =
      Some (match txs with tx :: _ => if _BRWalletContainsTx w tx then Some w else None | [] => Some w end)) /\
    masterPubKey w = mpk /\ store_ok (allTx w) /\ NoDup (transactions w) /\ oldest_first (allTx w) (transactions w) /\
    (forall h, h ∈ transactions w <-> h ∈ txHash <$> txs) /\ (forall h, h ∈ transactions w <-> is_Some (allTx w !! h)) /\
    chains_ok w /\ scan_ok w (transactions w) (ledger w) /\
    ((forall t, t ∈ txs -> _BRWalletContainsTx w t = true) -> wallet_ok w).
Proof.
  intros Hlaws Hok Hb HA.
  destruct (for_each_total (building mpk A) new_tx txs (mkWallet DEFAULT_FEE_PER_KB 0 [] ∅ mpk [] [] ∅ ledger0)) as (w1 & E1 & B).
  - split; cbn; try done; [constructor|intros h|constructor]. rewrite lookup_empty. split; [intros Hx; now apply elem_of_nil in Hx|by intros []].
  - intros pre t post w -> B. assert (Hin : t ∈ pre ++ t :: post) by set_solver. apply new_tx_ok; eauto.
  - destruct B as [Hm Hn Hl Ha Hfrom Hs (I1 & I2 & I3 & I4) Hu].
    assert (Hch : chains_ok w1).
    { split; rewrite ?I1, ?I2, ?I3; [intros k a Hk; now rewrite lookup_nil in Hk..|cbn; set_solver]. }
    destruct (refill_chains w1 A) as (ext & int & a1 & a2 & E2 & _ & C2 & _); [now rewrite I4|done|done| |].
    { intros []; cbn; rewrite ?I1, ?I2; cbn; lia. }
    set (w2 := set_chain _ true int a2) in *.
    assert (Hlist : listed_ok w2).
    { split; cbn; [|intros h Hh; now apply Hl|done]. intros h t Ht. destruct (Hm h t Ht) as [<- Htok]. split; [done|apply Htok]. }
    destruct (update_balance_ok w2 now Hlist) as (l & E3 & Hscan & _). exists (set_ledger w2 l). split.
    { intros m1 m2. unfold BRWalletNew. rewrite E1, bind_Some_l, E2, bind_Some_l, E3, bind_Some_l. done. }
    split; [exact I4|]. do 5 (split; [done|]). split; [eapply chains_same; [..|exact C2]; done|]. split; [destruct Hscan; split; done|].
    intros Hmine. assert (Hcore : core_ok w2).
    { split; [done|done| |done|done]. intros h Hh. destruct (proj1 (Hl h) Hh) as [t Ht]. exists t. split; [exact Ht|].
      apply Hmine. eauto. }
    destruct (update_balance_core w2 now Hcore) as (l' & E' & Hok' & _). now replace (set_ledger w2 l) with (set_ledger w2 l') by congruence.
Qed.

(** *** Changing heights in place *)

(** The stores agree except for heights and time stamps. *)
Definition same_txs (m m' : gmap Z BRTransaction) : Prop := forall h,
  match m !! h, m' !! h with
  | Some t, Some t' => t' = set_confirmed t (blockHeight t') (timestamp t')
  | None, None => True
  | _, _ => False
  end.

Lemma same_txs_confirm m h t a b : m !! h = Some t -> same_txs m (<[h := set_confirmed t a b]> m).
Proof.
  intros Ht x. destruct (decide (x = h)) as [->|Hne]; [now rewrite Ht, lookup_insert_eq|].
  rewrite lookup_insert_ne by done. destruct (m !! x) as [[]|]; done.
Qed.

Lemma same_txs_outputs m m' h t : same_txs m m' -> m !! h = Some t ->
  exists t', m' !! h = Some t' /\ t' = set_confirmed t (blockHeight t') (timestamp t').
Proof. intros Hs Ht. specialize (Hs h). rewrite Ht in Hs. destruct (m' !! h) as [t'|]; [eauto|done]. Qed.

Lemma same_spent_output m m' i o : same_txs m m' -> spent_output m i = Some o -> spent_output m' i = Some o.
Proof.
  unfold spent_output. intros Hs Ho. apply bind_Some in Ho as (t & Ht & Ho).
  destruct (same_txs_outputs m m' _ t Hs Ht) as (t' & -> & ->). exact Ho.
Qed.

Lemma same_utxo_amount m m' u a : same_txs m m' -> utxo_amount m u = Some a -> utxo_amount m' u = Some a.
Proof.
  unfold utxo_amount. intros Hs Ho. apply bind_Some in Ho as (t & Ht & Ho).
  destruct (same_txs_outputs m m' _ t Hs Ht) as (t' & -> & ->). exact Ho.
Qed.

Lemma tx_ok_confirm t a b : tx_ok t -> 0 <= a <= TX_UNCONFIRMED -> tx_ok (set_confirmed t a b).
Proof. intros [] Ha. split; done. Qed.

(** The ledger stays right when the array is permuted and heights change. *)
Lemma ledger_same w w' : ledger w' = ledger w -> transactions w' ≡ₚ transactions w ->
  (forall u, u ∈ utxos (ledger w) -> own_utxo w u -> own_utxo w' u /\ utxo_amount (allTx w') u = utxo_amount (allTx w) u) ->
  ledger_ok w -> ledger_ok w'.
Proof.
  intros El Ep Hu [H1 H2 H3 H4 H5]. split; rewrite ?El.
  - now rewrite H1, Ep.
  - rewrite H2. f_equal. unfold total. f_equal. apply list_fmap_ext. intros i u Hi.
    apply list_elem_of_lookup_2 in Hi. destruct (H3 u Hi) as [_ Ho]. unfold utxo_value. now rewrite (proj2 (Hu u Hi Ho)).
  - intros u Hin. destruct (H3 u Hin) as [Ht Ho]. rewrite Ep. split; [done|]. now apply Hu.
  - intros h Hh. rewrite Ep. auto.
  - done.
Qed.

Lemma own_utxo_same w w' u : allAddrs w' = allAddrs w -> same_txs (allTx w) (allTx w') -> own_utxo w u ->
  own_utxo w' u /\ utxo_amount (allTx w') u = utxo_amount (allTx w) u.
Proof.
  intros Ea Hs Ho. pose proof Ho as (t & o & Ht & Hn & Hl & Hne & Hw). split.
  - destruct (same_txs_outputs _ _ _ t Hs Ht) as (t' & Ht' & E). exists t', o. rewrite Ea. split; [done|]. now rewrite E.
  - destruct (own_amount w u Ho) as [a Ha]. rewrite Ha. now apply (same_utxo_amount (allTx w)).
Qed.

Lemma contains_same w w' t : allAddrs w' = allAddrs w -> same_txs (allTx w) (allTx w') ->
  _BRWalletContainsTx w t = true -> _BRWalletContainsTx w' t = true.
Proof. intros Ea Hs. apply contains_mono; [now rewrite Ea|]. intros i o Hi _. now apply (same_spent_output (allTx w)). Qed.

(** Setting the height and taking the transaction out of the array leaves a well-formed wallet. *)
Lemma confirm_core w h t a b : core_ok w -> allTx w !! h = Some t -> 0 <= a <= TX_UNCONFIRMED ->
  core_ok (set_transactions (set_allTx w (<[h := set_confirmed t a b]> (allTx w))) (without h (transactions w))).
Proof.
  intros Hc Ht Ha. pose proof (same_txs_confirm (allTx w) h t a b Ht) as Hs. destruct Hc. core_split.
  - intros x t' Hx. apply lookup_insert_Some in Hx as [[<- <-]|[_ Hx]]; [|now apply ok_store0].
    destruct (ok_store0 h t Ht) as [<- Hok]. split; [done|]. now apply tx_ok_confirm.
  - now apply NoDup_filter.
  - intros x Hx. apply list_elem_of_filter in Hx as [Hne Hx]. destruct (ok_mine0 x Hx) as (t' & Ht' & Hcon).
    exists t'. rewrite lookup_insert_ne by done. split; [done|].
    apply (contains_same w); [done|exact Hs|done].
  - apply (sorted_ext (allTx w)); [|now apply StronglySorted_filter].
    intros x Hx. apply list_elem_of_filter in Hx as [Hne _]. unfold tx_height. now rewrite lookup_insert_ne.
Qed.

Lemma eq_hash a b : is_u256 (txHash a) -> is_u256 (txHash b) -> BRTransactionEq a b = (txHash a =? txHash b).
Proof. intros Ha Hb. unfold BRTransactionEq. now apply UInt256Eq_spec. Qed.

Lemma rm_found_spec m t l : store_ok m -> tx_ok t -> NoDup l -> Forall (fun h => is_Some (m !! h)) l ->
  rm_found m t l = Some (if decide (txHash t ∈ l) then Some (without (txHash t) l) else None).
Proof.
  intros Hm Ht Hn. induction 1 as [|h l [t' Ht'] Hl IH]; cbn [rm_found].
  - now rewrite decide_False by apply not_elem_of_nil.
  - rewrite Ht', bind_Some_l. apply NoDup_cons in Hn as [Hh Hn]. destruct (Hm h t' Ht') as [E Hok'].
    rewrite eq_hash, E, filter_cons by (apply Hok' || apply Ht). destruct (Z.eqb_spec h (txHash t)) as [->|Hne].
    + rewrite decide_True by left. rewrite (decide_False (P := txHash t <> txHash t)), without_id by tauto. done.
    + rewrite IH, bind_Some_l by done. rewrite (decide_True (P := h <> txHash t)) by done.
      destruct (decide (txHash t ∈ l)); [rewrite decide_True by now right|rewrite decide_False by (rewrite elem_of_cons; naive_solver)]; done.
Qed.

Lemma rm_tx_spec m t l : store_ok m -> tx_ok t -> NoDup l -> Forall (fun h => is_Some (m !! h)) l ->
  rm_tx m t l = Some (without (txHash t) l).
Proof.
  intros Hm Ht Hn. induction 1 as [|h l [t' Ht'] Hl IH]; cbn [rm_tx]; [done|].
  rewrite Ht', bind_Some_l. apply NoDup_cons in Hn as [Hh Hn]. destruct (Hm h t' Ht') as [E Hok'].
  rewrite eq_hash, E, filter_cons by (apply Hok' || apply Ht). destruct (Z.eqb_spec h (txHash t)) as [->|Hne].
  - rewrite decide_False, without_id by tauto. done.
  - rewrite IH, bind_Some_l, decide_True by done. done.
Qed.

Lemma without_perm h (l : list Z) : NoDup l -> h ∈ l -> h :: without h l ≡ₚ l.
Proof.
  induction 1 as [|x l Hx Hn IH]; intros Hh; [now apply elem_of_nil in Hh|]. rewrite filter_cons.
  destruct (decide (x = h)) as [->|Hne].
  - rewrite decide_False, without_id by tauto. done.
  - rewrite decide_True by done. rewrite perm_swap. f_equiv. apply IH. apply elem_of_cons in Hh. naive_solver.
Qed.

Lemma owned_contains w h t i o : allTx w !! h = Some t -> in_txHash i = h -> spent_output (allTx w) i = Some o ->
  owned (allAddrs w) o = true -> _BRWalletContainsTx w t = true.
Proof.
  intros Ht <- Ho Hw. unfold spent_output in Ho. rewrite Ht, bind_Some_l in Ho. unfold _BRWalletContainsTx.
  apply orb_true_iff. left. apply existsb_exists. exists o. split; [|done].
  apply list_elem_of_In. now apply list_elem_of_lookup_2 in Ho.
Qed.

(** Forgetting a transaction that does not concern the wallet. *)
Lemma forget_ok w h t : core_ok w -> ledger_ok w -> h ∉ transactions w -> allTx w !! h = Some t ->
  _BRWalletContainsTx w t = false -> wallet_ok (set_allTx w (delete h (allTx w))).
Proof.
  intros Hc Hl Hn Ht Hcon. split.
  - destruct Hc. core_split.
    + intros x t' Hx. apply lookup_delete_Some in Hx as [_ Hx]. now apply ok_store0.
    + intros x Hx. destruct (ok_mine0 x Hx) as (t' & Ht' & Hcon'). exists t'.
      rewrite lookup_delete_ne by (intros <-; done). split; [done|].
      apply (contains_mono w); [done| |done]. cbn. intros i o Ho Hw. pose proof Ho as Ho'. unfold spent_output in *.
      rewrite lookup_delete_ne; [done|]. intros E. rewrite (owned_contains w h t i o) in Hcon; done.
    + apply (sorted_ext (allTx w)); [|done]. intros x Hx. unfold tx_height. rewrite lookup_delete_ne; [done|].
      intros <-. done.
  - apply (ledger_same w); [done|done| |done]. intros u _ (t' & o & Ht' & Hpos & Ho & Hne & Hw).
    assert (Hu : h <> fst u).
    { intros E. rewrite (owned_contains w h t (mkInput (fst u) (snd u) [] 0 None None 0) o) in Hcon; try done.
      unfold spent_output. cbn [in_txHash in_index]. now rewrite Ht', bind_Some_l. }
    split; [exists t', o; cbn; now rewrite lookup_delete_ne|]. unfold utxo_amount. cbn. now rewrite lookup_delete_ne.
Qed.

(** The transactions of [w'] are those of [w] up to heights, less some that do not concern the wallet. *)
Definition pruned (w w' : BRWallet) : Prop := allAddrs w' = allAddrs w /\ forall h,
  match allTx w !! h, allTx w' !! h with
  | Some t, Some t' => t' = set_confirmed t (blockHeight t') (timestamp t')
  | Some t, None => _BRWalletContainsTx w t = false
  | None, None => True
  | None, Some _ => False
  end.

Lemma pruned_contains w w' t : pruned w w' -> _BRWalletContainsTx w' t = _BRWalletContainsTx w t.
Proof.
  intros [Ea Hs]. unfold _BRWalletContainsTx at 1 2. rewrite Ea. f_equal. induction (inputs t) as [|i ins IH]; cbn; [done|].
  f_equal; [|exact IH]. specialize (Hs (in_txHash i)). unfold spent_output at 1.
  destruct (spent_output (allTx w) i) as [o|] eqn:Eo; unfold spent_output in Eo.
  - apply bind_Some in Eo as (t0 & Et0 & Eo). rewrite Et0 in Hs. destruct (allTx w' !! in_txHash i) as [t'|].
    + rewrite bind_Some_l, Hs. cbn [outputs set_confirmed]. now rewrite Eo.
    + cbn. destruct (owned (allAddrs w) o) eqn:Ho; [|done].
      rewrite (owned_contains w (in_txHash i) t0 i o) in Hs; [done|done|done| |done].
      unfold spent_output. now rewrite Et0, bind_Some_l.
  - destruct (allTx w !! in_txHash i) as [t0|], (allTx w' !! in_txHash i) as [t'|]; try done.
    rewrite bind_Some_l in Eo. rewrite bind_Some_l, Hs. cbn [outputs set_confirmed]. now rewrite Eo.
Qed.

(** What [update_one] makes of a known transaction ([None]: forgotten), and whether it reports it. *)
Definition updated_tx (w : BRWallet) (height time : Z) (t : BRTransaction) : option BRTransaction :=
  if (blockHeight t =? height) && (timestamp t =? time) then Some t
  else if _BRWalletContainsTx w t || (height =? TX_UNCONFIRMED) then Some (set_confirmed t height time) else None.

Definition reported (w : BRWallet) (height time h : Z) : bool :=
  match allTx w !! h with
  | Some t => negb ((blockHeight t =? height) && (timestamp t =? time)) && _BRWalletContainsTx w t
  | None => false
  end.

(** What [update_one] does for the hash [h]. *)
Record updated (height time h : Z) (w w' : BRWallet) : Prop := {
  up_ok : wallet_ok w';
  up_const : masterPubKey w' = masterPubKey w /\ walletHeight w' = walletHeight w /\ ledger w' = ledger w;
  up_perm : transactions w' ≡ₚ transactions w;
  up_other x : x <> h -> allTx w' !! x = allTx w !! x;
  up_tx : allTx w' !! h = t ← allTx w !! h; updated_tx w height time t;
  up_contains t : _BRWalletContainsTx w' t = _BRWalletContainsTx w t;
}.

Section update_one.
Context (w : BRWallet) (h : Z) (t : BRTransaction) (height time : Z).
Context (Hok : wallet_ok w) (Ht : allTx w !! h = Some t) (Hh : 0 <= height <= TX_UNCONFIRMED).
Notation t1 := (set_confirmed t height time).
Notation w1 := (set_allTx w (<[h := t1]> (allTx w))).

Lemma update_hash : txHash t = h /\ tx_ok t1.
Proof. destruct (ok_store w (proj1 Hok) h t Ht) as [Eh Htok]. split; [done|]. now apply tx_ok_confirm. Qed.

Lemma update_ledger w' : ledger w' = ledger w -> transactions w' ≡ₚ transactions w -> allAddrs w' = allAddrs w ->
  allTx w' = allTx w1 -> ledger_ok w'.
Proof.
  intros El Ep Ea Et. apply (ledger_same w); [done|done| |apply Hok]. intros u _. apply own_utxo_same; [done|].
  rewrite Et. now apply same_txs_confirm.
Qed.

Context (Hchg : (blockHeight t =? height) && (timestamp t =? time) = false).

Lemma update_contains x : _BRWalletContainsTx w1 x = _BRWalletContainsTx w x.
Proof.
  apply pruned_contains. split; [done|]. intros y. pose proof (same_txs_confirm (allTx w) h t height time Ht y) as Hs. cbn [allTx set_allTx].
  destruct (allTx w !! y); destruct (<[h:=t1]> (allTx w) !! y); done.
Qed.

Lemma update_store w' : wallet_ok w' -> masterPubKey w' = masterPubKey w /\ walletHeight w' = walletHeight w ->
  ledger w' = ledger w -> allAddrs w' = allAddrs w ->
  transactions w' ≡ₚ transactions w -> allTx w' = allTx w1 -> (_BRWalletContainsTx w1 t1 = true \/ height = TX_UNCONFIRMED) ->
  updated height time h w w'.
Proof.
  intros Hok' [Hm Hw] El Ea Hp Et Hkeep. split; [done|done|done|..].
  - intros x Hx. rewrite Et. now apply lookup_insert_ne.
  - rewrite Et, Ht, bind_Some_l. cbn [allTx set_allTx]. rewrite lookup_insert_eq. unfold updated_tx. rewrite Hchg.
    rewrite update_contains in Hkeep. change (_BRWalletContainsTx w t1) with (_BRWalletContainsTx w t) in Hkeep.
    destruct Hkeep as [-> | ->]; [done|]. now rewrite Z.eqb_refl, orb_true_r.
  - intros x. rewrite <- update_contains. unfold _BRWalletContainsTx. now rewrite Et, Ea.
Qed.

Lemma unlisted_ok : h ∉ transactions w -> wallet_ok w1.
Proof.
  intros Hn. split; [|now apply update_ledger].
  pose proof (confirm_core w h t height time (proj1 Hok) Ht Hh) as Hc. rewrite without_id in Hc by done. destruct w. exact Hc.
Qed.

Lemma updated_forgotten : h ∉ transactions w -> _BRWalletContainsTx w1 t1 = false -> height <> TX_UNCONFIRMED ->
  updated height time h w (set_allTx w1 (delete h (allTx w1))).
Proof.
  intros Hn Hcon Hu. destruct (unlisted_ok Hn) as [Hc Hl]. pose proof Hcon as Hcon'. rewrite update_contains in Hcon'.
  split; [apply (forget_ok w1 h t1); try done; apply lookup_insert_eq|done|done|..]; cbn [allTx set_allTx].
  - intros x Hx. rewrite lookup_delete_ne, lookup_insert_ne by done. done.
  - rewrite lookup_delete_eq, Ht, bind_Some_l. unfold updated_tx. rewrite Hchg, (proj2 (Z.eqb_neq height _) Hu).
    change (_BRWalletContainsTx w t) with (_BRWalletContainsTx w t1). now rewrite Hcon'.
  - intros x. apply pruned_contains. split; [done|]. intros y. cbn [allTx set_allTx]. destruct (decide (y = h)) as [->|Hne].
    + rewrite Ht, lookup_delete_eq. exact Hcon'.
    + rewrite lookup_delete_ne, lookup_insert_ne by done. destruct (allTx w !! y) as [[]|]; done.
Qed.

Lemma updated_listed : _BRWalletContainsTx w1 t1 = true -> exists w', reinsert w1 t1 = Some w' /\ updated height time h w w'.
Proof.
  intros Hcon. destruct update_hash as [Eh Htok]. assert (E1 : txHash t1 = h) by done.
  pose proof (confirm_core w h t height time (proj1 Hok) Ht Hh) as Hc. unfold reinsert.
  rewrite (rm_found_spec _ t1); [|apply Hc|done|rewrite reverse_Permutation; apply (ok_nodup w), Hok|]; cycle 1.
  { apply Forall_forall. intros x Hx. rewrite elem_of_reverse in Hx. destruct (ok_mine w (proj1 Hok) x Hx) as (t' & Ht' & _).
    destruct (same_txs_outputs _ _ x t' (same_txs_confirm _ h t height time Ht) Ht') as (t'' & Ht'' & _). exists t''. exact Ht''. }
  rewrite bind_Some_l, E1. destruct (decide _) as [Hin|Hin]; rewrite elem_of_reverse in Hin;
    [|exists w1; split; [done|]; apply update_store; auto using unlisted_ok].
  rewrite filter_reverse, reverse_involutive. cbn [transactions set_allTx] in *.
  destruct (insert_core (set_transactions w1 (without h (transactions w))) t1 Hc) as (l & Ei & Hc' & Hp).
  - rewrite E1. apply lookup_insert_eq.
  - exact Hcon.
  - rewrite E1. intros Hx. now apply list_elem_of_filter in Hx as [Hx _].
  - rewrite Ei. eexists. split; [done|]. rewrite E1 in Hp. cbn [transactions set_transactions] in Hp.
    rewrite without_perm in Hp; [|apply (ok_nodup w), Hok|done]. apply update_store; auto. split; [exact Hc'|].
    now apply update_ledger.
Qed.

Lemma listed_contains : h ∈ transactions w -> _BRWalletContainsTx w1 t1 = true.
Proof.
  intros Hx. destruct (ok_mine w (proj1 Hok) h Hx) as (t' & Ht' & Hcon). assert (t' = t) as -> by congruence.
  rewrite update_contains. exact Hcon.
Qed.
End update_one.

(** One transaction of [BRWalletUpdateTransactions]. *)
Lemma update_one_ok height time w hashes needs h : wallet_ok w -> 0 <= height <= TX_UNCONFIRMED ->
  exists w', update_one height time (w, hashes, needs) h =
      Some (w', hashes ++ (if reported w height time h then [h] else []),
            needs || reported w height time h && (bool_decide (h ∈ pendingTx (ledger w)) || bool_decide (h ∈ invalidTx (ledger w)))) /\
    updated height time h w w'.
Proof.
  intros Hok Hh. unfold update_one, reported. destruct (allTx w !! h) as [t|] eqn:Ht; cycle 1.
  { exists w. rewrite app_nil_r, orb_false_r. split; [done|]. split; try done. now rewrite Ht. }
  destruct ((blockHeight t =? height) && (timestamp t =? time)) eqn:E; cbn [negb andb].
  { exists w. rewrite app_nil_r, orb_false_r. split; [done|]. split; try done. rewrite Ht, bind_Some_l. unfold updated_tx. now rewrite E. }
  cbv zeta. pose proof (update_contains w h t height time Ht (set_confirmed t height time)) as Ec.
  destruct (ok_store w (proj1 Hok) h t Ht) as [Eh _].
  change (_BRWalletContainsTx w t) with (_BRWalletContainsTx w (set_confirmed t height time)). rewrite <- Ec.
  destruct (_BRWalletContainsTx _ _) eqn:Hcon.
  - destruct (updated_listed w h t height time Hok Ht Hh E Hcon) as (w' & -> & Hu). rewrite bind_Some_l.
    exists w'. split; [|done]. change (txHash (set_confirmed t height time)) with (txHash t). rewrite Eh.
    destruct (up_const _ _ _ _ _ Hu) as (_ & _ & ->). cbn [andb]. now rewrite <- orb_assoc.
  - assert (Hn : h ∉ transactions w).
    { intros Hx. pose proof (listed_contains w h t height time Hok Ht Hx). congruence. }
    rewrite app_nil_r, orb_false_r. destruct (Z.eqb_spec height TX_UNCONFIRMED) as [Hu|Hu]; cbn [negb]; eexists; (split; [done|]).
    + apply (update_store w h t height time Ht Hh E); auto. now apply unlisted_ok.
    + now apply updated_forgotten.
Qed.

(** Doing it twice changes nothing more. *)
Lemma updated_tx_twice w w' height time t t' : (forall x, _BRWalletContainsTx w' x = _BRWalletContainsTx w x) ->
  updated_tx w height time t = Some t' ->
  updated_tx w' height time t' = Some t' /\ (blockHeight t' =? height) && (timestamp t' =? time) = true.
Proof.
  intros Hc. unfold updated_tx. destruct ((blockHeight t =? height) && (timestamp t =? time)) eqn:E.
  - intros [= <-]. rewrite E. done.
  - destruct (_ || _); [|done]. intros [= <-]. cbn [blockHeight timestamp set_confirmed]. rewrite !Z.eqb_refl. done.
Qed.

Lemma set_height_ok w x : wallet_ok w -> wallet_ok (set_height w x).
Proof. intros [[] []]. split; [core_split|split; done]. Qed.

Lemma set_fee_ok w x : wallet_ok w -> wallet_ok (BRWalletSetFeePerKb w x).
Proof. intros [[] []]. split; [core_split|split; done]. Qed.

(** The ledger of [w] is the result of a scan of its transactions. *)
Definition recomputed (now : Z) (w : BRWallet) : Prop := exists w0,
  scan_ok w0 (transactions w) (ledger w) /\ marks_ok w0 now (transactions w) (ledger w) /\
  allTx w0 = allTx w /\ allAddrs w0 = allAddrs w /\ walletHeight w0 = walletHeight w /\ transactions w0 = transactions w.

Lemma update_balance_wallet w now : wallet_ok w -> exists l, _BRWalletUpdateBalance w now = Some (set_ledger w l) /\
  wallet_ok (set_ledger w l) /\ recomputed now (set_ledger w l).
Proof.
  intros [Hc _]. destruct (update_balance_core w now Hc) as (l & E & Hok & Hs & Hm). exists l. split; [done|]. split; [done|].
  exists w. done.
Qed.

(** The state of the loop of [BRWalletUpdateTransactions] after the hashes [pre]. *)
Record updating (height time : Z) (w : BRWallet) (pre : list Z) (st : BRWallet * list Z * bool) : Prop := {
  ud_ok : wallet_ok st.1.1;
  ud_const : masterPubKey st.1.1 = masterPubKey w /\ walletHeight st.1.1 = walletHeight w /\ ledger st.1.1 = ledger w;
  ud_perm : transactions st.1.1 ≡ₚ transactions w;
  ud_given x : x ∈ pre -> allTx st.1.1 !! x = t ← allTx w !! x; updated_tx w height time t;
  ud_other x : x ∉ pre -> allTx st.1.1 !! x = allTx w !! x;
  ud_contains t : _BRWalletContainsTx st.1.1 t = _BRWalletContainsTx w t;
  ud_hashes : NoDup st.1.2 /\ st.1.2 `sublist_of` pre /\ forall x, x ∈ st.1.2 <-> x ∈ pre /\ reported w height time x = true;
  ud_needs : st.2 = true <-> exists x, x ∈ st.1.2 /\ (x ∈ pendingTx (ledger w) \/ x ∈ invalidTx (ledger w));
}.

Lemma updating_step height time w pre st h : 0 <= height <= TX_UNCONFIRMED -> updating height time w pre st ->
  exists st', update_one height time st h = Some st' /\ updating height time w (pre ++ [h]) st'.
Proof.
  destruct st as [[w1 hashes] needs]. intros Hh [H1 (C1 & C2 & C3) H3 H4 H5 H6 (N1 & N2 & N3) H8]. cbn [fst snd] in *.
  destruct (update_one_ok height time w1 hashes needs h H1 Hh) as (w2 & E & [U1 (D1 & D2 & D3) U3 U4 U5 U6]).
  eexists. split; [exact E|]. clear E. rewrite C3.
  assert (Hrep : reported w1 height time h = bool_decide (h ∉ pre) && reported w height time h).
  { unfold reported. case_bool_decide as Hin; cbn [andb]; [rewrite (H5 h Hin); destruct (allTx w !! h); [now rewrite H6|done]|].
    destruct (decide (h ∈ pre)) as [Hin'|]; [|done]. rewrite (H4 h Hin'). destruct (allTx w !! h) as [t|]; [|done]. rewrite bind_Some_l.
    destruct (updated_tx w height time t) as [t'|] eqn:Et; [|done]. destruct (updated_tx_twice w w1 height time t t' H6 Et) as [_ Et'].
    now rewrite Et'. }
  assert (Hnew : reported w1 height time h = true -> h ∉ hashes /\ reported w height time h = true).
  { rewrite Hrep, andb_true_iff, bool_decide_eq_true, N3. tauto. }
  split; cbn [fst snd]; [done|split; [congruence|split; congruence]|now rewrite U3|..].
  - intros x Hx. destruct (decide (x = h)) as [->|Hne].
    + rewrite U5. destruct (decide (h ∈ pre)) as [Hin|Hin].
      * rewrite (H4 h Hin). destruct (allTx w !! h) as [t|]; [|done]. rewrite !bind_Some_l.
        destruct (updated_tx w height time t) as [t'|] eqn:Et; [|done]. rewrite bind_Some_l.
        apply (updated_tx_twice w w1 height time t t' H6 Et).
      * rewrite (H5 h Hin). destruct (allTx w !! h) as [t|]; [|done]. rewrite !bind_Some_l. unfold updated_tx. now rewrite H6.
    + rewrite U4 by done. apply H4. apply elem_of_app in Hx as [?| ->%list_elem_of_singleton]; done.
  - intros x Hx. rewrite elem_of_app, list_elem_of_singleton in Hx. rewrite U4, H5; tauto.
  - intros t. now rewrite U6.
  - destruct (reported w1 height time h) eqn:Er.
    + destruct (Hnew eq_refl) as [Hn Hr]. split; [|split; [now apply sublist_app|]].
      * apply NoDup_app. split; [done|]. split; [|apply NoDup_singleton]. intros x Hx. rewrite list_elem_of_singleton. congruence.
      * intros x. rewrite !elem_of_app, !list_elem_of_singleton, N3. naive_solver.
    + rewrite app_nil_r. split; [done|]. split; [now apply sublist_inserts_r|]. intros x. rewrite N3, elem_of_app, list_elem_of_singleton.
      split; [tauto|]. intros [[Hx| ->] Hr]; [done|]. rewrite Hr, andb_true_r in Hrep. symmetry in Hrep. apply bool_decide_eq_false in Hrep.
      destruct (decide (h ∈ pre)); [done|tauto].
  - rewrite orb_true_iff, H8, andb_true_iff, orb_true_iff, !bool_decide_eq_true. destruct (reported w1 height time h).
    + setoid_rewrite elem_of_app. setoid_rewrite list_elem_of_singleton. naive_solver.
    + rewrite app_nil_r. naive_solver.
Qed.

Lemma update_transactions_ok now w txHashes height time : wallet_ok w -> 0 <= height <= TX_UNCONFIRMED ->
  exists w' hashes, BRWalletUpdateTransactions now w txHashes height time =
      Some (w', if decide (hashes = []) then [] else [txUpdated hashes height time]) /\ wallet_ok w' /\
    masterPubKey w' = masterPubKey w /\ walletHeight w' = Z.max (walletHeight w) height /\
    transactions w' ≡ₚ transactions w /\
    (forall h, h ∈ txHashes -> allTx w' !! h = t ← allTx w !! h; updated_tx w height time t) /\
    (forall h, h ∉ txHashes -> allTx w' !! h = allTx w !! h) /\
    NoDup hashes /\ hashes `sublist_of` txHashes /\ (forall h, h ∈ hashes <-> h ∈ txHashes /\ reported w height time h = true) /\
    ((exists h, h ∈ hashes /\ (h ∈ pendingTx (ledger w) \/ h ∈ invalidTx (ledger w))) /\ recomputed now w' \/
     (forall h, h ∈ hashes -> h ∉ pendingTx (ledger w) /\ h ∉ invalidTx (ledger w)) /\ ledger w' = ledger w).
Proof.
  intros Hok Hh. unfold BRWalletUpdateTransactions. remember (if walletHeight w <? height then set_height w height else w) as w0 eqn:Ew.
  assert (H0 : wallet_ok w0 /\ masterPubKey w0 = masterPubKey w /\ walletHeight w0 = Z.max (walletHeight w) height /\
               transactions w0 = transactions w /\ allTx w0 = allTx w /\ allAddrs w0 = allAddrs w /\ ledger w0 = ledger w).
  { subst w0. destruct (Z.ltb_spec (walletHeight w) height).
    - split; [now apply set_height_ok|]. cbn. split; [done|]. split; [lia|done].
    - split; [done|]. split; [done|]. split; [lia|done]. }
  clear Ew. destruct H0 as (Hok0 & E1 & E2 & E3 & E4 & E5 & E6).
  assert (Ec : forall t, _BRWalletContainsTx w0 t = _BRWalletContainsTx w t) by (intros t; unfold _BRWalletContainsTx; now rewrite E4, E5).
  assert (Eu : forall t, updated_tx w0 height time t = updated_tx w height time t) by (intros t; unfold updated_tx; now rewrite Ec).
  assert (Er : forall h, reported w0 height time h = reported w height time h).
  { intros h. unfold reported. rewrite E4. destruct (allTx w !! h); [now rewrite Ec|done]. }
  destruct (for_each_total (updating height time w0) (update_one height time) txHashes (w0, [], false)) as ([[w1 hashes] needs] & E & U).
  { split; cbn; try done; [intros x Hx; now apply elem_of_nil in Hx|split; [constructor|split; [done|]]; intros x|].
    - split; [intros Hx; now apply elem_of_nil in Hx|intros [Hx _]; now apply elem_of_nil in Hx].
    - split; [done|]. intros (x & Hx & _). now apply elem_of_nil in Hx. }
  { intros pre h post st _. now apply updating_step. }
  destruct U as [H1 (C1 & C2 & C3) H3 H4 H5 H6 (N1 & N2 & N3) H8]. cbn [fst snd] in *. rewrite E, bind_Some_l, E6 in *.
  assert (Hw : exists l, (if needs then _BRWalletUpdateBalance w1 now else Some w1) = Some (set_ledger w1 l) /\ wallet_ok (set_ledger w1 l) /\
    (needs = true /\ recomputed now (set_ledger w1 l) \/ needs = false /\ l = ledger w1)).
  { destruct needs; [destruct (update_balance_wallet w1 now H1) as (l & El & Hl & Hr); exists l; auto|].
    exists (ledger w1). split; [now destruct w1|]. split; [now destruct w1|auto]. }
  destruct Hw as (l & -> & Hok2 & Hrec). rewrite bind_Some_l. eexists _, hashes.
  split; [case_bool_decide; case_decide; done|]. split; [done|]. cbn [masterPubKey walletHeight transactions allTx ledger set_ledger].
  split; [congruence|]. split; [congruence|]. split; [now rewrite H3, E3|]. rewrite E4 in *.
  split; [intros h Hx; rewrite (H4 h Hx); destruct (allTx w !! h); [cbn; now rewrite Eu|done]|]. split; [done|]. split; [done|]. split; [done|].
  split; [intros h; now rewrite N3, Er|]. destruct Hrec as [[En Hrec]|[En ->]]; [left; split; [now apply H8|done]|right].
  split; [|done]. intros h Hx. assert (Hf : ~ needs = true) by congruence. rewrite H8 in Hf. naive_solver.
Qed.

(** *** Chain reorganisation *)

Lemma count_from_spec m bh l : Forall (fun h => is_Some (m !! h)) l -> newest_first m l ->
  exists n, count_from m bh l = Some n /\ (n <= length l)%nat /\ (forall h, h ∈ take n l -> bh <= tx_height m h) /\
    (forall h, h ∈ drop n l -> tx_height m h < bh).
Proof.
  induction 1 as [|h l [t Ht] Hl IH]; intros Hs; cbn [count_from].
  { exists O. split; [done|]. split; [done|]. split; intros h Hh; now apply elem_of_nil in Hh. }
  apply StronglySorted_inv in Hs as [Hs Hf]. assert (Eh : tx_height m h = blockHeight t) by (unfold tx_height; now rewrite Ht).
  rewrite Ht, bind_Some_l. destruct (Z.leb_spec bh (blockHeight t)) as [Hle|Hlt].
  - destruct (IH Hs) as (n & -> & Hn & H1 & H2). rewrite bind_Some_l. exists (S n). split; [done|]. split; [cbn; lia|].
    cbn [take drop]. split; [|done]. intros x [->|Hx]%elem_of_cons; [lia|auto].
  - exists O. split; [done|]. split; [lia|]. split; [intros x Hx; now apply elem_of_nil in Hx|].
    intros x [->|Hx]%elem_of_cons; [lia|]. rewrite Forall_forall in Hf. specialize (Hf x Hx). cbn in Hf. lia.
Qed.

Definition unconfirmed_copy (t : BRTransaction) : BRTransaction := set_confirmed t TX_UNCONFIRMED (timestamp t).

Lemma unconfirm_all m l : Forall (fun h => is_Some (m !! h)) l ->
  exists m', for_each unconfirm m l = Some m' /\
    (forall h, h ∈ l -> m' !! h = unconfirmed_copy <$> m !! h) /\ (forall h, h ∉ l -> m' !! h = m !! h).
Proof.
  intros Hl. apply (for_each_total (fun pre m' =>
    (forall h, h ∈ pre -> m' !! h = unconfirmed_copy <$> m !! h) /\ (forall h, h ∉ pre -> m' !! h = m !! h))).
  - split; [intros h Hh; now apply elem_of_nil in Hh|done].
  - intros pre h post m1 -> [H1 H2]. apply Forall_app in Hl as [_ Hl]. apply Forall_cons in Hl as [[t Ht] _].
    assert (Ht1 : exists t1, m1 !! h = Some t1 /\ unconfirmed_copy t1 = unconfirmed_copy t).
    { destruct (decide (h ∈ pre)) as [Hin|Hin]; [rewrite H1 by done|rewrite H2 by done]; rewrite Ht; eauto. }
    destruct Ht1 as (t1 & Ht1 & Et). unfold unconfirm. rewrite Ht1, bind_Some_l. eexists. split; [done|].
    fold (unconfirmed_copy t1). rewrite Et. split.
    + intros x Hx. destruct (decide (x = h)) as [->|Hne]; [now rewrite lookup_insert_eq, Ht|].
      rewrite lookup_insert_ne by done. apply H1. rewrite elem_of_app, list_elem_of_singleton in Hx. tauto.
    + intros x Hx. rewrite elem_of_app, list_elem_of_singleton in Hx. rewrite lookup_insert_ne by (intros <-; tauto).
      apply H2. tauto.
Qed.

Lemma sorted_mono m m' l : (forall a b, a ∈ l -> b ∈ l -> tx_height m a <= tx_height m b -> tx_height m' a <= tx_height m' b) ->
  oldest_first m l -> oldest_first m' l.
Proof.
  intros He Hs. induction Hs as [|a l Hl IH Ha]; [constructor|]. constructor.
  - apply IH. intros x y Hx Hy. apply He; now right.
  - rewrite Forall_forall in *. intros x Hx. apply He; [left|now right|now apply Ha].
Qed.

(** The heights above [bh] of the listed transactions are replaced. *)
Lemma reorg_wallet w bh m : wallet_ok w -> same_txs (allTx w) m ->
  (forall h t, h ∈ transactions w -> allTx w !! h = Some t -> m !! h = Some (if blockHeight t <=? bh then t else unconfirmed_copy t)) ->
  (forall h, h ∉ transactions w -> m !! h = allTx w !! h) -> wallet_ok (set_allTx w m).
Proof.
  intros [Hc Hl] Hs Hin Hout. split; [|apply (ledger_same w); [done|done|intros; now apply own_utxo_same|done]].
  destruct Hc. core_split.
  - intros h t' Ht'. destruct (decide (h ∈ transactions w)) as [Hh|Hh]; [|rewrite Hout in Ht' by done; now apply ok_store0].
    destruct (ok_mine0 h Hh) as (t & Ht & _). rewrite (Hin h t Hh Ht) in Ht'. injection Ht' as <-.
    destruct (ok_store0 h t Ht) as [<- Hok]. destruct (blockHeight t <=? bh); [done|].
    split; [done|]. apply tx_ok_confirm; [done|]. unfold TX_UNCONFIRMED, INT32_MAX. lia.
  - intros h Hh. destruct (ok_mine0 h Hh) as (t & Ht & Hcon). eexists. split; [apply (Hin h t Hh Ht)|].
    destruct (blockHeight t <=? bh); (apply (contains_same w); [done|exact Hs|exact Hcon]).
  - apply (sorted_mono (allTx w)); [|done]. intros a b Ha Hb. unfold tx_height.
    destruct (ok_mine0 a Ha) as (ta & Hta & _), (ok_mine0 b Hb) as (tb & Htb & _).
    rewrite (Hin a ta Ha Hta), (Hin b tb Hb Htb), Hta, Htb. cbn.
    pose proof (tk_height _ _ (proj2 (ok_store0 a ta Hta))). pose proof (tk_height _ _ (proj2 (ok_store0 b tb Htb))).
    destruct (Z.leb_spec (blockHeight ta) bh), (Z.leb_spec (blockHeight tb) bh); cbn; lia.
Qed.

Lemma reorg_ok now w bh : wallet_ok w -> 0 <= bh ->
  exists w' ev, BRWalletSetTxUnconfirmedAfter now w bh = Some (w', ev) /\ wallet_ok w' /\ masterPubKey w' = masterPubKey w /\
    walletHeight w' = bh /\ transactions w' = transactions w /\
    (forall h t, h ∈ transactions w -> allTx w !! h = Some t ->
       allTx w' !! h = Some (if blockHeight t <=? bh then t else unconfirmed_copy t)) /\
    (forall h, h ∉ transactions w -> allTx w' !! h = allTx w !! h) /\
    exists hashes, hashes `suffix_of` transactions w /\
      (forall h, h ∈ hashes <-> h ∈ transactions w /\ bh < tx_height (allTx w) h) /\
      (hashes = [] /\ ev = [] /\ ledger w' = ledger w \/
       hashes <> [] /\ ev = [txUpdated hashes TX_UNCONFIRMED 0] /\ recomputed now w').
Proof.
  intros Hok Hbh. pose proof (set_height_ok w bh Hok) as Hok0. unfold BRWalletSetTxUnconfirmedAfter.
  set (w0 := set_height w bh) in *. pose proof (core_known w0 (transactions w0) (proj1 Hok0) ltac:(done)) as Hk.
  destruct (count_from_spec (allTx w0) (bh + 1) (reverse (transactions w0))) as (n & -> & Hn & H1 & H2);
    [now apply Forall_reverse|apply oldest_newest, (ok_sorted w0), Hok0|].
  rewrite bind_Some_l. rewrite length_reverse in Hn. rewrite take_reverse in H1. rewrite drop_reverse in H2.
  set (k := (length (transactions w0) - n)%nat) in *.
  destruct (unconfirm_all (allTx w0) (drop k (transactions w0))) as (m & -> & M1 & M2); [now apply Forall_drop|].
  rewrite bind_Some_l. set (w1 := set_allTx w0 m).
  assert (Hs : same_txs (allTx w0) m).
  { intros h. destruct (decide (h ∈ drop k (transactions w0))) as [Hin|Hin]; [rewrite M1 by done|rewrite M2 by done];
      destruct (allTx w0 !! h) as [[]|]; done. }
  assert (Hnew : forall h t, h ∈ transactions w -> allTx w !! h = Some t ->
            m !! h = Some (if blockHeight t <=? bh then t else unconfirmed_copy t)).
  { intros h t Hh Ht. assert (Eh : tx_height (allTx w0) h = blockHeight t) by (unfold tx_height; cbn; now rewrite Ht).
    destruct (decide (h ∈ drop k (transactions w0))) as [Hin|Hin].
    - rewrite (M1 h Hin). specialize (H1 h). rewrite elem_of_reverse in H1. specialize (H1 Hin). cbn [allTx w0 set_height] in *.
      rewrite Ht. cbn. rewrite (proj2 (Z.leb_gt _ _)) by lia. done.
    - rewrite (M2 h Hin). specialize (H2 h). rewrite elem_of_reverse in H2.
      assert (Hx : h ∈ take k (transactions w0)).
      { change (transactions w) with (transactions w0) in Hh. rewrite <- (take_drop k (transactions w0)) in Hh.
        apply elem_of_app in Hh. tauto. }
      specialize (H2 Hx). cbn [allTx w0 set_height] in *. rewrite Ht, (proj2 (Z.leb_le _ _)) by lia. done. }
  assert (Hold : forall h, h ∉ transactions w -> m !! h = allTx w !! h).
  { intros h Hh. apply M2. intros Hin. apply Hh. change (transactions w) with (transactions w0).
    rewrite <- (take_drop k (transactions w0)). apply elem_of_app. now right. }
  assert (Hok1 : wallet_ok w1) by (apply (reorg_wallet w0 bh); [done|exact Hs|exact Hnew|exact Hold]).
  assert (Hsuf : drop k (transactions w0) `suffix_of` transactions w) by apply suffix_drop.
  assert (Habove : forall h, h ∈ drop k (transactions w0) <-> h ∈ transactions w /\ bh < tx_height (allTx w) h).
  { intros h. specialize (H1 h). specialize (H2 h). rewrite elem_of_reverse in H1, H2. cbn [allTx w0 set_height] in H1, H2.
    change (transactions w) with (transactions w0). split.
    - intros Hin. split; [|specialize (H1 Hin); lia]. rewrite <- (take_drop k (transactions w0)). apply elem_of_app. now right.
    - intros [Hin Hlt]. rewrite <- (take_drop k (transactions w0)) in Hin. apply elem_of_app in Hin as [Hin|]; [|done].
      specialize (H2 Hin). lia. }
  case_bool_decide as Hnil.
  - eexists _, _. split; [done|]. split; [done|]. do 3 (split; [done|]). split; [exact Hnew|]. split; [exact Hold|].
    exists (drop k (transactions w0)). split; [done|]. split; [done|]. left. done.
  - destruct (update_balance_wallet w1 now Hok1) as (l & -> & Hok2 & Hrec). rewrite bind_Some_l.
    eexists _, _. split; [done|]. split; [done|]. do 3 (split; [done|]). split; [exact Hnew|]. split; [exact Hold|].
    exists (drop k (transactions w0)). split; [done|]. split; [done|]. right. done.
Qed.

(** *** Validity through the ancestors *)

(** [a] is reached from [t] through the inputs of unconfirmed transactions. *)
Inductive ancestor (m : gmap Z BRTransaction) : BRTransaction -> BRTransaction -> Prop :=
  | ancestor_self t : ancestor m t t
  | ancestor_parent t i p a : is_unconfirmed t = true -> i ∈ inputs t -> m !! in_txHash i = Some p ->
      ancestor m p a -> ancestor m t a.

Definition locally_valid (w : BRWallet) (t : BRTransaction) : Prop :=
  if bool_decide (is_Some (allTx w !! txHash t)) then txHash t ∉ invalidTx (ledger w)
  else forall i, i ∈ inputs t -> input_utxo i ∉ spentOutputs (ledger w).

Definition locally_pending (w : BRWallet) (now : Z) (t : BRTransaction) : Prop :=
  TX_MAX_SIZE < BRTransactionSize t \/ has_dust t = true \/
  exists i, i ∈ inputs t /\ postdated (walletHeight w) now (lockTime t) i = true.

Lemma any_of_spec {A} (f : A -> option bool) (P : A -> Prop) l :
  (forall a, a ∈ l -> exists b, f a = Some b /\ (b = true <-> P a)) ->
  exists b, any_of f l = Some b /\ (b = true <-> exists a, a ∈ l /\ P a).
Proof.
  induction l as [|a l IH]; intros Hf; cbn [any_of].
  - exists false. split; [done|]. split; [done|]. intros (a & Ha & _). now apply elem_of_nil in Ha.
  - destruct (Hf a (list_elem_of_here _ _)) as ([] & -> & Hb); rewrite bind_Some_l.
    + exists true. split; [done|]. split; [|done]. intros _. exists a. split; [left|]. now apply Hb.
    + destruct IH as (b & -> & Hr); [intros x Hx; apply Hf; now right|]. exists b. split; [done|]. rewrite Hr.
      split; intros (x & Hx & Hp); exists x; [split; [now right|done]|]. apply elem_of_cons in Hx as [->|Hx]; [|done].
      apply Hb in Hp. done.
Qed.

Lemma on_parent_spec w t (f : BRTransaction -> option bool) (P : BRTransaction -> Prop) i : tx_ok t -> i ∈ inputs t ->
  (forall p, allTx w !! in_txHash i = Some p -> exists b, f p = Some b /\ (b = true <-> P p)) ->
  exists b, on_parent w f i = Some b /\ (b = true <-> exists p, allTx w !! in_txHash i = Some p /\ P p).
Proof.
  intros Ht Hi Hf. destruct (tk_input _ t Ht i Hi) as (Hu & Hz & _). unfold on_parent, BRWalletTransactionForHash.
  rewrite UInt256IsZero_spec, (proj2 (Z.eqb_neq _ 0)), bind_Some_l by done.
  destruct (allTx w !! in_txHash i) as [p|].
  - destruct (Hf p eq_refl) as (b & Hb & Hr). exists b. split; [done|]. rewrite Hr. split; [eauto|]. intros (p' & [= ->] & ?). done.
  - exists false. split; [done|]. split; [done|]. intros (p & ? & _). done.
Qed.

(** Fuel for the parents of a transaction. *)
Lemma parent_fuel m t i p fuel : store_ok m -> tx_ok t -> i ∈ inputs t -> m !! in_txHash i = Some p ->
  (below rank m (rank (txHash t)) + 1 <= S fuel)%nat -> tx_ok p /\ (below rank m (rank (txHash p)) + 1 <= fuel)%nat.
Proof.
  intros Hm Ht Hi Hp Hf. destruct (Hm _ p Hp) as [E Hok]. split; [done|].
  pose proof (below_lt rank m (in_txHash i) (rank (txHash t)) (ex_intro _ _ Hp) (tk_rank _ t Ht i Hi)). rewrite E. lia.
Qed.

Lemma ancestor_split m t a : ancestor m t a <->
  a = t \/ (is_unconfirmed t = true /\ exists i p, i ∈ inputs t /\ m !! in_txHash i = Some p /\ ancestor m p a).
Proof.
  split; [intros []; eauto 8|]. intros [->|(Hu & i & p & Hi & Hp & Ha)]; [constructor|]. econstructor; eauto.
Qed.

(** The loop over the inputs that fails for a parent without the property. *)
Lemma all_parents w t (f : BRTransaction -> option bool) (P : BRTransaction -> Prop) : tx_ok t ->
  (forall i p, i ∈ inputs t -> allTx w !! in_txHash i = Some p -> exists b, f p = Some b /\ (b = true <-> P p)) ->
  exists b, any_of (on_parent w (fun t => v ← f t; Some (negb v))) (inputs t) = Some b /\
    (b = false <-> forall i p, i ∈ inputs t -> allTx w !! in_txHash i = Some p -> P p).
Proof.
  intros Ht Hf. destruct (any_of_spec (on_parent w (fun t => v ← f t; Some (negb v)))
    (fun i => exists p, allTx w !! in_txHash i = Some p /\ ~ P p) (inputs t)) as (b & E & Hb).
  { intros i Hi. apply (on_parent_spec w t); [done|done|]. intros p Hp. destruct (Hf i p Hi Hp) as (b & -> & Hb).
    rewrite bind_Some_l. exists (negb b). split; [done|]. rewrite negb_true_iff, <- not_true_iff_false, Hb. done. }
  exists b. split; [done|]. rewrite <- not_true_iff_false, Hb. split.
  - intros Hn i p Hi Hp. destruct (Hf i p Hi Hp) as ([] & _ & Hbp); [now apply Hbp|].
    destruct Hn. exists i. split; [done|]. exists p. split; [done|]. intros HP. apply Hbp in HP. done.
  - intros Hall (i & Hi & p & Hp & Hn). apply Hn. eauto.
Qed.

(** A property of all unconfirmed ancestors, split into the transaction and its parents. *)
Lemma ancestors_split m t (L : BRTransaction -> Prop) : is_unconfirmed t = true ->
  (forall a, ancestor m t a -> is_unconfirmed a = true -> L a) <->
  L t /\ forall i p, i ∈ inputs t -> m !! in_txHash i = Some p -> forall a, ancestor m p a -> is_unconfirmed a = true -> L a.
Proof.
  intros Hu. split.
  - intros Hall. split; [apply Hall; [constructor|done]|]. intros i p Hi Hp a Ha. apply Hall.
    apply ancestor_split. right. split; [done|]. eauto.
  - intros [Ht Hp] a Ha Hua. apply ancestor_split in Ha as [->|(_ & i & p & Hi & Hip & Ha)]; eauto.
Qed.

Lemma confirmed_ancestors m t (L : BRTransaction -> Prop) : is_unconfirmed t = false ->
  forall a, ancestor m t a -> is_unconfirmed a = true -> L a.
Proof. intros Hu a Ha Hua. apply ancestor_split in Ha as [->|[? _]]; congruence. Qed.

(** The three functions recurse in the same way: a local test, then the parents. *)
Lemma recursion_spec w t fuel (rec : nat -> BRTransaction -> option bool) (L : BRTransaction -> Prop) (r : bool) :
  store_ok (allTx w) -> tx_ok t -> (below rank (allTx w) (rank (txHash t)) + 1 <= S fuel)%nat -> is_unconfirmed t = true ->
  (r = true <-> L t) ->
  (forall p, tx_ok p -> (below rank (allTx w) (rank (txHash p)) + 1 <= fuel)%nat -> exists b, rec fuel p = Some b /\
     (b = true <-> forall a, ancestor (allTx w) p a -> is_unconfirmed a = true -> L a)) ->
  exists b, (if r then bad ← any_of (on_parent w (fun t => v ← rec fuel t; Some (negb v))) (inputs t); Some (negb bad)
             else Some false) = Some b /\
    (b = true <-> forall a, ancestor (allTx w) t a -> is_unconfirmed a = true -> L a).
Proof.
  intros Hm Ht Hf Hu Hr IH. pose proof (ancestors_split (allTx w) t L Hu) as Hsplit. rewrite <- Hr in Hsplit.
  destruct r; [|exists false; split; [done|]; rewrite Hsplit; split; [done|tauto]].
  destruct (all_parents w t (rec fuel) (fun p => forall a, ancestor (allTx w) p a -> is_unconfirmed a = true -> L a) Ht)
    as (b & -> & Hb).
  { intros i p Hi Hp. destruct (parent_fuel _ t i p fuel Hm Ht Hi Hp Hf). now apply IH. }
  rewrite bind_Some_l. exists (negb b). split; [done|]. rewrite negb_true_iff, Hb, Hsplit. tauto.
Qed.

Lemma valid_rec_spec w fuel : store_ok (allTx w) -> forall t, tx_ok t -> (below rank (allTx w) (rank (txHash t)) + 1 <= fuel)%nat ->
  exists b, valid_rec fuel w t = Some b /\
    (b = true <-> forall a, ancestor (allTx w) t a -> is_unconfirmed a = true -> locally_valid w a).
Proof.
  intros Hm. induction fuel as [|fuel IH]; intros t Ht Hf; [lia|]. cbn [valid_rec].
  rewrite (tk_signed _ t Ht). cbn [negb]. destruct (is_unconfirmed t) eqn:Hu; cycle 1.
  { exists true. split; [done|]. split; [intros _; now apply confirmed_ancestors|done]. }
  apply (recursion_spec w t fuel (fun n => valid_rec n w)); [done|done|done|done| |exact IH]. unfold locally_valid.
  case_bool_decide; [apply bool_decide_eq_true|].
  rewrite negb_true_iff, <- not_true_iff_false, existsb_exists. split.
  - intros Hn i Hi Hx. apply Hn. exists i. split; [now apply list_elem_of_In|]. now apply bool_decide_eq_true.
  - intros Hn (i & Hi & Hx). apply bool_decide_eq_true in Hx. apply list_elem_of_In in Hi. now apply (Hn i Hi).
Qed.

Lemma pending_rec_spec w now fuel : store_ok (allTx w) -> forall t, tx_ok t ->
  (below rank (allTx w) (rank (txHash t)) + 1 <= fuel)%nat ->
  exists b, pending_rec fuel w now t = Some b /\
    (b = true <-> exists a, ancestor (allTx w) t a /\ is_unconfirmed a = true /\ locally_pending w now a).
Proof.
  intros Hm. induction fuel as [|fuel IH]; intros t Ht Hf; [lia|]. cbn [pending_rec].
  rewrite (tk_signed _ t Ht). cbn [negb]. destruct (is_unconfirmed t) eqn:Hu; cycle 1.
  { exists false. split; [done|]. split; [done|]. intros (a & Ha & Hua & _). apply ancestor_split in Ha as [->|[? _]]; congruence. }
  set (r := _ || has_dust t). assert (Hr : r = true <-> locally_pending w now t).
  { unfold r, locally_pending. rewrite !orb_true_iff, Z.ltb_lt, existsb_exists. setoid_rewrite list_elem_of_In. tauto. }
  destruct r.
  { exists true. split; [done|]. split; [|done]. intros _. exists t. split; [constructor|]. split; [done|]. now apply Hr. }
  destruct (any_of_spec (on_parent w (pending_rec fuel w now))
    (fun i => exists p, allTx w !! in_txHash i = Some p /\
              exists a, ancestor (allTx w) p a /\ is_unconfirmed a = true /\ locally_pending w now a) (inputs t)) as (b & -> & Hb).
  { intros i Hi. apply (on_parent_spec w t); [done|done|]. intros p Hp.
    destruct (parent_fuel _ t i p fuel Hm Ht Hi Hp Hf) as [Hokp Hfp]. exact (IH p Hokp Hfp). }
  exists b. split; [done|]. rewrite Hb. split.
  - intros (i & Hi & p & Hp & a & Ha & Hr'). exists a. split; [|done]. apply ancestor_split. right. split; [done|]. eauto.
  - intros (a & Ha & Hua & Hl). apply ancestor_split in Ha as [->|(_ & i & p & Hi & Hp & Ha)]; [apply Hr in Hl; done|].
    exists i. split; [done|]. exists p. eauto.
Qed.

(** The transaction can be relied on as far as its own data, its ancestors' validity and its ancestors'
    finality go. *)
Definition locally_verified (w : BRWallet) (now : Z) (t : BRTransaction) : Prop :=
  timestamp t <> 0 /\ locally_valid w t /\ ~ locally_pending w now t.

Lemma ancestor_trans m a b c : ancestor m a b -> ancestor m b c -> ancestor m a c.
Proof. induction 1 as [|t i p a Hu Hi Hp _ IH]; [done|]. intros Hc. econstructor; eauto. Qed.

Lemma fuel_enough m t : (below rank m (rank (txHash t)) + 1 <= tx_fuel m)%nat.
Proof. pose proof (below_le rank m (rank (txHash t))). unfold tx_fuel. lia. Qed.

Lemma verified_rec_spec w now fuel : store_ok (allTx w) -> forall t, tx_ok t ->
  (below rank (allTx w) (rank (txHash t)) + 1 <= fuel)%nat ->
  exists b, verified_rec fuel w now t = Some b /\
    (b = true <-> forall a, ancestor (allTx w) t a -> is_unconfirmed a = true -> locally_verified w now a).
Proof.
  intros Hm. induction fuel as [|fuel IH]; intros t Ht Hf; [lia|]. cbn [verified_rec].
  rewrite (tk_signed _ t Ht). cbn [negb]. destruct (is_unconfirmed t) eqn:Hu; cycle 1.
  { exists true. split; [done|]. split; [intros _; now apply confirmed_ancestors|done]. }
  destruct (valid_rec_spec w (tx_fuel (allTx w)) Hm t Ht (fuel_enough _ t)) as (v & Ev & Hv).
  destruct (pending_rec_spec w now (tx_fuel (allTx w)) Hm t Ht (fuel_enough _ t)) as (p & Ep & Hp).
  unfold BRWalletTransactionIsValid, BRWalletTransactionIsPending. rewrite Ev, Ep, !bind_Some_l.
  set (L := fun a => timestamp a <> 0 /\ (forall x, ancestor (allTx w) a x -> is_unconfirmed x = true -> locally_valid w x) /\
    ~ exists x, ancestor (allTx w) a x /\ is_unconfirmed x = true /\ locally_pending w now x).
  assert (HL : forall x, (forall a, ancestor (allTx w) x a -> is_unconfirmed a = true -> locally_verified w now a) <->
                 (forall a, ancestor (allTx w) x a -> is_unconfirmed a = true -> L a)).
  { intros x. unfold L, locally_verified. split; intros Hall a Ha Hua.
    - split; [now apply Hall|]. split.
      + intros y Hy Huy. apply Hall; [now apply (ancestor_trans _ x a)|done].
      + intros (y & Hy & Huy & Hpy). apply (Hall y); [now apply (ancestor_trans _ x a)|done|done].
    - destruct (Hall a Ha Hua) as (H1 & H2 & H3). split; [done|]. split; [apply H2; [constructor|done]|].
      intros Hpa. apply H3. exists a. split; [constructor|done]. }
  pose proof (recursion_spec w t fuel (fun n => verified_rec n w now) L (negb (timestamp t =? 0) && v && negb p) Hm Ht Hf Hu) as R.
  assert (R' : forall r b, r = Some b /\ (b = true <-> forall a, ancestor (allTx w) t a -> is_unconfirmed a = true -> L a) -> 
    r = Some b /\ (b = true <-> forall a, ancestor (allTx w) t a -> is_unconfirmed a = true -> locally_verified w now a)).
  { intros r b [-> Hb]. split; [done|]. now rewrite Hb, HL. }
  destruct R as (b & R); [| |].
  - unfold L. rewrite <- Hv, <- Hp, !andb_true_iff, !negb_true_iff, Z.eqb_neq, <- not_true_iff_false. tauto.
  - intros q Hq Hfq. destruct (IH q Hq Hfq) as (b & E & Hb). exists b. split; [done|]. now rewrite <- HL.
  - exists b. apply R'. destruct (timestamp t =? 0), v, p; exact R.
Qed.

Lemma valid_total w t : store_ok (allTx w) -> tx_ok t -> is_Some (BRWalletTransactionIsValid w t).
Proof.
  intros Hm Ht. destruct (valid_rec_spec w (tx_fuel (allTx w)) Hm t Ht) as (b & E & _); [|now exists b].
  pose proof (below_le rank (allTx w) (rank (txHash t))). unfold tx_fuel. lia.
Qed.

Lemma all_confirmed_total w t : store_ok (allTx w) -> tx_ok t -> is_Some (all_confirmed w t).
Proof.
  intros Hm Ht. unfold all_confirmed.
  destruct (any_of_spec (fun i => t ← BRWalletTransactionForHash w (in_txHash i);
    Some (match t with Some t => is_unconfirmed t | None => true end))
    (fun i => match allTx w !! in_txHash i with Some t => is_unconfirmed t = true | None => True end) (inputs t)) as (b & -> & _).
  - intros i Hi. destruct (tk_input _ t Ht i Hi) as (Hu & Hz & _). unfold BRWalletTransactionForHash.
    rewrite UInt256IsZero_spec, (proj2 (Z.eqb_neq _ 0)), bind_Some_l by done. eexists. split; [done|].
    now destruct (allTx w !! in_txHash i).
  - rewrite bind_Some_l. eauto.
Qed.

(** *** Removing *)

(** [y] spends an output of [x]. *)
Definition child (m : gmap Z BRTransaction) (x y : Z) : Prop := exists t i, m !! y = Some t /\ i ∈ inputs t /\ in_txHash i = x.

Lemma child_rank m x y : store_ok m -> child m x y -> (rank x < rank y)%nat.
Proof.
  intros Hm (t & i & Ht & Hi & <-). destruct (Hm y t Ht) as [<- Hok]. now apply (tk_rank _ t Hok).
Qed.

(** [x] is reached from [h] through listed transactions. *)
Inductive descends (m : gmap Z BRTransaction) (l : list Z) (h : Z) : Z -> Prop :=
  | descends_self : descends m l h h
  | descends_child x y : descends m l h x -> y ∈ l -> child m x y -> descends m l h y.

Lemma descends_mono m l l' h x : l ⊆ l' -> descends m l h x -> descends m l' h x.
Proof. intros Hl. induction 1 as [|x y _ IH Hy Hc]; [constructor|]. econstructor; eauto. Qed.

Lemma descends_trans m l h x y : descends m l h x -> descends m l x y -> descends m l h y.
Proof. intros H1 H2. induction H2 as [|x' y _ IH Hy Hc]; [done|]. econstructor; eauto. Qed.

Lemma dependents_spec m t h l : store_ok m -> m !! h = Some t -> Forall (fun x => is_Some (m !! x)) l -> newest_first m l ->
  exists r, dependents m t h l = Some r /\
    (forall x, x ∈ r <-> x ∈ l /\ x <> h /\ tx_height m h <= tx_height m x /\ child m h x).
Proof.
  intros Hm Ht. destruct (Hm h t Ht) as [Eh Hok].
  assert (Eht : tx_height m h = blockHeight t) by (unfold tx_height; now rewrite Ht).
  induction 1 as [|x l [tx Htx] Hl IH]; intros Hs; cbn [dependents].
  { exists []. split; [done|]. intros x. split; [intros Hx; now apply elem_of_nil in Hx|intros [Hx _]; now apply elem_of_nil in Hx]. }
  apply StronglySorted_inv in Hs as [Hs Hf]. destruct (Hm x tx Htx) as [Ex Hokx].
  assert (Exh : tx_height m x = blockHeight tx) by (unfold tx_height; now rewrite Htx).
  rewrite Htx, bind_Some_l. destruct (Z.ltb_spec (blockHeight tx) (blockHeight t)) as [Hlt|Hge].
  - exists []. split; [done|]. intros y. split; [intros Hy; now apply elem_of_nil in Hy|].
    intros (Hy & _ & Hh & _). apply elem_of_cons in Hy as [->|Hy]; [lia|].
    rewrite Forall_forall in Hf. specialize (Hf y Hy). cbn in Hf. lia.
  - destruct (IH Hs) as (r & -> & Hr). rewrite bind_Some_l. rewrite eq_hash, Eh, Ex by (apply Hok || apply Hokx).
    set (b := negb (h =? x) && _). assert (Hb : b = true <-> x <> h /\ child m h x).
    { unfold b. rewrite andb_true_iff, negb_true_iff, Z.eqb_neq, existsb_exists. unfold child. split.
      - intros [Hne (i & Hi & Hx)]. split; [congruence|]. apply list_elem_of_In in Hi. exists tx, i.
        destruct (tk_input _ tx Hokx i Hi) as (Hu & _). rewrite UInt256Eq_spec in Hx by (done || rewrite <- Eh; apply Hok).
        apply Z.eqb_eq in Hx. done.
      - intros [Hne (t' & i & Ht' & Hi & Hx)]. split; [congruence|]. assert (t' = tx) as -> by congruence.
        exists i. split; [now apply list_elem_of_In|]. destruct (tk_input _ tx Hokx i Hi) as (Hu & _).
        rewrite UInt256Eq_spec by (done || rewrite <- Eh; apply Hok). now apply Z.eqb_eq. }
    exists (if b then x :: r else r). split; [now destruct b|]. intros y. destruct b.
    + destruct (proj1 Hb eq_refl) as [Hne Hch]. rewrite elem_of_cons, Hr, elem_of_cons. split.
      * intros [->|?]; [split; [now left|]; split; [done|]; split; [lia|done]|tauto].
      * intros ([->|?] & ?); [now left|right; tauto].
    + rewrite Hr, elem_of_cons. split; [tauto|]. intros ([->|?] & Hne & Hhh & Hch); [|tauto].
      exfalso. now assert (false = true) by (apply Hb; done).
Qed.

(** What a call for [h] does to the wallet. *)
Record removed (now : Z) (h : Z) (w w' : BRWallet) : Prop := {
  rm_ok : wallet_ok w';
  rm_store : allTx w' = allTx w;
  rm_const : masterPubKey w' = masterPubKey w /\ walletHeight w' = walletHeight w /\ allAddrs w' = allAddrs w;
  rm_sublist : transactions w' `sublist_of` transactions w;
  rm_gone : h ∉ transactions w';
  rm_only x : x ∈ transactions w -> x ∉ transactions w' -> descends (allTx w) (transactions w) h x;
  rm_children x y : x = h \/ x ∈ transactions w -> x ∉ transactions w' -> y ∈ transactions w' -> child (allTx w) x y ->
    tx_height (allTx w) y < tx_height (allTx w) x;
}.

Lemma remove_one_ok now w h t : wallet_ok w -> allTx w !! h = Some t ->
  exists w' ev, remove_one now w t = Some (w', ev) /\ wallet_ok w' /\ allTx w' = allTx w /\
    (masterPubKey w' = masterPubKey w /\ walletHeight w' = walletHeight w /\ allAddrs w' = allAddrs w) /\
    transactions w' = without h (transactions w).
Proof.
  intros Hok Ht. destruct (ok_store w (proj1 Hok) h t Ht) as [<- Htok]. unfold remove_one.
  rewrite (rm_tx_spec _ t); [|apply Hok|done|rewrite reverse_Permutation; apply (ok_nodup w), Hok|
    apply (core_known w); [apply Hok|intros x; now rewrite elem_of_reverse]].
  rewrite bind_Some_l, filter_reverse, reverse_involutive.
  destruct (update_balance_core _ now (core_without w (txHash t) (proj1 Hok))) as (l & E & Hok' & _). rewrite E, bind_Some_l.
  set (w' := set_ledger _ l) in *.
  assert (Hv : is_Some (if 0 <? BRWalletAmountSentByTx w' t then BRWalletTransactionIsValid w' t else Some false)).
  { destruct (_ <? _); [apply valid_total; [apply Hok'|done]|eauto]. }
  destruct Hv as [v ->]. rewrite bind_Some_l.
  assert (Hr : is_Some (if v then all_confirmed w' t else Some false)).
  { destruct v; [apply all_confirmed_total; [apply Hok'|done]|eauto]. }
  destruct Hr as [r ->]. rewrite bind_Some_l. eexists _, _. done.
Qed.

(** A call without dependents left. *)
Lemma remove_leaf now w h t fuel : wallet_ok w -> h <> 0 -> is_u256 h -> allTx w !! h = Some t ->
  (forall y, y ∈ transactions w -> child (allTx w) h y -> tx_height (allTx w) y < tx_height (allTx w) h) ->
  exists w' ev, remove_rec (S fuel) now w h = Some (w', ev) /\ removed now h w w'.
Proof.
  intros Hok Hz Hu Ht Hch. cbn [remove_rec]. rewrite UInt256IsZero_spec, (proj2 (Z.eqb_neq _ 0)), Ht by done.
  destruct (dependents_spec (allTx w) t h (reverse (transactions w))) as (r & -> & Hr);
    [apply Hok|done|apply (core_known w); [apply Hok|intros x; now rewrite elem_of_reverse]|
     apply oldest_newest; rewrite ?reverse_involutive; apply Hok|].
  rewrite bind_Some_l. assert (r = []) as ->.
  { destruct r as [|x r]; [done|]. destruct (proj1 (Hr x) (list_elem_of_here _ _)) as (Hx & _ & Hh & Hc).
    rewrite elem_of_reverse in Hx. specialize (Hch x Hx Hc). lia. }
  rewrite bool_decide_eq_true_2 by done. destruct (remove_one_ok now w h t Hok Ht) as (w' & ev & E & Hok' & H1 & H2 & H3).
  exists w', ev. split; [done|]. split; [done|done|done|rewrite H3; apply sublist_filter|..]; rewrite ?H3.
  - intros Hx. now apply list_elem_of_filter in Hx as [Hx _].
  - intros x Hx Hn. destruct (decide (x = h)) as [->|Hne]; [constructor|]. destruct Hn. now apply list_elem_of_filter.
  - intros x y Hx Hn Hy Hc. apply list_elem_of_filter in Hy as [Hne Hy].
    assert (x = h) as ->; [|now apply Hch]. destruct Hx as [?|Hx]; [done|]. destruct (decide (x = h)); [done|].
    destruct Hn. now apply list_elem_of_filter.
Qed.

(** The listed transactions of higher rank. *)
Definition above (w : BRWallet) (h : Z) : nat := length (filter (fun x => (rank h < rank x)%nat) (transactions w)).

Lemma filter_sublist_mono {A} (P : A -> Prop) `{!forall x, Decision (P x)} l k : l `sublist_of` k -> filter P l `sublist_of` filter P k.
Proof.
  induction 1 as [|x l k Hs IH|x l k Hs IH]; [constructor|..]; rewrite !filter_cons; destruct (decide (P x)); try done;
    now constructor.
Qed.

Lemma above_child w w1 h d : transactions w1 `sublist_of` transactions w -> d ∈ transactions w -> (rank h < rank d)%nat ->
  (above w1 d < above w h)%nat.
Proof.
  intros Hs Hd Hr. unfold above. apply Nat.le_lt_trans with (length (filter (fun x => (rank d < rank x)%nat) (transactions w))).
  { apply sublist_length, filter_sublist_mono, Hs. }
  clear Hs. induction (transactions w) as [|x l IH]; [now apply elem_of_nil in Hd|]. rewrite !filter_cons.
  assert (Hle : (length (filter (fun x => (rank d < rank x)%nat) l) <= length (filter (fun x => (rank h < rank x)%nat) l))%nat).
  { clear -Hr. induction l as [|y l IH]; [done|]. rewrite !filter_cons.
    destruct (decide (rank d < rank y)%nat), (decide (rank h < rank y)%nat); cbn; lia. }
  apply elem_of_cons in Hd as [->|Hd].
  - rewrite decide_False, decide_True by lia. cbn. lia.
  - specialize (IH Hd). destruct (decide (rank d < rank x)%nat), (decide (rank h < rank x)%nat); cbn; lia.
Qed.

(** The loop over the dependents. *)
Record removed_all (now : Z) (h : Z) (hs : list Z) (w w' : BRWallet) : Prop := {
  ra_ok : wallet_ok w';
  ra_store : allTx w' = allTx w;
  ra_const : masterPubKey w' = masterPubKey w /\ walletHeight w' = walletHeight w /\ allAddrs w' = allAddrs w;
  ra_sublist : transactions w' `sublist_of` transactions w;
  ra_gone x : x ∈ hs -> x ∉ transactions w';
  ra_only x : x ∈ transactions w -> x ∉ transactions w' -> descends (allTx w) (transactions w) h x;
  ra_children x y : x ∈ transactions w -> x ∉ transactions w' -> y ∈ transactions w' -> child (allTx w) x y ->
    tx_height (allTx w) y < tx_height (allTx w) x;
}.

Lemma removed_all_step now h hs x w w1 w2 : removed_all now h hs w w1 -> removed now x w1 w2 -> descends (allTx w) (transactions w) h x ->
  removed_all now h (hs ++ [x]) w w2.
Proof.
  intros [A1 A2 A3 A4 A5 A6 A7] [B1 B2 B3 B4 B5 B6 B7] Hd. rewrite A2 in *. pose proof (sublist_subseteq _ _ B4) as Hsub.
  split; [done|congruence|destruct_and!; split_and!; congruence|now transitivity (transactions w1)|..].
  - intros y [Hy| ->%list_elem_of_singleton]%elem_of_app; [|done]. intros Hin. now apply (A5 y Hy), Hsub.
  - intros y Hy Hn. destruct (decide (y ∈ transactions w1)) as [H1|H1]; [|auto].
    apply (descends_trans _ _ h x); [done|]. apply (descends_mono _ (transactions w1)); [now apply sublist_subseteq|auto].
  - intros y z Hy Hn Hz Hc. destruct (decide (y ∈ transactions w1)) as [H1|H1]; [|auto]. apply B7; auto.
Qed.

Lemma remove_rec_ok now fuel : forall w h t, wallet_ok w -> allTx w !! h = Some t -> h <> 0 -> is_u256 h ->
  (above w h + 1 <= fuel)%nat -> exists w' ev, remove_rec fuel now w h = Some (w', ev) /\ removed now h w w'.
Proof.
  induction fuel as [|fuel IH]; intros w h t Hok Ht Hz Hu Hf; [lia|].
  destruct (dependents_spec (allTx w) t h (reverse (transactions w))) as (r & Er & Hr);
    [apply Hok|done|apply (core_known w); [apply Hok|intros x; now rewrite elem_of_reverse]|
     apply oldest_newest; rewrite ?reverse_involutive; apply Hok|].
  setoid_rewrite elem_of_reverse in Hr.
  destruct (decide (r = [])) as [->|Hne].
  { apply (remove_leaf now w h t fuel); [done|done|done|done|]. intros y Hy Hc. apply Z.lt_nge. intros Hh.
    assert (y <> h) by (intros ->; pose proof (child_rank _ _ _ (ok_store w (proj1 Hok)) Hc); lia).
    assert (Hin : y ∈ []) by (apply Hr; done). now apply elem_of_nil in Hin. }
  cbn [remove_rec]. rewrite UInt256IsZero_spec, (proj2 (Z.eqb_neq _ 0)), Ht, Er, bind_Some_l, bool_decide_eq_false_2 by done.
  set (f := fun st h => _).
  assert (Hrank : forall x, x ∈ r -> x ∈ transactions w /\ (rank h < rank x)%nat /\ child (allTx w) h x).
  { intros x Hx. apply Hr in Hx as (Hx & _ & _ & Hc). split; [done|]. split; [|done].
    apply (child_rank (allTx w)); [apply Hok|done]. }
  destruct (for_each_total (fun pre st => removed_all now h pre w (fst st)) f (reverse r) (w, [])) as ([w1 ev1] & E1 & A).
  - cbn. split; try done. intros x Hx. now apply elem_of_nil in Hx.
  - intros pre x post [w1 ev1] El A. cbn [fst] in A.
    assert (Hx : x ∈ r) by (rewrite <- elem_of_reverse, El; set_solver). destruct (Hrank x Hx) as (Hxw & Hxr & Hxc).
    destruct (ok_mine w (proj1 Hok) x Hxw) as (tx & Htx & _). destruct (ok_store w (proj1 Hok) x tx Htx) as [Ex Hokx].
    destruct (IH w1 x tx) as (w2 & ev2 & E2 & B);
      [apply A|now rewrite (ra_store _ _ _ _ _ A)| | | |].
    + rewrite <- Ex. apply Hokx.
    + rewrite <- Ex. apply Hokx.
    + pose proof (above_child w w1 h x (ra_sublist _ _ _ _ _ A) Hxw Hxr). lia.
    + unfold f. cbn [fst snd]. rewrite E2, bind_Some_l. eexists. split; [done|]. cbn [fst].
      apply (removed_all_step now h pre x w w1 w2 A B). econstructor; [constructor|done|done].
  - cbn [fst] in A. rewrite E1, bind_Some_l. cbn [fst snd].
    destruct fuel as [|fuel]; [exfalso|].
    { destruct r as [|x r']; [done|]. destruct (Hrank x (list_elem_of_here _ _)) as (Hxw & Hxr & _).
      pose proof (above_child w w h x ltac:(done) Hxw Hxr). lia. }
    destruct (remove_leaf now w1 h t fuel) as (w2 & ev2 & E2 & B); [apply A|done|done|now rewrite (ra_store _ _ _ _ _ A)| |].
    { rewrite (ra_store _ _ _ _ _ A). intros y Hy Hc. apply Z.lt_nge. intros Hh.
      pose proof (sublist_subseteq _ _ (ra_sublist _ _ _ _ _ A) _ Hy) as Hyw.
      assert (y <> h) by (intros ->; pose proof (child_rank _ _ _ (ok_store w (proj1 Hok)) Hc); lia).
      apply (ra_gone _ _ _ _ _ A y); [|done]. apply elem_of_reverse, Hr. done. }
    rewrite E2, bind_Some_l. eexists _, _. split; [done|].
    pose proof (removed_all_step now h (reverse r) h w w1 w2 A B (descends_self _ _ h)) as C.
    destruct C as [C1 C2 C3 C4 C5 C6 C7]. split; try done; [apply C5; set_solver|].
    intros x y [->|Hx] Hn Hy Hc; [|now apply C7].
    rewrite <- (ra_store _ _ _ _ _ A) in Hc |- *. apply (rm_children _ _ _ _ B); auto.
Qed.
End invariant.

(** ** Steps *)

(** The operations as steps, with valid arguments. *)
Section steps.
Context (rank : Z -> nat) `{AddressChain}.

Inductive wallet_step (w : BRWallet) : BRWallet -> Prop :=
  | step_register moved1 moved2 now t A w' r ev : tx_ok rank t ->
      addresses_bounded (set_allTx w (<[txHash t := t]> (allTx w))) A ->
      BRWalletRegisterTransaction moved1 moved2 now w t = Some (w', r, ev) -> wallet_step w w'
  | step_remove now h w' ev : is_u256 h -> h <> 0 -> BRWalletRemoveTransaction now w h = Some (w', ev) -> wallet_step w w'
  | step_update now hs height time w' ev : 0 <= height <= TX_UNCONFIRMED ->
      BRWalletUpdateTransactions now w hs height time = Some (w', ev) -> wallet_step w w'
  | step_reorg now height w' ev : 0 <= height -> BRWalletSetTxUnconfirmedAfter now w height = Some (w', ev) -> wallet_step w w'
  | step_unused moved want gap internal w' addrs : 0 < gap -> chain_room w gap internal ->
      BRWalletUnusedAddrs moved w want gap internal = Some (w', addrs) -> wallet_step w w'
  | step_fee fee : wallet_step w (BRWalletSetFeePerKb w fee).

Lemma remove_ok now w h : wallet_ok rank w -> is_u256 h -> h <> 0 ->
  exists w' ev, BRWalletRemoveTransaction now w h = Some (w', ev) /\
    match allTx w !! h with Some _ => removed rank now h w w' | None => w' = w /\ ev = [] end.
Proof.
  intros Hok Hu Hz. unfold BRWalletRemoveTransaction. destruct (allTx w !! h) as [t|] eqn:Ht.
  - destruct (remove_rec_ok rank now (S (S (length (transactions w)))) w h t Hok Ht Hz Hu) as (w' & ev & E & R); [|eauto].
    unfold above. pose proof (length_filter (fun x => (rank h < rank x)%nat) (transactions w)). lia.
  - exists w, []. cbn [remove_rec]. rewrite UInt256IsZero_spec, (proj2 (Z.eqb_neq _ 0)), Ht by done. done.
Qed.

Lemma wallet_step_ok w w' : ChainLaws (masterPubKey w) -> wallet_ok rank w -> wallet_step w w' ->
  wallet_ok rank w' /\ masterPubKey w' = masterPubKey w.
Proof.
  intros Hlaws Hok Hs. destruct Hs as [m1 m2 now t A w' r ev Ht Hb E|now h w' ev Hu Hz E|now hs height time w' ev Hh E
    |now height w' ev Hh E|moved want gap internal w' addrs Hg Hr E|fee].
  - destruct (register_ok rank m1 m2 now w t A Hlaws Hok Ht Hb) as (w1 & r1 & e1 & E1 & Hok1 & Em & _).
    now replace w' with w1 by congruence.
  - destruct (remove_ok now w h Hok Hu Hz) as (w1 & e1 & E1 & R). replace w' with w1 by congruence.
    destruct (allTx w !! h); [destruct R; destruct_and!; done|]. now destruct R as [-> _].
  - destruct (update_transactions_ok rank now w hs height time Hok Hh) as (w1 & e1 & E1 & Hok1 & Em & _).
    now replace w' with w1 by congruence.
  - destruct (reorg_ok rank now w height Hok Hh) as (w1 & e1 & E1 & Hok1 & Em & _). now replace w' with w1 by congruence.
  - destruct (unused_ok (w := w) rank want gap internal Hok Hg Hr) as (ch & addrs1 & r & E1 & Hok1).
    specialize (E1 moved). now replace w' with (set_chain w internal ch addrs1) by congruence.
  - split; [|done]. now apply set_fee_ok.
Qed.
End steps.

(** *** The example wallet *)

Definition ex_full : BRWallet :=
  set_ledger ex_wallet (default ledger0 (ledger <$> _BRWalletUpdateBalance ex_wallet 0)).

Ltac example_tx :=
  split; [reflexivity|intros i Hi; each_element Hi; cbn; lia|discriminate|split; discriminate|split; [discriminate|reflexivity]
    |discriminate|intros i Hi; each_element Hi; (split; [split; [discriminate|reflexivity]|split; discriminate])].

Lemma ex_tx_ok t : t ∈ ex_txs -> tx_ok Z.to_nat t.
Proof.
  intros Ht. each_element Ht; example_tx.
Qed.

Lemma ex_core : @core_ok Z.to_nat ex_chain ex_wallet.
Proof.
  split; [| | | |exact ex_chains].
  - intros h t [Ht <-]%ex_store_elem. split; [done|]. now apply ex_tx_ok.
  - exact (bool_decide_eq_true_1 (NoDup [5; 6; 7; 8]) eq_refl).
  - intros h Hh. each_element Hh; eexists; (split; [vm_compute; reflexivity|vm_compute; reflexivity]).
  - repeat constructor; vm_compute; discriminate.
Qed.

Lemma ex_full_ok : @wallet_ok Z.to_nat ex_chain ex_full.
Proof.
  destruct (@update_balance_core Z.to_nat ex_chain ex_wallet 0 ex_core) as (l & E & Hok & _).
  unfold ex_full. rewrite E. exact Hok.
Qed.

(** A transaction paying to the wallet, and the wallet's bound on addresses with it. *)
Definition ex_new : BRTransaction := ex_tx 20 [ex_input 12 0 UINT32_MAX] [ex_out [1; 1] 70000] TX_UNCONFIRMED.

Lemma ex_new_ok : tx_ok Z.to_nat ex_new.
Proof.
  example_tx.
Qed.

Lemma ex_bounded : addresses_bounded (set_allTx ex_full (<[txHash ex_new := ex_new]> (allTx ex_full))) {[ [0; 1]; [1; 1]; [9] ]}.
Proof.
  split; [|intros []; vm_compute; reflexivity].
  intros h t o Ht Ho. cbn [allTx set_allTx ex_full set_ledger] in Ht.
  apply lookup_insert_Some in Ht as [[<- <-]|[_ [Ht _]%ex_store_elem]]; [each_element Ho; cbn; set_solver|].
  each_element Ht; each_element Ho; cbn; set_solver.
Qed.

(** ** Properties *)

(** C1. The invariant of the wallet is kept by every sequence of operations: the listed transactions are
    distinct, known, concern the wallet and are sorted by height, both chains are prefixes of the chains
    of the master public key and [allAddrs] is their union, the balance is the sum of the unspent
    outputs, which are distinct wallet outputs of listed transactions, and there is one balance history
    entry per transaction.  (Registered transactions satisfy [tx_ok]: no input has a zero hash, as those of coinbase
    transactions do, and spending is acyclic.) *)
Theorem wallet_invariant rank `{AddressChain} w w' : ChainLaws (masterPubKey w) -> wallet_ok rank w ->
  rtc (wallet_step rank) w w' -> wallet_ok rank w' /\ masterPubKey w' = masterPubKey w.
Proof.
  intros Hlaws Hok Hs. induction Hs as [w|w w1 w' Hstep _ IH]; [done|].
  destruct (wallet_step_ok rank w w1 Hlaws Hok Hstep) as [Hok1 Em]. rewrite Em in IH. now apply IH.
Qed.

Lemma wallet_invariant_witness : exists w1 w2, rtc (@wallet_step Z.to_nat ex_chain) ex_full w1 /\ w1 <> ex_full /\
  @wallet_ok Z.to_nat ex_chain w1 /\ w2 = w1.
Proof.
  destruct (@reorg_ok Z.to_nat ex_chain 0 ex_full 5 ex_full_ok) as (w1 & ev & E & _ & _ & Eh & _); [lia|].
  assert (Hs : rtc (@wallet_step Z.to_nat ex_chain) ex_full w1).
  { apply rtc_once. exact (step_reorg _ _ 0 5 w1 ev ltac:(lia) E). }
  exists w1, w1. split; [exact Hs|]. split; [intros ->; discriminate Eh|]. split; [|reflexivity].
  apply (@wallet_invariant Z.to_nat ex_chain ex_full w1 (ex_laws _) ex_full_ok Hs).
Defined.

(** [BRWalletNew] rebuilds a wallet from the transactions given, in any order: it lists each of them
    once, sorted by height, generates the addresses, and computes the balance from them; it returns NULL
    exactly when the first transaction does not concern the wallet.  The wallet satisfies the invariant
    if all of them concern it. *)
Theorem wallet_new (rank : Z -> nat) `{AddressChain} (mpk : BRMasterPubKey) (now : Z) (txs : list BRTransaction) (A : gset (list Z)) : ChainLaws mpk ->
  (forall t, t ∈ txs -> tx_ok rank t) -> (forall t o, t ∈ txs -> o ∈ outputs t -> out_address o ∈ A) ->
  10 * (1 + Z.of_nat (size A)) < 0x100000000 ->
  exists w, (forall moved1 moved2, BRWalletNew moved1 moved2 now txs mpk =
      Some (if forallb (_BRWalletContainsTx w) (take 1 txs) then Some w else None)) /\
    masterPubKey w = mpk /\ chains_ok w /\
    NoDup (transactions w) /\ oldest_first (allTx w) (transactions w) /\
    (forall h, h ∈ transactions w <-> h ∈ txHash <$> txs) /\ (forall h, h ∈ transactions w <-> is_Some (allTx w !! h)) /\
    balance (ledger w) = u64 (total (allTx w) (utxos (ledger w))) /\
    (forall u, u ∈ utxos (ledger w) -> own_utxo w u) /\
    ((forall t, t ∈ txs -> _BRWalletContainsTx w t = true) -> wallet_ok rank w).
Proof.
  intros Hlaws Hok Hb HA. destruct (new_ok rank mpk now txs A Hlaws Hok Hb HA) as (w & E & Em & Hm & Hn & Hs & H1 & H2 & Hc & Hscan & Hw).
  exists w. split; [intros m1 m2; rewrite E; destruct txs as [|t txs]; [done|]; cbn; now destruct (_BRWalletContainsTx w t)|].
  do 6 (split; [done|]). destruct Hscan. split; [done|]. split; [intros u Hu; now apply so_owned|done].
Qed.

Lemma wallet_new_witness : exists w, (forall moved1 moved2, @BRWalletNew ex_chain moved1 moved2 0 (reverse ex_txs) BR_MASTER_PUBKEY_NONE =
    Some (Some w)) /\ transactions w ≡ₚ [5; 6; 7; 8].
Proof.
  destruct (@wallet_new Z.to_nat ex_chain BR_MASTER_PUBKEY_NONE 0 (reverse ex_txs) {[ [0; 1]; [1; 1]; [9] ]} (ex_laws _))
    as (w & E & _ & _ & Hn & _ & H & _).
  - intros t Ht. apply ex_tx_ok. now rewrite elem_of_reverse in Ht.
  - intros t o Ht Ho. rewrite elem_of_reverse in Ht. each_element Ht; each_element Ho; cbn; set_solver.
  - vm_compute. reflexivity.
  - exists w.
    split.
    + intros m1 m2. rewrite E.
      assert (Es : (fun o => bool_decide (is_Some o)) <$> @BRWalletNew ex_chain m1 m2 0 (reverse ex_txs) BR_MASTER_PUBKEY_NONE = Some true)
        by (destruct m1, m2; vm_compute; reflexivity).
      rewrite E in Es. destruct (forallb _ _); [reflexivity|discriminate Es].
    + apply NoDup_Permutation; [exact Hn|exact (bool_decide_eq_true_1 (NoDup [5; 6; 7; 8]) eq_refl)|].
      intros h. rewrite H. cbn. set_solver.
Defined.

(** C10. [BRWalletRegisterTransaction] on every branch, for a signed transaction satisfying [tx_ok] (its inputs
    have no zero hash).  A known transaction changes nothing and is reported as registered.  A new one that
    concerns the wallet is stored and listed, the ledger is recomputed with it, both chains of addresses are
    extended until the gap limit (10 external, 5 internal addresses) follows the last address the new ledger uses,
    unless the derivation of an address fails, and both callbacks are made.  A new one that does not concern it is
    stored without being listed if it is unconfirmed, and ignored otherwise. *)
Theorem register_spec rank `{AddressChain} moved1 moved2 now w t A : ChainLaws (masterPubKey w) -> wallet_ok rank w ->
  tx_ok rank t -> addresses_bounded (set_allTx w (<[txHash t := t]> (allTx w))) A ->
  exists w' r ev, BRWalletRegisterTransaction moved1 moved2 now w t = Some (w', r, ev) /\ wallet_ok rank w' /\
    (is_Some (allTx w !! txHash t) -> w' = w /\ r = true /\ ev = []) /\
    (allTx w !! txHash t = None ->
       if _BRWalletContainsTx w t then
         r = true /\ allTx w' = <[txHash t := t]> (allTx w) /\ transactions w' ≡ₚ txHash t :: transactions w /\
         (exists w0, scan_ok w0 (transactions w') (ledger w') /\ marks_ok w0 now (transactions w') (ledger w') /\
            allTx w0 = allTx w' /\ allAddrs w0 = allAddrs w /\ walletHeight w0 = walletHeight w) /\
         (forall internal, wallet_chain w internal `prefix_of` wallet_chain w' internal /\
            exists i, last_used (usedAddrs (ledger w')) (wallet_chain w' internal) i /\
              (i + (if internal then 5 else 10) <= len (wallet_chain w' internal) \/
               chain_address (masterPubKey w') (chain_id internal) (len (wallet_chain w' internal)) = Some None)) /\
         ev = [balanceChanged (balance (ledger w')); txAdded (txHash t)]
       else r = false /\ ev = [] /\ w' = if is_unconfirmed t then set_allTx w (<[txHash t := t]> (allTx w)) else w).
Proof.
  intros Hlaws Hok Ht Hb. destruct (register_ok rank moved1 moved2 now w t A Hlaws Hok Ht Hb) as (w' & r & ev & E & Hok' & _ & Hnew).
  exists w', r, ev. split; [done|]. split; [done|]. unfold BRWalletRegisterTransaction in E.
  rewrite (tk_signed rank t Ht) in E. cbn [negb] in E. split.
  - intros Hin. rewrite bool_decide_eq_true_2 in E by done. now injection E as <- <- <-.
  - intros Hn. destruct (_BRWalletContainsTx w t) eqn:Hc.
    { destruct (Hnew Hn eq_refl) as (H1 & H2 & H3 & H4 & [R1 R2] & H5). do 4 (split; [done|]). split; [|done].
      intros []; [exact R2|exact R1]. }
    rewrite Hn, bool_decide_eq_false_2 in E by apply is_Some_None.
    destruct (is_unconfirmed t); now injection E as <- <- <-.
Qed.

Lemma register_spec_witness : exists w' r ev, @BRWalletRegisterTransaction ex_chain true false 0 ex_full ex_new = Some (w', r, ev) /\
  r = true /\ transactions w' ≡ₚ [20; 5; 6; 7; 8] /\ ev = [balanceChanged (balance (ledger w')); txAdded 20].
Proof.
  destruct (@register_spec Z.to_nat ex_chain true false 0 ex_full ex_new _ (ex_laws _) ex_full_ok ex_new_ok ex_bounded)
    as (w' & r & ev & E & _ & _ & Hn).
  exists w', r, ev. split; [exact E|]. destruct (Hn eq_refl) as (Hr & _ & Hp & _ & _ & He).
  split; [exact Hr|]. split; [exact Hp|exact He].
Defined.

(** C11. [BRWalletRemoveTransaction] terminates and removes the transaction from the list together with
    listed transactions that descend from it, and nothing else: no transaction left spends an output of
    a removed one, except at a lower height; if heights never decrease along spending, exactly the
    listed descendants are removed.  The store of known transactions is not changed.  (All of them satisfy [tx_ok]:
    no input has a zero hash.) *)
Theorem remove_spec rank `{AddressChain} now w h t : wallet_ok rank w -> allTx w !! h = Some t -> is_u256 h -> h <> 0 ->
  exists w' ev, BRWalletRemoveTransaction now w h = Some (w', ev) /\ wallet_ok rank w' /\ allTx w' = allTx w /\
    h ∉ transactions w' /\ transactions w' `sublist_of` transactions w /\
    (forall x, x ∈ transactions w -> x ∉ transactions w' -> descends (allTx w) (transactions w) h x) /\
    (forall x y, x = h \/ x ∈ transactions w -> x ∉ transactions w' -> y ∈ transactions w' -> child (allTx w) x y ->
       tx_height (allTx w) y < tx_height (allTx w) x) /\
    ((forall x y, child (allTx w) x y -> tx_height (allTx w) x <= tx_height (allTx w) y) ->
       forall x, x ∈ transactions w' <-> x ∈ transactions w /\ ~ descends (allTx w) (transactions w) h x).
Proof.
  intros Hok Ht Hu Hz. destruct (remove_ok rank now w h Hok Hu Hz) as (w' & ev & E & R). rewrite Ht in R.
  destruct R as [R1 R2 _ R4 R5 R6 R7]. exists w', ev. do 5 (split; [done|]). split; [exact R6|]. split; [exact R7|].
  intros Hmono x. pose proof (sublist_subseteq _ _ R4) as Hsub. split.
  - intros Hx. split; [now apply Hsub|]. intros Hd.
    assert (Hn : forall y, descends (allTx w) (transactions w) h y -> (y = h \/ y ∈ transactions w) /\ y ∉ transactions w').
    { induction 1 as [|y z _ [IH1 IH2] Hz' Hc]; [tauto|]. split; [tauto|]. intros Hzw.
      pose proof (R7 y z IH1 IH2 Hzw Hc). specialize (Hmono y z Hc). lia. }
    now apply (Hn x Hd).
  - intros [Hx Hd]. destruct (decide (x ∈ transactions w')) as [|Hn]; [done|]. destruct Hd. auto.
Qed.

Lemma remove_spec_witness : exists w' ev, BRWalletRemoveTransaction 0 ex_full 6 = Some (w', ev) /\ transactions w' = [5; 7] /\
  @wallet_ok Z.to_nat ex_chain w'.
Proof.
  destruct (@remove_spec Z.to_nat ex_chain 0 ex_full 6 (ex_tx 6 [ex_input 5 0 UINT32_MAX] [ex_out [1; 1] 60000; ex_out [9] 30000] TX_UNCONFIRMED)
    ex_full_ok eq_refl) as (w' & ev & E & Hok & _); [split; [discriminate|reflexivity]|discriminate|].
  exists w', ev. split; [exact E|]. split; [|exact Hok].
  assert (Ev : (fun r => transactions (fst r)) <$> BRWalletRemoveTransaction 0 ex_full 6 = Some [5; 7]) by (vm_compute; reflexivity).
  rewrite E in Ev. now injection Ev.
Defined.

(** C12. [BRWalletUpdateTransactions] and [BRWalletSetTxUnconfirmedAfter] change heights and time stamps
    only, and exactly those they should.  The first raises the height of the wallet and processes the known
    transactions among the given hashes, listed or not: one that already has the height and time stamp is left as it
    is; another gets them, except that one that does not concern the wallet is forgotten unless it becomes
    unconfirmed; all other transactions stay.  Its callback reports each given transaction that concerns the
    wallet and changed, once, in the order given; the ledger is recomputed exactly if one of these was pending or
    invalid.  The second marks the listed transactions above the new height as unconfirmed, changes no other, reports
    them and recomputes the ledger if there are any.  Both keep the listed transactions and the invariant, the
    sorting included (so they hold for transactions satisfying [tx_ok], whose inputs have no zero hash). *)
Theorem heights_spec rank `{AddressChain} now w : wallet_ok rank w ->
  (forall hs height time, 0 <= height <= TX_UNCONFIRMED ->
     exists w' hashes, BRWalletUpdateTransactions now w hs height time =
         Some (w', if decide (hashes = []) then [] else [txUpdated hashes height time]) /\ wallet_ok rank w' /\
       walletHeight w' = Z.max (walletHeight w) height /\ transactions w' ≡ₚ transactions w /\
       (forall h, h ∈ hs -> allTx w !! h = None -> allTx w' !! h = None) /\
       (forall h t, h ∈ hs -> allTx w !! h = Some t -> allTx w' !! h =
          if decide (blockHeight t = height /\ timestamp t = time) then Some t
          else if decide (_BRWalletContainsTx w t = true \/ height = TX_UNCONFIRMED) then Some (set_confirmed t height time)
          else None) /\
       (forall h, h ∉ hs -> allTx w' !! h = allTx w !! h) /\
       NoDup hashes /\ hashes `sublist_of` hs /\
       (forall h, h ∈ hashes <-> h ∈ hs /\ exists t, allTx w !! h = Some t /\ ~ (blockHeight t = height /\ timestamp t = time) /\
          _BRWalletContainsTx w t = true) /\
       ((exists h, h ∈ hashes /\ (h ∈ pendingTx (ledger w) \/ h ∈ invalidTx (ledger w))) /\ recomputed now w' \/
        (forall h, h ∈ hashes -> h ∉ pendingTx (ledger w) /\ h ∉ invalidTx (ledger w)) /\ ledger w' = ledger w)) /\
  (forall height, 0 <= height ->
     exists w' ev, BRWalletSetTxUnconfirmedAfter now w height = Some (w', ev) /\ wallet_ok rank w' /\
       walletHeight w' = height /\ transactions w' = transactions w /\
       (forall h t, h ∈ transactions w -> allTx w !! h = Some t ->
          allTx w' !! h = Some (if blockHeight t <=? height then t else unconfirmed_copy t)) /\
       (forall h, h ∉ transactions w -> allTx w' !! h = allTx w !! h) /\
       exists hashes, hashes `suffix_of` transactions w /\
         (forall h, h ∈ hashes <-> h ∈ transactions w /\ height < tx_height (allTx w) h) /\
         (hashes = [] /\ ev = [] /\ ledger w' = ledger w \/
          hashes <> [] /\ ev = [txUpdated hashes TX_UNCONFIRMED 0] /\ recomputed now w')).
Proof.
  intros Hok. split.
  - intros hs height time Hh.
    destruct (update_transactions_ok rank now w hs height time Hok Hh) as
      (w' & hashes & E & Hok' & _ & H1 & H2 & H3 & H4 & H5 & H6 & H7 & H8).
    exists w', hashes. do 4 (split; [done|]). split; [intros h Hin Hn; now rewrite (H3 h Hin), Hn|]. split.
    { intros h t Hin Ht. rewrite (H3 h Hin), Ht, bind_Some_l. unfold updated_tx.
      destruct (Z.eqb_spec (blockHeight t) height), (Z.eqb_spec (timestamp t) time), (Z.eqb_spec height TX_UNCONFIRMED),
        (_BRWalletContainsTx w t); repeat case_decide; cbn; naive_solver. }
    do 3 (split; [done|]). split; [|done]. intros h. rewrite H7. f_equiv. unfold reported. destruct (allTx w !! h) as [t|]; [|naive_solver].
    rewrite andb_true_iff, negb_true_iff, andb_false_iff, !Z.eqb_neq. split; [intros [? ?]; exists t; split; [done|]; split; [lia|done]|].
    intros (t' & [= <-] & Hc & ?). split; [lia|done].
  - intros height Hh. destruct (reorg_ok rank now w height Hok Hh) as (w' & ev & E & Hok' & _ & H1). eauto.
Qed.

Lemma heights_spec_witness : exists w' hashes t, BRWalletUpdateTransactions 0 ex_full [6; 33] 200 77 =
    Some (w', if decide (hashes = []) then [] else [txUpdated hashes 200 77]) /\
  walletHeight w' = 200 /\ allTx w' !! 6 = Some t /\ blockHeight t = 200 /\ allTx w' !! 33 = None.
Proof.
  destruct (@heights_spec Z.to_nat ex_chain 0 ex_full ex_full_ok) as [Hu _].
  destruct (Hu [6; 33] 200 77 ltac:(split; discriminate)) as (w' & hashes & E & _ & Hh & _ & Hn & Ht & _).
  exists w', hashes. eexists. split; [exact E|]. split; [exact Hh|].
  split; [|split; [|apply (Hn 33); [right; left|reflexivity]]].
  - rewrite (Ht 6 _ ltac:(left) eq_refl). vm_compute. reflexivity.
  - reflexivity.
Defined.

(** C13. [BRWalletTransactionIsValid], [BRWalletTransactionIsPending] and [BRWalletTransactionIsVerified]
    terminate on every signed transaction satisfying [tx_ok] over a store of such transactions (no input has a zero
    hash, on which an assertion of [BRWalletTransactionForHash] fails for an unconfirmed transaction, and spending
    is acyclic) and decide a property of the transactions it depends on through unconfirmed transactions: valid if
    all of them are, pending if one of them is, verified if all of them are seen, valid and final. *)
Theorem validity_spec rank w now t : store_ok rank (allTx w) -> tx_ok rank t ->
  (exists v, BRWalletTransactionIsValid w t = Some v /\
     (v = true <-> forall a, ancestor (allTx w) t a -> is_unconfirmed a = true -> locally_valid w a)) /\
  (exists p, BRWalletTransactionIsPending w now t = Some p /\
     (p = true <-> exists a, ancestor (allTx w) t a /\ is_unconfirmed a = true /\ locally_pending w now a)) /\
  (exists c, BRWalletTransactionIsVerified w now t = Some c /\
     (c = true <-> forall a, ancestor (allTx w) t a -> is_unconfirmed a = true ->
        timestamp a <> 0 /\ locally_valid w a /\ ~ locally_pending w now a)).
Proof.
  intros Hm Ht. pose proof (fuel_enough rank (allTx w) t) as Hf.
  split; [now apply (valid_rec_spec rank)|]. split; [now apply (pending_rec_spec rank)|now apply (verified_rec_spec rank)].
Qed.

Lemma validity_spec_witness : exists t, allTx ex_full !! 8 = Some t /\
  BRWalletTransactionIsValid ex_full t = Some true /\ BRWalletTransactionIsPending ex_full 0 t = Some true.
Proof.
  eexists. split; [vm_compute; reflexivity|].
  destruct (validity_spec Z.to_nat ex_full 0 (ex_tx 8 [ex_input 6 0 0] [ex_out [9] 50000] TX_UNCONFIRMED)) as ((v & Ev & _) & (p & Ep & _) & _).
  - apply ex_full_ok.
  - apply ex_tx_ok. vm_compute. right; right; right; left.
  - split; vm_compute; reflexivity.
Defined.

(** *** Behaviour worth knowing *)

(** Setting a transaction back to unconfirmed raises the height of the wallet to INT32_MAX, after which no
    lock time given as a height keeps a transaction pending. *)
Lemma unconfirmed_height rank `{AddressChain} now w hs time : wallet_ok rank w -> walletHeight w <= TX_UNCONFIRMED ->
  exists w' ev, BRWalletUpdateTransactions now w hs TX_UNCONFIRMED time = Some (w', ev) /\ walletHeight w' = TX_UNCONFIRMED /\
    forall now' lock i, lock < TX_MAX_LOCK_HEIGHT -> lock <= now' -> UINT32_MAX - 1 <= in_sequence i ->
      postdated (walletHeight w') now' lock i = false.
Proof.
  intros Hok Hw. destruct (update_transactions_ok rank now w hs TX_UNCONFIRMED time Hok) as (w' & ev & E & _ & _ & Hh & _);
    [unfold TX_UNCONFIRMED, INT32_MAX; lia|].
  eexists w', _. split; [done|]. rewrite Hh, Z.max_r by done. split; [done|]. intros now' lock i Hl Hn Hs. unfold postdated.
  change (u32 (TX_UNCONFIRMED + 1)) with 0x80000000. unfold TX_MAX_LOCK_HEIGHT in *.
  rewrite (proj2 (Z.ltb_ge 0x80000000 lock)), (proj2 (Z.ltb_ge now' lock)), (proj2 (Z.ltb_ge (in_sequence i) (UINT32_MAX - 1))) by lia.
  now rewrite !andb_false_r.
Qed.

Lemma for_each_all {S A} (f : S -> A -> option S) l a : a ∈ l -> forall s s', for_each f s l = Some s' -> exists s1, is_Some (f s1 a).
Proof.
  induction l as [|x l IH]; intros Ha s s'; [now apply elem_of_nil in Ha|]. cbn [for_each]. intros E.
  apply bind_Some in E as (s1 & E1 & E). apply elem_of_cons in Ha as [->|Ha]; [eauto|]. now apply (IH Ha s1 s').
Qed.

(** A listed transaction that does not concern the wallet (as [BRWalletNew] lists) is freed when it is
    confirmed and stays in the array: the next balance update reads freed memory. *)
Lemma foreign_dangles w h t height time now now' : h ∈ transactions w -> allTx w !! h = Some t -> walletHeight w <= height ->
  blockHeight t <> height -> height <> TX_UNCONFIRMED ->
  _BRWalletContainsTx (set_allTx w (<[h := set_confirmed t height time]> (allTx w))) (set_confirmed t height time) = false ->
  exists w', BRWalletUpdateTransactions now w [h] height time = Some (w', []) /\ _BRWalletUpdateBalance w' now' = None.
Proof.
  intros Hin Ht Hle Hne Hu Hc. unfold BRWalletUpdateTransactions.
  assert (Ew : exists w0, (if walletHeight w <? height then set_height w height else w) = w0 /\ allTx w0 = allTx w /\
    transactions w0 = transactions w /\ allAddrs w0 = allAddrs w).
  { destruct (_ <? _); eauto. }
  destruct Ew as (w0 & -> & E1 & E2 & E3). cbn [for_each]. unfold update_one at 1. rewrite E1, Ht.
  rewrite (proj2 (Z.eqb_neq (blockHeight t) height)) by done. cbn [andb].
  assert (Hc0 : _BRWalletContainsTx (set_allTx w0 (<[h := set_confirmed t height time]> (allTx w))) (set_confirmed t height time) = false).
  { unfold _BRWalletContainsTx in *. cbn in *. now rewrite E3. }
  rewrite Hc0, (proj2 (Z.eqb_neq height TX_UNCONFIRMED)) by done. cbn [negb]. rewrite !bind_Some_l.
  rewrite bool_decide_eq_true_2 by done. eexists. split; [done|]. unfold _BRWalletUpdateBalance. cbn.
  rewrite E2. destruct (for_each _ _ _) as [st|] eqn:E; [exfalso|done].
  destruct (for_each_all _ _ h Hin _ _ E) as [[l b] [x Hx]]. unfold scan_tx in Hx. cbn in Hx.
  now rewrite lookup_delete_eq in Hx.
Qed.
