(* ===== verification/WalletTx.v ===== *)
(** * WalletTx: creating and signing transactions (BRWallet.c)

    Coin selection, change and fees, and the amounts the wallet reports.  [rands] is the stream of values
    [rand()] returns, [moved] says whether generating the change address moved the internal chain. *)
From stdpp Require Import base numbers list gmap sets.
From Stdlib Require Import ZArith Lia.
From S2P Require Import Prelude CMem Int Base58 Address Transaction Key Sequence Wallet WalletOps.
Local Open Scope Z_scope.

(** ** Amounts *)

Definition UINT64_MAX : Z := 0xffffffffffffffff.

Definition BRWalletMinOutputAmount (w : BRWallet) : Z :=
  let amount := u64 (u64 (u64 (TX_MIN_OUTPUT_AMOUNT * feePerKb w) + MIN_FEE_PER_KB) - 1) / MIN_FEE_PER_KB in
  if TX_MIN_OUTPUT_AMOUNT <? amount then amount else TX_MIN_OUTPUT_AMOUNT.

(** The transaction and the output of an entry of [utxos], if they are known. *)
Definition utxo_output (m : gmap Z BRTransaction) (u : BRUTXO) : option (BRTransaction * BRTxOutput) :=
  t ← m !! fst u; o ← outputs t !! Z.to_nat (snd u); Some (t, o).

(** One iteration of the loop; the state is [inCount] and [amount]. *)
Definition count_utxo (m : gmap Z BRTransaction) (u : BRUTXO) (st : Z * Z) : Z * Z :=
  match utxo_output m u with
  | Some (_, o) => (fst st + 1, u64 (snd st + out_amount o))
  | None => st
  end.

Definition BRWalletMaxOutputAmount (w : BRWallet) : Z :=
  let '(inCount, amount) := foldr (count_utxo (allTx w)) (0, 0) (utxos (ledger w)) in
  let txSize := u64 (8 + BRVarIntSize inCount + TX_INPUT_SIZE * inCount + BRVarIntSize 2 + TX_OUTPUT_SIZE * 2) in
  let fee := _txFee (feePerKb w) txSize in
  if fee <? amount then u64 (amount - fee) else 0.

Definition BRWalletFeeForTxSize (w : BRWallet) (size : Z) : Z := _txFee (feePerKb w) size.

(** The two loops; both stop at UINT64_MAX. *)
Fixpoint fee_inputs (m : gmap Z BRTransaction) (amount : Z) (ins : list BRTxInput) : Z :=
  match ins with
  | [] => amount
  | i :: ins' =>
      if amount =? UINT64_MAX then amount
      else match spent_output m i with
           | Some o => fee_inputs m (u64 (amount + out_amount o)) ins'
           | None => UINT64_MAX
           end
  end.

Fixpoint fee_outputs (amount : Z) (outs : list BRTxOutput) : Z :=
  match outs with
  | [] => amount
  | o :: outs' => if amount =? UINT64_MAX then amount else fee_outputs (u64 (amount - out_amount o)) outs'
  end.

Definition BRWalletFeeForTx (w : BRWallet) (tx : BRTransaction) : Z :=
  fee_outputs (fee_inputs (allTx w) 0 (inputs tx)) (outputs tx).

(** The loop from the end of [transactions]; [l] is the array reversed, and the result an index. *)
Fixpoint find_tx (m : gmap Z BRTransaction) (tx : BRTransaction) (l : list Z) : option (option nat) :=
  match l with
  | [] => Some None
  | h :: l' => t ← m !! h; if BRTransactionEq tx t then Some (Some (length l')) else find_tx m tx l'
  end.

Definition BRWalletBalanceAfterTx (w : BRWallet) (tx : BRTransaction) : option Z :=
  if negb (BRTransactionIsSigned tx) then None
  else
    r ← find_tx (allTx w) tx (reverse (transactions w));
    match r with
    | Some i => balanceHist (ledger w) !! i
    | None => Some (balance (ledger w))
    end.

(** ** Coin selection *)

(** The fee for [tx] with a change output, before and after rounding off the remaining balance of the
    wallet. *)
Definition change_fee (w : BRWallet) (tx : BRTransaction) : Z :=
  _txFee (feePerKb w) (size_add (BRTransactionSize tx) TX_OUTPUT_SIZE).

Definition round_fee (w : BRWallet) (amount feeAmount : Z) : Z :=
  if u64 (amount + feeAmount) <? balance (ledger w)
  then u64 (feeAmount + u64 (balance (ledger w) - u64 (amount + feeAmount)) mod 100) else feeAmount.

(** How the loop over [utxos] ends: with the inputs chosen, or at an input that makes the transaction too
    large. *)
Inductive Selection :=
  | Selected (transaction : BRTransaction) (balance feeAmount : Z)
  | TooLarge (balance feeAmount : Z).

Fixpoint select (w : BRWallet) (amount minAmount : Z) (transaction : BRTransaction) (balance feeAmount : Z)
    (us : list BRUTXO) : option Selection :=
  match us with
  | [] => Some (Selected transaction balance feeAmount)
  | u :: us' =>
      match utxo_output (allTx w) u with
      | None => select w amount minAmount transaction balance feeAmount us'
      | Some (tx, o) =>
          transaction ← BRTransactionAddInput transaction (txHash tx) (snd u) (out_amount o) (out_script o) None TXIN_SEQUENCE;
          if TX_MAX_SIZE <? size_add (BRTransactionSize transaction) TX_OUTPUT_SIZE then Some (TooLarge balance feeAmount)
          else
            let balance := u64 (balance + out_amount o) in
            let feeAmount := round_fee w amount (change_fee w transaction) in
            if (balance =? u64 (amount + feeAmount)) || (u64 (u64 (amount + feeAmount) + minAmount) <=? balance)
            then Some (Selected transaction balance feeAmount)
            else select w amount minAmount transaction balance feeAmount us'
      end
  end.

(** The loop over the outputs, with its assertion; the state is the transaction and [amount]. *)
Definition add_output (st : BRTransaction * Z) (o : BRTxOutput) : option (BRTransaction * Z) :=
  if bool_decide (bytes_of (out_script o) = []) then None
  else tx ← BRTransactionAddOutput (fst st) (out_amount o) (out_script o); Some (tx, u64 (snd st + out_amount o)).

(** [newOutputs[outCount - 1].amount -= x] *)
Definition reduce_last (outs : list BRTxOutput) (x : Z) : list BRTxOutput :=
  match last outs with
  | Some o => removelast outs ++ [mkOutput (out_address o) (u64 (out_amount o - x)) (out_script o)]
  | None => outs
  end.

Section create.
Context `{AddressChain}.

(** The change output goes to the first unused internal address; BR_ADDRESS_NONE if there is none. *)
Definition add_change (moved : bool) (w : BRWallet) (transaction : BRTransaction) (change : Z) (rands : list Z)
    : option (BRWallet * option BRTransaction * list Z) :=
  r ← BRWalletUnusedAddrs moved w true 1 true;
  let '(w, addrs) := r in
  script ← address_script (default [] (head addrs));
  transaction ← BRTransactionAddOutput transaction change (Some script);
  r ← BRTransactionShuffleOutputs transaction rands;
  Some (w, Some (fst r), snd r).

(** One call; [recurse] is the recursive call with the same wallet, given the outputs of [newOutputs].  After it
    [balance], [amount] and [feeAmount] are 0, so that its result is returned. *)
Definition create_call (recurse : list BRTxOutput -> option (BRWallet * option BRTransaction * list Z))
    (moved : bool) (w : BRWallet) (outs : list BRTxOutput) (rands : list Z)
    : option (BRWallet * option BRTransaction * list Z) :=
  if bool_decide (outs = []) then None
  else
    st ← for_each add_output (BRTransactionNew, 0) outs;
    let '(transaction, amount) := st in
    let minAmount := BRWalletMinOutputAmount w in
    s ← select w amount minAmount transaction 0 (change_fee w transaction) (utxos (ledger w));
    match s with
    | TooLarge bal feeAmount =>
        if balance (ledger w) <? u64 (amount + _txFee (feePerKb w)
             (u64 (10 + len (utxos (ledger w)) * TX_INPUT_SIZE + (len outs + 1) * TX_OUTPUT_SIZE)))
        then Some (w, None, rands)
        else
          lastOut ← last outs;
          if u64 (u64 (u64 (amount + feeAmount) + minAmount) - bal) <? out_amount lastOut
          then recurse (reduce_last outs (u64 (u64 (amount + feeAmount) - bal)))
          else recurse (removelast outs)
    | Selected transaction bal feeAmount =>
        if bal <? u64 (amount + feeAmount) then Some (w, None, rands)
        else if minAmount <? u64 (bal - u64 (amount + feeAmount))
        then add_change moved w transaction (u64 (bal - u64 (amount + feeAmount))) rands
        else Some (w, Some transaction, rands)
    end.

Fixpoint create (fuel : nat) (moved : bool) (w : BRWallet) (outs : list BRTxOutput) (rands : list Z)
    : option (BRWallet * option BRTransaction * list Z) :=
  match fuel with
  | O => None
  | S fuel' => create_call (fun outs => create fuel' moved w outs rands) moved w outs rands
  end.

(** One call for each output and for each repetition of the last one; the recursion is not bounded (see
    [create_diverges]). *)
Definition BRWalletCreateTxForOutputs := create.

Definition BRWalletCreateTransaction (fuel : nat) (moved : bool) (w : BRWallet) (amount : Z) (addr : list Z) (rands : list Z)
    : option (BRWallet * option BRTransaction * list Z) :=
  if amount <=? 0 then None
  else
    valid ← BRAddressIsValid addr;
    if negb valid then None
    else
      o ← BRTxOutputSetAddress (mkOutput [] amount None) (Some addr);
      BRWalletCreateTxForOutputs fuel moved w [o] rands.

Definition dummyScript : list Z := [OP_DUP; OP_HASH160; 20] ++ replicate 20 0 ++ [OP_EQUALVERIFY; OP_CHECKSIG].

(** The wallet (whose internal chain may have grown), the fee and the random numbers left. *)
Definition BRWalletFeeForTxAmount (fuel : nat) (moved : bool) (w : BRWallet) (amount : Z) (rands : list Z)
    : option (BRWallet * Z * list Z) :=
  if amount <=? 0 then None
  else
    let maxAmount := BRWalletMaxOutputAmount w in
    o ← BRTxOutputSetScript (mkOutput [] (if amount <? maxAmount then amount else maxAmount) None) (Some dummyScript);
    r ← BRWalletCreateTxForOutputs fuel moved w [o] rands;
    let '(w, tx, rands) := r in
    Some (w, match tx with Some tx => BRWalletFeeForTx w tx | None => 0 end, rands).

(** The first unused external address; BR_ADDRESS_NONE if there is none. *)
Definition BRWalletReceiveAddress (moved : bool) (w : BRWallet) : option (BRWallet * list Z) :=
  r ← BRWalletUnusedAddrs moved w true 1 false; Some (fst r, default [] (head (snd r))).
End create.

(** ** Signing *)

(** The indexes, from the last, of the addresses of a chain equal to [addr]. *)
Fixpoint chain_matches (j : nat) (addr : list Z) (addrChain : list (list Z)) : list Z :=
  match j with
  | O => []
  | S j' =>
      (if BRAddressEq addr (default [] (addrChain !! j')) then [Z.of_nat j'] else []) ++ chain_matches j' addr addrChain
  end.

Definition input_indexes (tx : BRTransaction) (addrChain : list (list Z)) : list Z :=
  mjoin ((fun i => chain_matches (length addrChain) (in_address i) addrChain) <$> inputs tx).

Section sign.
Context {point sig rsig : Type} `{Secp256k1 point sig rsig}.

(** The index arrays have one entry per input; no seed is -1. *)
Definition BRWalletSignTransaction (w : BRWallet) (tx : BRTransaction) (forkId : Z) (seed : option (list Z))
    : option (BRTransaction * Z) :=
  let internalIdx := input_indexes tx (internalChain w) in
  let externalIdx := input_indexes tx (externalChain w) in
  if (inCount tx <? len internalIdx) || (inCount tx <? len externalIdx) then None
  else
    match seed with
    | None => Some (tx, -1)
    | Some seed =>
        internalKeys ← BRBIP32PrivKeyList seed SEQUENCE_INTERNAL_CHAIN internalIdx;
        externalKeys ← BRBIP32PrivKeyList seed SEQUENCE_EXTERNAL_CHAIN externalIdx;
        r ← BRTransactionSign tx forkId (internalKeys ++ externalKeys);
        Some (fst r, Z.b2z (snd r))
    end.
End sign.

(** ** Sizes *)

Lemma varint_size i : BRVarIntSize i = if i <? VAR_INT16_HEADER then 1 else if i <=? 0xffff then 3 else if i <=? 0xffffffff then 5 else 9.
Proof. unfold BRVarIntSize, varint_bytes. destruct (_ <? _); [done|]. destruct (_ <=? _); [done|]. now destruct (_ <=? _). Qed.

Lemma varint_size_mono a b : a <= b -> 1 <= BRVarIntSize a <= BRVarIntSize b.
Proof.
  intros Hab. rewrite !varint_size. unfold VAR_INT16_HEADER.
  destruct (Z.ltb_spec a 253), (Z.ltb_spec b 253), (Z.leb_spec a 0xffff), (Z.leb_spec b 0xffff),
    (Z.leb_spec a 0xffffffff), (Z.leb_spec b 0xffffffff); lia.
Qed.

Definition sumZ : list Z -> Z := foldr Z.add 0.

Lemma sumZ_cons x l : sumZ (x :: l) = x + sumZ l.
Proof. done. Qed.

Lemma sumZ_app l k : sumZ (l ++ k) = sumZ l + sumZ k.
Proof. induction l as [|x l IH]; [done|]. cbn. rewrite IH. lia. Qed.

Lemma sumZ_nonneg l : Forall (Z.le 0) l -> 0 <= sumZ l.
Proof. induction 1; cbn; lia. Qed.

Lemma foldl_size {A} (f : A -> Z) l : (forall a, a ∈ l -> 0 <= f a) -> forall s, 0 <= s ->
  s + sumZ (f <$> l) < 0x10000000000000000 -> foldl (fun size a => size_add size (f a)) s l = s + sumZ (f <$> l).
Proof.
  induction l as [|a l IH]; intros Hf s Hs Hb; cbn [foldl]; [cbn; lia|]. rewrite fmap_cons in *. cbn [sumZ foldr] in *.
  fold (sumZ (f <$> l)) in *. pose proof (Hf a (list_elem_of_here _ _)).
  assert (Hf' : forall x, x ∈ l -> 0 <= f x) by (intros; apply Hf; now right).
  assert (0 <= sumZ (f <$> l)) by (apply sumZ_nonneg, Forall_fmap, Forall_forall; exact Hf').
  unfold size_add at 2. rewrite u64_id by lia. rewrite IH; [lia|done|lia|lia].
Qed.

(** The size of a transaction with [n] unsigned inputs and the given outputs. *)
Definition plan_size (n : Z) (outs : list BRTxOutput) : Z :=
  8 + BRVarIntSize n + BRVarIntSize (len outs) + n * TX_INPUT_SIZE + sumZ (output_size <$> outs).

Lemma output_size_pos o : 9 <= output_size o.
Proof. unfold output_size. pose proof (varint_size_mono (len (bytes_of (out_script o))) (len (bytes_of (out_script o))) ltac:(lia)). lia. Qed.

Lemma plan_size_mono n m outs : 0 <= n <= m -> 0 < plan_size n outs <= plan_size m outs.
Proof.
  intros Hn. unfold plan_size, TX_INPUT_SIZE. pose proof (varint_size_mono n m ltac:(lia)).
  pose proof (varint_size_mono (len outs) (len outs) ltac:(lia)).
  assert (0 <= sumZ (output_size <$> outs)).
  { apply sumZ_nonneg, Forall_fmap, Forall_forall. intros o _. pose proof (output_size_pos o). cbn. lia. }
  lia.
Qed.

Lemma unsigned_size tx : Forall (fun i => in_signature i = None) (inputs tx) ->
  plan_size (inCount tx) (outputs tx) < 0x10000000000000000 -> BRTransactionSize tx = plan_size (inCount tx) (outputs tx).
Proof.
  intros Hu Hb. pose proof (plan_size_mono (inCount tx) (inCount tx) (outputs tx) ltac:(unfold inCount; lia)) as Hp.
  unfold BRTransactionSize, plan_size, outCount in *.
  assert (Ei : sumZ (input_size <$> inputs tx) = inCount tx * TX_INPUT_SIZE).
  { unfold inCount. clear Hb Hp. induction Hu as [|i l Hi Hl IH]; [done|]. rewrite fmap_cons. cbn [sumZ foldr length].
    fold (sumZ (input_size <$> l)). rewrite IH. unfold input_size. rewrite Hi. lia. }
  pose proof (varint_size_mono (inCount tx) (inCount tx) ltac:(lia)).
  pose proof (varint_size_mono (len (outputs tx)) (len (outputs tx)) ltac:(lia)).
  assert (0 <= sumZ (output_size <$> outputs tx)).
  { apply sumZ_nonneg, Forall_fmap, Forall_forall. intros o _. pose proof (output_size_pos o). cbn. lia. }
  rewrite (foldl_size input_size); [|intros a Ha; unfold input_size|lia|].
  - rewrite (foldl_size output_size); [lia|intros a _; pose proof (output_size_pos a); lia|rewrite Ei; unfold TX_INPUT_SIZE; assert (0 <= inCount tx) by (unfold inCount; lia); lia|lia].
  - rewrite Forall_forall in Hu. rewrite (Hu a Ha). done.
  - rewrite Ei. lia.
Qed.

(** ** Building the transaction *)

(** Outputs that pay the same amount to the same script. *)
Definition same_payment (o o' : BRTxOutput) : Prop := out_amount o' = out_amount o /\ out_script o' = out_script o.

Definition payments (outs : list BRTxOutput) : Z := sumZ (out_amount <$> outs).

(** The inputs spend the outputs [us], with their amounts and scripts, unsigned and final. *)
Definition spends_utxo (m : gmap Z BRTransaction) (u : BRUTXO) (i : BRTxInput) : Prop :=
  input_utxo i = u /\ in_signature i = None /\ in_sequence i = TXIN_SEQUENCE /\
  exists t o, utxo_output m u = Some (t, o) /\ in_amount i = out_amount o /\ in_script i = out_script o.

(** Outputs with a script, as the caller must give them. *)
Definition payment_ok (o : BRTxOutput) : Prop :=
  bytes_of (out_script o) <> [] /\ bytes_ok (bytes_of (out_script o)) /\ 0 <= out_amount o.

Lemma script_address s : bytes_ok s -> exists a, address_field BRAddressFromScriptPubKey s = Some a.
Proof. intros Hs. apply field_total; [done|]. intros p n s' Hs' Hp. now apply from_script_pub_key_total. Qed.

Lemma set_script_total o s : bytes_ok s ->
  exists o', BRTxOutputSetScript o (Some s) = Some o' /\ out_amount o' = out_amount o /\ out_script o' = Some s.
Proof. intros Hs. destruct (script_address s Hs) as [a E]. unfold BRTxOutputSetScript. rewrite E, bind_Some_l. eauto. Qed.

Lemma add_output_total tx amount s : bytes_ok s -> exists o, out_amount o = amount /\ out_script o = Some s /\
  BRTransactionAddOutput tx amount (Some s) =
    Some (mkTx (txHash tx) (version tx) (inputs tx) (outputs tx ++ [o]) (lockTime tx) (blockHeight tx) (timestamp tx)).
Proof.
  intros Hs. destruct (set_script_total (mkOutput [] amount None) s Hs) as (o & E & E1 & E2). exists o.
  split; [done|]. split; [done|]. unfold BRTransactionAddOutput. now rewrite E, bind_Some_l.
Qed.

Lemma add_outputs_total outs : Forall payment_ok outs -> forall tx a, 0 <= a -> a + payments outs < 0x10000000000000000 ->
  exists outs', for_each add_output (tx, a) outs =
    Some (mkTx (txHash tx) (version tx) (inputs tx) (outputs tx ++ outs') (lockTime tx) (blockHeight tx) (timestamp tx), a + payments outs) /\
    Forall2 same_payment outs outs'.
Proof.
  unfold payments. induction 1 as [|o outs (Hs & Hb & Ha) Ho IH]; intros tx a Hpos Hlt; cbn [for_each].
  - exists []. rewrite app_nil_r. cbn. rewrite Z.add_0_r. now destruct tx.
  - rewrite fmap_cons in *. cbn [sumZ foldr] in *. fold (sumZ (out_amount <$> outs)) in *.
    assert (0 <= sumZ (out_amount <$> outs)) by (apply sumZ_nonneg, Forall_fmap; eapply Forall_impl; [exact Ho|]; intros x Hx; apply Hx).
    destruct (out_script o) as [s|] eqn:Es; [|done]. cbn [bytes_of] in *.
    destruct (add_output_total tx (out_amount o) s Hb) as (o' & E1 & E2 & E).
    assert (Eo : add_output (tx, a) o = Some (mkTx (txHash tx) (version tx) (inputs tx) (outputs tx ++ [o']) (lockTime tx)
      (blockHeight tx) (timestamp tx), a + out_amount o)).
    { unfold add_output. cbn [fst snd]. rewrite Es. cbn [bytes_of]. rewrite bool_decide_eq_false_2 by done.
      now rewrite E, bind_Some_l, u64_id by lia. }
    rewrite Eo, bind_Some_l. destruct (IH (mkTx (txHash tx) (version tx) (inputs tx) (outputs tx ++ [o']) (lockTime tx)
      (blockHeight tx) (timestamp tx)) (a + out_amount o) ltac:(lia) ltac:(lia)) as (outs' & -> & H2).
    exists (o' :: outs'). split; [cbn; rewrite <- app_assoc, <- Z.add_assoc; done|]. constructor; [|done]. split; congruence.
Qed.

Lemma add_input_total m tx u t o : utxo_output m u = Some (t, o) -> txHash t = fst u -> txHash t <> 0 -> bytes_ok (bytes_of (out_script o)) ->
  exists i, spends_utxo m u i /\
    BRTransactionAddInput tx (txHash t) (snd u) (out_amount o) (out_script o) None TXIN_SEQUENCE =
      Some (mkTx (txHash tx) (version tx) (inputs tx ++ [i]) (outputs tx) (lockTime tx) (blockHeight tx) (timestamp tx)).
Proof.
  intros Hu Ht Hnz Hb. unfold BRTransactionAddInput, spends_utxo, input_utxo. change UINT256_ZERO with 0.
  rewrite (proj2 (Z.eqb_neq _ _) Hnz), bind_Some_l. rewrite Ht, Hu.
  rewrite (bool_decide_eq_false_2 (is_Some None)) by apply is_Some_None.
  destruct (out_script o) as [s|] eqn:Es; cbn [bytes_of] in Hb.
  - rewrite bool_decide_eq_true_2 by eauto. cbn [BRTxInputSetScript]. destruct (script_address s Hb) as [a ->].
    rewrite !bind_Some_l. eexists. split; [|done]. cbn. destruct u. do 3 (split; [done|]). exists t, o. done.
  - rewrite bool_decide_eq_false_2 by apply is_Some_None. rewrite !bind_Some_l. eexists. split; [|done]. cbn.
    destruct u. do 3 (split; [done|]). exists t, o. done.
Qed.

(** ** Coin selection *)

Lemma total_nonneg m us : (forall u, 0 <= utxo_value m u) -> 0 <= total m us.
Proof. intros Hm. unfold total. induction us as [|u us IH]; cbn; [lia|]. specialize (Hm u). lia. Qed.

Lemma same_payments outs outs' : Forall2 same_payment outs outs' ->
  payments outs' = payments outs /\ len outs' = len outs /\ forall n, plan_size n outs' = plan_size n outs.
Proof.
  intros H. assert (E : payments outs' = payments outs /\ length outs' = length outs /\ (output_size <$> outs') = (output_size <$> outs)).
  { unfold payments. induction H as [|o o' outs outs' [Ea Es] _ (I1 & I2 & I3)]; [done|]. rewrite !fmap_cons, !sumZ_cons, Ea, I1, I3.
    split; [done|]. split; [cbn; now rewrite I2|]. f_equal. unfold output_size. now rewrite Es. }
  destruct E as (E1 & E2 & E3). split; [done|]. split; [now rewrite E2|]. intros n. unfold plan_size. now rewrite E2, E3.
Qed.

Lemma fee_bound f s : 0 <= f < 2 ^ 40 -> 0 <= s <= TX_MAX_SIZE -> 0 <= _txFee f s < 2 ^ 58.
Proof.
  unfold TX_MAX_SIZE. intros Hf Hs. unfold _txFee, TX_FEE_PER_KB. change (2 ^ 40) with 0x10000000000 in Hf. change (2 ^ 58) with 0x400000000000000.
  assert (0 <= s * f < 0x200000000000000) by nia. rewrite (u64_id (s * 10000)), (u64_id (s * f)) by lia.
  rewrite (u64_id (s * f / 1000 + 99)) by zdiv_lia. rewrite u64_id by zdiv_lia. destruct (_ <? _); zdiv_lia.
Qed.

(** What the caller of the selection guarantees: payable outputs, amounts far below 2^64, and a
    transaction that stays below the size limit even if it spends every output. *)
Record plan_ok (w : BRWallet) (outs : list BRTxOutput) : Prop := {
  po_outs : Forall payment_ok outs;
  po_some : outs <> [];
  po_fee : 0 <= feePerKb w < 2 ^ 40;
  po_amount : payments outs < 2 ^ 62;
  po_total : total (allTx w) (utxos (ledger w)) < 2 ^ 62;
  po_fit : plan_size (len (utxos (ledger w))) outs + TX_OUTPUT_SIZE <= TX_MAX_SIZE;
  po_known h t o : allTx w !! h = Some t -> o ∈ outputs t -> bytes_ok (bytes_of (out_script o)) /\ 0 <= out_amount o;
}.

(** The fee the selection aims at with [n] inputs: the fee for a transaction with a change output, with
    the remaining balance of the wallet rounded off. *)
Definition fee_for (w : BRWallet) (outs : list BRTxOutput) (n : Z) : Z :=
  let fee := _txFee (feePerKb w) (plan_size n outs + TX_OUTPUT_SIZE) in
  if n =? 0 then fee else round_fee w (payments outs) fee.

Section select.
Context (w : BRWallet) (outs : list BRTxOutput) (Hp : plan_ok w outs).
Context (Hsum : balance (ledger w) = u64 (total (allTx w) (utxos (ledger w)))).
Notation m := (allTx w).
Notation us := (utxos (ledger w)).
Notation A := (payments outs).

Lemma values_nonneg u : 0 <= utxo_value m u.
Proof.
  unfold utxo_value, utxo_amount. destruct (m !! fst u) as [t|] eqn:Ht; [|done]. rewrite bind_Some_l.
  destruct (outputs t !! Z.to_nat (snd u)) as [o|] eqn:Eo; [|done]. apply (po_known w outs Hp (fst u) t o Ht).
  now apply list_elem_of_lookup_2 in Eo.
Qed.

Lemma amount_range : 0 <= A < 2 ^ 62.
Proof.
  split; [|apply Hp]. apply sumZ_nonneg, Forall_fmap. eapply Forall_impl; [apply (po_outs w outs Hp)|]. intros o Ho. apply Ho.
Qed.

Lemma total_prefix pre : pre `prefix_of` us -> 0 <= total m pre <= total m us.
Proof.
  intros [post ->]. rewrite total_app. pose proof (total_nonneg m pre values_nonneg). pose proof (total_nonneg m post values_nonneg). lia.
Qed.

Lemma balance_total : balance (ledger w) = total m us.
Proof.
  pose proof (total_prefix us ltac:(done)). pose proof (po_total w outs Hp).
  change (2 ^ 62) with 0x4000000000000000 in *. rewrite Hsum. apply u64_id. lia.
Qed.

Lemma fee_for_range n : 0 <= n <= len us ->
  let fee := _txFee (feePerKb w) (plan_size n outs + TX_OUTPUT_SIZE) in
  0 <= fee <= fee_for w outs n /\ fee_for w outs n <= fee + 99 /\ fee_for w outs n < 2 ^ 59.
Proof.
  intros Hn fee. pose proof (plan_size_mono n (len us) outs Hn). pose proof (po_fit w outs Hp).
  pose proof (fee_bound (feePerKb w) (plan_size n outs + TX_OUTPUT_SIZE) (po_fee w outs Hp) ltac:(unfold TX_OUTPUT_SIZE in *; lia)) as Hf.
  fold fee in Hf. change (2 ^ 58) with 0x400000000000000 in Hf. change (2 ^ 59) with 0x800000000000000. unfold fee_for. fold fee.
  destruct (n =? 0); [lia|]. pose proof amount_range as HA. pose proof (po_total w outs Hp) as HT.
  change (2 ^ 62) with 0x4000000000000000 in *. unfold round_fee. rewrite balance_total, (u64_id (A + fee)) by lia.
  destruct (Z.ltb_spec (A + fee) (total m us)); [|lia].
  rewrite (u64_id (total m us - (A + fee))) by lia. rewrite u64_id by zdiv_lia. zdiv_lia.
Qed.

Definition with_inputs (tx : BRTransaction) (ins : list BRTxInput) : BRTransaction :=
  mkTx (txHash tx) (version tx) ins (outputs tx) (lockTime tx) (blockHeight tx) (timestamp tx).

Context (tx0 : BRTransaction) (paid : list BRTxOutput) (Hpaid : Forall2 same_payment outs paid) (Hout : outputs tx0 = paid).

Lemma change_fee_inputs ins pre : Forall2 (spends_utxo m) pre ins -> (length pre <= length us)%nat ->
  size_add (BRTransactionSize (with_inputs tx0 ins)) TX_OUTPUT_SIZE = plan_size (len pre) outs + TX_OUTPUT_SIZE /\
  change_fee w (with_inputs tx0 ins) = _txFee (feePerKb w) (plan_size (len pre) outs + TX_OUTPUT_SIZE).
Proof.
  intros Hi Hl. pose proof (plan_size_mono (len pre) (len us) outs ltac:(lia)) as Hm.
  pose proof (po_fit w outs Hp) as Hfit. unfold TX_OUTPUT_SIZE, TX_MAX_SIZE in *.
  destruct (same_payments outs paid Hpaid) as (_ & _ & Eps).
  assert (Es : BRTransactionSize (with_inputs tx0 ins) = plan_size (len pre) outs).
  { rewrite unsigned_size; unfold inCount; cbn [inputs outputs with_inputs]; rewrite ?Hout, ?Eps.
    - now rewrite (Forall2_length _ _ _ Hi).
    - clear -Hi. induction Hi as [|u i pre ins (_ & Hn & _) _ IH]; constructor; done.
    - rewrite <- (Forall2_length _ _ _ Hi). lia. }
  assert (E : size_add (BRTransactionSize (with_inputs tx0 ins)) 34 = plan_size (len pre) outs + 34).
  { unfold size_add. rewrite Es, u64_id by lia. done. }
  split; [done|]. unfold change_fee, TX_OUTPUT_SIZE. now rewrite E.
Qed.

(** The outputs chosen are enough, with or without a change output. *)
Definition enough (pre : list BRUTXO) : Prop :=
  let need := A + fee_for w outs (len pre) in
  total m pre = need \/ need + BRWalletMinOutputAmount w <= total m pre.
Lemma min_amount_range : 0 < BRWalletMinOutputAmount w < 2 ^ 54.
Proof.
  pose proof (po_fee w outs Hp) as Hf. change (2 ^ 40) with 0x10000000000 in Hf. change (2 ^ 54) with 0x40000000000000.
  unfold BRWalletMinOutputAmount. change TX_MIN_OUTPUT_AMOUNT with 5460. change MIN_FEE_PER_KB with 52357.
  rewrite (u64_id (5460 * feePerKb w)), (u64_id (5460 * feePerKb w + 52357)), u64_id by lia.
  set (q := _ / 52357). assert (q < 0x40000000000000) by (unfold q; zdiv_lia). destruct (Z.ltb_spec 5460 q); lia.
Qed.

Context (Hus : forall u, u ∈ us -> own_utxo w u) (Hstore : forall h t, m !! h = Some t -> txHash t = h /\ txHash t <> 0).

Lemma utxo_known u : u ∈ us -> exists t o, utxo_output m u = Some (t, o) /\ (txHash t = fst u /\ txHash t <> 0) /\
  bytes_ok (bytes_of (out_script o)) /\ utxo_value m u = out_amount o.
Proof.
  intros Hu. destruct (Hus u Hu) as (t & o & Ht & _ & Ho & _). exists t, o. unfold utxo_output, utxo_value, utxo_amount.
  rewrite Ht, !bind_Some_l, Ho, bind_Some_l. split; [done|]. split; [now apply Hstore|]. split; [|done].
  apply (po_known w outs Hp (fst u) t o Ht). now apply list_elem_of_lookup_2 in Ho.
Qed.

Lemma enough_test pre : pre `prefix_of` us ->
  (total m pre =? u64 (A + fee_for w outs (len pre))) ||
  (u64 (u64 (A + fee_for w outs (len pre)) + BRWalletMinOutputAmount w) <=? total m pre) = true <-> enough pre.
Proof.
  intros Hpre. pose proof (prefix_length _ _ Hpre) as Hl. pose proof (fee_for_range (len pre) ltac:(lia)) as Hf.
  pose proof amount_range as HA. pose proof min_amount_range as Hmin. unfold enough. cbv zeta in Hf.
  change (2 ^ 59) with 0x800000000000000 in Hf. change (2 ^ 62) with 0x4000000000000000 in HA. change (2 ^ 54) with 0x40000000000000 in Hmin.
  rewrite (u64_id (A + _)), u64_id by lia. now rewrite orb_true_iff, Z.eqb_eq, Z.leb_le.
Qed.

Lemma select_spec post : forall pre ins, us = pre ++ post -> Forall2 (spends_utxo m) pre ins ->
  exists pre' ins', pre' `prefix_of` us /\ Forall2 (spends_utxo m) pre' ins' /\
    select w A (BRWalletMinOutputAmount w) (with_inputs tx0 ins) (total m pre) (fee_for w outs (len pre)) post =
      Some (Selected (with_inputs tx0 ins') (total m pre') (fee_for w outs (len pre'))) /\ (pre' = us \/ enough pre').
Proof.
  induction post as [|u post IH]; intros pre ins E Hi; cbn [select].
  { rewrite app_nil_r in E. subst. exists us, ins. split; [done|]. split; [done|]. split; [done|now left]. }
  assert (Hu : u ∈ us) by (rewrite E; set_solver).
  assert (Hpre : (pre ++ [u]) `prefix_of` us) by (exists post; now rewrite <- app_assoc).
  assert (El : len (pre ++ [u]) = len pre + 1) by (rewrite length_app; cbn; lia).
  destruct (utxo_known u Hu) as (t & o & Ho & [Ht Hnz] & Hb & Ev). rewrite Ho.
  destruct (add_input_total m (with_inputs tx0 ins) u t o Ho Ht Hnz Hb) as (i & Hsp & Ea). 
  change (BRTransactionAddInput (with_inputs tx0 ins) (txHash t) (snd u) (out_amount o) (out_script o) None TXIN_SEQUENCE =
    Some (with_inputs tx0 (ins ++ [i]))) in Ea. rewrite Ea, bind_Some_l. clear Ea.
  assert (Hi' : Forall2 (spends_utxo m) (pre ++ [u]) (ins ++ [i])) by (apply Forall2_app; [done|now constructor]).
  destruct (change_fee_inputs (ins ++ [i]) (pre ++ [u]) Hi' (prefix_length _ _ Hpre)) as [Esize Efee]. rewrite Esize, Efee.
  pose proof (plan_size_mono (len (pre ++ [u])) (len us) outs ltac:(apply prefix_length in Hpre; lia)).
  rewrite (proj2 (Z.ltb_ge TX_MAX_SIZE _)) by (pose proof (po_fit w outs Hp); lia).
  assert (Etot : u64 (total m pre + out_amount o) = total m (pre ++ [u])).
  { pose proof (total_prefix _ Hpre). pose proof (po_total w outs Hp). change (2 ^ 62) with 0x4000000000000000 in *.
    assert (E1 : total m (pre ++ [u]) = total m pre + out_amount o) by (rewrite total_app, total_cons, Ev; cbn; lia).
    rewrite E1 in *. apply u64_id. lia. }
  assert (Eround : round_fee w A (_txFee (feePerKb w) (plan_size (len (pre ++ [u])) outs + TX_OUTPUT_SIZE)) = fee_for w outs (len (pre ++ [u]))).
  { unfold fee_for. now rewrite (proj2 (Z.eqb_neq _ 0)) by lia. }
  rewrite Etot, Eround. pose proof (enough_test _ Hpre) as Htest. destruct (_ || _).
  - exists (pre ++ [u]), (ins ++ [i]). split; [done|]. split; [done|]. split; [done|]. right. now apply Htest.
  - apply IH; [now rewrite <- app_assoc|done].
Qed.
End select.

(** ** The fee of a created transaction *)

Lemma payments_app l k : payments (l ++ k) = payments l + payments k.
Proof. unfold payments. now rewrite fmap_app, sumZ_app. Qed.

Lemma payments_perm l k : l ≡ₚ k -> payments l = payments k.
Proof. unfold payments. induction 1 as [|x l k _ IH|x y l|l k j _ IH1 _ IH2]; rewrite ?fmap_cons, ?sumZ_cons; lia || (cbn; lia). Qed.

Lemma payments_cons o l : payments (o :: l) = out_amount o + payments l.
Proof. done. Qed.

Lemma fee_inputs_spec m pre ins : Forall2 (spends_utxo m) pre ins -> (forall u, 0 <= utxo_value m u) -> forall b, 0 <= b ->
  b + total m pre < 2 ^ 62 -> fee_inputs m b ins = b + total m pre.
Proof.
  change (2 ^ 62) with 0x4000000000000000. intros Hi Hv. induction Hi as [|u i pre ins (Eu & _ & _ & t & o & Ho & _) Hi IH]; intros b Hb Hlt;
    cbn [fee_inputs]; [cbn; lia|].
  pose proof (total_nonneg m pre Hv). pose proof (Hv u) as Hvu. rewrite total_cons in *.
  rewrite (proj2 (Z.eqb_neq b UINT64_MAX)) by (unfold UINT64_MAX; lia).
  assert (Es : spent_output m i = Some o /\ utxo_value m u = out_amount o).
  { unfold spent_output, utxo_value, utxo_amount. unfold utxo_output in Ho. rewrite <- Eu in *. cbn [fst snd input_utxo] in *.
    apply bind_Some in Ho as (t' & Ht & Ho). rewrite Ht, !bind_Some_l. apply bind_Some in Ho as (o' & Ho & [= <- <-]). now rewrite Ho. }
  destruct Es as [-> Ev]. rewrite Ev in *. rewrite u64_id by lia. rewrite IH; lia.
Qed.

Lemma fee_outputs_spec outs : Forall (fun o => 0 <= out_amount o) outs -> forall a, payments outs <= a < 2 ^ 62 ->
  fee_outputs a outs = a - payments outs.
Proof.
  change (2 ^ 62) with 0x4000000000000000. induction 1 as [|o outs Ho Hl IH]; intros a Ha; cbn [fee_outputs]; [cbn; lia|].
  rewrite payments_cons in *. assert (0 <= payments outs) by (apply sumZ_nonneg, Forall_fmap; exact Hl).
  rewrite (proj2 (Z.eqb_neq a UINT64_MAX)) by (unfold UINT64_MAX; lia). rewrite u64_id by lia. rewrite IH; lia.
Qed.

(** ** The change output *)

(** Enough random numbers, none of them rejected. *)
Definition rands_ok (n : Z) (rands : list Z) : Prop := n <= len rands /\ Forall (fun r => n <= r) rands /\ n < BR_RAND_MAX.

Lemma rand_accept r rands n ub : 0 < ub <= n -> n < BR_RAND_MAX -> n <= r -> BRRand (r :: rands) ub = Some (r mod ub, rands).
Proof.
  change BR_RAND_MAX with 0x7fffffff. intros Hu Hn Hr. unfold BRRand. change BR_RAND_MAX with 0x7fffffff.
  rewrite (proj2 (Z.eqb_neq ub 0)), (proj2 (Z.ltb_ge 0x7fffffff ub)) by lia. cbn [orb rand_loop].
  rewrite rand_bound by lia. pose proof (Z.mod_pos_bound 0x100000000 ub ltac:(lia)).
  now rewrite (proj2 (Z.ltb_ge r _)) by lia.
Qed.

Lemma shuffle_total k N : forall outs i rands, len outs <= N < BR_RAND_MAX -> 0 <= i -> (k <= length rands)%nat ->
  Forall (fun r => N <= r) rands -> is_Some (shuffle_loop k outs i rands).
Proof.
  change BR_RAND_MAX with 0x7fffffff. induction k as [|k IH]; intros outs i rands Hl Hi Hk Hr; cbn [shuffle_loop]; [eauto|].
  destruct (Z.ltb_spec (i + 1) (len outs)); [|eauto]. destruct rands as [|r rands]; [cbn in Hk; lia|].
  apply Forall_cons in Hr as [Hr Hrs]. rewrite (u32_id (len outs)) by lia. rewrite (u32_id (len outs - i)) by lia.
  rewrite (rand_accept r rands N) by (change BR_RAND_MAX with 0x7fffffff; lia). rewrite bind_Some_l.
  apply IH; [|rewrite u32_id by lia; lia|cbn in Hk; lia|done].
  destruct (negb _); [now rewrite length_swap|done].
Qed.

(** The addresses of the chains are those of public key hashes. *)
Definition pays_keys `{AddressChain} (mpk : BRMasterPubKey) : Prop := forall c i, exists h, hash20 h /\
  chain_address mpk c i = Some (Some (address_string BITCOIN_PUBKEY_ADDRESS h)).

(** So are those of [sequence_chain], as far as they can be derived. *)
Lemma sequence_pays_keys {point sig rsig : Type} `{Secp256k1Laws point sig rsig} mpk : master_ok mpk ->
  (forall c i, chain_key_address mpk c i <> Some None) -> pays_keys (H := sequence_chain) mpk.
Proof.
  intros Hm Hall c i. destruct (chain_key_address mpk c i) as [[a|]|] eqn:E; [|now destruct (Hall c i)|].
  - destruct (sequence_address mpk c i a Hm E) as [Hh ->]. eauto.
  - rewrite (chain_key_address_spec mpk c i) in E by apply Hm. discriminate.
Qed.

Lemma p2pkh_ok h : hash20 h -> bytes_ok (p2pkh h).
Proof.
  intros [Hb _]. unfold p2pkh. rewrite !Forall_app, !Forall_cons, !Forall_nil.
  unfold is_byte, OP_DUP, OP_HASH160, OP_EQUALVERIFY, OP_CHECKSIG. split_and!; done || lia.
Qed.

Lemma write_full m bs : length m = length bs -> write_result (Some m) (len bs) bs = Some (Some bs, len bs).
Proof.
  intros Hl. unfold write_result, mem_write. rewrite Hl, Z.leb_refl, (proj2 (Z.leb_le _ _)) by lia. cbn [andb].
  rewrite Z.leb_refl, bind_Some_l, drop_ge by (rewrite Hl; lia). cbn [Z.to_nat take app]. now rewrite app_nil_r.
Qed.

Lemma key_script h : hash20 h -> address_script (address_string BITCOIN_PUBKEY_ADDRESS h) = Some (p2pkh h).
Proof.
  intros Hh. pose proof (decode21_address BITCOIN_PUBKEY_ADDRESS h ltac:(unfold BITCOIN_PUBKEY_ADDRESS; lia) Hh) as Hd.
  assert (E : forall p n, BRAddressScriptPubKey p n (address_string BITCOIN_PUBKEY_ADDRESS h) = write_result p n (p2pkh h)).
  { intros p n. unfold BRAddressScriptPubKey. rewrite Hd, bind_Some_l. change (wd (BITCOIN_PUBKEY_ADDRESS :: h) 0) with BITCOIN_PUBKEY_ADDRESS.
    rewrite Z.eqb_refl. change (drop 1 (BITCOIN_PUBKEY_ADDRESS :: h)) with h. rewrite take_ge by (destruct Hh; lia). done. }
  unfold address_script. rewrite E. clear Hd.
  assert (Hl : length (p2pkh h) = 25%nat) by (unfold p2pkh; destruct Hh as [_ Hl]; rewrite !length_app, Hl; done).
  rewrite (eq_refl : write_result None 0 (p2pkh h) = Some (None, u64 (len (p2pkh h)))), bind_Some_l, u64_id by (rewrite Hl; lia).
  rewrite E, write_full by (rewrite length_replicate; lia). now rewrite bind_Some_l.
Qed.

(** The change output pays to an unused internal address of the wallet. *)
Definition pays_change (w' : BRWallet) (c : BRTxOutput) : Prop := exists h, hash20 h /\ out_script c = Some (p2pkh h) /\
  address_string BITCOIN_PUBKEY_ADDRESS h ∈ internalChain w' /\
  address_string BITCOIN_PUBKEY_ADDRESS h ∉ usedAddrs (ledger w').

Lemma add_change_ok rank `{AddressChain} moved w tx change rands : ChainLaws (masterPubKey w) -> pays_keys (masterPubKey w) ->
  wallet_ok rank w -> chain_room w 1 true -> rands_ok (outCount tx + 1) rands ->
  exists w' c tx' rest, add_change moved w tx change rands = Some (w', Some tx', rest) /\ wallet_ok rank w' /\
    allTx w' = allTx w /\ ledger w' = ledger w /\ inputs tx' = inputs tx /\ outputs tx' ≡ₚ outputs tx ++ [c] /\
    out_amount c = change /\ pays_change w' c.
Proof.
  intros Hlaws Hkeys Hok Hroom (Hn & Hr & Hmax).
  destruct (unused_addrs_ok true 1 true (ok_chains rank w (proj1 Hok)) ltac:(lia) Hroom) as (ch & i & E & Hch & Hpre & Hlast & Hend).
  cbv zeta in E, Hch. set (w' := set_chain w true ch _) in *. destruct (Hkeys (chain_id true) (len ch)) as (hx & _ & Ex).
  assert (Hi : i + 1 <= len ch) by (destruct Hend as [?|Hx]; [done|congruence]). clear Hend hx Ex.
  rewrite (proj2 (Z.leb_le _ _)) in E by done. cbn [andb] in E. destruct Hlast as (Hir & Hunused & _).
  destruct (lookup_lt_is_Some_2 ch (Z.to_nat i)) as [a Ha]; [lia|].
  assert (Eh : head (take (Z.to_nat 1) (drop (Z.to_nat i) ch)) = Some a).
  { rewrite head_lookup, lookup_take_lt, lookup_drop by lia. now rewrite Nat.add_0_r. }
  destruct (Hkeys SEQUENCE_INTERNAL_CHAIN (Z.of_nat (Z.to_nat i))) as (h & Hh & Eha).
  pose proof (ck_internal w' Hch (Z.to_nat i) a Ha) as Eca. cbn [masterPubKey w' set_chain] in Eca. rewrite Eha in Eca.
  apply (inj Some), (inj Some) in Eca. subst a.
  assert (Hb : bytes_ok (p2pkh h)) by now apply p2pkh_ok.
  destruct (add_output_total tx change (p2pkh h) Hb) as (c & Ec & Es & Eadd).
  assert (El : len (outputs tx ++ [c]) = outCount tx + 1) by (rewrite length_app; unfold outCount; cbn [length]; lia).
  destruct (shuffle_total (length (outputs tx ++ [c])) (outCount tx + 1) (outputs tx ++ [c]) 0 rands) as [[outs rest] Esh];
    [rewrite El; lia|done|lia|done|].
  exists w', c, (set_outputs (mkTx (txHash tx) (version tx) (inputs tx) (outputs tx ++ [c]) (lockTime tx) (blockHeight tx) (timestamp tx)) outs), rest.
  split.
  { unfold add_change. rewrite E, bind_Some_l, Eh. cbn [default]. change (id ?x) with x. rewrite key_script, bind_Some_l, Eadd, bind_Some_l by done.
    unfold BRTransactionShuffleOutputs. cbn [outputs]. rewrite Esh, !bind_Some_l. done. }
  split.
  { apply grow_ok; [done|done|]. rewrite (ck_all w (ok_chains rank w (proj1 Hok))). destruct Hpre as [ext ->].
    cbn. rewrite list_to_set_app_L. set_solver. }
  do 3 (split; [done|]). split; [exact (shuffle_loop_perm _ _ _ _ _ _ Esh)|]. split; [done|]. exists h. split; [done|]. split; [done|].
  split; [exact (list_elem_of_lookup_2 _ _ _ Ha)|]. cbn. apply (Hunused (Z.to_nat i)); [done|lia].
Qed.

(** ** The created transaction *)

(** [tx] spends the first outputs [pre] of the wallet and pays [outs] and the change; what is left is
    the fee, which is the one aimed at, plus at most an amount too small for a change output. *)
Record funded (w w' : BRWallet) (outs : list BRTxOutput) (pre : list BRUTXO) (change : option BRTxOutput) (tx : BRTransaction) : Prop := {
  fd_prefix : pre `prefix_of` utxos (ledger w);
  fd_inputs : Forall2 (spends_utxo (allTx w)) pre (inputs tx);
  fd_outputs : exists paid, Forall2 same_payment outs paid /\ outputs tx ≡ₚ paid ++ option_list change;
  fd_change c : change = Some c -> BRWalletMinOutputAmount w < out_amount c /\ pays_change w' c;
  fd_fee : total (allTx w) pre = payments (outputs tx) + BRWalletFeeForTx w' tx;
  fd_fee_range : fee_for w outs (len pre) <= BRWalletFeeForTx w' tx <=
    fee_for w outs (len pre) + (if change then 0 else BRWalletMinOutputAmount w);
}.

Section created.
Context (rank : Z -> nat) `{AddressChain} (w : BRWallet) (outs : list BRTxOutput).
Context (Hok : wallet_ok rank w) (Hp : plan_ok w outs).
Notation m := (allTx w).
Notation us := (utxos (ledger w)).
Notation A := (payments outs).

Lemma plan_wallet : (forall u, u ∈ us -> own_utxo w u) /\ (forall h t, m !! h = Some t -> txHash t = h /\ txHash t <> 0) /\
  balance (ledger w) = u64 (total m us).
Proof.
  destruct Hok as [Hc Hl]. split; [|split]; [intros u Hu; now apply (lk_utxos w Hl)|intros h t Ht; destruct (ok_store rank w Hc h t Ht) as [Eh Hk]; split; [done|apply (tk_hash_nonzero rank t Hk)]|apply Hl].
Qed.

(** The first part of [create]: the outputs are added and the inputs selected. *)
Lemma selection : exists tx0 paid pre ins, for_each add_output (BRTransactionNew, 0) outs = Some (tx0, A) /\
  Forall2 same_payment outs paid /\ outputs tx0 = paid /\ pre `prefix_of` us /\ Forall2 (spends_utxo m) pre ins /\
  select w A (BRWalletMinOutputAmount w) tx0 0 (change_fee w tx0) us =
    Some (Selected (with_inputs tx0 ins) (total m pre) (fee_for w outs (len pre))) /\ (pre = us \/ enough w outs pre).
Proof.
  destruct plan_wallet as (Hus & Hst & Hsum). pose proof (po_amount w outs Hp) as HA. change (2 ^ 62) with 0x4000000000000000 in HA.
  destruct (add_outputs_total outs (po_outs w outs Hp) BRTransactionNew 0) as (paid & E & Hpaid); [lia|lia|].
  set (tx0 := mkTx _ _ _ _ _ _ _) in E. rewrite Z.add_0_l in E. exists tx0, paid.
  destruct (select_spec w outs Hp Hsum tx0 paid Hpaid eq_refl Hus Hst us [] [] eq_refl ltac:(constructor)) as (pre & ins & Hpre & Hi & Es & Hen).
  exists pre, ins. do 5 (split; [done|]). split; [|done]. rewrite <- Es.
  destruct (change_fee_inputs w outs Hp tx0 paid Hpaid eq_refl [] [] ltac:(constructor)) as [_ Ef]; [cbn; lia|].
  change (with_inputs tx0 []) with tx0 in *. rewrite Ef. done.
Qed.

Lemma paid_outs paid : Forall2 same_payment outs paid -> Forall (fun o => 0 <= out_amount o) paid.
Proof.
  pose proof (po_outs w outs Hp) as Ho. revert paid. clear -Ho. induction Ho as [|o outs (_ & _ & Ha) _ IH]; intros paid Hf; inversion Hf as [|? o' ? l [Ea _] Hl]; subst; constructor; [lia|auto].
Qed.

(** The fee the wallet reports for the transaction. *)
Lemma fee_reported w' pre tx : allTx w' = m -> pre `prefix_of` us -> Forall2 (spends_utxo m) pre (inputs tx) ->
  Forall (fun o => 0 <= out_amount o) (outputs tx) -> payments (outputs tx) <= total m pre ->
  BRWalletFeeForTx w' tx = total m pre - payments (outputs tx).
Proof.
  intros Et Hpre Hi Ho Hle. pose proof (po_total w outs Hp) as HT. pose proof (total_prefix w outs Hp pre Hpre) as Hr.
  unfold BRWalletFeeForTx. rewrite Et. rewrite (fee_inputs_spec m pre); [|done|apply (values_nonneg w outs Hp)|lia|lia].
  rewrite fee_outputs_spec; [lia|done|lia].
Qed.

Lemma create_ok fuel moved rands : ChainLaws (masterPubKey w) -> pays_keys (masterPubKey w) -> chain_room w 1 true ->
  rands_ok (len outs + 1) rands ->
  exists w' r rest, create (S fuel) moved w outs rands = Some (w', r, rest) /\ wallet_ok rank w' /\
    allTx w' = allTx w /\ ledger w' = ledger w /\
    match r with
    | None => total m us < A + fee_for w outs (len us)
    | Some tx => exists pre change, funded w w' outs pre change tx
    end.
Proof.
  intros Hlaws Hkeys Hroom Hrands. destruct selection as (tx0 & paid & pre & ins & Eo & Hpaid & Ept & Hpre & Hi & Es & Hen).
  destruct plan_wallet as (Hus & Hst & Hsum). pose proof (prefix_length _ _ Hpre) as Hl.
  pose proof (fee_for_range w outs Hp Hsum (len pre) ltac:(lia)) as Hf. cbv zeta in Hf.
  pose proof (amount_range w outs Hp) as HA. pose proof (min_amount_range w outs Hp) as Hmin.
  pose proof (total_prefix w outs Hp pre Hpre) as HT. pose proof (po_total w outs Hp) as HT2. pose proof (paid_outs paid Hpaid) as Hpos.
  destruct (same_payments outs paid Hpaid) as (Epay & Elen & _).
  change (2 ^ 59) with 0x800000000000000 in Hf. change (2 ^ 62) with 0x4000000000000000 in *. change (2 ^ 54) with 0x40000000000000 in Hmin.
  cbn [create]. unfold create_call. rewrite bool_decide_eq_false_2 by apply (po_some w outs Hp). rewrite Eo, bind_Some_l, Es, bind_Some_l.
  set (need := A + fee_for w outs (len pre)) in *. rewrite (u64_id need) by (unfold need; lia).
  destruct (Z.ltb_spec (total m pre) need) as [Hlt|Hge].
  { exists w, None, rands. do 4 (split; [done|]). destruct Hen as [->|[He|He]]; [exact Hlt|unfold need in *; lia..]. }
  rewrite (u64_id (total m pre - need)) by (unfold need in *; lia).
  destruct (Z.ltb_spec (BRWalletMinOutputAmount w) (total m pre - need)) as [Hch|Hno].
  - destruct (add_change_ok rank moved w (with_inputs tx0 ins) (total m pre - need) rands Hlaws Hkeys Hok Hroom) as
      (w' & c & tx' & rest & E & Hok' & Et & El & Ei & Eout & Ec & Hc).
    { unfold outCount. cbn [outputs with_inputs]. rewrite Ept, Elen. exact Hrands. }
    cbn [outputs with_inputs inputs] in *. rewrite Ept in Eout.
    assert (Epo : payments (outputs tx') = A + (total m pre - need)).
    { rewrite (payments_perm _ _ Eout), payments_app, Epay, payments_cons, Ec. cbn. lia. }
    assert (Efee : BRWalletFeeForTx w' tx' = fee_for w outs (len pre)).
    { rewrite (fee_reported w' pre); [rewrite Epo; unfold need; lia|done|done|now rewrite Ei| |rewrite Epo; unfold need in *; lia].
      rewrite Eout. apply Forall_app. split; [done|]. constructor; [lia|constructor]. }
    exists w', (Some tx'), rest. split; [exact E|]. do 3 (split; [done|]). exists pre, (Some c).
    split; [done|now rewrite Ei|exists paid; split; [done|exact Eout]| |rewrite Efee, Epo; unfold need; lia|rewrite Efee; lia].
    intros c' [= <-]. split; [lia|exact Hc].
  - assert (Efee : BRWalletFeeForTx w (with_inputs tx0 ins) = total m pre - A).
    { rewrite (fee_reported w pre); cbn [outputs with_inputs inputs]; rewrite ?Ept, ?Epay; try done. unfold need in *. lia. }
    exists w, (Some (with_inputs tx0 ins)), rands. do 4 (split; [done|]). exists pre, None.
    split; [done|done|exists paid; split; [done|cbn; rewrite app_nil_r, Ept; done]|done| |].
    + rewrite Efee. cbn [outputs with_inputs]. rewrite Ept, Epay. lia.
    + rewrite Efee. unfold need in *. lia.
Qed.
End created.

(** ** A selection that never ends

    Two confirmed outputs of 10 and 10.0000005 coins, and a payment of 15 coins to a script that leaves
    room for one input only. *)
Definition ex_stuck : BRWallet :=
  let w := mkWallet DEFAULT_FEE_PER_KB 100 [30; 31]
    (ex_store [ex_tx 30 [ex_input 12 0 UINT32_MAX] [ex_out [1; 1] 1000000000] 10;
               ex_tx 31 [ex_input 13 0 UINT32_MAX] [ex_out [0; 1] 1000000050] 10])
    BR_MASTER_PUBKEY_NONE [ [1; 1] ] [ [0; 1] ] {[ [1; 1]; [0; 1] ]} ledger0 in
  set_ledger w (default ledger0 (ledger <$> _BRWalletUpdateBalance w 0)).

Definition ex_big (amount : Z) : BRTxOutput := mkOutput [] amount (Some (replicate (Z.to_nat 99700) 1)).

Lemma ex_big_ok amount : 0 <= amount -> payment_ok (ex_big amount).
Proof.
  intros Ha. unfold payment_ok, ex_big. cbn [out_script out_amount bytes_of]. split; [|split; [|done]].
  - intros E. apply (f_equal length) in E. rewrite length_replicate in E. cbn [length] in E. lia.
  - apply Forall_replicate. unfold is_byte. lia.
Qed.

(** What one call computes for a payment of [amount]: the outcome of the selection, and the amount the
    payment is reduced to. *)
Definition stuck_step (amount : Z) : option Z :=
  st ← for_each add_output (BRTransactionNew, 0) [ex_big amount];
  let '(transaction, total) := st in
  s ← select ex_stuck total (BRWalletMinOutputAmount ex_stuck) transaction 0 (change_fee ex_stuck transaction) (utxos (ledger ex_stuck));
  match s with
  | TooLarge bal fee =>
      if balance (ledger ex_stuck) <? u64 (total + _txFee (feePerKb ex_stuck)
           (u64 (10 + len (utxos (ledger ex_stuck)) * TX_INPUT_SIZE + (1 + 1) * TX_OUTPUT_SIZE)))
      then None
      else if u64 (u64 (u64 (total + fee) + BRWalletMinOutputAmount ex_stuck) - bal) <? amount
      then Some (u64 (amount - u64 (u64 (total + fee) - bal))) else None
  | Selected _ _ _ => None
  end.

Lemma stuck_call `{AddressChain} recurse moved amount amount' rands : stuck_step amount = Some amount' ->
  create_call recurse moved ex_stuck [ex_big amount] rands = recurse [ex_big amount'].
Proof.
  unfold stuck_step. intros E. unfold create_call. rewrite bool_decide_eq_false_2 by done.
  apply bind_Some in E as ([tx total] & E1 & E). rewrite E1, bind_Some_l. apply bind_Some in E as (s & E2 & E).
  rewrite E2, bind_Some_l. destruct s as [|bal fee]; [done|]. change (len [ex_big amount]) with 1.
  destruct (balance (ledger ex_stuck) <? _); [done|]. change (last [ex_big amount]) with (Some (ex_big amount)).
  rewrite bind_Some_l. change (out_amount (ex_big amount)) with amount. destruct (_ <? amount); [|done].
  apply (inj Some) in E. now rewrite <- E.
Qed.

Lemma ex_stuck_ok : @wallet_ok Z.to_nat ex_chain ex_stuck.
Proof.
  set (w := set_ledger ex_stuck ledger0). assert (Hc : @core_ok Z.to_nat ex_chain w).
  { split.
    - intros h t [Ht <-]%ex_store_elem. split; [done|]. each_element Ht; example_tx.
    - exact (bool_decide_eq_true_1 (NoDup [30; 31]) eq_refl).
    - intros h Hh. each_element Hh; eexists; (split; [vm_compute; reflexivity|vm_compute; reflexivity]).
    - repeat constructor; vm_compute; discriminate.
    - exact (@chains_same ex_chain ex_wallet w eq_refl eq_refl eq_refl eq_refl ex_chains). }
  destruct (@update_balance_core Z.to_nat ex_chain w 0 Hc) as (l & E & Hok & _).
  change ex_stuck with (set_ledger w (default ledger0 (ledger <$> _BRWalletUpdateBalance w 0))). rewrite E. exact Hok.
Qed.

(** *** An example with change

    A chain of pay-to-pubkey-hash addresses: the hash holds the chain and the index. *)
Definition key_hash (c i : Z) : list Z := UInt32SetLE c ++ UInt32SetLE i ++ replicate 12 0.
Definition key_chain : AddressChain := fun _ c i => Some (Some (address_string BITCOIN_PUBKEY_ADDRESS (key_hash c i))).

Lemma key_hash_ok c i : hash20 (key_hash c i).
Proof.
  split; [|reflexivity]. unfold key_hash. rewrite !UInt32SetLE_spec, !Forall_app. split; [apply le_bytes_ok|]. split; [apply le_bytes_ok|].
  repeat constructor; unfold is_byte; lia.
Qed.

Lemma key_address_inj h h' : hash20 h -> hash20 h' ->
  address_string BITCOIN_PUBKEY_ADDRESS h = address_string BITCOIN_PUBKEY_ADDRESS h' -> h = h'.
Proof.
  intros Hh Hh' E. pose proof (decode21_address BITCOIN_PUBKEY_ADDRESS h ltac:(unfold BITCOIN_PUBKEY_ADDRESS; lia) Hh) as D.
  rewrite E, decode21_address in D by (done || (unfold BITCOIN_PUBKEY_ADDRESS; lia)). congruence.
Qed.

Lemma key_hash_inj c i j : 0 <= i < 0x100000000 -> 0 <= j < 0x100000000 -> key_hash c i = key_hash c j -> i = j.
Proof.
  intros Hi Hj E. unfold key_hash in E. apply app_inj_1 in E as [_ E]; [|done]. apply app_inj_1 in E as [E _]; [|done].
  rewrite <- (UInt32Get_Set i), <- (UInt32Get_Set j), E; done.
Qed.

Lemma key_chain_laws mpk : @ChainLaws key_chain mpk.
Proof.
  split; [intros c i; eexists; reflexivity| |].
  - intros c i j a Hi Hj Ea Eb. apply (inj Some), (inj Some) in Ea, Eb. subst a.
    apply key_address_inj in Eb; [|apply key_hash_ok..]. now apply (key_hash_inj c).
  - intros c i a Ea En. apply (inj Some), (inj Some) in Ea. subst a.
    pose proof (decode21_address BITCOIN_PUBKEY_ADDRESS (key_hash c i) ltac:(unfold BITCOIN_PUBKEY_ADDRESS; lia) (key_hash_ok c i)) as D.
    rewrite En in D. discriminate D.
Qed.

Lemma key_chain_pays mpk : @pays_keys key_chain mpk.
Proof. intros c i. exists (key_hash c i). split; [apply key_hash_ok|reflexivity]. Qed.

Definition ex_address : list Z := address_string BITCOIN_PUBKEY_ADDRESS (key_hash SEQUENCE_INTERNAL_CHAIN 0).

Definition ex_rich : BRWallet :=
  let w := mkWallet DEFAULT_FEE_PER_KB 100 [40] (ex_store [ex_tx 40 [ex_input 12 0 UINT32_MAX] [ex_out ex_address 1000000] 10])
    BR_MASTER_PUBKEY_NONE [ex_address] [] {[ ex_address ]} ledger0 in
  set_ledger w (default ledger0 (ledger <$> _BRWalletUpdateBalance w 0)).

Definition ex_payment : BRTxOutput := mkOutput [] 300000 (Some (p2pkh (replicate 20 7))).

Lemma ex_rich_chains l : @chains_ok key_chain (set_ledger ex_rich l).
Proof.
  split.
  - intros k a Hk. destruct k as [|k]; [|discriminate Hk]. apply (inj Some) in Hk. subst a. reflexivity.
  - intros k a Hk. destruct k; discriminate Hk.
  - change ({[ ex_address ]} =@{gset (list Z)} list_to_set [ex_address] ∪ list_to_set []). generalize ex_address. set_solver.
Qed.

Lemma ex_rich_ok : @wallet_ok Z.to_nat key_chain ex_rich.
Proof.
  set (w := set_ledger ex_rich ledger0). assert (Hc : @core_ok Z.to_nat key_chain w).
  { split.
    - intros h t [Ht <-]%ex_store_elem. split; [done|]. each_element Ht; example_tx.
    - exact (bool_decide_eq_true_1 (NoDup [40]) eq_refl).
    - intros h Hh. each_element Hh; eexists; (split; [vm_compute; reflexivity|vm_compute; reflexivity]).
    - repeat constructor.
    - apply ex_rich_chains. }
  destruct (@update_balance_core Z.to_nat key_chain w 0 Hc) as (l & E & Hok & _).
  change ex_rich with (set_ledger w (default ledger0 (ledger <$> _BRWalletUpdateBalance w 0))). rewrite E. exact Hok.
Qed.

Lemma ex_rich_plan : plan_ok ex_rich [ex_payment].
Proof.
  split; [|done|vm_compute; split; congruence|vm_compute; reflexivity|vm_compute; reflexivity|vm_compute; congruence|].
  - apply Forall_singleton. split; [done|]. split; [|done]. apply p2pkh_ok. split; [|done]. apply Forall_replicate. unfold is_byte. lia.
  - intros h t o [Ht <-]%ex_store_elem Ho. each_element Ht; each_element Ho; (split; [apply Forall_nil_2|done]).
Qed.

(** ** Properties *)



