(* ===== verification/PeerManager.v ===== *)
(** * PeerManager: the chain of blocks and the peers (BRPeerManager.c)

    The state and the handlers of the peer manager.  Blocks are objects on a heap: [blocks], [orphans]
    and [checkpoints] hold pointers, under the key each table hashes and compares by (the block hash, the
    hash of the previous block, the height; SetTable proves that BRSet refines such a map), and reading
    a block that was freed makes an operation return [None], as does a failed assertion.  Peers are
    pointers into [peerStore].  What a handler sends to a peer, what it asks of the socket layer and the
    callbacks it makes are recorded in order in [out].  The time and the outcome of address lookups,
    random draws and [realloc] are inputs; every handler is one atomic step (it runs under the lock, which
    is not modelled).  Doubles are the binary64 numbers of [SpecFloat]. *)
From Stdlib Require Import String.
From stdpp Require Import base numbers list gmap sets.
From Stdlib Require Import ZArith Lia Floats.SpecFloat.
From S2P Require Import Prelude CMem Int Address Transaction MerkleBlock Bloom Sequence Wallet WalletOps.
Local Open Scope Z_scope.

(** ** Doubles *)

Notation double := spec_float.

(** A decimal literal [n / d] is the double nearest to it. *)
Definition of_Z (n : Z) : double := binary_normalize 53 1024 n 0 false.
Definition literal (n d : Z) : double := SFdiv 53 1024 (of_Z n) (of_Z d).
Definition dmul : double -> double -> double := SFmul 53 1024.
Definition ddiv : double -> double -> double := SFdiv 53 1024.
Definition dadd : double -> double -> double := SFadd 53 1024.
Definition dsub : double -> double -> double := SFsub 53 1024.

Definition BLOOM_DEFAULT_FALSEPOSITIVE_RATE : double := literal 5 10000.
Definition BLOOM_REDUCED_FALSEPOSITIVE_RATE : double := literal 5 100000.

(** ** Constants *)

Definition PROTOCOL_TIMEOUT : Z := 20.
Definition MAX_CONNECT_FAILURES : Z := 20.
Definition PEER_MAX_CONNECTIONS : Z := 3.
Definition PEER_FLAG_SYNCED : Z := 0x01.
Definition PEER_FLAG_NEEDSUPDATE : Z := 0x02.
Definition SERVICES_NODE_NETWORK : Z := 0x01.
Definition SERVICES_NODE_BLOOM : Z := 0x04.
Definition SERVICES_NODE_BCASH : Z := 0x20.
Definition BLOCK_DIFFICULTY_INTERVAL : Z := 2016.
Definition DGW_BLOCK_DIFFICULTY_INTERVAL : Z := 1.
Definition WEEK : Z := 7 * 24 * 60 * 60.
Definition ENOTCONN : Z := 57.
Definition EPROTO : Z := 100.
Definition ETIMEDOUT : Z := 60.
Definition ENETUNREACH : Z := 51.

(** ** Checkpoints *)

Record Checkpoint := mkCheckpoint { cp_height : Z; cp_hash : list Z; cp_timestamp : Z; cp_target : Z }.

(** The table of the [BITCOIN_TESTNET] build; the one of the main network, to which the other constants belong, does
    not parse as C.  The table is only used in examples: the theorems are about any table of checkpoints. *)
Definition checkpoint_array_testnet : list Checkpoint :=
  [mkCheckpoint 0 (chars "000000055c6b201ac99ed634953f92bd52239f5b26e090ce3caab6ec81bec921"%string) 1517350340 0x1e00ffff;
   mkCheckpoint 247968 (chars "00000304caec54e449453cf020cebeb7e767971fae73a2db286186ef42137e2b"%string) 1529405484 0x1e035229].

Definition checkpoint_hash (c : Checkpoint) : Z := UInt256Reverse (u256_hex_decode (cp_hash c)).

(** ** Peers *)

Record BRPeer := mkPeer { address : Z; port : Z; services : Z; peer_timestamp : Z; peer_flags : Z }.

Definition BRPeerEq (peer otherPeer : BRPeer) : bool :=
  UInt128Eq (address peer) (address otherPeer) && (port peer =? port otherPeer).

(** The products are taken at 32 bits; [address.u32[3]]. *)
Definition BRPeerHash (peer : BRPeer) : Z :=
  u32 (Z.lxor (u32 (Z.lxor 0x811C9dc5 (wd (le_digits B32 4 (address peer)) 3) * 0x01000193)) (port peer) * 0x01000193).

Inductive BRPeerStatus := BRPeerStatusDisconnected | BRPeerStatusConnecting | BRPeerStatusConnected.

#[export] Instance status_eq_dec : EqDecision BRPeerStatus.
Proof. solve_decision. Defined.

(** A peer object, with the fields of its context that the accessors of BRPeer.c return. *)
Record PeerContext := mkContext {
  peer : BRPeer;
  status : BRPeerStatus;
  peerVersion : Z;
  lastblock : Z;
  pingTime : double;
  peerFee : Z;
}.

(** [_peerTimestampCompare] *)
Definition _peerTimestampCompare (p other : BRPeer) : Z :=
  if peer_timestamp p <? peer_timestamp other then 1
  else if peer_timestamp other <? peer_timestamp p then -1 else 0.

(** *** The lists of peers that have a transaction *)

Notation BRTxPeerList := (list (Z * list BRPeer)).

(** The entry the loops stop at: they start from the end of the array. *)
Fixpoint peer_entry (list : BRTxPeerList) (txHash : Z) : option (nat * List.list BRPeer) :=
  match list with
  | [] => None
  | (h, peers) :: list' =>
      match peer_entry list' txHash with
      | Some (i, ps) => Some (S i, ps)
      | None => if UInt256Eq h txHash then Some (O, peers) else None
      end
  end.

Definition _BRTxPeerListHasPeer (list : BRTxPeerList) (txHash : Z) (p : BRPeer) : bool :=
  match peer_entry list txHash with
  | Some (_, peers) => existsb (fun q => BRPeerEq q p) peers
  | None => false
  end.

Definition _BRTxPeerListCount (list : BRTxPeerList) (txHash : Z) : Z :=
  match peer_entry list txHash with Some (_, peers) => len peers | None => 0 end.

Definition _BRTxPeerListAddPeer (list : BRTxPeerList) (txHash : Z) (p : BRPeer) : BRTxPeerList * Z :=
  match peer_entry list txHash with
  | Some (i, peers) =>
      if existsb (fun q => BRPeerEq q p) peers then (list, len peers)
      else (<[i := (default 0 (fst <$> list !! i), peers ++ [p])]> list, len peers + 1)
  | None => (list ++ [(txHash, [p])], 1)
  end.

(** The last equal peer is removed. *)
Fixpoint rm_last_peer (p : BRPeer) (peers : list BRPeer) : option (list BRPeer) :=
  match peers with
  | [] => None
  | q :: peers' =>
      match rm_last_peer p peers' with
      | Some r => Some (q :: r)
      | None => if BRPeerEq q p then Some peers' else None
      end
  end.

Definition _BRTxPeerListRemovePeer (list : BRTxPeerList) (txHash : Z) (p : BRPeer) : BRTxPeerList * bool :=
  match peer_entry list txHash with
  | Some (i, peers) =>
      match rm_last_peer p peers with
      | Some r => (<[i := (default 0 (fst <$> list !! i), r)]> list, true)
      | None => (list, false)
      end
  | None => (list, false)
  end.

(** ** The state *)

(** A [BRMerkleBlock] pointer is a [nat]; a [Block] is a pointer with the object it points to. *)
Notation Block := (nat * BRMerkleBlock)%type.

(** [pastCount] is the static variable of [BRMerkleBlockVerifyDifficulty]. *)
Record Chain := mkChain {
  heap : gmap nat BRMerkleBlock;
  blocks : gmap Z nat;
  orphans : gmap Z nat;
  checkpoints : gmap Z nat;
  lastBlock : option nat;
  lastOrphan : option nat;
  estimatedHeight : Z;
  pastCount : Z;
}.

Definition set_heap (h : gmap nat BRMerkleBlock) (c : Chain) : Chain :=
  mkChain h (blocks c) (orphans c) (checkpoints c) (lastBlock c) (lastOrphan c) (estimatedHeight c) (pastCount c).
Definition set_blocks (b : gmap Z nat) (c : Chain) : Chain :=
  mkChain (heap c) b (orphans c) (checkpoints c) (lastBlock c) (lastOrphan c) (estimatedHeight c) (pastCount c).
Definition set_orphans (o : gmap Z nat) (c : Chain) : Chain :=
  mkChain (heap c) (blocks c) o (checkpoints c) (lastBlock c) (lastOrphan c) (estimatedHeight c) (pastCount c).
Definition set_checkpoints (k : gmap Z nat) (c : Chain) : Chain :=
  mkChain (heap c) (blocks c) (orphans c) k (lastBlock c) (lastOrphan c) (estimatedHeight c) (pastCount c).
Definition set_lastBlock (r : option nat) (c : Chain) : Chain :=
  mkChain (heap c) (blocks c) (orphans c) (checkpoints c) r (lastOrphan c) (estimatedHeight c) (pastCount c).
Definition set_lastOrphan (r : option nat) (c : Chain) : Chain :=
  mkChain (heap c) (blocks c) (orphans c) (checkpoints c) (lastBlock c) r (estimatedHeight c) (pastCount c).
Definition set_estimated (h : Z) (c : Chain) : Chain :=
  mkChain (heap c) (blocks c) (orphans c) (checkpoints c) (lastBlock c) (lastOrphan c) h (pastCount c).
Definition set_pastCount (n : Z) (c : Chain) : Chain :=
  mkChain (heap c) (blocks c) (orphans c) (checkpoints c) (lastBlock c) (lastOrphan c) (estimatedHeight c) n.

(** Reading through a pointer that may be NULL. *)
Definition block_ref (c : Chain) (r : option nat) : option (option Block) :=
  match r with
  | None => Some None
  | Some r => b ← heap c !! r; Some (Some (r, b))
  end.

(** [BRSetGet(manager->blocks, &hash)] and [BRSetGet(manager->orphans, &orphan)]: the item found is read
    to compare it. *)
Definition block_get (c : Chain) (hash : Z) : option (option Block) := block_ref c (blocks c !! hash).
Definition orphan_get (c : Chain) (prev : Z) : option (option Block) := block_ref c (orphans c !! prev).

(** [manager->lastBlock], which is always read through. *)
Definition last_block (c : Chain) : option Block := r ← lastBlock c; b ← heap c !! r; Some (r, b).

Definition free_block (r : nat) (c : Chain) : option Chain := _ ← heap c !! r; Some (set_heap (delete r (heap c)) c).

(** [BRSetAdd] returns the item replaced. *)
Definition add_block (b : Block) (c : Chain) : option (option Block * Chain) :=
  old ← block_get c (blockHash (snd b)); Some (old, set_blocks (<[blockHash (snd b) := fst b]> (blocks c)) c).
Definition add_orphan (b : Block) (c : Chain) : option Chain :=
  _ ← orphan_get c (prevBlock (snd b)); Some (set_orphans (<[prevBlock (snd b) := fst b]> (orphans c)) c).
Definition remove_orphan (prev : Z) (c : Chain) : option (option Block * Chain) :=
  old ← orphan_get c prev; Some (old, set_orphans (delete prev (orphans c)) c).

(** The view of the chain that the difficulty rule has. *)
#[export] Instance chain_store : BlockStore Chain := fun c b => o ← block_get c (blockHash b); Some (option_map snd o).

(** ** Walks along the chain *)

Section chain.
Context (checkpoint_array : list Checkpoint).

(** [GENESIS_BLOCK_HASH]: the hash of the first checkpoint. *)
Definition GENESIS_BLOCK_HASH : Z := default 0 (checkpoint_hash <$> checkpoint_array !! 0%nat).

(** [for (j = 0; block && j < step; j++) block = BRSetGet(manager->blocks, &block->prevBlock);] *)
Fixpoint walk_back (c : Chain) (step : nat) (block : option Block) : option (option Block) :=
  match step, block with
  | S step', Some (_, b) => prev ← block_get c (prevBlock b); walk_back c step' prev
  | _, _ => Some block
  end.

(** The loop over the locators: the hashes written, and [i] at its end; [step] and [i] are [int32_t],
    and [locatorsCount] is compared at 64 bits. *)
Fixpoint locators_loop (fuel : nat) (c : Chain) (block : option Block) (step i : Z) (capacity : option Z)
    (locators : list Z) : option (list Z * Z) :=
  match block with
  | Some (_, b) =>
      if 0 <? height b then
        match fuel with
        | O => None
        | S fuel' =>
            let locators := if (if capacity is Some n then i <? n else false) then locators ++ [blockHash b] else locators in
            let i := i + 1 in
            if INT32_MAX <? i then None
            else
              let step := if 10 <=? i then step * 2 else step in
              if INT32_MAX <? step then None
              else
                block ← walk_back c (Z.to_nat step) block;
                locators_loop fuel' c block step i capacity locators
        end
      else Some (locators, i)
  | None => Some (locators, i)
  end.

(** [lastBlock] may be NULL here. *)
Definition _BRPeerManagerBlockLocators (c : Chain) (locatorsCount : option Z) : option (list Z * Z) :=
  block ← block_ref c (lastBlock c);
  '(locators, i) ← locators_loop (S (size (blocks c))) c block 1 0 locatorsCount [];
  Some (if (if locatorsCount is Some n then i <? n else false) then locators ++ [GENESIS_BLOCK_HASH] else locators, i + 1).

(** The calls that allocate the array with the count and fill it. *)
Definition block_locators (c : Chain) : option (list Z) :=
  '(_, n) ← _BRPeerManagerBlockLocators c None;
  '(locators, count) ← _BRPeerManagerBlockLocators c (Some n);
  Some (take (Z.to_nat count) locators).

Definition difficulty_interval (b : BRMerkleBlock) : Z :=
  if height b <? DGW_START_BLOCK then BLOCK_DIFFICULTY_INTERVAL else DGW_BLOCK_DIFFICULTY_INTERVAL.

(** [while (b) ...]: frees the blocks before the last transition, transition blocks apart. *)
Fixpoint free_before (fuel : nat) (interval : Z) (c : Chain) (prev : Z) : option Chain :=
  b ← block_get c prev;
  match b with
  | None => Some c
  | Some (r, b) =>
      match fuel with
      | O => None
      | S fuel' =>
          c ← (if height b mod interval =? 0 then Some c
               else free_block r (set_blocks (delete (blockHash b) (blocks c)) c));
          free_before fuel' interval c (prevBlock b)
      end
  end.

Definition _BRPeerManagerVerifyBlock (block prev : Block) (c : Chain) : option (bool * Chain) :=
  let interval := difficulty_interval (snd block) in
  '(r, c) ← (if height (snd block) mod interval =? 0 then
               b ← walk_back c (Z.to_nat interval) (Some block);
               match b with
               | None => Some (false, c)
               | Some (_, b) => c ← free_before (S (size (blocks c))) interval c (prevBlock b); Some (true, c)
               end
             else Some (true, c));
  if (r : bool) then
    '(r, n) ← BRMerkleBlockVerifyDifficulty (snd block) (snd prev) c (pastCount c);
    let c := set_pastCount n c in
    if (r : bool) then
      checkpoint ← block_ref c (checkpoints c !! height (snd block));
      match checkpoint with
      | Some k => Some (UInt256Eq (blockHash (snd block)) (blockHash (snd k)), c)
      | None => Some (true, c)
      end
    else Some (false, c)
  else Some (false, c).

(** [while (b && b->height > block->height) b = BRSetGet(manager->blocks, &b->prevBlock);] *)
Fixpoint walk_down (fuel : nat) (c : Chain) (h : Z) (block : option Block) : option (option Block) :=
  match block with
  | Some (_, b) =>
      if h <? height b then
        match fuel with
        | O => None
        | S fuel' => prev ← block_get c (prevBlock b); walk_down fuel' c h prev
        end
      else Some block
  | None => Some None
  end.

(** Where the fork of [b] joins the chain of [b2]. *)
Fixpoint join_walk (fuel : nat) (c : Chain) (b b2 : option Block) : option (option Block * option Block) :=
  match b, b2 with
  | Some (r, x), Some (r2, x2) =>
      if (r =? r2)%nat || UInt256Eq (blockHash x) (blockHash x2) then Some (b, b2)
      else
        match fuel with
        | O => None
        | S fuel' =>
            b ← block_get c (prevBlock x);
            b2 ← (match b with
                  | Some (_, y) => if height y <? height x2 then block_get c (prevBlock x2) else Some b2
                  | None => Some b2
                  end);
            join_walk fuel' c b b2
        end
  | _, _ => Some (b, b2)
  end.

(** The blocks of the new main chain above the join, newest first, each with the block before it. *)
Fixpoint fork_blocks (fuel : nat) (c : Chain) (b : option Block) (h2 : Z) : option (list (Block * option Block)) :=
  match b with
  | Some (r, x) =>
      if h2 <? height x then
        match fuel with
        | O => None
        | S fuel' =>
            prev ← block_get c (prevBlock x);
            l ← fork_blocks fuel' c prev h2;
            Some ((r, x, prev) :: l)
        end
      else Some []
  | None => Some []
  end.

(** [for (i = 0, b = block; b && i < saveCount; i++)] *)
Fixpoint save_walk (n : nat) (c : Chain) (b : option Block) : option (list BRMerkleBlock) :=
  match n, b with
  | S n', Some (_, x) => prev ← block_get c (prevBlock x); l ← save_walk n' c prev; Some (x :: l)
  | _, _ => Some []
  end.

(** The blocks saved: cut to end at a difficulty interval, which the code asserts. *)
Definition blocks_to_save (saveCount : Z) (c : Chain) (block : option Block) : option (list BRMerkleBlock) :=
  l ← save_walk (Z.to_nat saveCount) c block;
  let i := len l in
  let j := match list.last l with Some b => height b mod BLOCK_DIFFICULTY_INTERVAL | None => 0 end in
  let i := if 0 <? j
           then i - (if BLOCK_DIFFICULTY_INTERVAL - j <? i then BLOCK_DIFFICULTY_INTERVAL - j else i) else i in
  let l := take (Z.to_nat i) l in
  match list.last l with
  | Some b => if height b mod BLOCK_DIFFICULTY_INTERVAL =? 0 then Some l else None
  | None => Some l
  end.
End chain.

(** ** The manager *)

(** The continuations given to [BRPeerSendPing]. *)
Inductive Pong :=
  | updateFilterRerequestDone | updateFilterLoadDone | updateFilterPingDone
  | requestUnrelayedTxGetdataDone | loadBloomFilterDone.

(** The peer in the [info] of a ping is the one its continuation gets.  What the handlers do to peers and report to the application, in order. *)
Inductive Action :=
  | SendGetblocks (p : nat) (locators : list Z)
  | SendGetheaders (p : nat) (locators : list Z)
  | SendFilterload (p : nat) (filter : list Z)
  | SendPing (p : nat) (info : nat) (pongCallback : Pong)
  | SendMempool (p : nat) (knownTxHashes : list Z) (completion : bool)
  | SendInv (p : nat) (txHashes : list Z)
  | SendGetdata (p : nat) (txHashes : list Z)
  | SendGetaddr (p : nat)
  | RerequestBlocks (p : nat) (fromBlock : Z)
  | ConnectPeer (p : nat)
  | DisconnectPeer (p : nat)
  | ScheduleDisconnect (p : nat) (seconds : Z)
  | SetCurrentBlockHeight (p : nat) (height : Z)
  | SetNeedsFilterUpdate (p : nat) (needs : bool)
  | SetEarliestKeyTime (p : nat) (time : Z)
  | SyncStarted
  | SyncStopped (error : Z)
  | TxStatusUpdate
  | SaveBlocks (replace : bool) (saved : list BRMerkleBlock)
  | SavePeers (replace : bool) (saved : list BRPeer)
  | TxCallback (callback info error : Z)
  | WalletEvent (e : Event).

Record BRPublishedTx := mkPublished { pub_tx : BRTransaction; pub_info : Z; pub_callback : option Z }.

Record Net := mkNet {
  isConnected : bool;
  connectFailureCount : Z;
  misbehavinCount : Z;
  maxConnectCount : Z;
  peers : list BRPeer;
  fixedPeer : BRPeer;
  downloadPeer : option nat;
  connectedPeers : list nat;
  peerStore : gmap nat PeerContext;
}.

Definition set_isConnected (b : bool) (n : Net) : Net :=
  mkNet b (connectFailureCount n) (misbehavinCount n) (maxConnectCount n) (peers n) (fixedPeer n) (downloadPeer n) (connectedPeers n) (peerStore n).
Definition set_failures (f : Z) (n : Net) : Net :=
  mkNet (isConnected n) f (misbehavinCount n) (maxConnectCount n) (peers n) (fixedPeer n) (downloadPeer n) (connectedPeers n) (peerStore n).
Definition set_misbehavin (c : Z) (n : Net) : Net :=
  mkNet (isConnected n) (connectFailureCount n) c (maxConnectCount n) (peers n) (fixedPeer n) (downloadPeer n) (connectedPeers n) (peerStore n).
Definition set_peers (ps : list BRPeer) (n : Net) : Net :=
  mkNet (isConnected n) (connectFailureCount n) (misbehavinCount n) (maxConnectCount n) ps (fixedPeer n) (downloadPeer n) (connectedPeers n) (peerStore n).
Definition set_download (p : option nat) (n : Net) : Net :=
  mkNet (isConnected n) (connectFailureCount n) (misbehavinCount n) (maxConnectCount n) (peers n) (fixedPeer n) p (connectedPeers n) (peerStore n).
Definition set_connected (ps : list nat) (n : Net) : Net :=
  mkNet (isConnected n) (connectFailureCount n) (misbehavinCount n) (maxConnectCount n) (peers n) (fixedPeer n) (downloadPeer n) ps (peerStore n).
Definition set_peerStore (s : gmap nat PeerContext) (n : Net) : Net :=
  mkNet (isConnected n) (connectFailureCount n) (misbehavinCount n) (maxConnectCount n) (peers n) (fixedPeer n) (downloadPeer n) (connectedPeers n) s.

Record FilterState := mkFilterState {
  filterUpdateHeight : Z;
  bloomFilter : option BRBloomFilter;
  fpRate : double;
  averageTxPerBlock : double;
}.

Record Relay := mkRelay {
  txRelays : BRTxPeerList;
  txRequests : BRTxPeerList;
  publishedTx : list BRPublishedTx;
  publishedTxHashes : list Z;
}.

(** What the environment will answer: whether the next [realloc]s move, the values of [rand()], the results
    of the next address lookups. *)
Record Inputs := mkInputs { moves : list bool; rands : list Z; lookups : list (list BRPeer) }.

Record Manager := mkManager {
  wallet : BRWallet;
  chain : Chain;
  net : Net;
  filters : FilterState;
  relay : Relay;
  earliestKeyTime : Z;
  syncStartHeight : Z;
  oracle : Inputs;
  out : list Action;
}.

Definition set_wallet (w : BRWallet) (m : Manager) : Manager :=
  mkManager w (chain m) (net m) (filters m) (relay m) (earliestKeyTime m) (syncStartHeight m) (oracle m) (out m).
Definition set_chain_of (c : Chain) (m : Manager) : Manager :=
  mkManager (wallet m) c (net m) (filters m) (relay m) (earliestKeyTime m) (syncStartHeight m) (oracle m) (out m).
Definition set_net (n : Net) (m : Manager) : Manager :=
  mkManager (wallet m) (chain m) n (filters m) (relay m) (earliestKeyTime m) (syncStartHeight m) (oracle m) (out m).
Definition set_filter (f : FilterState) (m : Manager) : Manager :=
  mkManager (wallet m) (chain m) (net m) f (relay m) (earliestKeyTime m) (syncStartHeight m) (oracle m) (out m).
Definition set_relay (r : Relay) (m : Manager) : Manager :=
  mkManager (wallet m) (chain m) (net m) (filters m) r (earliestKeyTime m) (syncStartHeight m) (oracle m) (out m).
Definition set_syncStart (h : Z) (m : Manager) : Manager :=
  mkManager (wallet m) (chain m) (net m) (filters m) (relay m) (earliestKeyTime m) h (oracle m) (out m).
Definition set_inputs (i : Inputs) (m : Manager) : Manager :=
  mkManager (wallet m) (chain m) (net m) (filters m) (relay m) (earliestKeyTime m) (syncStartHeight m) i (out m).
Definition set_out (o : list Action) (m : Manager) : Manager :=
  mkManager (wallet m) (chain m) (net m) (filters m) (relay m) (earliestKeyTime m) (syncStartHeight m) (oracle m) o.

(** *** State passing, with failure *)

Definition M (A : Type) : Type := Manager -> option (A * Manager).

#[export] Instance M_ret : MRet M := fun A a m => Some (a, m).
#[export] Instance M_bind : MBind M := fun A B f x m => '(a, m') ← x m; f a m'.

Definition gets {A} (f : Manager -> A) : M A := fun m => Some (f m, m).
Definition modify (f : Manager -> Manager) : M unit := fun m => Some (tt, f m).
Definition try {A} (o : option A) : M A := fun m => a ← o; Some (a, m).
Definition emit (a : Action) : M unit := modify (fun m => set_out (out m ++ [a]) m).
Definition skip : M unit := mret tt.
Definition when (b : bool) (x : M unit) : M unit := if b then x else skip.

Fixpoint each {A} (f : A -> M unit) (l : list A) : M unit :=
  match l with
  | [] => skip
  | a :: l' => _ ← f a; each f l'
  end.

Definition on_net (f : Net -> Net) : M unit := modify (fun m => set_net (f (net m)) m).
Definition on_chain {A} (f : Chain -> option (A * Chain)) : M A :=
  fun m => '(a, c) ← f (chain m); Some (a, set_chain_of c m).
Definition update_chain (f : Chain -> option Chain) : M unit := on_chain (fun c => c ← f c; Some (tt, c)).

(** A call of the wallet: its new state and its callbacks. *)
Definition on_wallet (f : BRWallet -> option (BRWallet * list Event)) : M unit :=
  fun m => '(w, es) ← f (wallet m); Some (tt, set_out (out m ++ (WalletEvent <$> es)) (set_wallet w m)).

Definition next_move : M bool :=
  fun m => let i := oracle m in
           Some (default false (head (moves i)), set_inputs (mkInputs (tail (moves i)) (rands i) (lookups i)) m).

Definition peer_at (p : nat) : M PeerContext := fun m => x ← peerStore (net m) !! p; Some (x, m).
Definition look {A} (f : Chain -> option A) : M A := fun m => a ← f (chain m); Some (a, m).
Definition last_of : M Block := look last_block.
Definition is_download (m : Manager) (p : nat) : bool := bool_decide (downloadPeer (net m) = Some p).

Definition set_flags (f : Z -> Z) (x : PeerContext) : PeerContext :=
  let q := peer x in
  mkContext (mkPeer (address q) (port q) (services q) (peer_timestamp q) (f (peer_flags q))) (status x) (peerVersion x)
    (lastblock x) (pingTime x) (peerFee x).
Definition set_timestamp (t : Z) (x : PeerContext) : PeerContext :=
  let q := peer x in
  mkContext (mkPeer (address q) (port q) (services q) t (peer_flags q)) (status x) (peerVersion x)
    (lastblock x) (pingTime x) (peerFee x).
Definition update_peer (p : nat) (f : PeerContext -> PeerContext) : M unit :=
  x ← peer_at p; on_net (fun n => set_peerStore (<[p := f x]> (peerStore n)) n).
Definition has_flag (flag : Z) (x : PeerContext) : bool := negb (Z.land (peer_flags (peer x)) flag =? 0).
Definition connected (x : PeerContext) : bool := bool_decide (status x = BRPeerStatusConnected).

(** Removes from two parallel arrays, from the end, the entries that satisfy [f]. *)
Fixpoint rm_where (f : BRPublishedTx -> bool) (j : nat) (pubs : list BRPublishedTx) (hashes : list Z)
    : list BRPublishedTx * list Z * list BRPublishedTx :=
  match j with
  | O => (pubs, hashes, [])
  | S j' =>
      match pubs !! j' with
      | Some p =>
          if f p then
            let '(pubs, hashes, removed) := rm_where f j' (delete j' pubs) (delete j' hashes) in
            (pubs, hashes, p :: removed)
          else rm_where f j' pubs hashes
      | None => rm_where f j' pubs hashes
      end
  end.
