(* ===== verification/PeerHandlers.v ===== *)
(** * PeerHandlers: the handlers of the peer manager (BRPeerManager.c)

    One definition per function of the source, in the monad of PeerManager.  The functions called when a
    pong arrives take the peer and whether the ping succeeded. *)
From stdpp Require Import base numbers list gmap sets.
From Stdlib Require Import ZArith Lia Floats.SpecFloat.
From S2P Require Import Prelude CMem Int Address Transaction MerkleBlock Bloom Sequence Wallet WalletOps PeerManager.
Local Open Scope Z_scope.

Section handlers.
Context `{AddressChain}.

(** The time, the sizes that [BRBloomFilterNew] computes with the C library's logarithm, and [qsort] with
    [_peerTimestampCompare]. *)
Context (checkpoint_array : list Checkpoint) (now : Z) (bloom_size : double -> Z -> Z) (bloom_funcs : Z -> Z -> Z).
Context (sort_peers : list BRPeer -> list BRPeer).

(** ** Peers *)

(** [array_rm] of every entry equal to the peer. *)
Definition forget_peer (p : BRPeer) (n : Net) : Net := set_peers (List.filter (fun q => negb (BRPeerEq q p)) (peers n)) n.

Definition _BRPeerManagerPeerMisbehavin (p : nat) : M unit :=
  x ← peer_at p;
  _ ← on_net (forget_peer (peer x));
  _ ← on_net (fun n =>
        if 10 <=? misbehavinCount n + 1 then set_peers [] (set_misbehavin 0 n)
        else set_misbehavin (misbehavinCount n + 1) n);
  emit (DisconnectPeer p).

Definition has_callback (t : BRPublishedTx) : bool := bool_decide (is_Some (pub_callback t)).

Definition _BRPeerManagerSyncStopped : M unit :=
  _ ← modify (set_syncStart 0);
  d ← gets (fun m => downloadPeer (net m));
  pending ← gets (fun m => existsb has_callback (publishedTx (relay m)));
  match d with
  | Some p => when (negb pending) (emit (ScheduleDisconnect p (-1)))
  | None => skip
  end.

Definition _BRPeerManagerPublishPendingTx (p : nat) : M unit :=
  pending ← gets (fun m => existsb has_callback (publishedTx (relay m)));
  _ ← when pending (emit (ScheduleDisconnect p PROTOCOL_TIMEOUT));
  hashes ← gets (fun m => publishedTxHashes (relay m));
  emit (SendInv p hashes).

(** ** The bloom filter *)

(** [if (! BRBloomFilterContainsData(...)) BRBloomFilterInsertData(...)] *)
Definition insert_new (f : BRBloomFilter) (data : list Z) : option BRBloomFilter :=
  c ← BRBloomFilterContainsData f (Some data);
  if (c : bool) then Some f else BRBloomFilterInsertData f (Some data).

(** A hash of zeros, also left when the address does not decode, is not inserted. *)
Definition insert_address (f : BRBloomFilter) (addr : list Z) : option BRBloomFilter :=
  h ← BRAddressHash160 addr;
  let hash := default (replicate 20 0) h in
  if forallb (Z.eqb 0) hash then Some f else insert_new f hash.

Definition utxo_bytes (hash n : Z) : list Z := UInt256Set hash ++ UInt32SetLE n.

Definition insert_spent (w : BRWallet) (f : BRBloomFilter) (i : BRTxInput) : option BRBloomFilter :=
  tx ← BRWalletTransactionForHash w (in_txHash i);
  match tx with
  | Some tx =>
      match outputs tx !! Z.to_nat (in_index i) with
      | Some o => if BRWalletContainsAddress w (out_address o) then insert_new f (utxo_bytes (in_txHash i) (in_index i)) else Some f
      | None => Some f
      end
  | None => Some f
  end.

Definition insert_tx (w : BRWallet) (f : BRBloomFilter) (hash : Z) : option BRBloomFilter :=
  tx ← allTx w !! hash; for_each (insert_spent w) f (inputs tx).

Definition spare_addresses (gapLimit : Z) (internal : bool) : M unit :=
  moved ← next_move;
  on_wallet (fun w => '(w, _) ← BRWalletUnusedAddrs moved w false gapLimit internal; Some (w, [])).

(** [BRSetApply(manager->orphans, NULL, _setApplyFreeBlock)], [BRSetClear], [lastOrphan = NULL] *)
Definition clear_orphans (c : Chain) : option Chain :=
  c ← for_each (fun c r => free_block r c) c (snd <$> map_to_list (orphans c));
  Some (set_lastOrphan None (set_orphans ∅ c)).

Definition new_filter (w : BRWallet) (p : BRPeer) (lastHeight : Z) (fpRate : double) : option BRBloomFilter :=
  let addrsCount := snd (BRWalletAllAddrs w None) in
  let utxosCount := snd (BRWalletUTXOs w None) in
  let blockHeight := if 100 <? lastHeight then lastHeight - 100 else 0 in
  '(_, txCount) ← BRWalletTxUnconfirmedBefore w None blockHeight;
  let '(addrs, addrsCount) := BRWalletAllAddrs w (Some addrsCount) in
  let '(utxos, utxosCount) := BRWalletUTXOs w (Some utxosCount) in
  '(transactions, txCount) ← BRWalletTxUnconfirmedBefore w (Some txCount) blockHeight;
  let elemCount := u64 (addrsCount + utxosCount + txCount + 100) in
  let f := BRBloomFilterNew (bloom_size fpRate elemCount) (fun l => bloom_funcs l elemCount) (BRPeerHash p) BLOOM_UPDATE_ALL in
  f ← for_each insert_address f addrs;
  f ← for_each (fun f u => insert_new f (utxo_bytes (fst u) (snd u))) f utxos;
  for_each (insert_tx w) f transactions.

Definition _BRPeerManagerLoadBloomFilter (p : nat) : M unit :=
  _ ← spare_addresses (SEQUENCE_GAP_LIMIT_EXTERNAL + 100) false;
  _ ← spare_addresses (SEQUENCE_GAP_LIMIT_INTERNAL + 100) true;
  _ ← update_chain clear_orphans;
  l ← last_of;
  x ← peer_at p;
  w ← gets wallet;
  f ← try (new_filter w (peer x) (height (snd l)) BLOOM_REDUCED_FALSEPOSITIVE_RATE);
  _ ← modify (fun m => set_filter (mkFilterState (height (snd l)) (Some f) BLOOM_REDUCED_FALSEPOSITIVE_RATE
                                     (averageTxPerBlock (filters m))) m);
  '(_, n) ← try (BRBloomFilterSerialize f None 0);
  '(data, len) ← try (BRBloomFilterSerialize f (Some (replicate (Z.to_nat n) 0)) n);
  emit (SendFilterload p (take (Z.to_nat len) (default [] data))).

Definition drop_filter (m : Manager) : Manager :=
  let f := filters m in set_filter (mkFilterState (filterUpdateHeight f) None (fpRate f) (averageTxPerBlock f)) m.

Definition _updateFilterRerequestDone (p : nat) (success : bool) : M unit :=
  when success (
    x ← peer_at p;
    when (negb (has_flag PEER_FLAG_NEEDSUPDATE x)) (
      locators ← look (block_locators checkpoint_array);
      emit (SendGetblocks p locators))).

Definition _updateFilterLoadDone (p : nat) (success : bool) : M unit :=
  when success (
    _ ← emit (SetNeedsFilterUpdate p false);
    _ ← update_peer p (set_flags (fun f => Z.land f (Z.lxor 0xff PEER_FLAG_NEEDSUPDATE)));
    l ← last_of;
    estimated ← gets (fun m => estimatedHeight (chain m));
    if height (snd l) <? estimated then
      d ← gets (fun m => downloadPeer (net m));
      d ← try d;
      _ ← emit (RerequestBlocks d (blockHash (snd l)));
      emit (SendPing d p updateFilterRerequestDone)
    else emit (SendMempool p [] false)).

Definition if_connected (p : nat) (x : M unit) : M unit := c ← peer_at p; when (connected c) x.

Definition _updateFilterPingDone (p : nat) (success : bool) : M unit :=
  when success (
    _ ← modify drop_filter;
    l ← last_of;
    estimated ← gets (fun m => estimatedHeight (chain m));
    if height (snd l) <? estimated then
      d ← gets (fun m => downloadPeer (net m));
      match d with
      | Some d => _ ← _BRPeerManagerLoadBloomFilter d; emit (SendPing d p updateFilterLoadDone)
      | None => skip
      end
    else
      ps ← gets (fun m => connectedPeers (net m));
      each (fun q => if_connected q (_ ← _BRPeerManagerLoadBloomFilter q; emit (SendPing q q updateFilterLoadDone))) (reverse ps)).

Definition _BRPeerManagerUpdateFilter : M unit :=
  d ← gets (fun m => downloadPeer (net m));
  match d with
  | Some d =>
      x ← peer_at d;
      when (negb (has_flag PEER_FLAG_NEEDSUPDATE x)) (
        _ ← emit (SetNeedsFilterUpdate d true);
        _ ← update_peer d (set_flags (fun f => Z.lor f PEER_FLAG_NEEDSUPDATE));
        emit (SendPing d d updateFilterPingDone))
  | None => skip
  end.

(** ** Transactions *)

(** The loops over [publishedTx] and [txRelays] for one confirmed transaction. *)
Definition rm_confirmed (w : BRWallet) (r : Relay) (hash : Z) : option Relay :=
  let '(pubs, hashes, removed) :=
    rm_where (fun t => UInt256Eq hash (txHash (pub_tx t))) (length (publishedTx r)) (publishedTx r) (publishedTxHashes r) in
  _ ← for_each (fun _ t => _ ← BRWalletTransactionForHash w (txHash (pub_tx t)); Some tt) tt removed;
  Some (mkRelay (List.filter (fun e => negb (UInt256Eq hash (fst e))) (txRelays r)) (txRequests r) pubs hashes).

Definition _BRPeerManagerUpdateTx (txHashes : list Z) (blockHeight timestamp : Z) : M unit :=
  _ ← when (negb (blockHeight =? TX_UNCONFIRMED))
        (w ← gets wallet; r ← gets relay; r ← try (for_each (rm_confirmed w) r txHashes); modify (set_relay r));
  on_wallet (fun w => BRWalletUpdateTransactions now w txHashes blockHeight timestamp).

Definition is_publishing (r : Relay) (hash : Z) : bool :=
  existsb (fun t => UInt256Eq (txHash (pub_tx t)) hash && has_callback t) (publishedTx r).

(** One transaction of the loop; [tx[i]] is read, and may have been removed with an earlier one. *)
Definition check_unrelayed (hash : Z) : M unit :=
  w ← gets wallet;
  _ ← try (allTx w !! hash);
  r ← gets relay;
  limit ← gets (fun m => maxConnectCount (net m));
  let relayed := _BRTxPeerListCount (txRelays r) hash in
  if is_publishing r hash then skip
  else if (relayed =? 0) && (_BRTxPeerListCount (txRequests r) hash =? 0) then
    on_wallet (fun w => BRWalletRemoveTransaction now w hash)
  else when (relayed <? limit) (_BRPeerManagerUpdateTx [hash] TX_UNCONFIRMED 0).

(** The count of connected peers, 0 when some peer has not been synced with; from the end. *)
Fixpoint synced_count (s : gmap nat PeerContext) (ps : list nat) (count : Z) : option Z :=
  match ps with
  | [] => Some count
  | p :: ps' =>
      x ← s !! p;
      if has_flag PEER_FLAG_SYNCED x then synced_count s ps' (if connected x then count + 1 else count) else Some 0
  end.

Definition _requestUnrelayedTxGetdataDone (p : nat) (success : bool) : M unit :=
  _ ← when success (update_peer p (set_flags (fun f => Z.lor f PEER_FLAG_SYNCED)));
  n ← gets net;
  count ← try (synced_count (peerStore n) (reverse (connectedPeers n)) 0);
  when (maxConnectCount n <=? count) (
    w ← gets wallet;
    '(_, txCount) ← try (BRWalletTxUnconfirmedBefore w None TX_UNCONFIRMED);
    '(txs, _) ← try (BRWalletTxUnconfirmedBefore w (Some (if txCount <? 10000 then txCount else 10000)) TX_UNCONFIRMED);
    each check_unrelayed txs).

(** The hashes to request, with [txRequests] extended. *)
Definition request_tx (p : BRPeer) (relays : BRTxPeerList) (st : list Z * BRTxPeerList) (hash : Z) : list Z * BRTxPeerList :=
  if negb (_BRTxPeerListHasPeer relays hash p) && negb (_BRTxPeerListHasPeer (snd st) hash p)
  then (fst st ++ [hash], fst (_BRTxPeerListAddPeer (snd st) hash p)) else st.

Definition set_requests (l : BRTxPeerList) (m : Manager) : Manager :=
  let r := relay m in set_relay (mkRelay (txRelays r) l (publishedTx r) (publishedTxHashes r)) m.
Definition set_relays (l : BRTxPeerList) (m : Manager) : Manager :=
  let r := relay m in set_relay (mkRelay l (txRequests r) (publishedTx r) (publishedTxHashes r)) m.
Definition set_published (pubs : list BRPublishedTx) (hashes : list Z) (m : Manager) : Manager :=
  let r := relay m in set_relay (mkRelay (txRelays r) (txRequests r) pubs hashes) m.

Definition _BRPeerManagerRequestUnrelayedTx (p : nat) : M unit :=
  w ← gets wallet;
  x ← peer_at p;
  '(_, txCount) ← try (BRWalletTxUnconfirmedBefore w None TX_UNCONFIRMED);
  '(txs, _) ← try (BRWalletTxUnconfirmedBefore w (Some txCount) TX_UNCONFIRMED);
  r ← gets relay;
  let '(hashes, requests) := foldl (request_tx (peer x) (txRelays r)) ([], txRequests r) txs in
  _ ← modify (set_requests requests);
  if 0 <? len hashes then
    _ ← emit (SendGetdata p hashes);
    when (negb (has_flag PEER_FLAG_SYNCED x)) (emit (SendPing p p requestUnrelayedTxGetdataDone))
  else update_peer p (set_flags (fun f => Z.lor f PEER_FLAG_SYNCED)).

Definition _mempoolDone (p : nat) (success : bool) : M unit :=
  when success (
    syncStart ← gets syncStartHeight;
    _ ← when (0 <? syncStart) _BRPeerManagerSyncStopped;
    _ ← _BRPeerManagerRequestUnrelayedTx p;
    _ ← emit (SendGetaddr p);
    _ ← emit TxStatusUpdate;
    when (0 <? syncStart) (emit (SyncStopped 0))).

Definition send_mempool (p : nat) : M unit :=
  hashes ← gets (fun m => publishedTxHashes (relay m)); emit (SendMempool p hashes true).

Definition _loadBloomFilterDone (p : nat) (success : bool) : M unit :=
  if success then send_mempool p
  else
    d ← gets (fun m => is_download m p);
    when d (_ ← _BRPeerManagerSyncStopped; emit (SyncStopped 0)).

Definition load_mempool (p : nat) : M unit :=
  if_connected p (
    load ← gets (fun m => negb (is_download m p) ||
                          SFltb (dmul BLOOM_REDUCED_FALSEPOSITIVE_RATE (of_Z 5)) (fpRate (filters m)));
    if (load : bool) then
      _ ← _BRPeerManagerLoadBloomFilter p;
      _ ← _BRPeerManagerPublishPendingTx p;
      emit (SendPing p p loadBloomFilterDone)
    else send_mempool p).

Definition _BRPeerManagerLoadMempools : M unit :=
  ps ← gets (fun m => connectedPeers (net m)); each load_mempool (reverse ps).

(** ** Blocks *)

(** The number of transactions that are not the wallet's. *)
Fixpoint false_positives (w : BRWallet) (txHashes : list Z) (count : Z) : option Z :=
  match txHashes with
  | [] => Some count
  | h :: txHashes' =>
      t ← BRWalletTransactionForHash w h;
      false_positives w txHashes' (match t with None => count + 1 | Some _ => count end)
  end.

(** The low pass filters over the transactions per block and the false positives per block. *)
Definition next_average (average : double) (totalTx : Z) : double :=
  dadd (dmul average (literal 999 1000)) (dmul (of_Z totalTx) (literal 1 1000)).
Definition next_rate (fpRate average : double) (totalTx fpCount : Z) : double :=
  dadd (dmul fpRate (dsub (of_Z 1) (ddiv (dmul (literal 1 100) (of_Z totalTx)) average)))
       (ddiv (dmul (literal 1 100) (of_Z fpCount)) average).

Definition track_rate (p : nat) (block : BRMerkleBlock) (txHashes : list Z) : M unit :=
  d ← gets (fun m => is_download m p);
  when (d && (0 <? totalTx block)) (
    w ← gets wallet;
    fpCount ← try (false_positives w txHashes 0);
    f ← gets filters;
    let average := next_average (averageTxPerBlock f) (totalTx block) in
    let rate := next_rate (fpRate f) average (totalTx block) fpCount in
    _ ← modify (set_filter (mkFilterState (filterUpdateHeight f) (bloomFilter f) rate average));
    x ← peer_at p;
    if connected x && SFltb (dmul BLOOM_DEFAULT_FALSEPOSITIVE_RATE (of_Z 10)) rate then emit (DisconnectPeer p)
    else
      l ← last_of;
      when ((u32 (height (snd l) + 500) <? lastblock x) && SFltb (dmul BLOOM_REDUCED_FALSEPOSITIVE_RATE (of_Z 10)) rate)
        _BRPeerManagerUpdateFilter).

(** [BRPeerScheduleDisconnect(peer, PROTOCOL_TIMEOUT); manager->connectFailureCount = 0;] *)
Definition reschedule (p : nat) : M unit :=
  _ ← emit (ScheduleDisconnect p PROTOCOL_TIMEOUT); on_net (set_failures 0).

(** What becomes of a block: the value of [block] after the cases below (NULL once it is freed) and
    [saveCount]. *)
Notation Placed := (option nat * Z)%type.

Definition drop_block (r : nat) : M Placed := _ ← update_chain (free_block r); mret (None, 0).

Definition place_pending (p r : nat) : M Placed :=
  _ ← update_chain (free_block r);
  l ← last_of;
  m ← gets id;
  _ ← when (is_download m p && (height (snd l) <? estimatedHeight (chain m))) (reschedule p);
  mret (None, 0).

Definition place_orphan (p : nat) (block : Block) : M Placed :=
  l ← last_of;
  if u32 (MerkleBlock.timestamp (snd block) + WEEK) <? now then drop_block (fst block)
  else
    x ← peer_at p;
    _ ← (if lastblock x <=? height (snd l) then
           o ← look (fun c => block_ref c (lastOrphan c));
           let known := match o with Some (_, o) => UInt256Eq (blockHash o) (prevBlock (snd block)) | None => false end in
           when (negb known) (locators ← look (block_locators checkpoint_array); emit (SendGetblocks p locators))
         else skip);
    _ ← update_chain (add_orphan block);
    _ ← update_chain (fun c => Some (set_lastOrphan (Some (fst block)) c));
    mret (Some (fst block), 0).

Definition place_invalid (p r : nat) : M Placed :=
  _ ← update_chain (free_block r); _ ← _BRPeerManagerPeerMisbehavin p; mret (None, 0).

(** The blocks saved when the chain download is complete. *)
Definition download_complete (h : Z) : M Z :=
  estimated ← gets (fun m => estimatedHeight (chain m));
  if h =? estimated then _ ← _BRPeerManagerLoadMempools; mret (h mod BLOCK_DIFFICULTY_INTERVAL + BLOCK_DIFFICULTY_INTERVAL + 1)
  else mret 0.

Definition place_next (p : nat) (block : Block) (txHashes : list Z) (txTime : Z) : M Placed :=
  let h := height (snd block) in
  _ ← on_chain (add_block block);
  _ ← update_chain (fun c => Some (set_lastBlock (Some (fst block)) c));
  _ ← when (0 <? len txHashes) (_BRPeerManagerUpdateTx txHashes h txTime);
  d ← gets (fun m => downloadPeer (net m));
  _ ← (match d with Some d => emit (SetCurrentBlockHeight d h) | None => skip end);
  m ← gets id;
  _ ← when ((h <? estimatedHeight (chain m)) && is_download m p) (reschedule p);
  n ← download_complete h;
  mret (Some (fst block), if 0 <? n then n else if h mod BLOCK_DIFFICULTY_INTERVAL =? 0 then 1 else 0).

(** The relayed object replaces the one with the same hash, which is freed. *)
Definition replace_block (block : Block) (c : Chain) : option Chain :=
  '(old, c) ← add_block block c;
  '(r, b) ← old;
  if (r =? fst block)%nat then Some c
  else
    o ← orphan_get c (prevBlock b);
    let c := match o with
             | Some (r', _) => if (r' =? r)%nat then set_orphans (delete (prevBlock b) (orphans c)) c else c
             | None => c
             end in
    let c := if bool_decide (lastOrphan c = Some r) then set_lastOrphan None c else c in
    free_block r c.

Definition place_existing (block : Block) (txHashes : list Z) (txTime : Z) : M Placed :=
  let h := height (snd block) in
  l ← last_of;
  b ← look (fun c => walk_down (S (size (blocks c))) c h (Some l));
  b ← try b;
  _ ← when ((fst b =? fst block)%nat || UInt256Eq (blockHash (snd b)) (blockHash (snd block))) (
        _ ← when (0 <? len txHashes) (_BRPeerManagerUpdateTx txHashes h txTime);
        l ← last_of;
        when (h =? height (snd l)) (update_chain (fun c => Some (set_lastBlock (Some (fst block)) c))));
  _ ← update_chain (replace_block block);
  mret (Some (fst block), 0).

Definition place_future (block : Block) : M Placed :=
  _ ← update_chain (add_orphan block);
  _ ← update_chain (fun c => Some (set_lastOrphan (Some (fst block)) c));
  mret (Some (fst block), 0).

(** [timestamp/2 + b->timestamp/2] *)
Definition fork_time (b : BRMerkleBlock) (prev : option Block) : Z :=
  match prev with
  | Some (_, p) => MerkleBlock.timestamp b / 2 + MerkleBlock.timestamp p / 2
  | None => MerkleBlock.timestamp b
  end.

(** The transactions of one block of the new main chain. *)
Definition confirm_block (e : Block * option Block) : M unit :=
  let '(_, b, prev) := e in
  '(_, count) ← try (BRMerkleBlockTxHashes b None);
  '(hashes, count) ← try (BRMerkleBlockTxHashes b (Some count));
  when (0 <? count) (on_wallet (fun w => BRWalletUpdateTransactions now w hashes (height b) (fork_time b prev))).

(** The fork becomes the main chain. *)
Definition reorganize (block : Block) : M Z :=
  l ← last_of;
  '(b, b2) ← look (fun c => join_walk (S (size (blocks c))) c (Some block) (Some l));
  b ← try b;
  _ ← on_wallet (fun w => BRWalletSetTxUnconfirmedAfter now w (height (snd b)));
  _ ← (match b2 with
       | Some (_, x2) => es ← look (fun c => fork_blocks (S (size (blocks c))) c (Some block) (height x2)); each confirm_block es
       | None => skip
       end);
  _ ← update_chain (fun c => Some (set_lastBlock (Some (fst block)) c));
  download_complete (height (snd block)).

Definition place_fork (block : Block) : M Placed :=
  _ ← on_chain (add_block block);
  l ← last_of;
  n ← (if height (snd l) <? height (snd block) then reorganize block else mret 0);
  mret (Some (fst block), n).

(** The height of the last checkpoint. *)
Definition last_checkpoint : Z := match list.last checkpoint_array with Some k => cp_height k | None => 0 end.

(** The cases, for a block whose parent is known and that is valid. *)
Definition place_valid (p : nat) (block : Block) (txHashes : list Z) (txTime : Z) : M Placed :=
  l ← last_of;
  known ← look (fun c => block_get c (blockHash (snd block)));
  x ← peer_at p;
  let h := height (snd block) in
  if UInt256Eq (prevBlock (snd block)) (blockHash (snd l)) then place_next p block txHashes txTime
  else if (known : option Block) then place_existing block txHashes txTime
  else if (height (snd l) <? lastblock x) && (u32 (height (snd l) + 1) <? h) then place_future block
  else if h <=? last_checkpoint then drop_block (fst block)
  else place_fork block.

Definition with_height (h : Z) (b : BRMerkleBlock) : BRMerkleBlock :=
  mkBlock (blockHash b) (powHash b) (MerkleBlock.version b) (prevBlock b) (merkleRoot b) (MerkleBlock.timestamp b) (target b)
    (nonce b) (totalTx b) (hashes b) (hashesCount b) (MerkleBlock.flags b) (flagsLen b) h.

(** [if (prev)]: the height is set and the transaction time computed. *)
Definition link_block (r : nat) : M (Block * option Block * Z) :=
  fun m =>
    let c := chain m in
    b ← heap c !! r;
    prev ← block_get c (prevBlock b);
    match prev with
    | Some (rp, p) =>
        let b' := with_height (u32 (height p + 1)) b in
        Some ((r, b', prev, MerkleBlock.timestamp b / 2 + MerkleBlock.timestamp p / 2),
              set_chain_of (set_heap (<[r := b']> (heap c)) c) m)
    | None => Some ((r, b, None, 0), m)
    end.

Definition place (p : nat) (block : Block) (prev : option Block) (txHashes : list Z) (txTime : Z) : M Placed :=
  m ← gets id;
  let b := snd block in
  if (totalTx b =? 0) && (u32 (earliestKeyTime m + 2 * 60 * 60) <? u32 (MerkleBlock.timestamp b + WEEK)) then drop_block (fst block)
  else match bloomFilter (filters m) with
       | None => place_pending p (fst block)
       | Some _ =>
           match prev with
           | None => place_orphan p block
           | Some prev =>
               valid ← on_chain (_BRPeerManagerVerifyBlock block prev);
               if (valid : bool) then place_valid p block txHashes txTime else place_invalid p (fst block)
           end
       end.

(** The end of the handler: the estimated height, the child waiting among the orphans. *)
Definition next_orphan (r : option nat) (c : Chain) : option (option Block * Chain) :=
  match r with
  | None => Some (None, c)
  | Some r =>
      b ← heap c !! r;
      if height b =? BLOCK_UNKNOWN_HEIGHT then Some (None, c)
      else remove_orphan (blockHash b) (if estimatedHeight c <? height b then set_estimated (height b) c else c)
  end.

(** One call without the final recursion: the next block to relay. *)
Definition relay_step (p r : nat) : M (option nat) :=
  b0 ← look (fun c => heap c !! r);
  '(_, txCount) ← try (BRMerkleBlockTxHashes b0 None);
  '(txHashes, txCount) ← try (BRMerkleBlockTxHashes b0 (Some txCount));
  '(block, prev, txTime) ← link_block r;
  _ ← track_rate p (snd block) txHashes;
  '(placed, saveCount) ← place p block prev txHashes txTime;
  next ← on_chain (next_orphan placed);
  final ← look (fun c => block_ref c placed);
  saved ← look (fun c => blocks_to_save saveCount c final);
  _ ← when (0 <? len saved) (emit (SaveBlocks (1 <? len saved) saved));
  x ← peer_at p;
  _ ← (match final with
       | Some (_, b) => when (negb (height b =? BLOCK_UNKNOWN_HEIGHT) && (lastblock x <=? height b)) (emit TxStatusUpdate)
       | None => skip
       end);
  mret (option_map fst next).

Fixpoint relay_blocks (fuel : nat) (p r : nat) : M unit :=
  match fuel with
  | O => try None
  | S fuel' => next ← relay_step p r; match next with Some r' => relay_blocks fuel' p r' | None => skip end
  end.

(** Every recursive call takes a block out of the orphans. *)
Definition _peerRelayedBlock (p r : nat) : M unit := fun m => relay_blocks (S (S (size (orphans (chain m))))) p r m.

(** ** Connections *)

(** [_BRPeerManagerFindPeers]: the addresses found come from the environment. *)
Definition _BRPeerManagerFindPeers : M unit :=
  m ← gets id;
  if negb (UInt128IsZero (address (fixedPeer (net m)))) then
    let f := fixedPeer (net m) in
    on_net (set_peers [mkPeer (address f) (port f) (Z.lor SERVICES_NODE_NETWORK SERVICES_NODE_BLOOM) now (peer_flags f)])
  else
    let i := oracle m in
    _ ← modify (set_inputs (mkInputs (moves i) (rands i) (tail (lookups i))));
    on_net (fun n => set_peers (sort_peers (peers n ++ default [] (head (lookups i)))) n).

Definition DBL_MAX : double := S754_finite false 9007199254740991 971.

Definition new_context (p : BRPeer) : PeerContext :=
  mkContext p BRPeerStatusDisconnected 0 0 DBL_MAX 0.

Definition start_connect (x : PeerContext) : PeerContext :=
  mkContext (peer x) BRPeerStatusConnecting (peerVersion x) (lastblock x) (pingTime x) (peerFee x).

(** A draw of a peer, biased to the first ones; it leaves the list, and becomes a connected peer unless it is one. *)
Definition draw_peer (ps : list BRPeer) : M (list BRPeer) :=
  m ← gets id;
  '(r, rest) ← try (BRRand (rands (oracle m)) (u32 (len ps)));
  _ ← modify (set_inputs (mkInputs (moves (oracle m)) rest (lookups (oracle m))));
  let i := Z.to_nat (r * r / len ps) in
  q ← try (ps !! i);
  known ← try (for_each (fun k c => x ← peerStore (net m) !! c; Some (k || BRPeerEq q (peer x))) false (reverse (connectedPeers (net m))));
  if (known : bool) then mret (delete i ps)
  else
    let c := fresh (dom (peerStore (net m))) in
    _ ← on_net (fun n => set_connected (connectedPeers n ++ [c]) (set_peerStore (<[c := start_connect (new_context q)]> (peerStore n)) n));
    _ ← emit (SetEarliestKeyTime c (earliestKeyTime m));
    _ ← emit (ConnectPeer c);
    mret (delete i ps).

Fixpoint draw_peers (fuel : nat) (ps : list BRPeer) : M unit :=
  m ← gets id;
  if (0 <? len ps) && (len (connectedPeers (net m)) <? maxConnectCount (net m)) then
    match fuel with
    | O => try None
    | S fuel' => ps ← draw_peer ps; draw_peers fuel' ps
    end
  else skip.

Definition BRPeerManagerConnect : M unit :=
  _ ← on_net (fun n => if MAX_CONNECT_FAILURES <=? connectFailureCount n then set_failures 0 n else n);
  l ← last_of;
  m ← gets id;
  _ ← when ((negb (bool_decide (is_Some (downloadPeer (net m)))) || (height (snd l) <? estimatedHeight (chain m))) &&
            (syncStartHeight m =? 0))
        (_ ← modify (set_syncStart (u32 (height (snd l) + 1))); emit SyncStarted);
  _ ← each (fun c => x ← peer_at c; when (bool_decide (status x = BRPeerStatusConnecting)) (emit (ConnectPeer c)))
        (reverse (connectedPeers (net m)));
  _ ← (if len (connectedPeers (net m)) <? maxConnectCount (net m) then
         let n := net m in
         _ ← (if len (peers n) <? maxConnectCount n then _BRPeerManagerFindPeers
              else
                last ← try (peers n !! Z.to_nat (maxConnectCount n - 1));
                when (u64 (peer_timestamp last + 3 * 24 * 60 * 60) <? now) _BRPeerManagerFindPeers);
         ps ← gets (fun m => take 100 (peers (net m)));
         draw_peers (length ps) ps
       else skip);
  n ← gets net;
  when (len (connectedPeers n) =? 0) (_ ← _BRPeerManagerSyncStopped; emit (SyncStopped ENETUNREACH)).

(** The peer to download from: the lowest ping time among those with the highest last block. *)
Fixpoint best_peer (s : gmap nat PeerContext) (ps : list nat) (best : nat) : option nat :=
  match ps with
  | [] => Some best
  | q :: ps' =>
      x ← s !! q;
      if connected x then
        b ← s !! best;
        best_peer s ps' (if (SFltb (pingTime x) (pingTime b) && (lastblock b <=? lastblock x)) || (lastblock b <? lastblock x)
                         then q else best)
      else best_peer s ps' best
  end.

(** The choice of a new download peer, and the start of the sync. *)
Definition become_download (p : nat) : M unit :=
  m ← gets id;
  best ← try (best_peer (peerStore (net m)) (reverse (connectedPeers (net m))) p);
  x ← peer_at best;
  _ ← (match downloadPeer (net m) with Some d => emit (DisconnectPeer d) | None => skip end);
  _ ← on_net (fun n => set_isConnected true (set_download (Some best) n));
  _ ← update_chain (fun c => Some (set_estimated (lastblock x) c));
  _ ← _BRPeerManagerLoadBloomFilter best;
  l ← last_of;
  _ ← emit (SetCurrentBlockHeight best (height (snd l)));
  _ ← _BRPeerManagerPublishPendingTx best;
  if height (snd l) <? lastblock x then
    locators ← look (block_locators checkpoint_array);
    _ ← emit (ScheduleDisconnect best PROTOCOL_TIMEOUT);
    if earliestKeyTime m <=? u32 (MerkleBlock.timestamp (snd l) + WEEK) then emit (SendGetblocks best locators)
    else emit (SendGetheaders best locators)
  else _ ← on_net (set_failures 0); _BRPeerManagerLoadMempools.

Definition _peerConnected (p : nat) : M unit :=
  x ← peer_at p;
  let t := peer_timestamp (peer x) in
  _ ← when ((now + 2 * 60 * 60 <? t) || (t <? now - 2 * 60 * 60)) (update_peer p (set_timestamp now));
  l ← last_of;
  d ← gets (fun m => downloadPeer (net m));
  let s := services (peer x) in
  if Z.land s SERVICES_NODE_NETWORK =? 0 then emit (DisconnectPeer p)
  else if u32 (lastblock x + 10) <? height (snd l) then emit (DisconnectPeer p)
  else if Z.land s SERVICES_NODE_BCASH =? SERVICES_NODE_BCASH then emit (DisconnectPeer p)
  else if (70011 <=? peerVersion x) && (Z.land s SERVICES_NODE_BLOOM =? 0) then emit (DisconnectPeer p)
  else
    keep ← (match d with
            | Some d => y ← peer_at d; mret ((lastblock x <=? lastblock y) || (lastblock x <=? height (snd l)))
            | None => mret false
            end);
    if (keep : bool) then
      when (lastblock x <=? height (snd l)) (
        _ ← on_net (set_failures 0);
        _ ← _BRPeerManagerLoadBloomFilter p;
        _ ← _BRPeerManagerPublishPendingTx p;
        emit (SendPing p p loadBloomFilterDone))
    else become_download p.

(** Cancels the publications that wait for an answer. *)
Definition cancel_published (txError : Z) : M (list BRPublishedTx) :=
  r ← gets relay;
  let '(pubs, hashes, removed) := rm_where has_callback (length (publishedTx r)) (publishedTx r) (publishedTxHashes r) in
  _ ← modify (set_published pubs hashes);
  mret removed.

Definition rm_pointer (p : nat) (ps : list nat) : list nat :=
  match list_find (eq p) (reverse ps) with
  | Some (i, _) => reverse (delete i (reverse ps))
  | None => ps
  end.

Definition _peerDisconnected (p : nat) (error : Z) : M unit :=
  x ← peer_at p;
  m ← gets id;
  txError ← (if error =? EPROTO then _ ← _BRPeerManagerPeerMisbehavin p; mret 0
             else if negb (error =? 0) then
               _ ← on_net (forget_peer (peer x));
               _ ← on_net (fun n => set_failures (connectFailureCount n + 1) n);
               mret (if (error =? ETIMEDOUT) && (negb (is_download m p) || (syncStartHeight m =? 0) ||
                                                 (len (connectedPeers (net m)) =? 1)) then ETIMEDOUT else 0)
             else mret 0);
  _ ← modify (fun m => set_relays ((fun e => (fst e, List.filter (fun q => negb (BRPeerEq q (peer x))) (snd e))) <$> txRelays (relay m)) m);
  _ ← when (is_download m p) (on_net (fun n =>
        let n := set_download None (set_isConnected false n) in
        if MAX_CONNECT_FAILURES <? connectFailureCount n then set_failures MAX_CONNECT_FAILURES n else n));
  n ← gets net;
  let failed := negb (isConnected n) && (connectFailureCount n =? MAX_CONNECT_FAILURES) in
  _ ← when failed (_ ← _BRPeerManagerSyncStopped; on_net (set_peers []));
  let txError := if failed then ENOTCONN else txError in
  let willReconnect := negb failed && (connectFailureCount n <? MAX_CONNECT_FAILURES) in
  removed ← (if txError =? 0 then mret [] else cancel_published txError);
  _ ← on_net (fun n => set_peerStore (delete p (peerStore n)) (set_connected (rm_pointer p (connectedPeers n)) n));
  _ ← each (fun t => emit (TxCallback (default 0 (pub_callback t)) (pub_info t) txError)) removed;
  _ ← when failed (_ ← emit (SavePeers true []); emit (SyncStopped error));
  _ ← when willReconnect BRPeerManagerConnect;
  emit TxStatusUpdate.

(** ** Other messages *)

(** [while (peersCount > 1000 && manager->peers[peersCount - 1].timestamp + 3*60*60 < now) peersCount--;] on
    the peers from the end. *)
Fixpoint drop_old (l : list BRPeer) : list BRPeer :=
  match l with
  | q :: l' => if (1000 <? len l) && (u64 (peer_timestamp q + 3 * 60 * 60) <? now) then drop_old l' else l
  | [] => []
  end.

Definition _peerRelayedPeers (p : nat) (relayed : list BRPeer) : M unit :=
  _ ← on_net (fun n => set_peers (reverse (drop_old (reverse (take 2500 (sort_peers (peers n ++ relayed)))))) n);
  ps ← gets (fun m => peers (net m));
  when ((1 <? len ps) && (len ps <? 1000)) (emit (SavePeers true ps)).

Definition _peerDataNotfound (p : nat) (txHashes : list Z) : M unit :=
  x ← peer_at p;
  each (fun h => modify (fun m =>
          set_requests (fst (_BRTxPeerListRemovePeer (txRequests (relay m)) h (peer x)))
            (set_relays (fst (_BRTxPeerListRemovePeer (txRelays (relay m)) h (peer x))) m))) txHashes.

Definition MAX_FEE_PER_KB : Z := (1000100 * 1000 + 190) / 191.

(** The second highest fee rate, as the loop computes it: [(maxFeePerKb, secondFeePerKb)]. *)
Fixpoint fee_rates (s : gmap nat PeerContext) (ps : list nat) (best second : Z) : option (Z * Z) :=
  match ps with
  | [] => Some (best, second)
  | q :: ps' =>
      x ← s !! q;
      if connected x && (best <? peerFee x) then fee_rates s ps' (peerFee x) best else fee_rates s ps' best second
  end.

Definition _peerSetFeePerKb (p : nat) (fee : Z) : M unit :=
  n ← gets net;
  '(_, second) ← try (fee_rates (peerStore n) (reverse (connectedPeers n)) 0 0);
  w ← gets wallet;
  let rate := u64 (second * 3) / 2 in
  when ((DEFAULT_FEE_PER_KB <? rate) && (rate <=? MAX_FEE_PER_KB) && (BRWalletFeePerKb w <? rate))
    (modify (fun m => set_wallet (BRWalletSetFeePerKb (wallet m) rate) m)).

(** ** The life of a manager *)

(** A checkpoint becomes a block of both tables. *)
Definition add_checkpoint (earliestKeyTime : Z) (st : nat * Chain) (k : Checkpoint) : nat * Chain :=
  let '(i, c) := st in
  let b := mkBlock (checkpoint_hash k) 0 0 0 0 (cp_timestamp k) (cp_target k) 0 0 None 0 None 0 (cp_height k) in
  let r := fresh (dom (heap c)) in
  let c := set_heap (<[r := b]> (heap c)) c in
  let c := set_checkpoints (<[cp_height k := r]> (checkpoints c)) c in
  let c := set_blocks (<[blockHash b := r]> (blocks c)) c in
  (S i, if (i =? 0)%nat || (u32 (cp_timestamp k + WEEK) <? earliestKeyTime) then set_lastBlock (Some r) c else c).

(** The saved blocks become orphans; [block] is the highest transition block among them. *)
Definition add_saved (st : option Block * Chain) (r : nat) : option (option Block * Chain) :=
  let '(block, c) := st in
  b ← heap c !! r;
  if height b =? BLOCK_UNKNOWN_HEIGHT then None
  else
    c ← add_orphan (r, b) c;
    Some (if (height b mod BLOCK_DIFFICULTY_INTERVAL =? 0) &&
             (match block with Some (_, b') => height b' <? height b | None => true end)
          then Some (r, b) else block, c).

(** [while (block)]: the saved blocks are linked one after the other. *)
Fixpoint link_saved (fuel : nat) (block : option Block) (c : Chain) : option Chain :=
  match block with
  | None => Some c
  | Some b =>
      match fuel with
      | O => None
      | S fuel' =>
          '(_, c) ← add_block b c;
          let c := set_lastBlock (Some (fst b)) c in
          '(_, c) ← remove_orphan (prevBlock (snd b)) c;
          next ← orphan_get c (blockHash (snd b));
          link_saved fuel' next c
      end
  end.

(** The saved blocks are on the heap [h]. *)
Definition new_chain (h : gmap nat BRMerkleBlock) (earliestKeyTime : Z) (saved : list nat) : option Chain :=
  let '(_, c) := foldl (add_checkpoint earliestKeyTime) (O, mkChain h ∅ ∅ ∅ None None 0 0) checkpoint_array in
  '(block, c) ← for_each add_saved (None, c) saved;
  link_saved (S (S (size (orphans c)))) block c.

Definition BRPeerManagerNew (h : gmap nat BRMerkleBlock) (w : BRWallet) (earliestKeyTime : Z) (saved : list nat)
    (ps : list BRPeer) (i : Inputs) : option Manager :=
  c ← new_chain h earliestKeyTime saved;
  Some (mkManager w c (mkNet false 0 0 PEER_MAX_CONNECTIONS (sort_peers ps) (mkPeer 0 0 0 0 0) None [] ∅)
          (mkFilterState 0 None (of_Z 0) (of_Z 1400)) (mkRelay [] [] [] []) earliestKeyTime 0 i []).

(** The checkpoint the rescan starts from, from the last one down. *)
Fixpoint rescan_from (earliestKeyTime : Z) (l : list Checkpoint) : option Checkpoint :=
  match l with
  | [] => None
  | k :: l' => if bool_decide (l' = []) || (u32 (cp_timestamp k + WEEK) <? earliestKeyTime) then Some k
               else rescan_from earliestKeyTime l'
  end.

Definition BRPeerManagerRescan : M unit :=
  m ← gets id;
  when (isConnected (net m)) (
    _ ← update_chain (fun c =>
          match rescan_from (earliestKeyTime m) (reverse checkpoint_array) with
          | Some k => b ← block_get c (checkpoint_hash k); Some (set_lastBlock (option_map fst b) c)
          | None => Some c
          end);
    _ ← (match downloadPeer (net m) with
         | Some d => x ← peer_at d; _ ← on_net (forget_peer (peer x)); emit (DisconnectPeer d)
         | None => skip
         end);
    _ ← modify (set_syncStart 0);
    BRPeerManagerConnect).

Definition BRPeerManagerIsConnected (m : Manager) : bool := isConnected (net m).

Definition BRPeerManagerConnectStatus (m : Manager) : option BRPeerStatus :=
  if isConnected (net m) then Some BRPeerStatusConnected
  else
    any ← for_each (fun k c => x ← peerStore (net m) !! c; Some (k || negb (bool_decide (status x = BRPeerStatusDisconnected))))
            false (reverse (connectedPeers (net m)));
    Some (if (any : bool) then BRPeerStatusConnecting else BRPeerStatusDisconnected).

Definition BRPeerManagerEstimatedBlockHeight (m : Manager) : option Z :=
  l ← last_block (chain m);
  Some (if height (snd l) <? estimatedHeight (chain m) then estimatedHeight (chain m) else height (snd l)).

Definition BRPeerManagerLastBlockHeight (m : Manager) : option Z := l ← last_block (chain m); Some (height (snd l)).

Definition BRPeerManagerLastBlockTimestamp (m : Manager) : option Z :=
  l ← last_block (chain m); Some (MerkleBlock.timestamp (snd l)).

Definition BRPeerManagerSyncProgress (m : Manager) (startHeight : Z) : option double :=
  let startHeight := if startHeight =? 0 then syncStartHeight m else startHeight in
  let d := bool_decide (is_Some (downloadPeer (net m))) in
  if negb d && (syncStartHeight m =? 0) then Some (of_Z 0)
  else
    l ← last_block (chain m);
    let h := height (snd l) in let e := estimatedHeight (chain m) in
    if negb d || (h <? e) then
      Some (if (startHeight <? h) && (startHeight <? e)
            then dadd (literal 1 10) (ddiv (dmul (literal 9 10) (of_Z (h - startHeight))) (of_Z (e - startHeight)))
            else literal 5 100)
    else Some (of_Z 1).

Definition BRPeerManagerPeerCount (m : Manager) : option Z :=
  for_each (fun n c => x ← peerStore (net m) !! c; Some (if connected x then n + 1 else n)) 0 (reverse (connectedPeers (net m))).

Definition BRPeerManagerRelayCount (m : Manager) (hash : Z) : option Z :=
  if UInt256IsZero hash then None else Some (_BRTxPeerListCount (txRelays (relay m)) hash).
End handlers.
