(* ===== verification/PeerChain.v ===== *)
(** * PeerChain: the block chain of the peer manager

    The invariant of the chain: the blocks and the orphans are live objects under their keys, the height
    of a block is that of its hash in the block tree.  A [line] is the list of the blocks from a block
    down, as the walks of PeerManager see it; every walk is described by its line, and ends. *)
From stdpp Require Import base numbers list gmap sets fin_maps.
From Stdlib Require Import ZArith Lia.
From S2P Require Import Prelude CMem Int Address Transaction MerkleBlock PeerManager.
Local Open Scope Z_scope.

(** ** The invariant *)

Section chain.

(** The height of a block in the tree of all blocks, by its hash: a hash stands for one block. *)
Context (ht : Z -> Z).

Definition heights_bounded : Prop := forall h, 0 <= ht h < 0x40000000.

(** A block whose place in the tree is known; a checkpoint has no parent. *)
Record in_place (b : BRMerkleBlock) : Prop := {
  ip_hash : blockHash b <> 0;
  ip_u256 : is_u256 (blockHash b) /\ is_u256 (prevBlock b);
  ip_height : height b = ht (blockHash b);
  ip_parent : prevBlock b = 0 \/ ht (blockHash b) = ht (prevBlock b) + 1;
}.

(** A block as a peer relays it, or as it is saved: its height may not be known yet. *)
Record relayable (b : BRMerkleBlock) : Prop := {
  rb_hash : blockHash b <> 0;
  rb_u256 : is_u256 (blockHash b) /\ is_u256 (prevBlock b);
  rb_parent : prevBlock b = 0 \/ ht (blockHash b) = ht (prevBlock b) + 1;
}.

Record chain_core (c : Chain) : Prop := {
  ok_blocks : forall h r, blocks c !! h = Some r -> exists b, heap c !! r = Some b /\ blockHash b = h /\ in_place b;
  ok_orphans : forall h r, orphans c !! h = Some r ->
    (exists b, heap c !! r = Some b /\ prevBlock b = h /\ relayable b) /\ forall h', blocks c !! h' <> Some r;
}.

(** [lastBlock] is a block of the chain, unless it dangles. *)
Definition last_ok (c : Chain) : Prop :=
  forall r b, lastBlock c = Some r -> heap c !! r = Some b -> blocks c !! blockHash b = Some r.

Definition chain_ok (c : Chain) : Prop := chain_core c /\ last_ok c.

(** A block of the chain. *)
Definition in_chain (c : Chain) (x : Block) : Prop :=
  blocks c !! blockHash (snd x) = Some (fst x) /\ heap c !! fst x = Some (snd x).

(** An object that no table holds. *)
Definition unheld (c : Chain) (r : nat) : Prop :=
  (forall h, blocks c !! h <> Some r) /\ (forall h, orphans c !! h <> Some r) /\ lastBlock c <> Some r.

Section ok.
Context (c : Chain) (Hok : chain_core c).

Lemma in_chain_place x : in_chain c x -> in_place (snd x).
Proof.
  intros [Hb Hh]. destruct (ok_blocks c Hok _ _ Hb) as (b & E & _ & H). congruence.
Qed.

(** [BRSetGet(manager->blocks, ...)] has a result. *)
Lemma block_get_total h : exists o, block_get c h = Some o /\
  match o with Some x => in_chain c x /\ blockHash (snd x) = h | None => blocks c !! h = None end.
Proof.
  unfold block_get. destruct (blocks c !! h) as [r|] eqn:E; [|now exists None].
  destruct (ok_blocks c Hok _ _ E) as (b & Eb & Eh & Hp). cbn [block_ref]. rewrite Eb, bind_Some_l.
  exists (Some (r, b)). split; [done|]. split; [|done]. split; [cbn; now rewrite Eh|exact Eb].
Qed.

Lemma in_chain_get x : in_chain c x -> block_get c (blockHash (snd x)) = Some (Some x).
Proof. intros [Hb Hh]. unfold block_get. rewrite Hb. cbn [block_ref]. rewrite Hh, bind_Some_l. now destruct x. Qed.

Lemma in_chain_hash x y : in_chain c x -> in_chain c y -> blockHash (snd x) = blockHash (snd y) -> x = y.
Proof. intros Hx Hy E. apply in_chain_get in Hx, Hy. congruence. Qed.

Lemma orphan_get_total h : exists o, orphan_get c h = Some o /\
  match o with
  | Some x => orphans c !! h = Some (fst x) /\ heap c !! fst x = Some (snd x) /\ prevBlock (snd x) = h /\ relayable (snd x)
  | None => orphans c !! h = None
  end.
Proof.
  unfold orphan_get. destruct (orphans c !! h) as [r|] eqn:E; [|now exists None].
  destruct (ok_orphans c Hok _ _ E) as [(b & Eb & Eh & Hp) _]. cbn [block_ref]. rewrite Eb, bind_Some_l. now exists (Some (r, b)).
Qed.

Lemma last_in_chain x : last_ok c -> last_block c = Some x -> in_chain c x /\ lastBlock c = Some (fst x).
Proof.
  intros Hl. unfold last_block. destruct (lastBlock c) as [r|] eqn:E; [rewrite bind_Some_l|discriminate].
  destruct (heap c !! r) as [b|] eqn:Eb; [rewrite bind_Some_l|discriminate]. intros [= <-].
  split; [|done]. split; [|exact Eb]. exact (Hl _ _ E Eb).
Qed.

(** The parent of a block of the chain is one level below it. *)
Lemma parent_height x y : in_chain c x -> block_get c (prevBlock (snd x)) = Some (Some y) ->
  in_chain c y /\ height (snd y) = height (snd x) - 1 /\ blockHash (snd y) = prevBlock (snd x).
Proof.
  intros Hx E. destruct (block_get_total (prevBlock (snd x))) as (o & E' & Ho). rewrite E in E'. injection E' as <-.
  destruct Ho as [Hy Eh]. split; [done|]. split; [|done].
  destruct (in_chain_place x Hx) as [_ _ Hhx [H0|Hp]], (in_chain_place y Hy) as [Hny _ Hhy _]; [congruence|].
  rewrite Hhx, Hhy, Eh. lia.
Qed.
End ok.

(** ** Lines of blocks *)

Inductive line (c : Chain) : option Block -> list Block -> Prop :=
  | line_nil : line c None []
  | line_cons x prev l : block_get c (prevBlock (snd x)) = Some prev -> line c prev l -> line c (Some x) (x :: l).

Section line.
Context (Hht : heights_bounded) (c : Chain) (Hok : chain_core c).

Lemma line_det b l l' : line c b l -> line c b l' -> l = l'.
Proof.
  intros H. revert l'. induction H as [|x prev l E H IH]; intros l' H'; inversion H' as [|x' prev' l1 E' H1]; subst; [done|].
  f_equal. apply IH. congruence.
Qed.

Lemma in_chain_height x : in_chain c x -> 0 <= height (snd x) < 0x40000000.
Proof. intros Hx. rewrite (ip_height _ (in_chain_place c Hok x Hx)). apply Hht. Qed.

Lemma line_exists x : in_chain c x -> exists l, line c (Some x) l.
Proof.
  intros Hx. remember (Z.to_nat (height (snd x))) as n eqn:En. revert x Hx En.
  induction (lt_wf n) as [n _ IH]; intros x Hx ->.
  destruct (block_get_total c Hok (prevBlock (snd x))) as ([y|] & E & Hy).
  - destruct (parent_height c Hok x y Hx E) as (Hy' & Hh & _).
    pose proof (in_chain_height x Hx). pose proof (in_chain_height y Hy').
    destruct (IH (Z.to_nat (height (snd y))) ltac:(lia) y Hy' eq_refl) as [l Hl].
    exists (x :: l). now apply (line_cons c x (Some y)).
  - exists [x]. now apply (line_cons c x None); [|constructor].
Qed.

(** The blocks of a line, and their heights. *)
Lemma line_lookup x l : line c (Some x) l -> in_chain c x -> forall i y, l !! i = Some y ->
  in_chain c y /\ height (snd y) = height (snd x) - Z.of_nat i.
Proof.
  intros H. remember (Some x) as o eqn:Eo. revert x Eo. induction H as [|x prev l E H IH]; [discriminate|].
  intros x' [= <-] Hx [|i] y; cbn [lookup list_lookup]; [intros [= <-]; split; [done|lia]|].
  destruct prev as [z|]; [|inversion H; subst; done].
  destruct (parent_height c Hok x z Hx E) as (Hz & Hh & _). intros Hi.
  destruct (IH z eq_refl Hz i y Hi) as [Hy Hyh]. split; [done|lia].
Qed.

(** A line continues below each of its blocks. *)
Lemma line_drop o l : line c o l -> forall n, line c (head (drop n l)) (drop n l).
Proof.
  intros H. induction H as [|x prev l E H IH]; intros [|n]; cbn [drop head]; [constructor..| |apply IH].
  exact (line_cons c x prev l E H).
Qed.

Lemma line_head o l : line c o l -> head l = o.
Proof. now intros []. Qed.

Lemma line_from x l i y : line c (Some x) l -> l !! i = Some y -> line c (Some y) (drop i l).
Proof.
  intros H Hi. pose proof (line_drop _ _ H i) as Hd. erewrite drop_S in Hd |- * by exact Hi. exact Hd.
Qed.

Lemma line_next x l : line c (Some x) (x :: l) -> block_get c (prevBlock (snd x)) = Some (head l) /\ line c (head l) l.
Proof. inversion 1 as [|? prev ? E Hl]; subst. now rewrite (line_head _ _ Hl). Qed.

Lemma line_length x l : line c (Some x) l -> in_chain c x -> len l <= height (snd x) + 1 /\ (length l <= size (blocks c))%nat.
Proof.
  intros H Hx. split.
  - destruct (l !! (length l - 1)%nat) as [y|] eqn:E.
    + destruct (line_lookup x l H Hx _ _ E) as [Hy Eh]. pose proof (in_chain_height y Hy).
      apply lookup_lt_Some in E. lia.
    + apply lookup_ge_None in E. pose proof (in_chain_height x Hx). lia.
  - assert (Hnd : NoDup ((fun y => blockHash (snd y)) <$> l)).
    { apply NoDup_alt. intros i j h Hi Hj. rewrite list_lookup_fmap in Hi, Hj.
      destruct (l !! i) as [y|] eqn:Ei; [|discriminate]. destruct (l !! j) as [z|] eqn:Ej; [|discriminate].
      cbn in Hi, Hj. destruct (line_lookup x l H Hx _ _ Ei) as [Hy Hhy], (line_lookup x l H Hx _ _ Ej) as [Hz Hhz].
      rewrite (in_chain_hash c y z Hy Hz ltac:(congruence)) in Hhy. lia. }
    rewrite <- (length_fmap (fun y => blockHash (snd y)) l), <- (size_list_to_set (C := gset Z)) by done.
    rewrite <- size_dom. apply subseteq_size. intros h Hh. apply elem_of_list_to_set, list_elem_of_fmap in Hh as (y & -> & Hy).
    apply list_elem_of_lookup in Hy as [i Hi]. destruct (line_lookup x l H Hx _ _ Hi) as [[Hb _] _].
    apply elem_of_dom. eauto.
Qed.

(** ** The walks *)

Lemma walk_back_line n : forall o l, line c o l -> walk_back c n o = Some (head (drop n l)).
Proof.
  induction n as [|n IH]; intros o l H; destruct H as [|x prev l E H]; cbn [walk_back drop head]; [done..|].
  destruct x as [r b]. cbn [snd] in E. rewrite E, bind_Some_l. now apply IH.
Qed.

Lemma walk_down_line h : forall l o fuel, line c o l -> (length l < fuel)%nat ->
  walk_down fuel c h o = Some (find (fun y => negb (h <? height (snd y))) l).
Proof.
  induction l as [|x l IH]; intros o fuel H Hf; destruct fuel as [|fuel]; cbn [length] in Hf; try lia.
  - inversion H; subst. reflexivity.
  - assert (o = Some x) as -> by (symmetry; exact (line_head _ _ H)). destruct (line_next x l H) as [E Hl].
    destruct x as [r b]. cbn [walk_down find snd] in *. destruct (h <? height b); cbn [negb]; [|done].
    rewrite E, bind_Some_l. apply IH; [exact Hl|lia].
Qed.

Lemma save_walk_line n : forall o l, line c o l -> save_walk n c o = Some (snd <$> take n l).
Proof.
  induction n as [|n IH]; intros o l H; destruct H as [|x prev l E H]; cbn [save_walk take fmap list_fmap]; [done..|].
  destruct x as [r b]. cbn [snd] in *. rewrite E, bind_Some_l, (IH prev l H), bind_Some_l. reflexivity.
Qed.

(** The blocks of a line above the height [h], each with its parent. *)
Definition with_parents (l : list Block) (n : nat) : list (Block * option Block) :=
  (fun i => (default (O, BRMerkleBlockNew) (l !! i), l !! S i)) <$> seq 0 n.

Lemma fork_blocks_line h : forall l o fuel, line c o l -> (length l < fuel)%nat ->
  forall n, (forall i y, l !! i = Some y -> (i < n)%nat <-> h < height (snd y)) -> (n <= length l)%nat ->
  fork_blocks fuel c o h = Some (with_parents l n).
Proof.
  induction l as [|x l IH]; intros o fuel H Hf n Hn Hl; destruct fuel as [|fuel]; cbn [length] in *; try lia.
  - inversion H; subst. replace n with 0%nat by lia. reflexivity.
  - assert (o = Some x) as -> by (symmetry; exact (line_head _ _ H)). destruct (line_next x l H) as [E Hnext].
    destruct x as [r b]. cbn [fork_blocks snd] in *. specialize (Hn 0%nat) as Hn0. specialize (Hn0 _ eq_refl). cbn [snd] in Hn0.
    destruct n as [|n].
    + rewrite (proj2 (Z.ltb_ge h (height b))) by lia. reflexivity.
    + rewrite (proj2 (Z.ltb_lt h (height b))) by (apply Hn0; lia). rewrite E, bind_Some_l.
      assert (Hn' : forall i y, l !! i = Some y -> (i < n)%nat <-> h < height (snd y)).
      { intros i y Hi. pose proof (Hn (S i) y Hi). lia. }
      rewrite (IH _ fuel Hnext ltac:(lia) n Hn' ltac:(lia)).
      rewrite bind_Some_l. unfold with_parents. cbn [seq fmap list_fmap]. rewrite <- fmap_S_seq, <- list_fmap_compose.
      change (((r, b) :: l) !! 0%nat) with (Some (r, b)). change (((r, b) :: l) !! 1%nat) with (l !! 0%nat).
      rewrite <- head_lookup. reflexivity.
Qed.

(** ** Locators *)

(** The blocks of the line of [x] above height 0. *)
Definition main_hashes (x : Block) (l : list Block) : list Z :=
  (fun y => blockHash (snd y)) <$> take (Z.to_nat (height (snd x))) l.

Lemma head_drop {A} (l : list A) n : head (drop n l) = l !! n.
Proof. now rewrite head_lookup, lookup_drop, Nat.add_0_r. Qed.

(** How far below the top the locator [i] is: 0, 1, ..., 9, 11, 15, 23, 39, ... *)
Fixpoint locator_depth (i : nat) : nat :=
  match i with O => O | S j => (locator_depth j + 2 ^ (j + 1 - 9))%nat end.

Lemma depth_ge i : (i <= locator_depth i)%nat.
Proof.
  induction i as [|i IH]; cbn [locator_depth]; [lia|]. pose proof (Nat.pow_nonzero 2 (i + 1 - 9) ltac:(lia)). lia.
Qed.

Lemma step_le_depth i : (2 ^ (i + 1 - 9) <= locator_depth i + 1)%nat.
Proof.
  induction i as [|i IH]; [cbn; lia|]. destruct (decide (S i < 9)%nat) as [Hi|Hi].
  - replace (S i + 1 - 9)%nat with O by lia. cbn [locator_depth Nat.pow]. lia.
  - replace (S i + 1 - 9)%nat with (S (i + 1 - 9)) by lia. cbn [locator_depth]. rewrite Nat.pow_succ_r'. lia.
Qed.

Lemma main_lookup x l : line c (Some x) l -> in_chain c x -> forall i,
  main_hashes x l !! i = match l !! i with Some y => if 0 <? height (snd y) then Some (blockHash (snd y)) else None | None => None end.
Proof.
  intros H Hx i. unfold main_hashes. rewrite list_lookup_fmap, lookup_take.
  destruct (l !! i) as [y|] eqn:E; [|now case_decide].
  destruct (line_lookup x l H Hx i y E) as [_ Hy]. destruct (Z.ltb_spec 0 (height (snd y))).
  - rewrite decide_True by lia. reflexivity.
  - rewrite decide_False by lia. reflexivity.
Qed.

(** Whether the locator [j] is written. *)
Definition writes_locator (capacity : option Z) (j : nat) : bool := if capacity is Some n then Z.of_nat j <? n else false.

Lemma locators_loop_line x l capacity : line c (Some x) l -> in_chain c x -> forall fuel i acc,
  (length (main_hashes x l) <= i + fuel)%nat ->
  exists k, (i <= k)%nat /\ (length (main_hashes x l) <= locator_depth k)%nat /\
    (forall j, (i <= j < k)%nat -> (locator_depth j < length (main_hashes x l))%nat) /\
    locators_loop fuel c (head (drop (locator_depth i) l)) (Z.of_nat (2 ^ (i - 9))) (Z.of_nat i) capacity acc =
    Some (acc ++ omap (fun j => if writes_locator capacity j then main_hashes x l !! locator_depth j else None) (seq i (k - i)),
          Z.of_nat k).
Proof.
  intros H Hx. pose proof (in_chain_height x Hx) as Hhx. induction fuel as [|fuel IH]; intros i acc Hf.
  all: pose proof (main_lookup x l H Hx (locator_depth i)) as Hm; pose proof (depth_ge i) as Hd.
  all: assert (Hlen : (length (main_hashes x l) <= Z.to_nat (height (snd x)))%nat)
    by (unfold main_hashes; rewrite length_fmap, length_take; lia).
  all: rewrite head_drop; destruct (l !! locator_depth i) as [[r b]|] eqn:E; cbn [locators_loop];
    [cbn [snd] in Hm; destruct (0 <? height b) eqn:Eh|].
  1, 4: apply lookup_lt_Some in Hm.
  1: lia.
  2, 3, 4, 5: exists i; apply lookup_ge_None in Hm; split; [done|split; [exact Hm|split; [lia|]]];
    rewrite Nat.sub_diag, app_nil_r; reflexivity.
  destruct (IH (S i) (if writes_locator capacity i then acc ++ [blockHash b] else acc) ltac:(lia)) as (k & Hk & Hlk & Hj & El).
  pose proof (step_le_depth i) as Hs.
  assert (Hpow : (if 10 <=? Z.of_nat i + 1 then Z.of_nat (2 ^ (i - 9)) * 2 else Z.of_nat (2 ^ (i - 9))) = Z.of_nat (2 ^ (i + 1 - 9))).
  { destruct (Z.leb_spec 10 (Z.of_nat i + 1)).
    - replace (i + 1 - 9)%nat with (S (i - 9)) by lia. rewrite Nat.pow_succ_r'. lia.
    - replace (i - 9)%nat with O by lia. replace (i + 1 - 9)%nat with O by lia. reflexivity. }
  exists k. split; [lia|]. split; [exact Hlk|]. split.
  { intros j Hij. destruct (decide (j = i)) as [->|]; [exact Hm|apply Hj; lia]. }
  rewrite Hpow. unfold INT32_MAX. rewrite (proj2 (Z.ltb_ge _ (Z.of_nat i + 1))), (proj2 (Z.ltb_ge _ (Z.of_nat (2 ^ (i + 1 - 9))))) by lia.
  rewrite Nat2Z.id. change (Some (r, b)) with (Some (r, b)) in E. rewrite <- E, <- head_drop.
  rewrite (walk_back_line _ _ _ (line_drop _ _ H (locator_depth i))), bind_Some_l, drop_drop.
  change (locator_depth i + 2 ^ (i + 1 - 9))%nat with (locator_depth (S i)).
  replace (Z.of_nat i + 1) with (Z.of_nat (S i)) by lia. rewrite Nat.add_1_r.
  fold (writes_locator capacity i).
  rewrite El. f_equal. f_equal. replace (k - i)%nat with (S (k - S i)) by lia. cbn [seq omap list_omap].
  rewrite (main_lookup x l H Hx), E. cbn [snd]. rewrite Eh.
  destruct (writes_locator capacity i); cbn [omap]; [now rewrite <- app_assoc|done].
Qed.

(** The hashes that the [k] locators above the genesis block stand for. *)
Definition locator_hashes (x : Block) (l : list Block) (k : nat) : list Z :=
  omap (fun j => main_hashes x l !! locator_depth j) (seq 0 k).

Lemma omap_all {A B} (f : A -> option B) (l : list A) : (forall a, a ∈ l -> is_Some (f a)) -> length (omap f l) = length l.
Proof.
  induction l as [|a l IH]; intros H; [done|]. cbn. destruct (H a ltac:(left)) as [b ->]. cbn. f_equal. apply IH.
  intros a' Ha. apply H. now right.
Qed.

Lemma omap_same {A B} (f g : A -> option B) (l : list A) : (forall a, a ∈ l -> f a = g a) -> omap f l = omap g l.
Proof.
  induction l as [|a l IH]; intros H; [done|]. cbn. rewrite (H a ltac:(left)).
  change (match g a with Some b => b :: omap f l | None => omap f l end = match g a with Some b => b :: omap g l | None => omap g l end).
  rewrite IH; [done|]. intros a' Ha. apply H. now right.
Qed.

Lemma locators_line ckpts x l : last_ok c -> last_block c = Some x -> line c (Some x) l ->
  exists k, (length (main_hashes x l) <= locator_depth k)%nat /\
    (forall j, (j < k)%nat -> (locator_depth j < length (main_hashes x l))%nat) /\
    _BRPeerManagerBlockLocators ckpts c None = Some ([], Z.of_nat k + 1) /\
    block_locators ckpts c = Some (locator_hashes x l k ++ [GENESIS_BLOCK_HASH ckpts]).
Proof.
  intros Hlast El H. destruct (last_in_chain c x Hlast El) as [Hx Hr]. destruct (line_length x l H Hx) as [_ Hl].
  assert (Hfuel : (length (main_hashes x l) <= 0 + S (size (blocks c)))%nat)
    by (unfold main_hashes; rewrite length_fmap, length_take; lia).
  assert (Href : block_ref c (lastBlock c) = Some (Some x)).
  { rewrite Hr. cbn [block_ref]. destruct Hx as [_ Hh]. rewrite Hh, bind_Some_l. now destruct x. }
  assert (Hhd : Some x = head (drop (locator_depth 0) l)) by (rewrite drop_0; symmetry; exact (line_head _ _ H)).
  destruct (locators_loop_line x l None H Hx _ 0 [] Hfuel) as (k & _ & Hk & Hj & E0).
  destruct (locators_loop_line x l (Some (Z.of_nat k + 1)) H Hx _ 0 [] Hfuel) as (k' & _ & Hk' & Hj' & E1).
  assert (k' = k) as ->.
  { destruct (Nat.lt_trichotomy k k') as [Hlt|[->|Hlt]]; [|done|].
    - specialize (Hj' k ltac:(lia)). lia.
    - specialize (Hj k' ltac:(lia)). lia. }
  cbn [Nat.sub Nat.pow] in E0, E1. change (Z.of_nat 1) with 1 in *. change (Z.of_nat 0) with 0 in *.
  rewrite <- Hhd, Nat.sub_0_r in E0, E1. cbn [app] in E0, E1.
  assert (N0 : _BRPeerManagerBlockLocators ckpts c None = Some ([], Z.of_nat k + 1)).
  { unfold _BRPeerManagerBlockLocators. rewrite Href, bind_Some_l, E0, bind_Some_l. f_equal. f_equal.
    clear. generalize (seq 0 k). intros s. induction s as [|a s IH]; [done|]. exact IH. }
  exists k. split; [exact Hk|]. split; [intros j ?; apply Hj; lia|]. split; [exact N0|].
  unfold block_locators. rewrite N0, bind_Some_l. unfold _BRPeerManagerBlockLocators. rewrite Href, bind_Some_l, E1, bind_Some_l.
  rewrite (proj2 (Z.ltb_lt (Z.of_nat k) (Z.of_nat k + 1))), bind_Some_l by lia.
  assert (Eh : omap (fun j => if writes_locator (Some (Z.of_nat k + 1)) j then main_hashes x l !! locator_depth j else None) (seq 0 k) =
               locator_hashes x l k).
  { unfold locator_hashes, writes_locator. apply omap_same. intros j Hj1. rewrite (proj2 (Z.ltb_lt _ _)); [done|].
    apply elem_of_seq in Hj1. lia. }
  rewrite Eh, take_ge; [done|]. rewrite length_app. unfold locator_hashes. rewrite omap_all, length_seq; [cbn; lia|].
  intros j Hj1. apply elem_of_seq in Hj1. apply lookup_lt_is_Some. apply Hj. lia.
Qed.

(** ** Saving *)

(** The first [m] blocks of a line end at a transition block. *)
Definition ends_at_transition (x : Block) (m : nat) : Prop :=
  (height (snd x) - (Z.of_nat m - 1)) mod BLOCK_DIFFICULTY_INTERVAL = 0.

Lemma last_height x l m : line c (Some x) l -> in_chain c x -> (0 < m <= length l)%nat ->
  exists b, list.last (snd <$> take m l) = Some b /\ height b = height (snd x) - (Z.of_nat m - 1).
Proof.
  intros H Hx Hm. rewrite last_lookup, length_fmap, length_take, list_lookup_fmap, Nat.min_l by lia.
  rewrite lookup_take, decide_True by lia. destruct (lookup_lt_is_Some_2 l (pred m) ltac:(lia)) as [y Ey].
  rewrite Ey. exists (snd y). split; [done|]. destruct (line_lookup x l H Hx _ _ Ey) as [_ ->]. lia.
Qed.

Lemma blocks_to_save_line n x l : 0 <= n -> line c (Some x) l -> in_chain c x ->
  exists m, blocks_to_save n c (Some x) = Some (snd <$> take m l) /\ (m <= Nat.min (Z.to_nat n) (length l))%nat /\
    (m = 0%nat \/ ends_at_transition x m) /\
    forall m', (0 < m' <= Nat.min (Z.to_nat n) (length l))%nat -> ends_at_transition x m' -> (m' <= m)%nat.
Proof.
  intros Hn H Hx. unfold blocks_to_save, ends_at_transition. rewrite (save_walk_line _ _ _ H), bind_Some_l.
  set (i0 := Nat.min (Z.to_nat n) (length l)).
  assert (Et : take (Z.to_nat n) l = take i0 l).
  { unfold i0. destruct (Nat.min_spec (Z.to_nat n) (length l)) as [[_ ->]|[Hge ->]]; [done|]. now rewrite !take_ge by lia. }
  rewrite Et, length_fmap, length_take, (Nat.min_l i0) by lia.
  assert (Ecut : forall i, (i <= i0)%nat -> take (Z.to_nat (Z.of_nat i)) (snd <$> take i0 l) = snd <$> take i l).
  { intros i Hi. now rewrite Nat2Z.id, <- fmap_take, take_take, Nat.min_l by lia. }
  destruct (decide (i0 = 0%nat)) as [E0|E0].
  { rewrite E0. exists 0%nat. cbn. split; [done|]. split; [lia|]. split; [now left|]. intros m' Hm'. lia. }
  destruct (last_height x l i0 H Hx ltac:(lia)) as (b & Eb & Hb). rewrite Eb, Hb.
  unfold BLOCK_DIFFICULTY_INTERVAL.
  set (hl := height (snd x) - (Z.of_nat i0 - 1)). pose proof (Z.mod_pos_bound hl 2016 eq_refl) as Rj.
  set (cut := if 0 <? hl mod 2016 then (if 2016 - hl mod 2016 <? Z.of_nat i0 then 2016 - hl mod 2016 else Z.of_nat i0) else 0).
  assert (Ei : (if 0 <? hl mod 2016 then Z.of_nat i0 - (if 2016 - hl mod 2016 <? Z.of_nat i0 then 2016 - hl mod 2016 else Z.of_nat i0)
                else Z.of_nat i0) = Z.of_nat (i0 - Z.to_nat cut)).
  { unfold cut. destruct (0 <? hl mod 2016) eqn:?; [destruct (2016 - hl mod 2016 <? Z.of_nat i0) eqn:?|]; lia. }
  rewrite Ei, Ecut by lia. set (m := (i0 - Z.to_nat cut)%nat) in *.
  assert (Hm : m = 0%nat \/ (height (snd x) - (Z.of_nat m - 1)) mod 2016 = 0).
  { subst m. unfold cut. destruct (Z.ltb_spec 0 (hl mod 2016)); [destruct (Z.ltb_spec (2016 - hl mod 2016) (Z.of_nat i0))|].
    - right. subst hl. zdiv_lia.
    - left. lia.
    - right. rewrite Nat.sub_0_r. fold hl. lia. }
  exists m. split; [|split; [lia|split; [exact Hm|]]].
  - destruct (decide (m = 0%nat)) as [->|Hm0]; [reflexivity|].
    destruct (last_height x l m H Hx ltac:(lia)) as (b' & Eb' & Hb'). rewrite Eb', Hb'.
    destruct Hm as [Hm|Hm]; [lia|]. now rewrite Hm.
  - intros m' Hm' E'. subst m. unfold cut.
    destruct (Z.ltb_spec 0 (hl mod 2016)); [destruct (Z.ltb_spec (2016 - hl mod 2016) (Z.of_nat i0))|]; subst hl; zdiv_lia.
Qed.
End line.

(** ** Changes of the chain *)

(** A block given to a handler: a live object that no table holds. *)
Record incoming (c : Chain) (x : Block) : Prop := {
  in_heap : heap c !! fst x = Some (snd x);
  in_unheld : unheld c (fst x);
  in_relayable : relayable (snd x);
}.

Lemma relayable_place b : relayable b -> height b = ht (blockHash b) -> in_place b.
Proof. intros [] E. constructor; auto. Qed.

(** What freeing blocks of the chain may change. *)
Record shrinks (c c' : Chain) : Prop := {
  sh_blocks : blocks c' ⊆ blocks c;
  sh_orphans : orphans c' = orphans c;
  sh_last : lastBlock c' = lastBlock c;
  sh_heap : forall r, heap c' !! r = heap c !! r \/ (heap c' !! r = None /\ exists h, blocks c !! h = Some r /\ blocks c' !! h = None);
  sh_gone : forall h r, blocks c !! h = Some r -> blocks c' !! h = None -> heap c' !! r = None;
}.

Lemma shrinks_refl c : shrinks c c.
Proof. constructor; auto. congruence. Qed.

Lemma shrinks_trans c c1 c2 : shrinks c c1 -> shrinks c1 c2 -> shrinks c c2.
Proof.
  intros [B1 O1 L1 H1 G1] [B2 O2 L2 H2 G2]. constructor; [now transitivity (blocks c1)|congruence|congruence| |].
  - intros r. destruct (H2 r) as [E|(N & h & Hb & Hn)].
    + rewrite E. destruct (H1 r) as [E'|(N' & h & Hb & Hn)]; [now left|]. right. split; [done|]. exists h. split; [done|].
      destruct (blocks c2 !! h) eqn:E2; [|done]. eapply lookup_weaken in E2; [|exact B2]. congruence.
    + right. split; [done|]. exists h. split; [|done]. eapply lookup_weaken; eauto.
  - intros h r Hb Hn. destruct (blocks c1 !! h) as [r'|] eqn:E1.
    + pose proof (lookup_weaken _ _ _ _ E1 B1). apply (G2 h r); [congruence|done].
    + specialize (G1 h r Hb E1). destruct (H2 r) as [->|[? _]]; done.
Qed.

Lemma shrinks_ok c c' : chain_core c -> shrinks c c' -> chain_core c'.
Proof.
  intros Hok [B O L Hh G]. split.
  - intros h r E. pose proof (lookup_weaken _ _ _ _ E B) as E'. destruct (ok_blocks c Hok _ _ E') as (b & Eb & Ehash & Hp).
    exists b. split; [|done]. destruct (Hh r) as [->|(_ & h' & Hb & Hn)]; [done|].
    destruct (ok_blocks c Hok _ _ Hb) as (b' & Eb' & Eh' & _). congruence.
  - intros h r E. rewrite O in E. destruct (ok_orphans c Hok _ _ E) as [(b & Eb & Hp) Hd]. split.
    + exists b. split; [|done]. destruct (Hh r) as [->|(_ & h' & Hb & _)]; [done|]. now destruct (Hd h').
    + intros h' E'. apply (Hd h'). eapply lookup_weaken; eauto.
Qed.

Lemma shrinks_last c c' : chain_core c -> last_ok c -> shrinks c c' -> last_ok c'.
Proof.
  intros Hok Hl [B O L Hh G] r b E Eb. rewrite L in E. destruct (Hh r) as [Er|(N & _)]; [|congruence].
  pose proof Eb as Eb'. rewrite Er in Eb'. specialize (Hl r b E Eb').
  destruct (blocks c' !! blockHash b) as [r'|] eqn:E'; [pose proof (lookup_weaken _ _ _ _ E' B); congruence|].
  specialize (G _ _ Hl E'). congruence.
Qed.

Lemma shrinks_unheld c c' r : shrinks c c' -> unheld c r -> unheld c' r.
Proof.
  intros [B O L Hh G] (Ub & Uo & Ul). split; [|split; [now rewrite O|now rewrite L]].
  intros h E. apply (Ub h). eapply lookup_weaken; eauto.
Qed.

Lemma shrinks_incoming c c' x : shrinks c c' -> incoming c x -> incoming c' x.
Proof.
  intros Hs [Hh Hu Hr]. constructor; [|eapply shrinks_unheld; eauto|done].
  destruct (sh_heap _ _ Hs (fst x)) as [->|(_ & h & Hb & _)]; [done|]. destruct Hu as [Ub _]. now destruct (Ub h).
Qed.

(** The object found is live and under its hash. *)
Lemma block_get_chain c h x : chain_core c -> block_get c h = Some (Some x) -> in_chain c x /\ blockHash (snd x) = h.
Proof. intros Hok E. destruct (block_get_total c Hok h) as (o & E' & Ho). rewrite E in E'. injection E' as <-. exact Ho. Qed.

Lemma free_shrinks c x : chain_core c -> in_chain c x ->
  shrinks c (set_heap (delete (fst x) (heap c)) (set_blocks (delete (blockHash (snd x)) (blocks c)) c)).
Proof.
  intros Hok [Hb Hh]. constructor; cbn; [apply delete_subseteq|done|done| |].
  - intros r. destruct (decide (r = fst x)) as [->|Hne]; [|left; now rewrite lookup_delete_ne].
    right. rewrite lookup_delete_eq. split; [done|]. exists (blockHash (snd x)). now rewrite lookup_delete_eq.
  - intros h r E N. destruct (decide (h = blockHash (snd x))) as [->|Hne]; [|rewrite lookup_delete_ne in N by done; congruence].
    assert (r = fst x) as -> by congruence. apply lookup_delete_eq.
Qed.

Lemma free_before_shrinks fuel interval : forall c prev c', chain_core c ->
  free_before fuel interval c prev = Some c' -> shrinks c c'.
Proof.
  induction fuel as [|fuel IH]; intros c prev c' Hok; cbn [free_before].
  all: destruct (block_get c prev) as [[[r b]|]|] eqn:E; try discriminate; rewrite ?bind_Some_l.
  1, 3: intros [= <-]; apply shrinks_refl.
  destruct (height b mod interval =? 0); [rewrite bind_Some_l; now apply IH|].
  destruct (block_get_chain c prev (r, b) Hok E) as [Hin _]. pose proof (free_shrinks c (r, b) Hok Hin) as Hs. cbn [fst snd] in Hs.
  unfold free_block. cbn [heap set_blocks]. destruct Hin as [_ Hh]. cbn [fst snd] in Hh. rewrite Hh, !bind_Some_l.
  intros H. eapply shrinks_trans; [exact Hs|]. eapply IH; [|exact H]. now apply (shrinks_ok c).
Qed.

Lemma shrinks_pastCount c n : shrinks c (set_pastCount n c).
Proof. constructor; cbn; auto. congruence. Qed.

Lemma verify_shrinks block prev c r c' : chain_core c -> _BRPeerManagerVerifyBlock block prev c = Some (r, c') -> shrinks c c'.
Proof.
  intros Hok. unfold _BRPeerManagerVerifyBlock.
  destruct (if _ =? 0 then _ else _) as [[r0 c0]|] eqn:E0; [|discriminate]. rewrite bind_Some_l.
  assert (Hs : shrinks c c0).
  { destruct (_ =? 0); [|injection E0 as <- <-; apply shrinks_refl].
    destruct (walk_back _ _ _) as [[[r1 b1]|]|]; [|injection E0 as <- <-; apply shrinks_refl|discriminate].
    rewrite bind_Some_l in E0. destruct (free_before _ _ _ _) as [c1|] eqn:E1; [|discriminate].
    injection E0 as <- <-. now apply (free_before_shrinks _ _ _ _ _ Hok E1). }
  destruct r0; [|intros [= <- <-]; exact Hs].
  destruct (BRMerkleBlockVerifyDifficulty _ _ _ _) as [[r1 n]|]; [|discriminate]. rewrite bind_Some_l.
  pose proof (shrinks_trans _ _ _ Hs (shrinks_pastCount c0 n)) as Hs'.
  destruct r1; [|intros [= <- <-]; exact Hs'].
  destruct (block_ref _ _) as [[k|]|]; [| |discriminate]; rewrite bind_Some_l; intros [= <- <-]; exact Hs'.
Qed.

(** *** The tables *)

Lemma set_heap_core c r b : chain_core c -> unheld c r -> chain_core (set_heap (<[r := b]> (heap c)) c).
Proof.
  intros Hok (Ub & Uo & Ul). split; cbn [set_heap heap blocks orphans].
  - intros h r' E. rewrite lookup_insert_ne by (intros ->; now destruct (Ub h)). now apply (ok_blocks c Hok).
  - intros h r' E. rewrite lookup_insert_ne by (intros ->; now destruct (Uo h)). now apply (ok_orphans c Hok).
Qed.

Lemma free_unheld_ok c r c' : chain_ok c -> unheld c r -> free_block r c = Some c' -> chain_ok c'.
Proof.
  intros [Hok Hl] (Ub & Uo & Ul). unfold free_block. destruct (heap c !! r); [rewrite bind_Some_l; intros [= <-]|discriminate].
  split; [split|]; cbn [set_heap heap blocks orphans lastBlock].
  - intros h r' E. rewrite lookup_delete_ne by (intros ->; now destruct (Ub h)). now apply (ok_blocks c Hok).
  - intros h r' E. rewrite lookup_delete_ne by (intros ->; now destruct (Uo h)). now apply (ok_orphans c Hok).
  - intros r' b' E Eb. cbn in E. cbn [set_heap heap] in Eb. apply lookup_delete_Some in Eb as [_ Eb]. exact (Hl r' b' E Eb).
Qed.

(** Adding a block to the chain; what was under its hash is returned. *)
Lemma add_block_core c x o c' : chain_core c -> heap c !! fst x = Some (snd x) -> in_place (snd x) ->
  (forall h, orphans c !! h <> Some (fst x)) -> add_block x c = Some (o, c') ->
  chain_core c' /\ in_chain c' x /\ block_get c (blockHash (snd x)) = Some o /\
  c' = set_blocks (<[blockHash (snd x) := fst x]> (blocks c)) c.
Proof.
  intros Hok Hh Hp Ho. unfold add_block. destruct (block_get c (blockHash (snd x))) as [o'|] eqn:E; [|discriminate].
  rewrite bind_Some_l. intros [= <- <-]. split; [|split; [|done]].
  - split; cbn [set_blocks heap blocks orphans].
    + intros h r. rewrite lookup_insert. case_decide as Hd; [intros [= <-]; eauto|]. apply (ok_blocks c Hok).
    + intros h r E'. destruct (ok_orphans c Hok _ _ E') as [Hr Hd]. split; [exact Hr|]. intros h'. rewrite lookup_insert.
      case_decide as Hd'; [intros [= E1]; apply (Ho h); congruence|apply Hd].
  - split; cbn [set_blocks heap blocks]; [apply lookup_insert_eq|exact Hh].
Qed.

Lemma set_last_ok c x : chain_core c -> in_chain c x -> chain_ok (set_lastBlock (Some (fst x)) c).
Proof.
  intros Hok [Hb Hh]. split; [now destruct Hok; split|].
  intros r b [= <-] Eb. cbn in Eb. cbn [set_lastBlock blocks]. congruence.
Qed.

Lemma add_orphan_ok c x c' : chain_ok c -> incoming c x -> add_orphan x c = Some c' ->
  chain_ok c' /\ orphans c' = <[prevBlock (snd x) := fst x]> (orphans c) /\ heap c' = heap c /\ blocks c' = blocks c.
Proof.
  intros [Hok Hl] [Hh (Ub & Uo & Ul) Hr]. unfold add_orphan. destruct (orphan_get c (prevBlock (snd x))); [|discriminate].
  rewrite bind_Some_l. intros [= <-]. split; [|done]. split; [split|exact Hl]; cbn [set_orphans heap blocks orphans].
  - apply (ok_blocks c Hok).
  - intros h r. rewrite lookup_insert. case_decide as Hd; [intros [= <-]; split; [eauto|exact Ub]|]. apply (ok_orphans c Hok).
Qed.

Lemma remove_orphan_ok c h o c' : chain_ok c -> remove_orphan h c = Some (o, c') ->
  chain_ok c' /\ orphan_get c h = Some o /\ orphans c' = delete h (orphans c) /\ heap c' = heap c /\
  match o with Some x => incoming c' x /\ prevBlock (snd x) = h /\ orphans c !! h = Some (fst x) | None => True end.
Proof.
  intros [Hok Hl]. unfold remove_orphan. destruct (orphan_get_total c Hok h) as (o' & E & Ho). rewrite E, bind_Some_l.
  intros [= <- <-]. split; [|split; [done|split; [done|split; [done|]]]].
  - split; [split|exact Hl]; cbn [set_orphans heap blocks orphans]; [apply (ok_blocks c Hok)|].
    intros h' r E'. apply lookup_delete_Some in E' as [_ E']. now apply (ok_orphans c Hok).
  - destruct o' as [x|]; [|done]. destruct Ho as (Hx & Hh & Hp & Hr). split; [|done].
    constructor; cbn [set_orphans heap]; [done| |done]. destruct (ok_orphans c Hok _ _ Hx) as [_ Hd].
    split; [exact Hd|split]; cbn [set_orphans orphans lastBlock].
    + intros h' E'. apply lookup_delete_Some in E' as [Hne E']. destruct (ok_orphans c Hok _ _ E') as [(b & Eb & Ep & _) _]. congruence.
    + intros El. exact (Hd _ (Hl _ _ El Hh)).
Qed.

(** [BRMerkleBlockEq] on blocks of the chain. *)
Lemma chain_eq c x y : chain_core c -> in_chain c x -> in_chain c y ->
  (fst x =? fst y)%nat || UInt256Eq (blockHash (snd x)) (blockHash (snd y)) = bool_decide (x = y).
Proof.
  intros Hok Hx Hy. destruct (in_chain_place c Hok x Hx) as [_ [Ux _] _ _], (in_chain_place c Hok y Hy) as [_ [Uy _] _ _].
  rewrite UInt256Eq_spec by done. apply eq_true_iff_eq. rewrite orb_true_iff, Nat.eqb_eq, Z.eqb_eq, bool_decide_eq_true.
  split; [|intros ->; now left]. intros [E|E]; [|now apply (in_chain_hash c)].
  destruct Hx as [_ Hx], Hy as [_ Hy]. destruct x, y; cbn in *. congruence.
Qed.

(** The walk of a reorganisation ends at the first block of the fork that is on the other chain. *)
Lemma join_walk_line (Hht : heights_bounded) c (Hok : chain_core c) z : forall i x y lb ll fuel k,
  line c (Some x) lb -> line c (Some y) ll -> in_chain c x -> in_chain c y -> height (snd y) <= height (snd x) ->
  lb !! i = Some z -> ll !! k = Some z -> (forall i' w, (i' < i)%nat -> lb !! i' = Some w -> w ∉ ll) -> (i < fuel)%nat ->
  join_walk fuel c (Some x) (Some y) = Some (Some z, Some z).
Proof.
  induction i as [|i IH]; intros x y lb ll fuel k Hb Hl Hx Hy Hh Ei Ek Hno Hf; destruct fuel as [|fuel]; try lia.
  all: pose proof (line_lookup c Hok y ll Hl Hy k z Ek) as [Hz Hzh]; pose proof (line_head _ _ _ Hb) as Hbh; pose proof (line_head _ _ _ Hl) as Hlh.
  all: destruct x as [rx bx], y as [ry yb]; cbn [join_walk snd fst] in *; pose proof (chain_eq c (rx, bx) (ry, yb) Hok Hx Hy) as Eq;
    cbn [fst snd] in Eq; rewrite Eq; clear Eq.
  - destruct lb as [|w lb]; [discriminate|]. cbn in Hbh, Ei. injection Hbh as ->. injection Ei as <-. cbn [snd] in Hzh.
    destruct k as [|k]; [|lia]. destruct ll as [|w ll]; [discriminate|]. cbn in Hlh, Ek. injection Hlh as ->. injection Ek as [= -> ->].
    rewrite bool_decide_true by done. reflexivity.
  - destruct lb as [|w lb]; [discriminate|]. cbn in Hbh. injection Hbh as ->.
    destruct ll as [|w ll]; [discriminate|]. cbn in Hlh. injection Hlh as ->.
    assert (Hne : (rx, bx) <> (ry, yb)). { intros E. apply (Hno 0%nat _ ltac:(lia) eq_refl). rewrite E. left. }
    rewrite bool_decide_false by exact Hne. destruct (line_next c _ _ Hb) as [Eb Hb']. cbn [snd] in Eb. rewrite Eb, bind_Some_l.
    cbn [lookup list_lookup] in Ei. destruct lb as [|x1 lb]; [discriminate|]. cbn [head] in *.
    destruct (parent_height c Hok _ _ Hx Eb) as (Hx1 & Hx1h & _). cbn [snd] in Hx1h.
    pose proof (line_lookup c Hok x1 (x1 :: lb) Hb' Hx1 i z Ei) as [_ Hzh2]. destruct x1 as [r1 b1]. cbn [snd] in *.
    destruct (Z.ltb_spec (height b1) (height yb)).
    + destruct k as [|k]; [lia|]. destruct (line_next c _ _ Hl) as [Ey Hl']. cbn [snd] in Ey. rewrite Ey, bind_Some_l.
      cbn [lookup list_lookup] in Ek. destruct ll as [|y1 ll]; [discriminate|]. cbn [head] in *.
      destruct (parent_height c Hok _ _ Hy Ey) as (Hy1 & Hy1h & _). cbn [snd] in Hy1h.
      apply (IH _ _ _ (y1 :: ll) fuel k Hb' Hl' Hx1 Hy1); [cbn [snd]; lia|exact Ei|exact Ek| |lia].
      intros i' w Hi' Hw Hin. apply (Hno (S i') w ltac:(lia) Hw). now right.
    + rewrite bind_Some_l. apply (IH _ _ _ ((ry, yb) :: ll) fuel k Hb' Hl Hx1 Hy); [cbn [snd]; lia|exact Ei|exact Ek| |lia].
      intros i' w Hi' Hw. apply (Hno (S i') w ltac:(lia) Hw).
Qed.

(** *** Freeing all orphans *)

Lemma free_all rs : forall c c', for_each (fun c r => free_block r c) c rs = Some c' ->
  blocks c' = blocks c /\ orphans c' = orphans c /\ lastBlock c' = lastBlock c /\
  (forall r b, heap c' !! r = Some b -> heap c !! r = Some b) /\ forall r, r ∉ rs -> heap c' !! r = heap c !! r.
Proof.
  induction rs as [|r rs IH]; intros c c'; cbn [for_each]; [intros [= <-]; done|].
  destruct (free_block r c) as [c1|] eqn:E1; [rewrite bind_Some_l|discriminate]. intros H.
  unfold free_block in E1. destruct (heap c !! r) eqn:E; [rewrite bind_Some_l in E1; injection E1 as <-|discriminate].
  destruct (IH _ _ H) as (Eb & Eo & El & Hw & Hk). cbn [set_heap blocks orphans lastBlock heap] in *.
  do 3 (split; [done|]). split.
  - intros r' b' Hr'. specialize (Hw r' b' Hr'). now apply lookup_delete_Some in Hw as [_ ?].
  - intros r' Hr'. apply not_elem_of_cons in Hr' as [Hne Hr']. rewrite Hk by done. now apply lookup_delete_ne.
Qed.

(** The new object replaces the one with its hash. *)
Lemma free_detached c r c' : chain_ok c -> (forall h, blocks c !! h <> Some r) -> (forall h, orphans c !! h <> Some r) ->
  free_block r c = Some c' -> chain_ok c'.
Proof.
  intros [Hok Hl] Ub Uo. unfold free_block. destruct (heap c !! r); [rewrite bind_Some_l; intros [= <-]|discriminate].
  split; [split|]; cbn [set_heap heap blocks orphans lastBlock].
  - intros h r' E. rewrite lookup_delete_ne by (intros ->; now destruct (Ub h)). now apply (ok_blocks c Hok).
  - intros h r' E. rewrite lookup_delete_ne by (intros ->; now destruct (Uo h)). now apply (ok_orphans c Hok).
  - intros r' b' E Eb. cbn in E. cbn [set_heap heap] in Eb. apply lookup_delete_Some in Eb as [_ Eb]. exact (Hl r' b' E Eb).
Qed.

Lemma set_lastOrphan_ok c r : chain_ok c -> chain_ok (set_lastOrphan r c).
Proof. intros [[Hb Ho] Hl]. split; [split; [exact Hb|exact Ho]|exact Hl]. Qed.

Lemma set_estimated_ok c h : chain_ok c -> chain_ok (set_estimated h c).
Proof. intros [[Hb Ho] Hl]. split; [split; [exact Hb|exact Ho]|exact Hl]. Qed.

Lemma delete_orphan_ok c h : chain_ok c -> chain_ok (set_orphans (delete h (orphans c)) c).
Proof.
  intros [[Hb Ho] Hl]. split; [split|exact Hl]; [exact Hb|]. intros h' r E. cbn in E. apply lookup_delete_Some in E as [_ E].
  now apply Ho.
Qed.

(** *** Nothing is freed once the interval is 1 *)

Lemma free_before_one c l : forall fuel h o, block_get c h = Some o -> line c o l -> (length l < fuel)%nat ->
  free_before fuel DGW_BLOCK_DIFFICULTY_INTERVAL c h = Some c.
Proof.
  induction l as [|x l IH]; intros fuel h o E H Hf; destruct fuel as [|fuel]; cbn [length] in Hf; try lia; cbn [free_before].
  - rewrite E, bind_Some_l. pose proof (line_head _ _ _ H) as <-. reflexivity.
  - rewrite E, bind_Some_l. pose proof (line_head _ _ _ H) as <-. cbn [head]. destruct (line_next _ _ _ H) as [Eg Hl]. destruct x as [r b].
    unfold DGW_BLOCK_DIFFICULTY_INTERVAL in *. rewrite Z.mod_1_r. cbn [Z.eqb]. rewrite bind_Some_l. exact (IH fuel _ _ Eg Hl ltac:(lia)).
Qed.

(** From the start of the new rule on, a block is checked against its parent's line and the checkpoints only. *)
Lemma verify_dgw (Hht : heights_bounded) c blk pv v n : chain_core c -> in_chain c pv -> prevBlock (snd blk) = blockHash (snd pv) ->
  DGW_START_BLOCK <= height (snd blk) ->
  BRMerkleBlockVerifyDifficulty (snd blk) (snd pv) c (pastCount c) = Some (v, n) -> checkpoints c !! height (snd blk) = None ->
  _BRPeerManagerVerifyBlock blk pv c = Some (v, set_pastCount n c).
Proof.
  intros Hok Hpv Hp Hh Hd Hk. unfold _BRPeerManagerVerifyBlock, difficulty_interval. rewrite (proj2 (Z.ltb_ge _ _) Hh). cbv zeta.
  unfold DGW_BLOCK_DIFFICULTY_INTERVAL. rewrite Z.mod_1_r. cbn [Z.eqb]. change (Z.to_nat 1) with 1%nat. destruct blk as [r b]. cbn [walk_back snd] in *.
  rewrite Hp, (in_chain_get c pv Hpv), !bind_Some_l. destruct (line_exists Hht c Hok pv Hpv) as [l Hl].
  pose proof (line_length Hht c Hok pv l Hl Hpv) as [_ Hlen]. inversion Hl as [|? prev l' Eg Hl']; subst.
  destruct pv as [rp pb]. cbn [snd length] in *. cbn [walk_back]. rewrite ?bind_Some_l.
  pose proof (free_before_one c l' (S (size (blocks c))) _ _ Eg Hl' ltac:(lia)) as Ef. unfold DGW_BLOCK_DIFFICULTY_INTERVAL in Ef.
  rewrite Ef, !bind_Some_l, Hd, bind_Some_l. destruct v; [|done].
  cbn [set_pastCount checkpoints]. rewrite Hk. reflexivity.
Qed.
End chain.
