(* ===== verification/PeerProofs.v ===== *)
(** * PeerProofs: every handler of the peer manager keeps its block chain

    A handler [ensures] a postcondition of the chain when it returns; most are [neutral], the others keep
    the chain of PeerChain well formed, whatever the peers send. *)
From stdpp Require Import base numbers list gmap sets fin_maps.
From Stdlib Require Import ZArith Lia.
From S2P Require Import Prelude CMem Int Address Transaction MerkleBlock Bloom Sequence Wallet WalletOps PeerManager PeerHandlers PeerChain.
Local Open Scope Z_scope.

(** ** Postconditions *)

Definition ensures {A} (P : Chain -> Prop) (x : M A) (Q : A -> Chain -> Prop) : Prop :=
  forall m a m', P (chain m) -> x m = Some (a, m') -> Q a (chain m').

(** The chain is left alone. *)
Definition neutral {A} (x : M A) : Prop := forall m a m', x m = Some (a, m') -> chain m' = chain m.

Lemma bind_run {A B} (x : M A) (f : A -> M B) m r : (x ≫= f) m = Some r -> exists a m1, x m = Some (a, m1) /\ f a m1 = Some r.
Proof. unfold mbind, M_bind. destruct (x m) as [[a m1]|]; [rewrite bind_Some_l; eauto|discriminate]. Qed.

Lemma run_bind {A B} (x : M A) (f : A -> M B) m a m1 : x m = Some (a, m1) -> (x ≫= f) m = f a m1.
Proof. intros E. unfold mbind, M_bind. now rewrite E, bind_Some_l. Qed.

Lemma ens_bind {A B} P (x : M A) Q (f : A -> M B) R :
  ensures P x Q -> (forall a, ensures (Q a) (f a) R) -> ensures P (x ≫= f) R.
Proof. intros Hx Hf m a m' HP H. apply bind_run in H as (a1 & m1 & H1 & H2). exact (Hf a1 m1 a m' (Hx m a1 m1 HP H1) H2). Qed.

Lemma ens_weaken {A} (P P' : Chain -> Prop) (x : M A) (Q Q' : A -> Chain -> Prop) :
  ensures P x Q -> (forall c, P' c -> P c) -> (forall a c, Q a c -> Q' a c) -> ensures P' x Q'.
Proof. intros H HP HQ m a m' Hm E. apply HQ, (H m a m'); auto. Qed.

Lemma ens_neutral {A} P (x : M A) : neutral x -> ensures P x (fun _ => P).
Proof. intros H m a m' HP E. now rewrite (H m a m' E). Qed.

Lemma ens_ret {A} (P : Chain -> Prop) (a : A) (Q : A -> Chain -> Prop) : (forall c, P c -> Q a c) -> ensures P (mret a) Q.
Proof. intros H m a' m' HP [= <- <-]. auto. Qed.

(** A fact about the chain that is known before. *)
Lemma ens_look {A} (P : Chain -> Prop) (f : Chain -> option A) : ensures P (look f) (fun a c => P c /\ f c = Some a).
Proof. intros m a m' HP. unfold look. destruct (f (chain m)) as [a'|] eqn:E; [rewrite bind_Some_l; intros [= <- <-]; auto|discriminate]. Qed.

Lemma ens_on_chain {A} (P : Chain -> Prop) (f : Chain -> option (A * Chain)) Q :
  (forall c a c', P c -> f c = Some (a, c') -> Q a c') -> ensures P (on_chain f) Q.
Proof.
  intros H m a m' HP. unfold on_chain. destruct (f (chain m)) as [[a' c']|] eqn:E; [rewrite bind_Some_l|discriminate].
  intros [= <- <-]. exact (H _ _ _ HP E).
Qed.

Lemma ens_update (P : Chain -> Prop) (f : Chain -> option Chain) (Q : Chain -> Prop) :
  (forall c c', P c -> f c = Some c' -> Q c') -> ensures P (update_chain f) (fun _ => Q).
Proof.
  intros H. apply ens_on_chain. intros c a c' HP. destruct (f c) as [c1|] eqn:E; [rewrite bind_Some_l|discriminate].
  intros [= _ <-]. exact (H _ _ HP E).
Qed.

Lemma ens_when P b (x : M unit) (Q : Chain -> Prop) :
  ensures P x (fun _ => Q) -> (forall c, P c -> Q c) -> ensures P (when b x) (fun _ => Q).
Proof. intros Hx H. destruct b; cbn [when]; [exact Hx|now apply ens_ret]. Qed.

Lemma ens_each {A} P (f : A -> M unit) l : (forall a, ensures P (f a) (fun _ => P)) -> ensures P (each f l) (fun _ => P).
Proof. intros H. induction l as [|a l IH]; cbn [each]; [now apply ens_ret|]. now apply (ens_bind _ _ (fun _ => P)). Qed.

Lemma ens_neutral_then {A B} P (x : M A) (f : A -> M B) R : neutral x -> (forall a, ensures P (f a) R) -> ensures P (x ≫= f) R.
Proof. intros Hx. apply ens_bind. now apply ens_neutral. Qed.

Lemma ens_look_then {A B} (P : Chain -> Prop) (f : Chain -> option A) (k : A -> M B) R :
  (forall a, ensures (fun c => P c /\ f c = Some a) (k a) R) -> ensures P (look f ≫= k) R.
Proof. apply ens_bind. apply ens_look. Qed.

Lemma ens_try_then {A B} (P : Chain -> Prop) (o : option A) (k : A -> M B) R :
  (forall a, o = Some a -> ensures P (k a) R) -> ensures P (try o ≫= k) R.
Proof.
  intros Hk m b m' HP Hr. apply bind_run in Hr as (a & m1 & H1 & H2). unfold try in H1.
  destruct o as [a'|]; [rewrite bind_Some_l in H1; injection H1 as <- <-|discriminate]. exact (Hk a' eq_refl m b m' HP H2).
Qed.

Lemma ens_update_then {B} (P : Chain -> Prop) f (Q : Chain -> Prop) (k : unit -> M B) R :
  (forall c c', P c -> f c = Some c' -> Q c') -> ensures Q (k tt) R -> ensures P (update_chain f ≫= k) R.
Proof. intros Hf Hk. eapply ens_bind; [apply (ens_update P f Q Hf)|]. intros []. exact Hk. Qed.

(** ** Neutral operations *)

Lemma neutral_bind {A B} (x : M A) (f : A -> M B) : neutral x -> (forall a, neutral (f a)) -> neutral (x ≫= f).
Proof. intros Hx Hf m a m' H. apply bind_run in H as (a1 & m1 & H1 & H2). now rewrite (Hf _ _ _ _ H2), (Hx _ _ _ H1). Qed.

Lemma neutral_ret {A} (a : A) : neutral (mret a).
Proof. now intros m a' m' [= <- <-]. Qed.

Lemma neutral_gets {A} (f : Manager -> A) : neutral (gets f).
Proof. now intros m a m' [= <- <-]. Qed.

Lemma neutral_modify f : (forall m, chain (f m) = chain m) -> neutral (modify f).
Proof. intros H m a m' [= <- <-]. apply H. Qed.

Lemma neutral_try {A} (o : option A) : neutral (try o).
Proof. intros m a m'. unfold try. destruct o; [rewrite bind_Some_l; now intros [= <- <-]|discriminate]. Qed.

Lemma neutral_look {A} (f : Chain -> option A) : neutral (look f).
Proof. intros m a m'. unfold look. destruct (f _); [rewrite bind_Some_l; now intros [= <- <-]|discriminate]. Qed.

Lemma neutral_last : neutral last_of.
Proof. apply neutral_look. Qed.

Lemma neutral_emit a : neutral (emit a).
Proof. now apply neutral_modify. Qed.

Lemma neutral_on_net f : neutral (on_net f).
Proof. now apply neutral_modify. Qed.

Lemma neutral_wallet f : neutral (on_wallet f).
Proof. intros m a m'. unfold on_wallet. destruct (f _) as [[w es]|]; [rewrite bind_Some_l; now intros [= <- <-]|discriminate]. Qed.

Lemma neutral_move : neutral next_move.
Proof. now intros m a m' [= <- <-]. Qed.

Lemma neutral_peer p : neutral (peer_at p).
Proof. intros m a m'. unfold peer_at. destruct (_ !! _); [rewrite bind_Some_l; now intros [= <- <-]|discriminate]. Qed.

Lemma neutral_when b x : neutral x -> neutral (when b x).
Proof. intros H. destruct b; [exact H|apply neutral_ret]. Qed.

Lemma neutral_each {A} (f : A -> M unit) l : (forall a, neutral (f a)) -> neutral (each f l).
Proof. intros H. induction l; cbn [each]; [apply neutral_ret|]. now apply neutral_bind. Qed.

Create HintDb neutral_db discriminated.
#[export] Hint Resolve neutral_ret neutral_gets neutral_try neutral_look neutral_last neutral_emit neutral_on_net
  neutral_wallet neutral_move neutral_peer : neutral_db.

Ltac neutral_tac :=
  lazymatch goal with
  | |- neutral (_ ≫= _) => apply neutral_bind; [neutral_tac|let a := fresh "a" in intros a; try destruct a; neutral_tac]
  | |- neutral (when _ _) => apply neutral_when; neutral_tac
  | |- neutral (each _ _) => apply neutral_each; intros ?; neutral_tac
  | |- neutral (modify _) => apply neutral_modify; intros ?; reflexivity
  | |- neutral skip => apply neutral_ret
  | |- neutral (match ?x with _ => _ end) => destruct x; neutral_tac
  | |- neutral (let _ := _ in _) => cbv zeta; neutral_tac
  | |- _ => solve [auto with neutral_db]
  end.

Section handlers.
Context `{AddressChain} (checkpoint_array : list Checkpoint) (now : Z) (bloom_size : double -> Z -> Z) (bloom_funcs : Z -> Z -> Z).
Context (sort_peers : list BRPeer -> list BRPeer).

Lemma neutral_update_peer p f : neutral (update_peer p f).
Proof. unfold update_peer. neutral_tac. Qed.
Hint Resolve neutral_update_peer : neutral_db.

Lemma neutral_misbehavin p : neutral (_BRPeerManagerPeerMisbehavin p).
Proof. unfold _BRPeerManagerPeerMisbehavin. neutral_tac. Qed.

Lemma neutral_syncStopped : neutral _BRPeerManagerSyncStopped.
Proof. unfold _BRPeerManagerSyncStopped. neutral_tac. Qed.

Lemma neutral_publish p : neutral (_BRPeerManagerPublishPendingTx p).
Proof. unfold _BRPeerManagerPublishPendingTx. neutral_tac. Qed.

Lemma neutral_updateFilter : neutral _BRPeerManagerUpdateFilter.
Proof. unfold _BRPeerManagerUpdateFilter. neutral_tac. Qed.

Lemma neutral_updateTx hs h t : neutral (_BRPeerManagerUpdateTx now hs h t).
Proof. unfold _BRPeerManagerUpdateTx. neutral_tac. Qed.

Lemma neutral_send_mempool p : neutral (send_mempool p).
Proof. unfold send_mempool. neutral_tac. Qed.

Lemma neutral_requestUnrelayed p : neutral (_BRPeerManagerRequestUnrelayedTx p).
Proof. unfold _BRPeerManagerRequestUnrelayedTx. neutral_tac. Qed.

Lemma neutral_reschedule p : neutral (reschedule p).
Proof. unfold reschedule. neutral_tac. Qed.
Hint Resolve neutral_misbehavin neutral_syncStopped neutral_publish neutral_updateFilter neutral_updateTx
  neutral_send_mempool neutral_requestUnrelayed neutral_reschedule : neutral_db.

Lemma neutral_track p b hs : neutral (track_rate p b hs).
Proof. unfold track_rate. neutral_tac. Qed.

Lemma neutral_check_unrelayed h : neutral (check_unrelayed now h).
Proof. unfold check_unrelayed. neutral_tac. Qed.

Lemma neutral_confirm e : neutral (confirm_block now e).
Proof. unfold confirm_block. neutral_tac. Qed.

Lemma neutral_findPeers : neutral (_BRPeerManagerFindPeers now sort_peers).
Proof. unfold _BRPeerManagerFindPeers. neutral_tac. Qed.

Lemma neutral_draw_peer ps : neutral (draw_peer ps).
Proof. unfold draw_peer. neutral_tac. Qed.
Hint Resolve neutral_track neutral_check_unrelayed neutral_confirm neutral_findPeers neutral_draw_peer : neutral_db.

Lemma neutral_draw_peers fuel : forall ps, neutral (draw_peers fuel ps).
Proof. induction fuel as [|fuel IH]; intros ps; cbn [draw_peers]; neutral_tac. Qed.
Hint Resolve neutral_draw_peers : neutral_db.

Lemma neutral_connect : neutral (BRPeerManagerConnect now sort_peers).
Proof. unfold BRPeerManagerConnect. neutral_tac. Qed.
Hint Resolve neutral_connect : neutral_db.

Lemma neutral_disconnected p e : neutral (_peerDisconnected now sort_peers p e).
Proof. unfold _peerDisconnected, cancel_published. neutral_tac. Qed.

Lemma neutral_getdataDone p b : neutral (_requestUnrelayedTxGetdataDone now p b).
Proof. unfold _requestUnrelayedTxGetdataDone. neutral_tac. Qed.

Lemma neutral_rerequestDone p b : neutral (_updateFilterRerequestDone checkpoint_array p b).
Proof. unfold _updateFilterRerequestDone. neutral_tac. Qed.

Lemma neutral_loadDone p b : neutral (_updateFilterLoadDone p b).
Proof. unfold _updateFilterLoadDone. neutral_tac. Qed.

Lemma neutral_mempoolDone p b : neutral (_mempoolDone p b).
Proof. unfold _mempoolDone. neutral_tac. Qed.

Lemma neutral_filterDone p b : neutral (_loadBloomFilterDone p b).
Proof. unfold _loadBloomFilterDone. neutral_tac. Qed.

Lemma neutral_relayedPeers p l : neutral (_peerRelayedPeers now sort_peers p l).
Proof. unfold _peerRelayedPeers. neutral_tac. Qed.

Lemma neutral_notfound p l : neutral (_peerDataNotfound p l).
Proof. unfold _peerDataNotfound. neutral_tac. Qed.

Lemma neutral_setFee p f : neutral (_peerSetFeePerKb p f).
Proof. unfold _peerSetFeePerKb. neutral_tac. Qed.
End handlers.
#[export] Hint Resolve neutral_update_peer neutral_misbehavin neutral_syncStopped neutral_publish neutral_updateFilter neutral_updateTx
  neutral_send_mempool neutral_requestUnrelayed neutral_reschedule neutral_track neutral_check_unrelayed neutral_confirm
  neutral_findPeers neutral_draw_peers neutral_connect neutral_disconnected neutral_getdataDone neutral_rerequestDone
  neutral_loadDone neutral_mempoolDone neutral_filterDone neutral_relayedPeers neutral_notfound neutral_setFee : neutral_db.

(** ** Operations that free orphans *)

Section keeps.
Context (ht : Z -> Z) `{AddressChain} (checkpoint_array : list Checkpoint) (now : Z).
Context (bloom_size : double -> Z -> Z) (bloom_funcs : Z -> Z -> Z) (sort_peers : list BRPeer -> list BRPeer).

(** The invariant, with a bound on the keys of the orphans and the object of one pointer. *)
Record good (D : gset Z) (x : Block) (c : Chain) : Prop := {
  g_ok : chain_ok ht c;
  g_orphans : dom (orphans c) ⊆ D;
  g_heap : forall b, heap c !! fst x = Some b -> b = snd x;
}.

Definition keeps {A} (x : M A) : Prop := forall D y, ensures (good D y) x (fun _ => good D y).

Lemma keeps_neutral {A} (x : M A) : neutral x -> keeps x.
Proof. intros Hx D y. now apply ens_neutral. Qed.

Lemma keeps_bind {A B} (x : M A) (f : A -> M B) : keeps x -> (forall a, keeps (f a)) -> keeps (x ≫= f).
Proof. intros Hx Hf D y. eapply ens_bind; [apply Hx|intros a; apply Hf]. Qed.

Lemma keeps_when b x : keeps x -> keeps (when b x).
Proof. intros Hx D y. apply ens_when; [apply Hx|auto]. Qed.

Lemma keeps_each {A} (f : A -> M unit) l : (forall a, keeps (f a)) -> keeps (each f l).
Proof. intros Hf D y. apply ens_each. intros a. apply Hf. Qed.

(** A change of the chain that keeps the invariant, adds no orphan and no object. *)
Lemma keeps_update f :
  (forall c c', chain_ok ht c -> f c = Some c' -> chain_ok ht c' /\ dom (orphans c') ⊆ dom (orphans c) /\
     forall r b, heap c' !! r = Some b -> heap c !! r = Some b) -> keeps (update_chain f).
Proof.
  intros Hf D y. apply ens_update. intros c c' [Hok Ho Hh] E. destruct (Hf c c' Hok E) as (Hok' & Ho' & Hh').
  constructor; [done|now transitivity (dom (orphans c))|eauto].
Qed.

Lemma clear_orphans_ok c c' : chain_ok ht c -> clear_orphans c = Some c' ->
  chain_ok ht c' /\ orphans c' = ∅ /\ (forall r b, heap c' !! r = Some b -> heap c !! r = Some b) /\
  blocks c' = blocks c /\ lastBlock c' = lastBlock c.
Proof.
  intros [Hok Hl]. unfold clear_orphans.
  destruct (for_each _ c _) as [c1|] eqn:E; [rewrite bind_Some_l; intros [= <-]|discriminate].
  destruct (free_all _ _ _ E) as (Eb & Eo & El & Hw & Hk).
  split; [split; [split|]|done]; cbn [set_lastOrphan set_orphans heap blocks orphans lastBlock].
  - intros h r E'. rewrite Eb in E'. rewrite Hk; [now apply (ok_blocks ht c Hok)|].
    intros Hr. apply list_elem_of_fmap in Hr as ([k r'] & Er & Hin). cbn in Er. subst r'. apply elem_of_map_to_list in Hin.
    destruct (ok_orphans ht c Hok _ _ Hin) as [_ Hd]. now apply (Hd h).
  - intros h r E'. now rewrite lookup_empty in E'.
  - intros r b E1 E2. cbn in E1. cbn [set_lastOrphan set_orphans heap] in E2. cbn [set_lastOrphan set_orphans blocks].
    rewrite Eb. rewrite El in E1. exact (Hl r b E1 (Hw _ _ E2)).
Qed.

Lemma keeps_loadBloom p : keeps (_BRPeerManagerLoadBloomFilter bloom_size bloom_funcs p).
Proof.
  unfold _BRPeerManagerLoadBloomFilter, spare_addresses.
  apply keeps_bind; [apply keeps_neutral; neutral_tac|intros _]. apply keeps_bind; [apply keeps_neutral; neutral_tac|intros _].
  apply keeps_bind; [|intros _; apply keeps_neutral; neutral_tac].
  apply keeps_update. intros c c' Hok E. destruct (clear_orphans_ok c c' Hok E) as (Hok' & -> & Hh & _).
  split; [done|]. split; [rewrite dom_empty_L; set_solver|exact Hh].
Qed.

Lemma keeps_if_connected p x : keeps x -> keeps (if_connected p x).
Proof. intros Hx. unfold if_connected. apply keeps_bind; [apply keeps_neutral; neutral_tac|intros c]. now apply keeps_when. Qed.
End keeps.

Ltac keeps_tac :=
  lazymatch goal with
  | |- keeps _ (_ ≫= _) => apply keeps_bind; [keeps_tac|let a := fresh "a" in intros a; try destruct a; keeps_tac]
  | |- keeps _ (when _ _) => apply keeps_when; keeps_tac
  | |- keeps _ (each _ _) => apply keeps_each; intros ?; cbv beta; keeps_tac
  | |- keeps _ (if_connected _ _) => apply keeps_if_connected; keeps_tac
  | |- keeps _ (update_chain _) => apply keeps_update
  | |- keeps _ (_BRPeerManagerLoadBloomFilter _ _ _) => apply keeps_loadBloom
  | |- keeps _ (match ?x with _ => _ end) => destruct x; keeps_tac
  | |- keeps _ (let _ := _ in _) => cbv zeta; keeps_tac
  | |- _ => first [assumption | solve [auto with neutral_db] | apply keeps_neutral; neutral_tac]
  end.

Section handlers2.
Context (ht : Z -> Z) `{AddressChain} (checkpoint_array : list Checkpoint) (now : Z).
Context (bloom_size : double -> Z -> Z) (bloom_funcs : Z -> Z -> Z) (sort_peers : list BRPeer -> list BRPeer).

Lemma keeps_loadMempools : keeps ht (_BRPeerManagerLoadMempools bloom_size bloom_funcs).
Proof. unfold _BRPeerManagerLoadMempools, load_mempool. keeps_tac. Qed.

Lemma keeps_pingDone p b : keeps ht (_updateFilterPingDone bloom_size bloom_funcs p b).
Proof. unfold _updateFilterPingDone. keeps_tac. Qed.

Lemma keeps_connected p : keeps ht (_peerConnected checkpoint_array now bloom_size bloom_funcs p).
Proof.
  pose proof keeps_loadMempools as Hm. unfold _peerConnected, become_download. keeps_tac.
  all: intros c c' Hok [= <-]; split; [now apply set_estimated_ok|split; [done|auto]].
Qed.

Lemma keeps_rescan : keeps ht (BRPeerManagerRescan checkpoint_array now sort_peers).
Proof.
  unfold BRPeerManagerRescan. keeps_tac. intros c c' Hok.
  destruct (rescan_from _ _) as [k|]; [|intros [= <-]; done].
  destruct (block_get c (checkpoint_hash k)) as [o|] eqn:E; [rewrite bind_Some_l; intros [= <-]|discriminate].
  split; [|done]. destruct o as [x|]; cbn [option_map].
  - destruct Hok as [Hok _]. apply (set_last_ok ht c x Hok). now apply (block_get_chain ht c _ x Hok E).
  - destruct Hok as [[Hb Ho] _]. split; [split; [exact Hb|exact Ho]|]. intros r b [=].
Qed.

(** ** A relayed block *)

Section place.
Context (D : gset Z) (x : Block).

(** Before the cases: the object is held by no table, and its height is known if its parent is. *)
Definition arriving (linked : bool) (c : Chain) : Prop :=
  good ht D x c /\ incoming ht c x /\ (linked = true -> in_place ht (snd x)).

(** After them. *)
Definition arrived (r : option nat * Z) (c : Chain) : Prop :=
  good ht ({[prevBlock (snd x)]} ∪ D) x c /\ (fst r = None \/ fst r = Some (fst x)).

Lemma good_mono c : good ht D x c -> good ht ({[prevBlock (snd x)]} ∪ D) x c.
Proof. intros [Hok Ho Hh]. constructor; [done|set_solver|done]. Qed.

Lemma free_good l c c' : arriving l c -> free_block (fst x) c = Some c' -> good ht ({[prevBlock (snd x)]} ∪ D) x c'.
Proof.
  intros ([Hok Ho Hh] & [_ Hu _] & _) E. constructor; [exact (free_unheld_ok ht c _ c' Hok Hu E)| |].
  all: unfold free_block in E; destruct (heap c !! fst x); [rewrite bind_Some_l in E; injection E as <-|discriminate]; cbn.
  - set_solver.
  - intros b' Eb. now rewrite lookup_delete_eq in Eb.
Qed.

Lemma drop_ens l : ensures (arriving l) (drop_block (fst x)) arrived.
Proof.
  unfold drop_block. eapply ens_update_then; [apply free_good|]. apply ens_ret. intros c Hg. split; [exact Hg|now left].
Qed.

Lemma pending_ens p l : ensures (arriving l) (place_pending p (fst x)) arrived.
Proof.
  unfold place_pending. eapply ens_update_then; [apply free_good|].
  do 3 (apply ens_neutral_then; [neutral_tac|intros ?]). apply ens_ret. intros c Hg. split; [exact Hg|now left].
Qed.

Lemma invalid_ens p l : ensures (arriving l) (place_invalid p (fst x)) arrived.
Proof.
  unfold place_invalid. eapply ens_update_then; [apply free_good|].
  apply ens_neutral_then; [neutral_tac|intros ?]. apply ens_ret. intros c Hg. split; [exact Hg|now left].
Qed.

Lemma orphan_good l c c' : arriving l c -> add_orphan x c = Some c' -> good ht ({[prevBlock (snd x)]} ∪ D) x c'.
Proof.
  intros ([Hok Ho Hh] & Hin & _) E. destruct (add_orphan_ok ht c x c' Hok Hin E) as (Hok' & Eo & Eh & _).
  constructor; [done| |now rewrite Eh]. rewrite Eo, dom_insert_L. set_solver.
Qed.

Lemma future_ens l : ensures (arriving l) (place_future x) arrived.
Proof.
  unfold place_future. eapply ens_update_then; [apply orphan_good|].
  eapply (ens_update_then _ _ (good ht ({[prevBlock (snd x)]} ∪ D) x)).
  - intros c c' [Hok Ho Hh] [= <-]. constructor; [now apply set_lastOrphan_ok|done|done].
  - apply ens_ret. intros c Hg. split; [exact Hg|now right].
Qed.

Lemma orphan_ens p l : ensures (arriving l) (place_orphan checkpoint_array now p x) arrived.
Proof.
  unfold place_orphan. apply ens_neutral_then; [neutral_tac|intros t]. destruct (_ <? now); [apply drop_ens|].
  apply ens_neutral_then; [neutral_tac|intros y]. apply ens_neutral_then; [neutral_tac|intros _]. exact (future_ens l).
Qed.

Lemma next_ens p hs t : ensures (arriving true) (place_next now bloom_size bloom_funcs p x hs t) arrived.
Proof.
  unfold place_next. cbv zeta.
  eapply (ens_bind _ _ (fun _ c => chain_core ht c /\ in_chain c x /\ dom (orphans c) ⊆ D /\ forall b, heap c !! fst x = Some b -> b = snd x)).
  { apply ens_on_chain. intros c o c' ([[Hok Hl] Ho Hh] & [Hx (_ & Uo & _) _] & Hp) E.
    destruct (add_block_core ht c x o c' Hok Hx (Hp eq_refl) Uo E) as (Hok' & Hin & _ & ->). done. }
  intros o. eapply (ens_update_then _ _ (good ht D x)).
  { intros c c' (Hok & Hin & Ho & Hh) [= <-]. constructor; [exact (set_last_ok ht c x Hok Hin)|done|done]. }
  do 5 (apply ens_neutral_then; [neutral_tac|intros ?]).
  eapply (ens_bind _ _ (fun _ => good ht D x)).
  - assert (Hk : keeps ht (download_complete bloom_size bloom_funcs (height (snd x)))).
    { pose proof keeps_loadMempools. unfold download_complete. keeps_tac. }
    apply Hk.
  - intros n. apply ens_ret. intros c Hg. split; [now apply good_mono|now right].
Qed.

(** Before the block replaces the object with its hash: if [lastBlock] is that object, it points to the
    new one already. *)
Definition replacing (c : Chain) : Prop :=
  chain_core ht c /\ heap c !! fst x = Some (snd x) /\ in_place ht (snd x) /\
  (forall h, blocks c !! h <> Some (fst x)) /\ (forall h, orphans c !! h <> Some (fst x)) /\ dom (orphans c) ⊆ D /\
  (lastBlock c = Some (fst x) \/
   last_ok c /\ forall y, last_block c = Some y -> blockHash (snd y) <> blockHash (snd x)).

Lemma replace_good c c' : replacing c -> replace_block x c = Some c' -> good ht D x c'.
Proof.
  intros (Hok & Hx & Hp & Ub & Uo & Ho & Hlast) E. unfold replace_block in E.
  destruct (add_block x c) as [[o c1]|] eqn:Ea; [rewrite bind_Some_l in E|discriminate].
  destruct (add_block_core ht c x o c1 Hok Hx Hp Uo Ea) as (Hok1 & Hin1 & Eo & Ec1).
  destruct o as [[r0 b0]|]; [rewrite bind_Some_l in E|discriminate].
  destruct (block_get_chain ht c _ _ Hok Eo) as [[Hb0 Hh0] Eh0]. cbn [fst snd] in *.
  assert (Hr0 : r0 <> fst x) by (intros ->; now apply (Ub (blockHash b0))).
  rewrite (proj2 (Nat.eqb_neq _ _) Hr0) in E.
  destruct (orphan_get c1 (prevBlock b0)) as [oo|] eqn:Eoo; [rewrite bind_Some_l in E|discriminate].
  assert (Hok1' : chain_ok ht c1).
  { split; [exact Hok1|]. intros r b El Eb. rewrite Ec1 in El, Eb |- *. cbn [set_blocks blocks heap lastBlock] in *.
    destruct Hlast as [Hl|[Hl Hne]].
    - assert (r = fst x) as -> by congruence. assert (b = snd x) as -> by congruence. apply lookup_insert_eq.
    - rewrite lookup_insert_ne; [exact (Hl r b El Eb)|]. intros E'. apply (Hne (r, b)); [|done].
      unfold last_block. now rewrite El, bind_Some_l, Eb, bind_Some_l. }
  set (c2 := match oo with
             | Some (r', _) => if (r' =? r0)%nat then set_orphans (delete (prevBlock b0) (orphans c1)) c1 else c1
             | None => c1
             end) in E.
  assert (Hc2 : chain_ok ht c2 /\ heap c2 = heap c1 /\ blocks c2 = blocks c1 /\ orphans c2 ⊆ orphans c1).
  { subst c2. destruct oo as [[r' b']|]; [destruct (r' =? r0)%nat|]; [|done|done].
    split; [now apply delete_orphan_ok|]. split; [done|]. split; [done|]. apply delete_subseteq. }
  destruct Hc2 as (Hok2 & Hh2 & Hb2 & Ho2).
  set (c3 := if bool_decide (lastOrphan c2 = Some r0) then set_lastOrphan None c2 else c2) in E.
  assert (Hc3 : chain_ok ht c3 /\ heap c3 = heap c1 /\ blocks c3 = blocks c1 /\ orphans c3 ⊆ orphans c1).
  { subst c3. destruct (bool_decide _); [|done]. split; [now apply set_lastOrphan_ok|done]. }
  destruct Hc3 as (Hok3 & Hh3 & Hb3 & Ho3). clearbody c2 c3.
  assert (Hd1 : dom (orphans c1) ⊆ D) by now rewrite Ec1.
  assert (Hub3 : forall h, blocks c3 !! h <> Some r0).
  { intros h. rewrite Hb3, Ec1. cbn [set_blocks blocks]. rewrite lookup_insert. case_decide as Hd; [congruence|].
    intros E'. destruct (ok_blocks ht c Hok _ _ E') as (b & Eb & Eh & _). congruence. }
  assert (Huo3 : forall h, orphans c3 !! h <> Some r0).
  { intros h E'. pose proof (lookup_weaken _ _ _ _ E' Ho3) as E1. rewrite Ec1 in E1. cbn in E1.
    destruct (ok_orphans ht c Hok h r0 E1) as [_ Hdj]. now apply (Hdj (blockHash b0)). }
  assert (Ho3' : dom (orphans c3) ⊆ D) by (apply subseteq_dom in Ho3; set_solver).
  constructor.
  - exact (free_detached ht c3 r0 c' Hok3 Hub3 Huo3 E).
  - unfold free_block in E. destruct (heap c3 !! r0); [rewrite bind_Some_l in E; injection E as <-|discriminate]. cbn. set_solver.
  - unfold free_block in E. destruct (heap c3 !! r0); [rewrite bind_Some_l in E; injection E as <-|discriminate]. cbn.
    intros b' Eb. apply lookup_delete_Some in Eb as [_ Eb]. rewrite Hh3, Ec1 in Eb. cbn in Eb. congruence.
Qed.

Lemma arriving_last c y : arriving true c -> last_block c = Some y -> blockHash (snd y) = blockHash (snd x) -> height (snd y) = height (snd x).
Proof.
  intros ([[Hok Hl] _ _] & _ & Hp) E Eh. destruct (last_in_chain c y Hl E) as [Hy _].
  rewrite (ip_height _ _ (Hp eq_refl)), (ip_height _ _ (in_chain_place ht c Hok y Hy)). now rewrite Eh.
Qed.

Lemma arriving_replacing c : arriving true c ->
  lastBlock c = Some (fst x) \/ last_ok c /\ (forall y, last_block c = Some y -> blockHash (snd y) <> blockHash (snd x)) -> replacing c.
Proof. intros ([[Hok Hl] Ho _] & [Hh (Ub & Uo & _) _] & Hp) Hlast. repeat (split; [auto|]). exact Hlast. Qed.

Lemma set_last_replacing c : arriving true c -> replacing (set_lastBlock (Some (fst x)) c).
Proof.
  intros ([[[Hb Ho'] Hl] Ho _] & [Hh (Ub & Uo & _) _] & Hp). split; [now split|]. repeat (split; [now auto|]). now left.
Qed.

Lemma existing_ens hs t : ensures (arriving true) (place_existing now x hs t) arrived.
Proof.
  unfold place_existing. cbv zeta. apply ens_look_then. intros y. apply ens_look_then. intros ob. apply ens_try_then. intros b ->.
  eapply (ens_bind _ _ (fun _ => replacing)).
  - destruct ((fst b =? fst x)%nat || UInt256Eq (blockHash (snd b)) (blockHash (snd x))) eqn:Eb; cbn [when].
    + apply ens_neutral_then; [neutral_tac|intros _]. apply ens_look_then. intros z.
      destruct (Z.eqb_spec (height (snd x)) (height (snd z))) as [Eh|Eh]; cbn [when].
      * apply ens_update. intros c c' [[[Ha _] _] _] [= <-]. now apply set_last_replacing.
      * apply ens_ret. intros c [[[Ha Ey] _] Ez]. apply arriving_replacing; [done|]. right. split; [now destruct Ha as [[[_ ?] _ _] _]|].
        intros w Ew Hw. apply Eh. pose proof (arriving_last c w Ha Ew Hw). congruence.
    + apply ens_ret. intros c [[Ha Ey] Ew]. apply arriving_replacing; [done|]. right. split; [now destruct Ha as [[[_ ?] _ _] _]|].
      intros w Hw Hhash. assert (w = y) as -> by congruence. pose proof (arriving_last c y Ha Ey Hhash) as Hh.
      destruct y as [ry yb]. cbn [walk_down snd] in *. rewrite Hh, Z.ltb_irrefl in Ew. injection Ew as <-.
      cbn [fst snd] in Eb. rewrite Hhash in Eb. destruct Ha as (_ & [_ _ [_ [Hu _] _]] & _).
      rewrite UInt256Eq_spec, Z.eqb_refl, orb_true_r in Eb by done. discriminate.
  - intros _. eapply ens_update_then; [apply replace_good|]. apply ens_ret. intros c Hg. split; [now apply good_mono|now right].
Qed.

Lemma fork_ens : ensures (fun c => arriving true c /\ blocks c !! blockHash (snd x) = None)
  (place_fork now bloom_size bloom_funcs x) arrived.
Proof.
  unfold place_fork.
  eapply (ens_bind _ _ (fun _ c => good ht D x c /\ in_chain c x)).
  { apply ens_on_chain. intros c o c' [([[Hok Hl] Ho Hh] & [Hx (_ & Uo & _) _] & Hp) Hn] E.
    destruct (add_block_core ht c x o c' Hok Hx (Hp eq_refl) Uo E) as (Hok' & Hin & _ & ->). split; [|exact Hin].
    constructor; [|done|done]. split; [exact Hok'|]. intros r b El Eb. cbn in El, Eb. cbn [set_blocks blocks].
    specialize (Hl r b El Eb). rewrite lookup_insert_ne; [exact Hl|]. intros E'. congruence. }
  intros o. apply ens_neutral_then; [neutral_tac|intros l].
  eapply (ens_bind _ _ (fun _ => good ht D x)).
  - destruct (_ <? _); [|apply ens_ret; tauto]. unfold reorganize.
    apply ens_neutral_then; [neutral_tac|intros l']. apply ens_neutral_then; [neutral_tac|intros [b b2]].
    do 3 (apply ens_neutral_then; [neutral_tac|intros ?]).
    eapply (ens_update_then _ _ (good ht D x)).
    { intros c c' [[[Hok Hl] Ho Hh] Hin] [= <-]. constructor; [exact (set_last_ok ht c x Hok Hin)|done|done]. }
    assert (Hk : keeps ht (download_complete bloom_size bloom_funcs (height (snd x)))).
    { pose proof keeps_loadMempools. unfold download_complete. keeps_tac. }
    apply Hk.
  - intros n. apply ens_ret. intros c Hg. split; [now apply good_mono|now right].
Qed.

Lemma valid_ens p hs t : ensures (arriving true) (place_valid checkpoint_array now bloom_size bloom_funcs p x hs t) arrived.
Proof.
  unfold place_valid. cbv zeta. apply ens_neutral_then; [neutral_tac|intros l]. apply ens_look_then. intros known.
  apply ens_neutral_then; [neutral_tac|intros y].
  assert (Hw : forall (m : M (option nat * Z)), ensures (arriving true) m arrived ->
    ensures (fun c => arriving true c /\ block_get c (blockHash (snd x)) = Some known) m arrived).
  { intros m Hm. eapply ens_weaken; [exact Hm|tauto|auto]. }
  destruct (UInt256Eq _ _); [apply Hw, next_ens|]. destruct known as [k|]; [apply Hw, existing_ens|].
  destruct (_ && _); [apply Hw, (future_ens true)|]. destruct (_ <=? _); [apply Hw, (drop_ens true)|].
  eapply ens_weaken; [apply fork_ens| |auto]. intros c [Ha E]. split; [done|].
  unfold block_get in E. destruct (blocks c !! _); [|done]. cbn [block_ref] in E. destruct (heap c !! n); [discriminate|discriminate].
Qed.

Lemma place_ens p prev hs t : ensures (arriving (bool_decide (is_Some prev)))
  (place checkpoint_array now bloom_size bloom_funcs p x prev hs t) arrived.
Proof.
  unfold place. cbv zeta. apply ens_neutral_then; [neutral_tac|intros m]. destruct (_ && _); [apply drop_ens|].
  destruct (bloomFilter _); [|apply pending_ens]. destruct prev as [pv|]; [|apply orphan_ens].
  rewrite bool_decide_true by eauto.
  eapply (ens_bind _ _ (fun _ => arriving true)).
  - apply ens_on_chain. intros c v c' ([[Hok Hl] Ho Hh] & Hin & Hp) E. pose proof (verify_shrinks ht x pv c v c' Hok E) as Hs.
    split; [|split; [now apply (shrinks_incoming ht c)|exact Hp]]. constructor.
    + split; [now apply (shrinks_ok ht c)|now apply (shrinks_last ht c)].
    + now rewrite (sh_orphans _ _ Hs).
    + intros b' Eb. destruct (sh_heap _ _ Hs (fst x)) as [E'|[N _]]; [rewrite E' in Eb; now apply Hh|congruence].
  - intros v. destruct v; [apply valid_ens|apply invalid_ens].
Qed.
End place.

Context (Hht : heights_bounded ht).

(** The object [r] with the contents [b] may be relayed; the keys of the orphans are in [D]. *)
Definition relay_pre (D : gset Z) (r : nat) (b : BRMerkleBlock) (c : Chain) : Prop :=
  chain_ok ht c /\ incoming ht c (r, b) /\ dom (orphans c) ⊆ D.

Definition relay_post (D : gset Z) (b : BRMerkleBlock) (next : option nat) (c : Chain) : Prop :=
  chain_ok ht c /\ dom (orphans c) ⊆ {[prevBlock b]} ∪ D /\
  match next with
  | Some r' => exists b', incoming ht c (r', b') /\ prevBlock b' = blockHash b /\ blockHash b ∈ {[prevBlock b]} ∪ D /\
                 blockHash b ∉ dom (orphans c)
  | None => True
  end.

Definition linked_post (D : gset Z) (r : nat) (b : BRMerkleBlock) (res : Block * option Block * Z) (c : Chain) : Prop :=
  let '(x, prev, _) := res in
  fst x = r /\ blockHash (snd x) = blockHash b /\ prevBlock (snd x) = prevBlock b /\ arriving D x (bool_decide (is_Some prev)) c.

Lemma link_ens D r b : ensures (relay_pre D r b) (link_block r) (linked_post D r b).
Proof.
  intros m [[x prev] t] m' ([Hok Hl] & [Hx Hu Hr] & Ho) E. cbn [fst snd] in *. unfold link_block in E.
  rewrite Hx, bind_Some_l in E. destruct (block_get_total ht _ Hok (prevBlock b)) as (o & Eg & Hg). rewrite Eg, bind_Some_l in E.
  destruct o as [[rp pb]|].
  - injection E as <- <- <- <-. cbn [fst snd linked_post chain set_chain_of]. repeat (split; [done|]).
    destruct Hg as [Hin Eh]. cbn [snd] in Eh. pose proof (in_chain_place ht _ Hok _ Hin) as [_ _ Hph _]. cbn [snd] in Hph.
    split; [|split; [|intros _]]; cbn [fst snd].
    + constructor; cbn [fst snd].
      * split; [now apply set_heap_core|]. intros r' b' El Eb. cbn in El, Eb. cbn [set_heap blocks].
        destruct Hu as (_ & _ & Hul). rewrite lookup_insert_ne in Eb by congruence. exact (Hl r' b' El Eb).
      * exact Ho.
      * cbn. intros b'. rewrite lookup_insert_eq. now intros [= <-].
    + constructor; cbn [fst snd]; [apply lookup_insert_eq|exact Hu|now destruct Hr].
    + apply relayable_place; [now destruct Hr|]. cbn [with_height height blockHash]. destruct Hr as [_ _ Hrp]. cbn [snd] in Hrp.
      pose proof (Hht (prevBlock b)). rewrite Hph, Eh, u32_id by lia.
      destruct Hrp as [Hz|Hrp]; [|lia]. destruct (in_chain_place ht _ Hok _ Hin) as [Hne _ _ _]. cbn [snd] in Hne. congruence.
  - injection E as <- <- <- <-. cbn [fst snd linked_post]. repeat (split; [done|]). split; [|split; [done|discriminate]].
    constructor; cbn [fst snd]; [done|done|]. intros b' Eb. congruence.
Qed.

Lemma next_orphan_ok D x r c o c' : arrived D x (r, 0) c -> next_orphan r c = Some (o, c') ->
  relay_post D (snd x) (option_map fst o) c'.
Proof.
  intros [[Hok Ho Hh] Hr] E. unfold next_orphan in E. destruct r as [r|]; cycle 1.
  { injection E as <- <-. done. }
  destruct Hr as [|Hr]; [discriminate|]. cbn in Hr. injection Hr as ->.
  destruct (heap c !! fst x) as [b|] eqn:Eb; [rewrite bind_Some_l in E|discriminate].
  assert (b = snd x) as -> by now apply Hh. destruct (_ =? BLOCK_UNKNOWN_HEIGHT); [injection E as <- <-; done|].
  set (c1 := if _ <? _ then _ else _) in E.
  assert (Hc1 : chain_ok ht c1 /\ orphans c1 = orphans c) by (subst c1; destruct (_ <? _); [split; [now apply set_estimated_ok|]|]; done).
  destruct Hc1 as [Hok1 Eo1]. destruct (remove_orphan_ok ht c1 _ o c' Hok1 E) as (Hok' & _ & Eo & _ & Hx).
  rewrite Eo1 in Eo. split; [exact Hok'|]. split; [rewrite Eo, dom_delete_L; set_solver|].
  destruct o as [[r' b']|]; [|done]. destruct Hx as (Hin & Hp & Hk). exists b'. split; [exact Hin|]. split; [exact Hp|].
  cbn [fst snd] in *. rewrite Eo1 in Hk. split; [apply Ho, elem_of_dom; eauto|]. rewrite Eo, dom_delete_L. set_solver.
Qed.

Lemma relay_step_ens D p r b : ensures (relay_pre D r b) (relay_step checkpoint_array now bloom_size bloom_funcs p r) (relay_post D b).
Proof.
  unfold relay_step. apply ens_neutral_then; [neutral_tac|intros b0]. apply ens_neutral_then; [neutral_tac|intros [l0 n0]].
  apply ens_neutral_then; [neutral_tac|intros [l1 n1]]. eapply ens_bind; [apply (link_ens D r b)|]. intros [[x prev] t].
  apply ens_neutral_then; [neutral_tac|intros _].
  eapply (ens_bind _ _ (fun res c => blockHash (snd x) = blockHash b /\ prevBlock (snd x) = prevBlock b /\ arrived D x res c)).
  { intros m a m' (_ & Eh & Ep & Ha) E. split; [done|]. split; [done|]. exact (place_ens D x p prev l1 t m a m' Ha E). }
  intros [placed n].
  eapply (ens_bind _ _ (fun o c => relay_post D b (option_map fst o) c)).
  { apply ens_on_chain. intros c o c' (Eh & Ep & Ha) E. assert (Ha' : arrived D x (placed, 0) c) by exact Ha.
    pose proof (next_orphan_ok D x placed c o c' Ha' E) as Hp. unfold relay_post in *. now rewrite Eh, Ep in Hp. }
  intros o. do 5 (apply ens_neutral_then; [neutral_tac|intros ?]). apply ens_ret. auto.
Qed.

(** *** The blocks waiting for a relayed one *)

(** The orphans that can still follow a block: each call of the recursion takes one of them (no block
    follows a checkpoint's parent, 0). *)
Definition waiting (c : Chain) (b : BRMerkleBlock) : nat :=
  size (base.filter (fun k => k <> 0 /\ ht (blockHash b) <= ht k) (dom (orphans c))).

Lemma waiting_decreases c b r' c' : relayable ht b -> relay_post (dom (orphans c)) b (Some r') c' ->
  exists b', incoming ht c' (r', b') /\ (waiting c' b' < waiting c b)%nat.
Proof.
  intros Hb (_ & Ho & b' & Hin & Hp & Hd & Hn). exists b'. split; [exact Hin|]. unfold waiting.
  destruct Hb as [Hb0 _ Hpb]. destruct Hin as [_ _ [_ _ Hpb']]. cbn [snd] in Hpb'. rewrite Hp in Hpb'.
  destruct Hpb' as [Hpb'|Hpb']; [congruence|]. apply subset_size. split.
  - intros k Hk. apply elem_of_filter in Hk as [[Hk0 Hk] Hkd]. apply elem_of_filter. apply Ho in Hkd.
    apply elem_of_union in Hkd as [Hkp|Hkd]; [apply elem_of_singleton in Hkp; subst k; destruct Hpb; [congruence|lia]|].
    split; [lia|done].
  - intros Hs. assert (Hh : blockHash b ∈ base.filter (fun k => k <> 0 /\ ht (blockHash b) <= ht k) (dom (orphans c))).
    { apply elem_of_filter. split; [lia|]. apply elem_of_union in Hd as [Hd|Hd]; [|done].
      apply elem_of_singleton in Hd. destruct Hpb; [congruence|]. rewrite Hd in *. lia. }
    apply Hs, elem_of_filter in Hh as [_ Hh]. now apply Hn.
Qed.

Notation relay := (relay_blocks checkpoint_array now bloom_size bloom_funcs).

Lemma relay_keeps p : forall n r m b m', relay_pre (dom (orphans (chain m))) r b (chain m) ->
  relay n p r m = Some (tt, m') -> chain_ok ht (chain m').
Proof.
  induction n as [|n IH]; intros r m b m' Hpre E; cbn [relay_blocks] in E; [discriminate|].
  apply bind_run in E as (next & m1 & E1 & E2). pose proof (relay_step_ens _ p r b m next m1 Hpre E1) as (Hok & Ho & Hnext).
  destruct next as [r'|]; [|now injection E2 as <-]. destruct Hnext as (b' & Hin & _).
  now apply (IH r' m1 b' m').
Qed.

Lemma waiting_le c b : (waiting c b <= size (orphans c))%nat.
Proof. unfold waiting. rewrite <- size_dom. apply subseteq_size. intros k Hk. now apply elem_of_filter in Hk as [_ Hk]. Qed.
End handlers2.
