(* ===== verification/PeerStart.v ===== *)
(** * PeerStart: a new peer manager, saved blocks, and the properties of the peer manager

    [BRPeerManagerNew] on the checkpoints and on saved blocks; then the properties: the invariant over all
    sequences of events, termination, block locators, saving and restoring, reorganisations. *)
From stdpp Require Import base numbers list gmap sets fin_maps.
From Stdlib Require Import ZArith Lia.
From S2P Require Import Prelude CMem Int Address Transaction MerkleBlock Bloom Sequence Wallet WalletOps PeerManager PeerHandlers PeerChain PeerProofs.
Local Open Scope Z_scope.

(** ** Checkpoints *)

Lemma u256_of_bytes l : bytes_ok l -> length l = 32%nat -> is_u256 (of_u8s l).
Proof. intros Hb Hl. pose proof (le_val_range l Hb) as H. rewrite Hl in H. exact H. Qed.

Lemma u8s_ok u : bytes_ok (u8s u) /\ length (u8s u) = 32%nat.
Proof. unfold u8s. split; [apply le_bytes_ok|apply length_le_digits]. Qed.

Lemma reverse_u256 u : is_u256 (UInt256Reverse u).
Proof.
  destruct (u8s_ok u) as [Hb Hl]. apply u256_of_bytes; [now apply Forall_reverse|now rewrite length_reverse].
Qed.

Section start.
Context (ht : Z -> Z) (checkpoint_array : list Checkpoint).

(** The table of checkpoints agrees with the block tree. *)
Definition checkpoint_ok (k : Checkpoint) : Prop := checkpoint_hash k <> 0 /\ ht (checkpoint_hash k) = cp_height k.

Lemma checkpoint_place k : checkpoint_ok k ->
  in_place ht (mkBlock (checkpoint_hash k) 0 0 0 0 (cp_timestamp k) (cp_target k) 0 0 None 0 None 0 (cp_height k)).
Proof.
  intros [Hh Hk]. constructor; cbn; [done| |done|now left]. split; [apply reverse_u256|]. split; [lia|reflexivity].
Qed.

(** While the checkpoints are added, [pre] so far: the objects of [h0] stay out of the chain. *)
Record starting (h0 : gmap nat BRMerkleBlock) (pre : list Checkpoint) (c : Chain) : Prop := {
  st_core : chain_core ht c;
  st_orphans : orphans c = ∅;
  st_heap : h0 ⊆ heap c;
  st_blocks : forall h r, blocks c !! h = Some r -> h0 !! r = None /\ h ∈ checkpoint_hash <$> pre;
  st_last : forall r, lastBlock c = Some r -> exists h, blocks c !! h = Some r;
}.

Lemma starting_last h0 pre c : starting h0 pre c -> chain_ok ht c.
Proof.
  intros [Hok _ _ _ Hl]. split; [done|]. intros r b E Eb. destruct (Hl r E) as [h Hh].
  destruct (ok_blocks ht c Hok _ _ Hh) as (b' & Eb' & <- & _). congruence.
Qed.

Lemma add_checkpoint_ok h0 ekt pre k i c : checkpoint_ok k -> checkpoint_hash k ∉ checkpoint_hash <$> pre ->
  starting h0 pre c -> starting h0 (pre ++ [k]) (snd (add_checkpoint ekt (i, c) k)).
Proof.
  intros Hk Hnew [Hok Ho Hh Hb Hl]. pose proof (checkpoint_place k Hk) as Hp. unfold add_checkpoint. cbv zeta. cbn [snd].
  set (b := mkBlock _ _ _ _ _ _ _ _ _ _ _ _ _ _) in *. set (r := fresh (dom (heap c))).
  assert (Hr : heap c !! r = None) by (apply not_elem_of_dom, is_fresh).
  set (c1 := set_blocks _ _).
  assert (Hc1 : starting h0 (pre ++ [k]) c1 /\ blocks c1 !! blockHash b = Some r).
  { subst c1. split; [constructor; [split| | | |]|]; cbn [set_blocks set_checkpoints set_heap heap blocks orphans lastBlock].
    - intros h r'. rewrite lookup_insert. case_decide as Hd; [intros [= <-]; exists b; rewrite lookup_insert_eq; auto|].
      intros E. destruct (ok_blocks ht c Hok _ _ E) as (b' & Eb' & Hb'). exists b'. rewrite lookup_insert_ne by congruence. auto.
    - rewrite Ho. intros h r' E. now rewrite lookup_empty in E.
    - exact Ho.
    - transitivity (heap c); [done|]. now apply insert_subseteq.
    - intros h r'. rewrite lookup_insert, fmap_app, elem_of_app. case_decide as Hd.
      + intros [= <-]. split; [|right; subst h; left]. destruct (h0 !! r) eqn:E; [|done].
        pose proof (lookup_weaken _ _ _ _ E Hh). congruence.
      + intros E. destruct (Hb h r' E). auto.
    - intros r' E. destruct (Hl r' E) as [h Eh]. exists h. rewrite lookup_insert_ne; [done|]. intros <-.
      now destruct (Hb _ _ Eh).
    - apply lookup_insert_eq. }
  destruct Hc1 as [[Hok1 Ho1 Hh1 Hb1 Hl1] Hin]. destruct (_ || _); [|now constructor].
  constructor; [|done..|]; [now destruct Hok1; split|]. intros r' [= <-]. eauto.
Qed.

Lemma checkpoints_ok h0 ekt : forall ks pre i c, Forall checkpoint_ok ks -> NoDup (checkpoint_hash <$> pre ++ ks) ->
  starting h0 pre c -> starting h0 (pre ++ ks) (snd (foldl (add_checkpoint ekt) (i, c) ks)).
Proof.
  induction ks as [|k ks IH]; intros pre i c Hks Hnd Hc; cbn [foldl]; [now rewrite app_nil_r|].
  apply Forall_cons in Hks as [Hk Hks]. replace (pre ++ k :: ks) with ((pre ++ [k]) ++ ks) in * by now rewrite <- app_assoc.
  pose proof (add_checkpoint_ok h0 ekt pre k i c Hk) as H1. destruct (add_checkpoint ekt (i, c) k) as [i' c'] eqn:E.
  apply IH; [done|done|]. apply H1; [|done]. rewrite fmap_app in Hnd. apply NoDup_app in Hnd as (Hnd & _ & _).
  rewrite fmap_app in Hnd. apply NoDup_app in Hnd as (_ & Hd & _). intros Hin. apply (Hd _ Hin). left.
Qed.

Lemma starting_empty h0 : starting h0 [] (mkChain h0 ∅ ∅ ∅ None None 0 0).
Proof. constructor; cbn; [split; intros h r E; cbn in E; now rewrite lookup_empty in E|done|done|intros h r E; now rewrite lookup_empty in E|done]. Qed.

(** ** Saved blocks *)

(** The saved blocks have their heights. *)
Definition saved_ok (h0 : gmap nat BRMerkleBlock) (r : nat) : Prop :=
  exists b, h0 !! r = Some b /\ relayable ht b /\ height b = ht (blockHash b) /\ height b <> BLOCK_UNKNOWN_HEIGHT.

(** The orphans are saved blocks that the chain does not have. *)
Record loading (h0 : gmap nat BRMerkleBlock) (c : Chain) : Prop := {
  ld_ok : chain_ok ht c;
  ld_orphans : forall h r, orphans c !! h = Some r -> saved_ok h0 r;
  ld_heap : h0 ⊆ heap c;
}.

Lemma add_saved_ok h0 block c r : saved_ok h0 r -> (forall h, blocks c !! h <> Some r) -> loading h0 c ->
  exists b c', h0 !! r = Some b /\ add_saved (block, c) r = Some (if (height b mod BLOCK_DIFFICULTY_INTERVAL =? 0) &&
    (match block with Some (_, b') => height b' <? height b | None => true end) then Some (r, b) else block, c') /\
  loading h0 c' /\ orphans c' = <[prevBlock b := r]> (orphans c) /\ blocks c' = blocks c /\ heap c' = heap c.
Proof.
  intros (b & Eb & Hr & Hh & Hu) Ub [[Hok Hl] Ho Hsub]. pose proof (lookup_weaken _ _ _ _ Eb Hsub) as Ec.
  exists b, (set_orphans (<[prevBlock b := r]> (orphans c)) c). split; [done|]. unfold add_saved. rewrite Ec, bind_Some_l.
  rewrite (proj2 (Z.eqb_neq _ _) Hu). unfold add_orphan. cbn [fst snd].
  destruct (orphan_get_total ht c Hok (prevBlock b)) as (o & -> & _). rewrite !bind_Some_l. split; [done|]. split; [|done].
  constructor; [split; [split|exact Hl]| |done]; cbn [set_orphans heap blocks orphans].
  - apply (ok_blocks ht c Hok).
  - intros h r'. rewrite lookup_insert. case_decide as Hd; [intros [= <-]; split; [eauto|exact Ub]|]. apply (ok_orphans ht c Hok).
  - intros h r'. rewrite lookup_insert. case_decide as Hd; [intros [= <-]; exists b; auto|]. apply Ho.
Qed.

Lemma link_saved_step h0 c x : loading h0 c -> saved_ok h0 (fst x) -> heap c !! fst x = Some (snd x) ->
  exists c' next, loading h0 c' /\ in_chain c' x /\ lastBlock c' = Some (fst x) /\
    orphans c' = delete (prevBlock (snd x)) (orphans c) /\ heap c' = heap c /\ blocks c' = <[blockHash (snd x) := fst x]> (blocks c) /\
    orphan_get c' (blockHash (snd x)) = Some next /\
    forall fuel, link_saved (S fuel) (Some x) c = link_saved fuel next c'.
Proof.
  intros [[Hok Hl] Ho Hsub] (b & Eb & Hr & Hh & Hu) Hx.
  assert (Honly : forall h, orphans c !! h = Some (fst x) -> h = prevBlock (snd x)).
  { intros h E. destruct (ok_orphans ht c Hok _ _ E) as [(b' & Eb' & <- & _) _]. congruence. }
  assert (b = snd x) as -> by (pose proof (lookup_weaken _ _ _ _ Eb Hsub); congruence).
  pose proof (relayable_place ht _ Hr Hh) as Hp.
  set (c1 := set_orphans (delete (prevBlock (snd x)) (orphans c)) (set_blocks (<[blockHash (snd x) := fst x]> (blocks c)) c)).
  assert (Hc1 : chain_core ht c1).
  { subst c1. split; cbn [set_orphans set_blocks heap blocks orphans].
    - intros h r. rewrite lookup_insert. case_decide as Hd; [intros [= <-]; eauto|]. apply (ok_blocks ht c Hok).
    - intros h r E. apply lookup_delete_Some in E as [Hne E]. destruct (ok_orphans ht c Hok _ _ E) as [Hw Hd].
      split; [exact Hw|]. intros h'. rewrite lookup_insert. case_decide as Hd'; [|apply Hd].
      intros [= E1]. subst r. apply Hne. symmetry. now apply Honly. }
  assert (Hin : in_chain c1 x) by (split; cbn; [apply lookup_insert_eq|done]).
  set (c2 := set_lastBlock (Some (fst x)) c1). pose proof (set_last_ok ht c1 x Hc1 Hin) as Hc2. fold c2 in Hc2.
  destruct (orphan_get_total ht c2 (proj1 Hc2) (blockHash (snd x))) as (next & En & _).
  exists c2, next. split; [constructor; [exact Hc2| |exact Hsub]|].
  { intros h r E. cbn in E. apply lookup_delete_Some in E as [_ E]. eauto. }
  split; [exact Hin|]. do 4 (split; [done|]). split; [exact En|]. intros fuel. cbn [link_saved].
  unfold add_block. destruct (block_get_total ht c Hok (blockHash (snd x))) as (o & -> & _). rewrite !bind_Some_l.
  unfold remove_orphan.
  set (c3 := set_lastBlock _ _). assert (E3 : orphan_get c3 (prevBlock (snd x)) = orphan_get c (prevBlock (snd x))) by done.
  rewrite E3. destruct (orphan_get_total ht c Hok (prevBlock (snd x))) as (o2 & -> & _). rewrite !bind_Some_l.
  change (set_orphans (delete (prevBlock (snd x)) (orphans c3)) c3) with c2. rewrite En, bind_Some_l. reflexivity.
Qed.

Lemma link_saved_ok h0 : forall n c x, loading h0 c -> saved_ok h0 (fst x) -> heap c !! fst x = Some (snd x) ->
  prevBlock (snd x) ∈ dom (orphans c) -> (size (orphans c) <= n)%nat ->
  exists c', link_saved (S n) (Some x) c = Some c' /\ chain_ok ht c'.
Proof.
  induction n as [|n IH]; intros c x Hc Hs Hx Hd Hn.
  { apply elem_of_dom in Hd as [r Hr]. assert (orphans c = ∅) as E by (apply map_size_empty_iff; lia). now rewrite E, lookup_empty in Hr. }
  destruct (link_saved_step h0 c x Hc Hs Hx) as (c1 & next & Hc1 & _ & _ & Eo & Eh & _ & En & Hl). rewrite Hl.
  destruct next as [y|]; [|exists c1; split; [done|apply Hc1]].
  destruct (orphan_get_total ht c1 (proj1 (ld_ok _ _ Hc1)) (blockHash (snd x))) as (o & E' & Ho).
  rewrite En in E'. injection E' as <-. destruct Ho as (Hy & Hyh & Hyp & _).
  apply (IH c1 y Hc1); [exact (ld_orphans _ _ Hc1 _ _ Hy)|exact Hyh|rewrite Hyp; apply elem_of_dom; eauto|].
  rewrite Eo. apply elem_of_dom in Hd as [r Hr]. rewrite map_size_delete_Some by eauto. lia.
Qed.

(** After the saved blocks were added: [block] is one of them, and waits among the orphans. *)
Definition chosen (h0 : gmap nat BRMerkleBlock) (c : Chain) (block : option Block) : Prop :=
  match block with
  | Some x => saved_ok h0 (fst x) /\ heap c !! fst x = Some (snd x) /\ prevBlock (snd x) ∈ dom (orphans c)
  | None => True
  end.

Lemma add_all_saved h0 : forall rs block c, Forall (saved_ok h0) rs -> loading h0 c ->
  (forall h r, blocks c !! h = Some r -> h0 !! r = None) -> chosen h0 c block ->
  exists block' c', for_each add_saved (block, c) rs = Some (block', c') /\ loading h0 c' /\ chosen h0 c' block'.
Proof.
  induction rs as [|r rs IH]; intros block c Hrs Hc Hb Hx; cbn [for_each]; [eauto|]. apply Forall_cons in Hrs as [Hr Hrs].
  assert (Ub : forall h, blocks c !! h <> Some r). { intros h E. destruct Hr as (b & Eb & _). specialize (Hb _ _ E). congruence. }
  destruct (add_saved_ok h0 block c r Hr Ub Hc) as (b & c1 & Eb & E1 & Hc1 & Eo & Ebl & Eh). rewrite E1, bind_Some_l.
  apply IH; [done|done|now rewrite Ebl|]. pose proof (lookup_weaken _ _ _ _ Eb (ld_heap _ _ Hc)) as Ec.
  destruct (_ && _); cbn [chosen fst snd]; rewrite ?Eo, ?Eh, ?dom_insert_L.
  - split; [done|]. split; [done|set_solver].
  - destruct block as [y|]; [|done]. cbn [chosen] in *. rewrite Eo, Eh, dom_insert_L. destruct Hx as (? & ? & ?). repeat split; [done|done|set_solver].
Qed.

(** [BRPeerManagerNew]. *)
Lemma new_chain_spec h0 ekt rs : Forall checkpoint_ok checkpoint_array -> NoDup (checkpoint_hash <$> checkpoint_array) ->
  Forall (saved_ok h0) rs -> exists c, new_chain checkpoint_array h0 ekt rs = Some c /\ chain_ok ht c.
Proof.
  intros Hk Hnd Hrs. unfold new_chain. pose proof (checkpoints_ok h0 ekt checkpoint_array [] O _ Hk Hnd (starting_empty h0)) as Hst.
  destruct (foldl _ _ _) as [i c] eqn:E. cbn [snd app] in Hst. destruct Hst as [Hok Ho Hh Hb Hl] eqn:Est. clear Est.
  assert (Hc : loading h0 c).
  { constructor; [exact (starting_last _ _ _ Hst)| |done]. intros h r Er. rewrite Ho in Er. now rewrite lookup_empty in Er. }
  destruct (add_all_saved h0 rs None c Hrs Hc) as (block & c1 & E1 & Hc1 & Hx); [intros h r Er; now destruct (Hb _ _ Er)|done|].
  rewrite E1, bind_Some_l. destruct block as [x|]; [|exists c1; split; [done|apply Hc1]].
  destruct Hx as (Hs & Hxh & Hd). apply (link_saved_ok h0); [done..|lia].
Qed.

(** *** A saved chain

    [bs]: the blocks, newest first, each the parent of the one before; [rs]: where they are on the heap [h0];
    [t]: the index of the first transition block. *)
Record saved_chain (h0 : gmap nat BRMerkleBlock) (rs : list nat) (bs : list BRMerkleBlock) (t : nat) : Prop := {
  sc_heap : Forall2 (fun r b => h0 !! r = Some b) rs bs;
  sc_ok : Forall (saved_ok h0) rs;
  sc_next : forall i b b', bs !! i = Some b -> bs !! S i = Some b' -> prevBlock b = blockHash b';
  sc_first : exists b, bs !! t = Some b /\ height b mod BLOCK_DIFFICULTY_INTERVAL = 0;
  sc_above : forall i b, (i < t)%nat -> bs !! i = Some b -> height b mod BLOCK_DIFFICULTY_INTERVAL <> 0;
}.

Section saved.
Context (h0 : gmap nat BRMerkleBlock) (rs : list nat) (bs : list BRMerkleBlock) (t : nat) (Hsc : saved_chain h0 rs bs t).

Lemma saved_at i r : rs !! i = Some r -> exists b, bs !! i = Some b /\ h0 !! r = Some b /\ relayable ht b /\ height b = ht (blockHash b).
Proof.
  intros Hr. destruct (Forall2_lookup_l _ _ _ _ _ (sc_heap _ _ _ _ Hsc) Hr) as (b & Hb & E). exists b.
  destruct (Forall_lookup_1 _ _ _ _ (sc_ok _ _ _ _ Hsc) Hr) as (b' & E' & Hrb & Hh & _). assert (b' = b) as -> by congruence. auto.
Qed.

Lemma saved_ref i b : bs !! i = Some b -> exists r, rs !! i = Some r.
Proof. intros Hb. destruct (Forall2_lookup_r _ _ _ _ _ (sc_heap _ _ _ _ Hsc) Hb) as (r & Hr & _). eauto. Qed.

Lemma saved_block i b : bs !! i = Some b -> relayable ht b /\ height b = ht (blockHash b).
Proof.
  intros Hb. destruct (saved_ref i b Hb) as [r Hr]. destruct (saved_at i r Hr) as (b' & Eb & _ & H1 & H2).
  assert (b' = b) as -> by congruence. auto.
Qed.

Lemma saved_height : forall i b0 b, bs !! 0%nat = Some b0 -> bs !! i = Some b -> height b = height b0 - Z.of_nat i.
Proof.
  induction i as [|i IH]; intros b0 b H0 Hi; [assert (b = b0) as -> by congruence; lia|].
  destruct (lookup_lt_is_Some_2 bs i) as [b1 H1]; [apply lookup_lt_Some in Hi; lia|].
  specialize (IH b0 b1 H0 H1). pose proof (sc_next _ _ _ _ Hsc i b1 b H1 Hi) as Hp.
  destruct (saved_block i b1 H1) as [[_ _ Hpar] Hh1], (saved_block _ b Hi) as [[Hne _ _] Hh].
  destruct Hpar as [Hz|Hpar]; [congruence|]. rewrite Hp in Hpar. lia.
Qed.

(** The key of a block among the orphans tells its place. *)
Lemma saved_key i j b b' : bs !! i = Some b -> bs !! j = Some b' -> (i < j)%nat -> prevBlock b <> prevBlock b'.
Proof.
  intros Hi Hj Hlt. destruct (lookup_lt_is_Some_2 bs 0) as [b0 H0]; [apply lookup_lt_Some in Hi; lia|].
  destruct (lookup_lt_is_Some_2 bs (S i)) as [b1 H1]; [apply lookup_lt_Some in Hj; lia|].
  rewrite (sc_next _ _ _ _ Hsc i b b1 Hi H1). destruct (saved_block _ b1 H1) as [[Hne _ _] Hh1], (saved_block j b' Hj) as [[_ _ Hpar] Hh].
  intros E. destruct Hpar as [Hz|Hpar]; [congruence|]. rewrite <- E in Hpar.
  pose proof (saved_height _ b0 b1 H0 H1). pose proof (saved_height _ b0 b' H0 Hj). lia.
Qed.

(** The orphans when the blocks before [n] were added. *)
Definition saved_orphans (n : nat) (c : Chain) : Prop :=
  (forall i b r, (i < n)%nat -> bs !! i = Some b -> rs !! i = Some r -> orphans c !! prevBlock b = Some r) /\
  forall h r, orphans c !! h = Some r -> exists i, (i < n)%nat /\ rs !! i = Some r.

Definition saved_choice (n : nat) (block : option Block) : Prop :=
  if (t <? n)%nat then exists r b, block = Some (r, b) /\ rs !! t = Some r /\ bs !! t = Some b else block = None.

Lemma add_chain n : (n <= length rs)%nat -> forall c, loading h0 c -> orphans c = ∅ -> (forall h r, blocks c !! h = Some r -> h0 !! r = None) ->
  exists block c', for_each add_saved (None, c) (take n rs) = Some (block, c') /\ loading h0 c' /\ blocks c' = blocks c /\
    saved_orphans n c' /\ saved_choice n block.
Proof.
  intros Hn c Hc Ho Hb. induction n as [|n IH].
  - exists None, c. cbn. split; [done|]. split; [done|]. split; [done|]. split; [|done]. split; [lia|]. rewrite Ho. intros h r E. now rewrite lookup_empty in E.
  - destruct (IH ltac:(lia)) as (block & c1 & E1 & Hc1 & Eb1 & [Ho1 Ho2] & Hch).
    destruct (lookup_lt_is_Some_2 rs n ltac:(lia)) as [r Hr]. destruct (saved_at n r Hr) as (b & Hbn & Ehb & _ & Hhb).
    rewrite (take_S_r _ _ _ Hr). rewrite for_each_app, E1, bind_Some_l. cbn [for_each].
    assert (Ub : forall h, blocks c1 !! h <> Some r). { rewrite Eb1. intros h E. specialize (Hb _ _ E). congruence. }
    destruct (add_saved_ok h0 block c1 r (Forall_lookup_1 _ _ _ _ (sc_ok _ _ _ _ Hsc) Hr) Ub Hc1) as (b' & c2 & Eb' & E2 & Hc2 & Eo & Eb2 & _).
    assert (b' = b) as -> by congruence. rewrite E2, bind_Some_l. eexists _, c2. split; [done|]. split; [done|]. split; [congruence|].
    split; [split|].
    + intros i bi ri Hi Hbi Hri. rewrite Eo. destruct (decide (i = n)) as [->|Hne].
      * assert (bi = b) as -> by congruence. assert (ri = r) as -> by congruence. apply lookup_insert_eq.
      * rewrite lookup_insert_ne; [apply (Ho1 i); [lia|done|done]|]. apply not_eq_sym. exact (saved_key i n bi b Hbi Hbn ltac:(lia)).
    + intros h ri. rewrite Eo, lookup_insert. case_decide as Hd; [intros [= <-]; exists n; split; [lia|done]|].
      intros E. destruct (Ho2 _ _ E) as (i & Hi & Hri). exists i. split; [lia|done].
    + unfold saved_choice in *. destruct (sc_first _ _ _ _ Hsc) as (bt & Hbt & Hmt).
      destruct (Nat.ltb_spec t n) as [Htn|Htn].
      * rewrite (proj2 (Nat.ltb_lt t (S n))) by lia. destruct Hch as (rt & bt' & -> & Hrt & Hbt'). cbn.
        assert (bt' = bt) as -> by congruence. destruct (lookup_lt_is_Some_2 bs 0) as [b0 H0]; [apply lookup_lt_Some in Hbn; lia|].
        pose proof (saved_height _ b0 bt H0 Hbt). pose proof (saved_height _ b0 b H0 Hbn).
        rewrite (proj2 (Z.ltb_ge (height bt) (height b))), andb_false_r by lia. eauto.
      * subst block. rewrite andb_true_r. destruct (Z.eqb_spec (height b mod BLOCK_DIFFICULTY_INTERVAL) 0) as [Hm|Hm].
        -- destruct (decide (n = t)) as [->|Hne]; [|exfalso; exact (sc_above _ _ _ _ Hsc n b ltac:(lia) Hbn Hm)].
           rewrite (proj2 (Nat.ltb_lt t (S t))) by lia. eauto.
        -- rewrite (proj2 (Nat.ltb_ge t (S n))); [done|]. destruct (decide (n = t)) as [->|]; [congruence|lia].
Qed.

(** The links from the transition block to the newest one. *)
Lemma link_chain : forall i c r b fuel, loading h0 c -> rs !! i = Some r -> bs !! i = Some b -> (i < fuel)%nat ->
  (forall j bj rj, (j <= i)%nat -> bs !! j = Some bj -> rs !! j = Some rj -> orphans c !! prevBlock bj = Some rj) ->
  (forall h rj, orphans c !! h = Some rj -> exists j, rs !! j = Some rj) ->
  exists c', link_saved fuel (Some (r, b)) c = Some c' /\ chain_ok ht c' /\
    (forall j bj rj, (j <= i)%nat -> bs !! j = Some bj -> rs !! j = Some rj -> in_chain c' (rj, bj)) /\
    (forall y, in_chain c y -> (forall j bj, (j <= i)%nat -> bs !! j = Some bj -> blockHash bj <> blockHash (snd y)) -> in_chain c' y) /\
    exists r0 b0, rs !! 0%nat = Some r0 /\ bs !! 0%nat = Some b0 /\ last_block c' = Some (r0, b0).
Proof.
  induction i as [|i IH]; intros c r b fuel Hc Hr Hb Hf Ho Ho2; destruct fuel as [|fuel]; try lia.
  all: pose proof (Forall_lookup_1 _ _ _ _ (sc_ok _ _ _ _ Hsc) Hr) as Hs; destruct (saved_at _ r Hr) as (b1 & Hb1 & Ehb & _ & Hhb);
    assert (b1 = b) as -> by congruence; pose proof (lookup_weaken _ _ _ _ Ehb (ld_heap _ _ Hc)) as Hx;
    destruct (link_saved_step h0 c (r, b) Hc Hs Hx) as (c1 & next & Hc1 & Hin & Hlast & Eo & Eh & Eb & En & Hl);
    rewrite Hl; clear Hl; cbn [fst snd] in *; unfold orphan_get in En; rewrite Eo in En.
  - assert (orphans c1 !! blockHash b = None) as En'.
    { destruct (orphans c1 !! blockHash b) as [rj|] eqn:E; [|done]. destruct (ok_orphans ht c1 (proj1 (ld_ok _ _ Hc1)) _ _ E) as [(bj & Ej & Ep & _) _].
      rewrite Eo in E. apply lookup_delete_Some in E as [_ E]. destruct (Ho2 _ _ E) as [j Hj].
      destruct (saved_at j rj Hj) as (bj' & Hbj & Ehj & [_ _ Hpar] & Hhj). pose proof (lookup_weaken _ _ _ _ Ehj (ld_heap _ _ Hc1)).
      assert (bj' = bj) as -> by congruence. pose proof (saved_height j b bj Hb Hbj). destruct (saved_block 0 b Hb) as [[Hne _ _] _].
      destruct Hpar as [Hz|Hpar]; [congruence|]. rewrite Ep in Hpar. lia. }
    rewrite Eo in En'. rewrite En' in En. injection En as <-. exists c1. split; [now destruct fuel|]. split; [apply Hc1|]. split.
    + intros j bj rj Hj Hbj Hrj. replace j with 0%nat in * by lia. assert (bj = b) as -> by congruence. assert (rj = r) as -> by congruence. done.
    + split; [intros y [Hyb Hyh] Hne; split; [rewrite Eb, lookup_insert_ne; [done|exact (Hne 0%nat b ltac:(lia) Hb)]|congruence]|].
      exists r, b. split; [done|]. split; [done|]. unfold last_block. rewrite Hlast, bind_Some_l. destruct Hin as [_ Hin]. cbn [fst snd] in Hin. rewrite Hin. reflexivity.
  - destruct (lookup_lt_is_Some_2 bs i) as [b' Hb']; [apply lookup_lt_Some in Hb; lia|]. destruct (saved_ref i b' Hb') as [r' Hr'].
    pose proof (sc_next _ _ _ _ Hsc i b' b Hb' Hb) as Hp.
    assert (Hkey : prevBlock b <> blockHash b) by (rewrite <- Hp; apply not_eq_sym; exact (saved_key i (S i) b' b Hb' Hb ltac:(lia))).
    rewrite lookup_delete_ne, <- Hp, (Ho i b' r' ltac:(lia) Hb' Hr') in En by done. cbn [block_ref] in En.
    destruct (saved_at i r' Hr') as (b2 & Hb2 & Eh2 & _). assert (b2 = b') as -> by congruence.
    rewrite (lookup_weaken _ _ _ _ Eh2 (ld_heap _ _ Hc1)), bind_Some_l in En. injection En as <-.
    destruct (IH c1 r' b' fuel Hc1 Hr' Hb' ltac:(lia)) as (c' & El & Hok' & Hin' & Hold & Hlast').
    + intros j bj rj Hj Hbj Hrj. rewrite Eo, lookup_delete_ne; [apply (Ho j bj rj); [lia|done|done]|]. apply not_eq_sym.
      exact (saved_key j (S i) bj b Hbj Hb ltac:(lia)).
    + intros h rj E. rewrite Eo in E. apply lookup_delete_Some in E as [_ E]. eauto.
    + exists c'. split; [exact El|]. split; [exact Hok'|].
      destruct (lookup_lt_is_Some_2 bs 0) as [b0 H0]; [apply lookup_lt_Some in Hb; lia|].
      split; [|split; [|exact Hlast']].
      * intros j bj rj Hj Hbj Hrj. destruct (decide (j = S i)) as [->|]; [|apply (Hin' j); [lia|done|done]].
        assert (bj = b) as -> by congruence. assert (rj = r) as -> by congruence. apply Hold; [exact Hin|].
        intros j bj Hji Hbj' E. cbn [snd] in E. destruct (saved_block j bj Hbj') as [_ Hhj].
        pose proof (saved_height j b0 bj H0 Hbj'). pose proof (saved_height (S i) b0 b H0 Hb). rewrite E in Hhj. lia.
      * intros y [Hyb Hyh] Hne. apply Hold; [|intros j bj Hj; apply Hne; lia].
        split; [rewrite Eb, lookup_insert_ne; [done|exact (Hne (S i) b ltac:(lia) Hb)]|congruence].
Qed.
End saved.

Lemma saved_restored h0 ekt rs bs t : Forall checkpoint_ok checkpoint_array -> NoDup (checkpoint_hash <$> checkpoint_array) ->
  saved_chain h0 rs bs t -> exists c r0 b0,
    new_chain checkpoint_array h0 ekt rs = Some c /\ chain_ok ht c /\ rs !! 0%nat = Some r0 /\ bs !! 0%nat = Some b0 /\
    last_block c = Some (r0, b0) /\ forall i b r, (i <= t)%nat -> bs !! i = Some b -> rs !! i = Some r -> in_chain c (r, b).
Proof.
  intros Hk Hnd Hsc. pose proof (checkpoints_ok h0 ekt checkpoint_array [] O _ Hk Hnd (starting_empty h0)) as Hst.
  unfold new_chain. destruct (foldl _ _ _) as [i c] eqn:E. cbn [snd app] in Hst.
  pose proof Hst as [Hok Ho Hh Hb Hl].
  assert (Hc : loading h0 c).
  { constructor; [exact (starting_last _ _ _ Hst)| |done]. intros h r Er. rewrite Ho in Er. now rewrite lookup_empty in Er. }
  destruct (add_chain h0 rs bs t Hsc (length rs) ltac:(lia) c Hc Ho) as (block & c1 & E1 & Hc1 & _ & [Ho1 Ho2] & Hch);
    [intros h r Er; now destruct (Hb _ _ Er)|].
  rewrite take_ge in E1 by lia. rewrite E1, bind_Some_l.
  destruct (sc_first _ _ _ _ Hsc) as (bt & Hbt & _). destruct (saved_ref _ _ _ _ Hsc t bt Hbt) as [rt Hrt].
  pose proof (lookup_lt_Some _ _ _ Hrt) as Htl. unfold saved_choice in Hch. rewrite (proj2 (Nat.ltb_lt _ _) Htl) in Hch.
  destruct Hch as (r & b & -> & Hr & Hbb). assert (r = rt) as -> by congruence. assert (b = bt) as -> by congruence.
  assert (Hsz : (t < size (orphans c1))%nat).
  { assert (Hd : NoDup (prevBlock <$> take (S t) bs)).
    { apply NoDup_alt. intros i' j h Hi Hj. rewrite list_lookup_fmap, lookup_take in Hi, Hj.
      case_decide; [|discriminate]. case_decide; [|discriminate].
      destruct (bs !! i') as [b1|] eqn:E1'; [|discriminate]. destruct (bs !! j) as [b2|] eqn:E2'; [|discriminate].
      cbn in Hi, Hj. destruct (Nat.lt_trichotomy i' j) as [Hlt|[->|Hlt]]; [|done|].
      - destruct (saved_key _ _ _ _ Hsc i' j b1 b2 E1' E2' Hlt); congruence.
      - destruct (saved_key _ _ _ _ Hsc j i' b2 b1 E2' E1' Hlt); congruence. }
    pose proof (lookup_lt_Some _ _ _ Hbt) as Hbl.
    assert (Hlen : length (prevBlock <$> take (S t) bs) = S t) by (rewrite length_fmap, length_take; lia).
    rewrite <- size_dom. enough (size (list_to_set (C := gset Z) (prevBlock <$> take (S t) bs)) <= size (dom (orphans c1)))%nat
      by (rewrite size_list_to_set, Hlen in * by done; lia).
    apply subseteq_size. intros h Hhh. apply elem_of_list_to_set, list_elem_of_lookup in Hhh as [i' Hi'].
    rewrite list_lookup_fmap, lookup_take in Hi'. case_decide; [|discriminate].
    destruct (bs !! i') as [b1|] eqn:E1'; [|discriminate]. injection Hi' as <-. destruct (saved_ref _ _ _ _ Hsc i' b1 E1') as [r1 Hr1].
    apply elem_of_dom. exists r1. apply (Ho1 i'); [apply lookup_lt_Some in Hr1; lia|done|done]. }
  destruct (link_chain h0 rs bs t Hsc t c1 rt bt (S (S (size (orphans c1)))) Hc1 Hr Hbb ltac:(lia)) as (c' & El & Hok' & Hin & _ & r0 & b0 & Hr0 & Hb0 & Hlast).
  - intros j bj rj Hj Hbj Hrj. apply (Ho1 j); [lia|done|done].
  - intros h rj Er. destruct (Ho2 _ _ Er) as (j & _ & Hj). eauto.
  - exists c', r0, b0. do 5 (split; [done|]). eauto.
Qed.

Lemma restored_chain h0 ekt rs c x l n bs (Hht : heights_bounded ht) :
  Forall checkpoint_ok checkpoint_array -> NoDup (checkpoint_hash <$> checkpoint_array) ->
  chain_core ht c -> in_chain c x -> line c (Some x) l -> 0 <= n -> blocks_to_save n c (Some x) = Some bs -> bs <> [] ->
  Forall2 (fun r b => h0 !! r = Some b) rs bs ->
  exists c' r0 t, new_chain checkpoint_array h0 ekt rs = Some c' /\ chain_ok ht c' /\ rs !! 0%nat = Some r0 /\
    last_block c' = Some (r0, snd x) /\
    (exists b, bs !! t = Some b /\ height b mod BLOCK_DIFFICULTY_INTERVAL = 0) /\
    forall i b r, (i <= t)%nat -> bs !! i = Some b -> rs !! i = Some r -> in_chain c' (r, b).
Proof.
  intros Hk Hnd Hok Hx Hl Hn Hs Hne Hh. destruct (blocks_to_save_line ht c Hok n x l Hn Hl Hx) as (m & E & Hm & Hend & _).
  rewrite Hs in E. injection E as ->. destruct (decide (m = 0%nat)) as [->|Hm0]; [done|]. destruct Hend as [|Hend]; [lia|].
  assert (Hat : forall i b, (snd <$> take m l) !! i = Some b -> exists y, l !! i = Some y /\ b = snd y /\ in_chain c y /\
    height b = height (snd x) - Z.of_nat i).
  { intros i b Hi. rewrite list_lookup_fmap, lookup_take in Hi. case_decide; [|discriminate].
    destruct (l !! i) as [y|] eqn:Ey; [|discriminate]. injection Hi as <-. destruct (line_lookup ht c Hok x l Hl Hx i y Ey). eauto. }
  assert (Hlast : exists b, (snd <$> take m l) !! (m - 1)%nat = Some b /\ height b mod BLOCK_DIFFICULTY_INTERVAL = 0).
  { destruct (lookup_lt_is_Some_2 (snd <$> take m l) (m - 1)) as [b Hb]; [rewrite length_fmap, length_take; lia|].
    exists b. split; [done|]. destruct (Hat _ _ Hb) as (_ & _ & _ & _ & Ehb). unfold ends_at_transition in Hend.
    rewrite Ehb. replace (Z.of_nat (m - 1)) with (Z.of_nat m - 1) by lia. exact Hend. }
  assert (Hfirst : exists t, (exists b, (snd <$> take m l) !! t = Some b /\ height b mod BLOCK_DIFFICULTY_INTERVAL = 0) /\
    forall i b, (i < t)%nat -> (snd <$> take m l) !! i = Some b -> height b mod BLOCK_DIFFICULTY_INTERVAL <> 0).
  { destruct (list_find (fun b => height b mod BLOCK_DIFFICULTY_INTERVAL = 0) (snd <$> take m l)) as [[t b]|] eqn:Ef.
    - apply list_find_Some in Ef as (Ht & Hmod & Hmin). exists t. split; [eauto|]. intros i b' Hi Hb'. exact (Hmin i b' Hb' Hi).
    - apply list_find_None in Ef. destruct Hlast as (b & Hb & Hmod). rewrite Forall_lookup in Ef. now destruct (Ef _ _ Hb). }
  destruct Hfirst as (t & Hft & Habove).
  assert (Hsc : saved_chain h0 rs (snd <$> take m l) t).
  { constructor; [done| | |done|done].
    - apply Forall_lookup. intros i r Hr. destruct (Forall2_lookup_l _ _ _ _ _ Hh Hr) as (b & Hb & Eb).
      destruct (Hat i b Hb) as (y & _ & -> & Hy & _). exists (snd y). split; [done|].
      destruct (in_chain_place ht c Hok y Hy) as [Hn0 Hu Hhy Hp]. split; [now constructor|]. split; [done|].
      pose proof (in_chain_height ht Hht c Hok y Hy). unfold BLOCK_UNKNOWN_HEIGHT, INT32_MAX. lia.
    - intros i b b' Hb Hb'. destruct (Hat i b Hb) as (y & Hy & -> & Hyc & _), (Hat _ b' Hb') as (z & Hz & -> & _).
      pose proof (line_from c x l i y Hl Hy) as Hly. rewrite (drop_S _ _ _ Hy) in Hly. destruct (line_next c _ _ Hly) as [Eg _].
      rewrite head_drop, Hz in Eg. now destruct (parent_height ht c Hok y z Hyc Eg) as (_ & _ & ?). }
  destruct (saved_restored h0 ekt rs _ t Hk Hnd Hsc) as (c' & r0 & b0 & En & Hok' & Hr0 & Hb0 & Hlb & Hin).
  exists c', r0, t. split; [done|]. split; [done|]. split; [done|]. split; [|split; [done|done]].
  destruct (Hat _ _ Hb0) as (y & Hy & -> & _). rewrite <- head_lookup, (line_head c _ _ Hl) in Hy. congruence.
Qed.
End start.

(** ** Headers in order *)

Definition is_header (b : BRMerkleBlock) : Prop := totalTx b = 0 /\ flagsLen b = 0.

Lemma walk_done fuel b tx n d w : more b (hashIdx w) (MerkleBlock.flagIdx w) = false ->
  _BRMerkleBlockTxHashesR (S fuel) b tx n d w = Some w.
Proof. intros E. cbn [_BRMerkleBlockTxHashesR]. now rewrite E. Qed.

Lemma header_no_tx b cap : is_header b -> BRMerkleBlockTxHashes b cap = Some ([], 0).
Proof.
  intros [_ Hf]. unfold BRMerkleBlockTxHashes, tree_fuel. rewrite walk_done; [reflexivity|]. unfold more. cbn [hashIdx MerkleBlock.flagIdx].
  now rewrite Hf.
Qed.

(** [x] returns from [m], with a result in [Q]. *)
Definition reaches {A} (x : M A) (m : Manager) (Q : A -> Manager -> Prop) : Prop := exists a m', x m = Some (a, m') /\ Q a m'.

Lemma reaches_bind {A B} (x : M A) (f : A -> M B) m Q : reaches x m (fun a m1 => reaches (f a) m1 Q) -> reaches (x ≫= f) m Q.
Proof. intros (a & m1 & E & b & m2 & E2 & HQ). exists b, m2. split; [now rewrite (run_bind _ _ _ _ _ E)|done]. Qed.

Lemma reaches_step {A B} (x : M A) (f : A -> M B) m a m1 Q : x m = Some (a, m1) -> reaches (f a) m1 Q -> reaches (x ≫= f) m Q.
Proof. intros E H. apply reaches_bind. now exists a, m1. Qed.

(** What a relayed header leaves alone, beside the chain. *)
Definition same_rest (m m' : Manager) : Prop :=
  filters m' = filters m /\ peerStore (net m') = peerStore (net m) /\ earliestKeyTime m' = earliestKeyTime m.

Definition same (m m' : Manager) : Prop := chain m' = chain m /\ same_rest m m'.

Lemma same_rest_trans m1 m2 m3 : same_rest m1 m2 -> same_rest m2 m3 -> same_rest m1 m3.
Proof. intros (A1 & B1 & C1) (A2 & B2 & C2). repeat split; congruence. Qed.

(** Operations that always return and do nothing to these parts. *)
Definition quiet (x : M unit) : Prop := forall m, exists m', x m = Some (tt, m') /\ same m m'.

Lemma quiet_emit a : quiet (emit a).
Proof. intros m. eexists. split; [reflexivity|done]. Qed.

Lemma quiet_skip : quiet skip.
Proof. intros m. eexists. split; [reflexivity|done]. Qed.

Lemma quiet_when b x : quiet x -> quiet (when b x).
Proof. intros H. destruct b; [exact H|exact quiet_skip]. Qed.

Lemma quiet_reschedule p : quiet (reschedule p).
Proof. intros m. eexists. split; [reflexivity|done]. Qed.

Lemma reaches_quiet {B} x (f : unit -> M B) m Q : quiet x -> (forall m1, same m m1 -> reaches (f tt) m1 Q) -> reaches (x ≫= f) m Q.
Proof. intros Hx Hf. destruct (Hx m) as (m1 & E & Hs). exact (reaches_step _ _ _ _ _ _ E (Hf m1 Hs)). Qed.

Section progress.
Context (ht : Z -> Z) (Hht : heights_bounded ht) `{AddressChain} (ckpts : list Checkpoint) (now : Z).
Context (bloom_size : double -> Z -> Z) (bloom_funcs : Z -> Z -> Z).

(** A header that extends the main chain, during the download. *)
Record next_header (m : Manager) (p r : nat) (b : BRMerkleBlock) (y : Block) (x : PeerContext) : Prop := {
  nh_ok : chain_ok ht (chain m);
  nh_in : incoming ht (chain m) (r, b);
  nh_last : last_block (chain m) = Some y;
  nh_prev : prevBlock b = blockHash (snd y);
  nh_header : is_header b;
  nh_old : u32 (MerkleBlock.timestamp b + WEEK) <= u32 (earliestKeyTime m + 2 * 60 * 60);
  nh_filter : bloomFilter (filters m) <> None;
  nh_peer : peerStore (net m) !! p = Some x;
  nh_height : DGW_START_BLOCK <= height (snd y) + 1 < estimatedHeight (chain m);
  nh_checkpoint : checkpoints (chain m) !! (height (snd y) + 1) = None;
  nh_orphan : orphans (chain m) !! blockHash b = None;
}.

(** The chain when the height of the block is set, and when the block was added. *)
Definition linked_header (c : Chain) (r : nat) (b : BRMerkleBlock) (h : Z) : Chain := set_heap (<[r := with_height h b]> (heap c)) c.

Definition extended (c : Chain) (r : nat) (b : BRMerkleBlock) (h n : Z) : Chain :=
  set_lastBlock (Some r) (set_blocks (<[blockHash b := r]> (blocks c)) (set_pastCount n (linked_header c r b h))).

Section header.
Context (m : Manager) (p r : nat) (b : BRMerkleBlock) (y : Block) (x : PeerContext) (n : Z).
Context (Hn : next_header m p r b y x).
Notation h := (height (snd y) + 1).
Notation blk := (r, with_height h b).
Notation c1 := (linked_header (chain m) r b h).
Context (Hd : BRMerkleBlockVerifyDifficulty (with_height h b) (snd y) c1 (pastCount (chain m)) = Some (true, n)).

Lemma tip_in : in_chain (chain m) y /\ lastBlock (chain m) = Some (fst y).
Proof. apply last_in_chain; [apply (nh_ok _ _ _ _ _ _ Hn)|apply (nh_last _ _ _ _ _ _ Hn)]. Qed.

Lemma header_height : 0 <= height (snd y) < 0x40000000.
Proof. destruct tip_in as [Hy _]. exact (in_chain_height ht Hht _ (proj1 (nh_ok _ _ _ _ _ _ Hn)) y Hy). Qed.

Lemma linked_in z : in_chain (chain m) z -> in_chain c1 z.
Proof.
  intros [Hz Hh]. destruct (nh_in _ _ _ _ _ _ Hn) as [_ (Ub & _ & _) _]. split; [exact Hz|]. cbn.
  rewrite lookup_insert_ne; [exact Hh|]. intros E. apply (Ub (blockHash (snd z))). cbn [fst] in *. rewrite E. exact Hz.
Qed.

Lemma linked_core : chain_core ht c1.
Proof. destruct (nh_in _ _ _ _ _ _ Hn) as [_ Hu _]. apply set_heap_core; [apply (nh_ok _ _ _ _ _ _ Hn)|exact Hu]. Qed.

Lemma link_header : link_block r m = Some (blk, Some y, MerkleBlock.timestamp b / 2 + MerkleBlock.timestamp (snd y) / 2, set_chain_of c1 m).
Proof.
  destruct (nh_in _ _ _ _ _ _ Hn) as [Hx _ _]. cbn [fst snd] in Hx. unfold link_block. rewrite Hx, bind_Some_l.
  rewrite (nh_prev _ _ _ _ _ _ Hn), (in_chain_get _ y (proj1 tip_in)), bind_Some_l. pose proof header_height. destruct y as [ry yb]. cbn [snd] in *.
  rewrite u32_id by lia. reflexivity.
Qed.

Lemma verify_header : _BRPeerManagerVerifyBlock blk y c1 = Some (true, set_pastCount n c1).
Proof.
  apply (verify_dgw ht Hht); [exact linked_core|apply linked_in, tip_in|exact (nh_prev _ _ _ _ _ _ Hn)| |exact Hd|exact (nh_checkpoint _ _ _ _ _ _ Hn)].
  apply (nh_height _ _ _ _ _ _ Hn).
Qed.
Lemma add_next_header : exists o, add_block blk (set_pastCount n c1) = Some (o, set_blocks (<[blockHash b := r]> (blocks (chain m))) (set_pastCount n c1)).
Proof.
  unfold add_block. destruct (block_get_total ht c1 linked_core (blockHash b)) as (o & E & _). exists o.
  cbn [snd fst with_height blockHash]. change (block_get (set_pastCount n c1) (blockHash b)) with (block_get c1 (blockHash b)).
  rewrite E, bind_Some_l. reflexivity.
Qed.

Notation c2 := (extended (chain m) r b h n).

Lemma extended_ok : chain_core ht c2 /\ in_chain c2 blk.
Proof.
  pose proof (nh_in _ _ _ _ _ _ Hn) as [Hx (Ub & Uo & Ul) Hr]. pose proof header_height as Hh.
  assert (Hp : in_place ht (snd blk)).
  { apply relayable_place; [now destruct Hr|]. cbn [snd with_height height blockHash]. destruct tip_in as [Hy _].
    destruct (in_chain_place ht _ (proj1 (nh_ok _ _ _ _ _ _ Hn)) y Hy) as [Hne _ Hyh _]. destruct Hr as [_ _ [Hz|Hp]]; cbn [snd] in *.
    - rewrite (nh_prev _ _ _ _ _ _ Hn) in Hz. congruence.
    - rewrite Hp, (nh_prev _ _ _ _ _ _ Hn). lia. }
  pose proof linked_core as Hc. destruct add_next_header as [o Ha].
  assert (Hc' : chain_core ht (set_pastCount n c1)) by (now destruct Hc; split).
  destruct (add_block_core ht (set_pastCount n c1) blk o _ Hc' (lookup_insert_eq _ _ _) Hp Uo Ha) as (Hok & Hin & _).
  destruct (set_last_ok ht _ blk Hok Hin) as [Hok' _]. split; [exact Hok'|exact Hin].
Qed.

Lemma saved_header k : 0 <= k -> exists l, blocks_to_save k c2 (Some blk) = Some l.
Proof.
  intros Hk. destruct extended_ok as [Hok Hin]. destruct (line_exists ht Hht c2 Hok blk Hin) as [l Hl].
  destruct (blocks_to_save_line ht c2 Hok k blk l Hk Hl Hin) as (j & E & _). eauto.
Qed.

Notation txTime := (MerkleBlock.timestamp b / 2 + MerkleBlock.timestamp (snd y) / 2).

Lemma not_complete k m' : k < estimatedHeight (chain m') -> download_complete bloom_size bloom_funcs k m' = Some (0, m').
Proof.
  intros Hk. unfold download_complete. rewrite (run_bind _ _ m' _ m' eq_refl). cbv beta. rewrite (proj2 (Z.eqb_neq _ _)) by lia. reflexivity.
Qed.

Definition placed (res : option nat * Z) (m' : Manager) : Prop := (fst res = Some r /\ 0 <= snd res) /\ chain m' = c2 /\ same_rest m m'.

Lemma next_placed : reaches (place_next now bloom_size bloom_funcs p blk [] txTime) (set_chain_of (set_pastCount n c1) m) placed.
Proof.
  pose proof (nh_height _ _ _ _ _ _ Hn) as He. destruct add_next_header as [o Ha]. unfold place_next. cbv zeta. cbn [snd fst with_height height].
  eapply reaches_step; [unfold on_chain; cbn [chain set_chain_of]; rewrite Ha; reflexivity|].
  do 3 (eapply reaches_step; [reflexivity|]). cbv beta. set (m2 := set_chain_of _ _).
  assert (H2 : chain m2 = c2 /\ same_rest m m2) by done. clearbody m2.
  apply reaches_quiet; [destruct (downloadPeer _); [apply quiet_emit|apply quiet_skip]|]. intros m3 [E3 S3].
  eapply reaches_step; [reflexivity|]. cbv beta. apply reaches_quiet; [apply quiet_when, quiet_reschedule|]. intros m4 [E4 S4].
  assert (Ec : chain m4 = c2) by (destruct H2; congruence).
  eapply reaches_step; [apply not_complete; rewrite Ec; apply He|]. eexists _, m4. split; [reflexivity|]. unfold placed. cbn [fst snd].
  split; [split; [done|]; change (0 <? 0) with false; destruct (_ =? 0); lia|]. split; [exact Ec|]. destruct H2 as [_ S2].
  eapply same_rest_trans; [exact S2|]. eapply same_rest_trans; eauto.
Qed.

Lemma header_placed : reaches (place ckpts now bloom_size bloom_funcs p blk (Some y) [] txTime) (set_chain_of c1 m) placed.
Proof.
  destruct (nh_header _ _ _ _ _ _ Hn) as [Ht _]. destruct tip_in as [Hy Hlast]. pose proof (linked_in y Hy) as [_ Hy1].
  destruct (block_get_total ht c1 linked_core (blockHash b)) as (known & Ek & _). pose proof (nh_old _ _ _ _ _ _ Hn) as Hold.
  unfold place. eapply reaches_step; [reflexivity|]. cbv zeta beta. cbn [id snd fst with_height totalTx MerkleBlock.timestamp set_chain_of earliestKeyTime filters].
  rewrite (proj2 (Z.ltb_ge _ _) Hold), andb_false_r. destruct (bloomFilter (filters m)) eqn:Ef; [|now destruct (nh_filter _ _ _ _ _ _ Hn)].
  eapply reaches_step; [unfold on_chain; cbn [chain set_chain_of]; rewrite verify_header; reflexivity|]. cbv beta iota.
  change (set_chain_of _ (set_chain_of c1 m)) with (set_chain_of (set_pastCount n c1) m). unfold place_valid.
  assert (El : last_block (set_pastCount n c1) = Some y).
  { unfold last_block. cbn [set_pastCount lastBlock linked_header set_heap]. rewrite Hlast, bind_Some_l. cbn in Hy1. cbn [set_pastCount heap set_heap linked_header].
    rewrite Hy1, bind_Some_l. now destruct y. }
  eapply reaches_step; [unfold last_of, look; cbn [chain set_chain_of]; rewrite El; reflexivity|]. cbv beta.
  eapply reaches_step; [unfold look; cbn [chain set_chain_of snd with_height blockHash];
    change (block_get (set_pastCount n c1) (blockHash b)) with (block_get c1 (blockHash b)); rewrite Ek; reflexivity|]. cbv beta.
  eapply reaches_step; [unfold peer_at; cbn [net set_chain_of]; rewrite (nh_peer _ _ _ _ _ _ Hn); reflexivity|]. cbv beta zeta.
  cbn [snd with_height prevBlock]. rewrite (nh_prev _ _ _ _ _ _ Hn).
  destruct (in_chain_place ht _ (proj1 (nh_ok _ _ _ _ _ _ Hn)) y Hy) as [_ [Hu _] _ _].
  rewrite UInt256Eq_spec, Z.eqb_refl by done. exact next_placed.
Qed.

(** One header: the block becomes [lastBlock], and the rest is as it was. *)
Lemma header_relayed : reaches (_peerRelayedBlock ckpts now bloom_size bloom_funcs p r) m (fun _ m' => chain m' = c2 /\ same_rest m m').
Proof.
  destruct (nh_in _ _ _ _ _ _ Hn) as [Hx Hu _]. cbn [fst snd] in Hx. pose proof (nh_header _ _ _ _ _ _ Hn) as Hhd.
  pose proof header_height as Hh. pose proof (nh_height _ _ _ _ _ _ Hn) as He. unfold _peerRelayedBlock, reaches. cbn [relay_blocks].
  apply reaches_bind. unfold relay_step.
  eapply reaches_step; [unfold look; rewrite Hx; reflexivity|]. cbv beta.
  do 2 (eapply reaches_step; [rewrite header_no_tx by done; reflexivity|]; cbv beta iota).
  eapply reaches_step; [exact link_header|]. cbv beta iota. cbn [snd].
  eapply reaches_step; [unfold track_rate; rewrite (run_bind _ _ _ _ _ eq_refl); cbn [with_height totalTx]; rewrite (proj1 Hhd), andb_false_r; reflexivity|].
  cbv beta. apply reaches_bind. destruct header_placed as ([pl k] & m2 & E2 & [Hpl Hk] & Ec & S2). exists (pl, k), m2. split; [exact E2|].
  cbn [fst snd] in *. subst pl. destruct extended_ok as [Hok2 Hin2].
  assert (Hheap : heap c2 !! r = Some (with_height h b)) by apply Hin2.
  eapply reaches_step.
  { unfold on_chain, next_orphan. rewrite Ec, Hheap, bind_Some_l. cbn [with_height height blockHash].
    unfold BLOCK_UNKNOWN_HEIGHT, INT32_MAX. rewrite (proj2 (Z.eqb_neq _ _)) by lia. rewrite (proj2 (Z.ltb_ge _ _)) by (cbn; lia).
    unfold remove_orphan, orphan_get. cbn [extended set_lastBlock set_blocks set_pastCount linked_header set_heap orphans].
    rewrite (nh_orphan _ _ _ _ _ _ Hn), delete_id by exact (nh_orphan _ _ _ _ _ _ Hn). reflexivity. }
  cbv beta. change (set_orphans (orphans (chain m)) _) with c2. cbn [option_map].
  eapply reaches_step; [unfold look; cbn [chain set_chain_of block_ref]; rewrite Hheap, bind_Some_l; reflexivity|]. cbv beta.
  destruct (saved_header k Hk) as [saved Es].
  eapply reaches_step; [unfold look; cbn [chain set_chain_of]; rewrite Es; reflexivity|]. cbv beta.
  apply reaches_quiet; [apply quiet_when, quiet_emit|]. intros m3 [E3 S3].
  eapply reaches_step; [unfold peer_at; destruct S3 as (_ & -> & _); cbn [net set_chain_of]; destruct S2 as (_ & -> & _);
    rewrite (nh_peer _ _ _ _ _ _ Hn); reflexivity|]. cbv beta.
  apply reaches_quiet; [apply quiet_when, quiet_emit|]. intros m4 [E4 S4].
  exists None, m4. split; [reflexivity|]. exists tt, m4. split; [reflexivity|]. split; [rewrite E4, E3; reflexivity|].
  eapply same_rest_trans; [exact S2|]. eapply same_rest_trans; [exact S3|exact S4].
Qed.

End header.
End progress.
