(* ===== verification/PeerSpec.v ===== *)
(** * PeerSpec: the properties of the peer manager

    The invariant over all sequences of events, the end of the recursion of [_peerRelayedBlock], the
    download of headers, block locators, reorganisations, and saving and restoring a chain. *)
From stdpp Require Import base numbers list gmap sets fin_maps relations.
From Stdlib Require Import ZArith Lia.
From S2P Require Import Prelude CMem Int Address Transaction MerkleBlock Bloom Sequence Wallet WalletOps PeerManager PeerHandlers PeerChain PeerProofs PeerStart.
Local Open Scope Z_scope.

(** ** Examples *)

(** A check of the invariant that evaluates. *)
Definition place_check (ht : Z -> Z) (b : BRMerkleBlock) : bool :=
  negb (blockHash b =? 0) && ((0 <=? blockHash b) && (blockHash b <? U256)) && ((0 <=? prevBlock b) && (prevBlock b <? U256)) &&
  (height b =? ht (blockHash b)) && ((prevBlock b =? 0) || (ht (blockHash b) =? ht (prevBlock b) + 1)).

Definition entry_check (ht : Z -> Z) (c : Chain) (h : Z) (r : nat) : bool :=
  match heap c !! r with Some b => (blockHash b =? h) && place_check ht b | None => false end.

Definition chain_check (ht : Z -> Z) (c : Chain) : bool :=
  bool_decide (map_Forall (fun h r => entry_check ht c h r = true) (blocks c)) && bool_decide (orphans c = ∅) &&
  match last_block c with Some x => bool_decide (blocks c !! blockHash (snd x) = Some (fst x)) | None => true end.

Lemma place_checked ht b : place_check ht b = true -> in_place ht b.
Proof.
  unfold place_check. rewrite !andb_true_iff, negb_true_iff, orb_true_iff, !Z.eqb_eq, !Z.leb_le, !Z.ltb_lt, Z.eqb_neq.
  intros [[[[H1 H2] H3] H4] H5]. constructor; [done|split; red; lia|done|done].
Qed.

Lemma chain_checked ht c : chain_check ht c = true -> chain_ok ht c.
Proof.
  unfold chain_check. rewrite !andb_true_iff, !bool_decide_eq_true. intros [[Hb Ho] Hl]. split; [split|].
  - intros h r E. specialize (Hb h r E). unfold entry_check in Hb. destruct (heap c !! r) as [b|]; [|done].
    apply andb_true_iff in Hb as [Hh Hp]. exists b. split; [done|]. split; [lia|now apply place_checked].
  - intros h r E. rewrite Ho in E. now rewrite lookup_empty in E.
  - intros r b E Eb. unfold last_block in Hl. rewrite E, bind_Some_l, Eb, bind_Some_l in Hl. now apply bool_decide_eq_true in Hl.
Qed.

Lemma unheld_checked c r : bool_decide (map_Forall (fun _ r' => r' <> r) (blocks c)) = true ->
  bool_decide (map_Forall (fun _ r' => r' <> r) (orphans c)) = true -> lastBlock c <> Some r -> unheld c r.
Proof.
  rewrite !bool_decide_eq_true. intros Hb Ho Hl. split; [|split]; [intros h E; now apply (Hb h r E)|intros h E; now apply (Ho h r E)|done].
Qed.

(** Block 2 has two children, 3 and 4; 5 follows 4; 77 follows the second checkpoint, 1002 and 1003 follow 1001. *)
Definition ex_checkpoint : Z := Eval vm_compute in default 0 (checkpoint_hash <$> checkpoint_array_testnet !! 1%nat).
Definition ex_ht (h : Z) : Z :=
  if h =? 2 then 1 else if h =? 3 then 2 else if h =? 4 then 2 else if h =? 5 then 3 else
  if h =? 1001 then 400000 else if h =? 1002 then 400001 else if h =? 1003 then 400002 else
  if h =? ex_checkpoint then 247968 else if h =? 77 then 247969 else 0.

Lemma ex_ht_bounded : heights_bounded ex_ht.
Proof. intros h. unfold ex_ht. repeat (destruct (_ =? _); [lia|]). lia. Qed.

Lemma ex_checkpoints : Forall (checkpoint_ok ex_ht) checkpoint_array_testnet /\ NoDup (checkpoint_hash <$> checkpoint_array_testnet).
Proof.
  split; [|refine (bool_decide_eq_true_1 _ _); vm_compute; reflexivity].
  repeat (apply Forall_cons; split; [split; [apply Z.eqb_neq|]; vm_compute; reflexivity|]). apply Forall_nil. exact I.
Qed.

Definition ex_block (hash prev h : Z) : BRMerkleBlock := mkBlock hash 0 0 prev 0 (1000 + 100 * h) 0x1e00ffff 0 0 None 0 None 0 h.

Definition ex_tree : Chain :=
  mkChain {[ 1%nat := ex_block 1 0 0; 2%nat := ex_block 2 1 1; 3%nat := ex_block 3 2 2; 4%nat := ex_block 4 2 2; 5%nat := ex_block 5 4 3 ]}
    {[ 1 := 1%nat; 2 := 2%nat; 3 := 3%nat; 4 := 4%nat; 5 := 5%nat ]} ∅ ∅ (Some 3%nat) None 0 0.

Lemma ex_tree_ok : chain_ok ex_ht ex_tree.
Proof. apply chain_checked. vm_compute. reflexivity. Qed.

Definition ex_filter : FilterState := mkFilterState 0 (Some (BRBloomFilterNew 10 (fun _ => 3) 0 0)) (of_Z 0) (of_Z 1400).
Definition ex_context : PeerContext := mkContext (mkPeer 0 0 0 0 0) BRPeerStatusConnected 70012 500000 (of_Z 1) 0.
Definition ex_net : Net := mkNet true 0 0 3 [] (mkPeer 0 0 0 0 0) (Some 0%nat) [0%nat] {[ 0%nat := ex_context ]}.
Definition ex_manager (c : Chain) : Manager :=
  mkManager ex_full c ex_net ex_filter (mkRelay [] [] [] []) 2000000000 0 (mkInputs [] [] []) [].

(** A line given by its blocks. *)
Ltac line_tac := repeat (eapply line_cons; [vm_compute; reflexivity|]); apply line_nil.

(** ** Events *)

Section events.
Context (ht : Z -> Z) `{AddressChain} (checkpoint_array : list Checkpoint).
Context (bloom_size : double -> Z -> Z) (bloom_funcs : Z -> Z -> Z) (sort_peers : list BRPeer -> list BRPeer).

(** The call that a pong makes. *)
Definition pong (now : Z) (k : Pong) (p : nat) (success : bool) : M unit :=
  match k with
  | updateFilterRerequestDone => _updateFilterRerequestDone checkpoint_array p success
  | updateFilterLoadDone => _updateFilterLoadDone p success
  | updateFilterPingDone => _updateFilterPingDone bloom_size bloom_funcs p success
  | requestUnrelayedTxGetdataDone => _requestUnrelayedTxGetdataDone now p success
  | loadBloomFilterDone => _loadBloomFilterDone p success
  end.

(** What peers and the application can call, relayed blocks apart. *)
Inductive call : M unit -> Prop :=
  | call_pong now k p ok : call (pong now k p ok)
  | call_mempool p ok : call (_mempoolDone p ok)
  | call_connected now p : call (_peerConnected checkpoint_array now bloom_size bloom_funcs p)
  | call_disconnected now p e : call (_peerDisconnected now sort_peers p e)
  | call_peers now p ps : call (_peerRelayedPeers now sort_peers p ps)
  | call_notfound p hs : call (_peerDataNotfound p hs)
  | call_fee p fee : call (_peerSetFeePerKb p fee)
  | call_connect now : call (BRPeerManagerConnect now sort_peers)
  | call_rescan now : call (BRPeerManagerRescan checkpoint_array now sort_peers).

Definition allocate (r : nat) (b : BRMerkleBlock) (m : Manager) : Manager :=
  set_chain_of (set_heap (<[r := b]> (heap (chain m))) (chain m)) m.

(** An event; what is not modelled (sockets, published transactions) leaves the chain alone. *)
Inductive manager_step : Manager -> Manager -> Prop :=
  | step_block now m p r b m' : heap (chain m) !! r = None -> unheld (chain m) r -> relayable ht b ->
      _peerRelayedBlock checkpoint_array now bloom_size bloom_funcs p r (allocate r b m) = Some (tt, m') -> manager_step m m'
  | step_call m x m' : call x -> x m = Some (tt, m') -> manager_step m m'
  | step_rest m m' : chain m' = chain m -> manager_step m m'.

Lemma neutral_ok (x : M unit) m m' : neutral x -> chain_ok ht (chain m) -> x m = Some (tt, m') -> chain_ok ht (chain m').
Proof. intros Hx Hok E. now rewrite (Hx m tt m' E). Qed.

Lemma keeps_ok (x : M unit) m m' : keeps ht x -> chain_ok ht (chain m) -> x m = Some (tt, m') -> chain_ok ht (chain m').
Proof.
  intros Hx Hok E. set (r := fresh (dom (heap (chain m)))).
  assert (Hg : good ht (dom (orphans (chain m))) (r, BRMerkleBlockNew) (chain m)).
  { constructor; [done|done|]. intros b Eb. assert (Hd : r ∈ dom (heap (chain m))) by (apply elem_of_dom; eauto).
    now apply is_fresh in Hd. }
  exact (g_ok _ _ _ _ (Hx _ _ m tt m' Hg E)).
Qed.

Lemma call_ok x m m' : call x -> chain_ok ht (chain m) -> x m = Some (tt, m') -> chain_ok ht (chain m').
Proof.
  intros Hc. destruct Hc as [now [| | | |] p ok| | | | | | | |]; cbn [pong].
  3: apply keeps_ok, keeps_pingDone. 6: apply keeps_ok, keeps_connected. 11: apply keeps_ok, keeps_rescan.
  all: apply neutral_ok; auto with neutral_db.
Qed.

Lemma allocate_pre r b m : heap (chain m) !! r = None -> unheld (chain m) r -> relayable ht b -> chain_ok ht (chain m) ->
  relay_pre ht (dom (orphans (chain m))) r b (chain (allocate r b m)).
Proof.
  intros Hr Hu Hb [Hok Hl]. unfold allocate, relay_pre. cbn [chain set_chain_of].
  split; [|split; [|done]].
  - split; [now apply set_heap_core|]. intros r' b' E Eb. cbn in E. destruct Hu as (_ & _ & Hu). cbn [set_heap heap blocks] in *.
    rewrite lookup_insert_ne in Eb by congruence. now apply Hl.
  - constructor; cbn [fst snd set_heap heap]; [apply lookup_insert_eq|exact Hu|done].
Qed.

Lemma manager_step_ok m m' : heights_bounded ht -> chain_ok ht (chain m) -> manager_step m m' -> chain_ok ht (chain m').
Proof.
  intros Hht Hok Hs. destruct Hs as [now m p r b m' Hr Hu Hb E|m x m' Hc E|m m' E].
  - exact (relay_keeps ht checkpoint_array now bloom_size bloom_funcs Hht p _ r _ b m' (allocate_pre r b m Hr Hu Hb Hok) E).
  - exact (call_ok x m m' Hc Hok E).
  - now rewrite E.
Qed.

(** C2. The peer manager's block chain stays well formed.  [BRPeerManagerNew] returns on every valid table of
    checkpoints and every list of saved blocks; after any sequence of relayed blocks, pongs, connections, disconnections,
    rescans and other messages, every entry of [blocks] and [orphans] is a live object under its own key, with the
    height of its hash in the block tree; no object is in both tables; [lastBlock] is in [blocks] unless it
    was freed; and every walk over [prevBlock] reads live blocks only and ends. *)
Theorem manager_invariant (Hht : heights_bounded ht) h0 w ekt saved ps i :
  Forall (checkpoint_ok ht) checkpoint_array -> NoDup (checkpoint_hash <$> checkpoint_array) -> Forall (saved_ok ht h0) saved ->
  exists m0, BRPeerManagerNew checkpoint_array sort_peers h0 w ekt saved ps i = Some m0 /\
    forall m, rtc manager_step m0 m -> chain_ok ht (chain m) /\
      (forall h, exists o, block_get (chain m) h = Some o) /\ (forall h, exists o, orphan_get (chain m) h = Some o) /\
      forall x, in_chain (chain m) x -> exists l, line (chain m) (Some x) l /\ len l <= height (snd x) + 1.
Proof.
  intros Hk Hnd Hs. destruct (new_chain_spec ht checkpoint_array h0 ekt saved Hk Hnd Hs) as (c & Ec & Hc).
  unfold BRPeerManagerNew. rewrite Ec, bind_Some_l. eexists. split; [reflexivity|]. intros m Hm.
  assert (Hok : chain_ok ht (chain m)).
  { match type of Hm with rtc _ ?m0 _ => assert (H0 : chain_ok ht (chain m0)) by exact Hc; revert H0 end.
    induction Hm as [m|m m1 m2 Hstep _ IH]; intros H0; [done|]. now apply IH, (manager_step_ok m m1 Hht). }
  split; [exact Hok|]. destruct Hok as [Hok _]. split; [|split].
  - intros h. destruct (block_get_total ht (chain m) Hok h) as (o & E & _). eauto.
  - intros h. destruct (orphan_get_total ht (chain m) Hok h) as (o & E & _). eauto.
  - intros x Hx. destruct (line_exists ht Hht (chain m) Hok x Hx) as [l Hl]. exists l. split; [exact Hl|].
    now apply (line_length ht Hht (chain m) Hok).
Qed.

(** *** The recursion of [_peerRelayedBlock] *)

Section recursion.
Context (Hht : heights_bounded ht) (now : Z) (p : nat).
Notation step := (relay_step checkpoint_array now bloom_size bloom_funcs p).

(** A call makes another one: on the manager it leaves, for the block it returns. *)
Definition relay_call (s s' : Manager * nat) : Prop := step (snd s) (fst s) = Some (Some (snd s'), fst s').

(** A call follows another only for an orphan that waited for its block. *)
Lemma relay_call_ok m r b s' : chain_ok ht (chain m) -> incoming ht (chain m) (r, b) -> relay_call (m, r) s' ->
  chain_ok ht (chain (fst s')) /\ blockHash b ∈ dom (orphans (chain m)) /\ blockHash b ∉ dom (orphans (chain (fst s'))) /\
  exists b', incoming ht (chain (fst s')) (snd s', b') /\ prevBlock b' = blockHash b /\
    (waiting ht (chain (fst s')) b' < waiting ht (chain m) b)%nat.
Proof.
  destruct s' as [m' r']. intros Hok Hin E. unfold relay_call in E. cbn [fst snd] in *.
  assert (Hpre : relay_pre ht (dom (orphans (chain m))) r b (chain m)) by done.
  pose proof (relay_step_ens ht checkpoint_array now bloom_size bloom_funcs Hht _ p r b m _ m' Hpre E) as Hpost.
  destruct (waiting_decreases ht _ b r' _ (in_relayable _ _ _ Hin) Hpost) as (b1 & [Hh1 _ _] & Hlt).
  destruct Hpost as (Hok' & _ & b' & Hin' & Hp & Hd & Hn). pose proof (in_heap _ _ _ Hin') as Hh'. cbn [fst snd] in Hh1, Hh'.
  assert (b1 = b') as -> by congruence. split; [exact Hok'|]. split; [|split; [exact Hn|eauto]].
  apply elem_of_union in Hd as [Hd|Hd]; [|exact Hd]. apply elem_of_singleton in Hd. exfalso.
  destruct (in_relayable _ _ _ Hin) as [Hb0 _ [E0|Hb]]; cbn [snd] in *; [congruence|]. rewrite <- Hd in Hb. lia.
Qed.

Lemma relay_calls_bound n : forall m r b s, chain_ok ht (chain m) -> incoming ht (chain m) (r, b) -> nsteps relay_call n (m, r) s ->
  (n + waiting ht (chain (fst s)) (default b (heap (chain (fst s)) !! snd s)) <= waiting ht (chain m) b)%nat /\ chain_ok ht (chain (fst s)) /\
  exists b', incoming ht (chain (fst s)) (snd s, b').
Proof.
  induction n as [|n IH]; intros m r b s Hok Hin Hs; inversion Hs as [|? ? [m1 r1] ? H1 H2]; subst; cbn [fst snd].
  - pose proof (in_heap _ _ _ Hin) as Hh. cbn [fst snd] in Hh. rewrite Hh. cbn. split; [lia|eauto].
  - destruct (relay_call_ok m r b _ Hok Hin H1) as (Hok1 & _ & _ & b1 & Hin1 & _ & Hlt). cbn [fst snd] in *.
    destruct (IH m1 r1 b1 s Hok1 Hin1 H2) as (Hn & Hok' & b' & Hin'). split; [|eauto].
    pose proof (in_heap _ _ _ Hin') as Hh. cbn [fst snd] in Hh. rewrite Hh in *. cbn in *. lia.
Qed.

(** The fuel is enough for the last call: the handler does what that call does. *)
Lemma relay_calls_run w : forall m r b, chain_ok ht (chain m) -> incoming ht (chain m) (r, b) -> (waiting ht (chain m) b <= w)%nat ->
  exists n m' r', nsteps relay_call n (m, r) (m', r') /\ (forall s, ~ relay_call (m', r') s) /\
    forall fuel, (n < fuel)%nat ->
      relay_blocks checkpoint_array now bloom_size bloom_funcs fuel p r m = (_ ← step r'; mret tt) m'.
Proof.
  induction w as [w IH] using (well_founded_induction lt_wf). intros m r b Hok Hin Hw.
  destruct (step r m) as [[[r1|] m1]|] eqn:E.
  - destruct (relay_call_ok m r b (m1, r1) Hok Hin E) as (Hok1 & _ & _ & b1 & Hin1 & _ & Hlt). cbn [fst snd] in *.
    destruct (IH (waiting ht (chain m1) b1) ltac:(lia) m1 r1 b1 Hok1 Hin1 ltac:(lia)) as (n & m' & r' & Hs & Hend & Hrun).
    exists (S n), m', r'. split; [apply (nsteps_l _ _ _ (m1, r1)); [exact E|exact Hs]|]. split; [exact Hend|]. intros [|fuel] Hf; [lia|].
    cbn [relay_blocks]. rewrite (run_bind _ _ _ _ _ E). apply Hrun. lia.
  - exists O, m, r. split; [constructor|]. split; [intros s Hs; unfold relay_call in Hs; cbn in Hs; congruence|]. intros [|fuel] Hf; [lia|].
    cbn [relay_blocks]. now rewrite !(run_bind _ _ _ _ _ E).
  - exists O, m, r. split; [constructor|]. split; [intros s Hs; unfold relay_call in Hs; cbn in Hs; congruence|]. intros [|fuel] Hf; [lia|].
    cbn [relay_blocks]. unfold mbind, M_bind. now rewrite E.
Qed.

(** C4. The recursion of [_peerRelayedBlock] ends, however a peer chose the blocks.  From a well formed chain, no
    more calls follow the first than there are orphans, each on a well formed chain, and each for an orphan
    that waited for the block relayed just before and waits no more; there is a last call, which makes no other (it
    returns, or its behaviour is undefined), and the handler does what that call does: its fuel is never used up. *)
Theorem relay_terminates r b m : chain_ok ht (chain m) -> incoming ht (chain m) (r, b) ->
  (forall n s, nsteps relay_call n (m, r) s -> (n <= size (orphans (chain m)))%nat) /\
  (forall n s s', nsteps relay_call n (m, r) s -> relay_call s s' -> chain_ok ht (chain (fst s')) /\
     exists b1 b2, heap (chain (fst s)) !! snd s = Some b1 /\ heap (chain (fst s')) !! snd s' = Some b2 /\ prevBlock b2 = blockHash b1 /\
       is_Some (orphans (chain (fst s)) !! blockHash b1) /\ orphans (chain (fst s')) !! blockHash b1 = None) /\
  exists n m' r', nsteps relay_call n (m, r) (m', r') /\ (forall s, ~ relay_call (m', r') s) /\
    _peerRelayedBlock checkpoint_array now bloom_size bloom_funcs p r m =
      match relay_step checkpoint_array now bloom_size bloom_funcs p r' m' with
      | Some (_, m2) => Some (tt, m2)
      | None => None
      end.
Proof.
  intros Hok Hin. split; [|split].
  - intros n s Hs. destruct (relay_calls_bound n m r b s Hok Hin Hs) as [Hn _]. pose proof (waiting_le ht (chain m) b). lia.
  - intros n [m1 r1] s' Hs Hc. destruct (relay_calls_bound n m r b _ Hok Hin Hs) as (_ & Hok1 & b1 & Hin1).
    destruct (relay_call_ok m1 r1 b1 s' Hok1 Hin1 Hc) as (Hok2 & Hd & Hn & b2 & Hin2 & Hp & _). split; [exact Hok2|].
    exists b1, b2. split; [exact (in_heap _ _ _ Hin1)|]. split; [exact (in_heap _ _ _ Hin2)|]. split; [exact Hp|].
    split; [now apply elem_of_dom|now apply not_elem_of_dom].
  - destruct (relay_calls_run (waiting ht (chain m) b) m r b Hok Hin ltac:(lia)) as (n & m' & r' & Hs & Hend & Hrun).
    exists n, m', r'. split; [exact Hs|]. split; [exact Hend|]. unfold _peerRelayedBlock. rewrite Hrun.
    + unfold mbind, M_bind. destruct (step r' m') as [[o m2]|]; done.
    + destruct (relay_calls_bound n m r b _ Hok Hin Hs) as [Hn _]. pose proof (waiting_le ht (chain m) b). lia.
Qed.
End recursion.
End events.

Definition ex_header : BRMerkleBlock := mkBlock 77 0 0 ex_checkpoint 0 1529406000 0x1e035229 0 0 None 0 None 0 BLOCK_UNKNOWN_HEIGHT.

Lemma ex_header_relayable : relayable ex_ht ex_header.
Proof. constructor; [done|split; split; vm_compute; congruence|right; vm_compute; reflexivity]. Qed.

Definition ex_new : option Manager := @BRPeerManagerNew checkpoint_array_testnet (fun l => l) ∅ ex_full 2000000000 [] [] (mkInputs [] [] []).
Definition ex_started : Manager := ex_manager (from_option chain ex_tree ex_new).
Definition ex_relayed : option Manager :=
  '(_, m) ← @_peerRelayedBlock ex_chain checkpoint_array_testnet 1529407000 (fun _ _ => 10) (fun _ _ => 3) 0 7 (allocate 7 ex_header ex_started); Some m.

Lemma ex_relayed_height : (m ← ex_relayed; x ← last_block (chain m); Some (height (snd x))) = Some 247969.
Proof. vm_compute. reflexivity. Qed.

Lemma ex_started_unheld : heap (chain ex_started) !! 7%nat = None /\ unheld (chain ex_started) 7.
Proof. split; [vm_compute; reflexivity|]. apply unheld_checked; vm_compute; congruence. Qed.

Notation ex_step := (@manager_step ex_ht ex_chain checkpoint_array_testnet (fun _ _ => 10) (fun _ _ => 3) (fun l => l)).

Lemma ex_steps m0 m : ex_new = Some m0 -> ex_relayed = Some m -> rtc ex_step m0 m.
Proof.
  intros E0 Er. eapply rtc_l; [apply (step_rest _ _ _ _ _ m0 ex_started); unfold ex_started; now rewrite E0|]. apply rtc_once.
  unfold ex_relayed in Er. destruct (_peerRelayedBlock _ _ _ _ _ _ _) as [[[] m']|] eqn:E; [|discriminate].
  rewrite bind_Some_l in Er. injection Er as ->. destruct ex_started_unheld as [Hr Hu].
  exact (step_block _ _ _ _ _ _ ex_started 0 7 ex_header m Hr Hu ex_header_relayable E).
Qed.

Lemma manager_invariant_witness : exists m0 m, ex_new = Some m0 /\ ex_relayed = Some m /\ rtc ex_step m0 m /\ chain_ok ex_ht (chain m).
Proof.
  destruct ex_checkpoints as [Hk Hnd].
  destruct (@manager_invariant ex_ht ex_chain checkpoint_array_testnet (fun _ _ => 10) (fun _ _ => 3) (fun l => l) ex_ht_bounded
    ∅ ex_full 2000000000 [] [] (mkInputs [] [] []) Hk Hnd (Forall_nil_2 _)) as (m0 & E0 & Hm).
  pose proof ex_relayed_height as Hh. destruct ex_relayed as [m|] eqn:Er; [|discriminate].
  pose proof (ex_steps m0 m E0 Er) as Hs. exists m0, m. do 3 (split; [assumption || reflexivity|]). exact (proj1 (Hm m Hs)).
Defined.

Definition ex_new_header (hash prev : Z) : BRMerkleBlock := mkBlock hash 0 0 prev 0 1530000000 0x1e00ffff 0 0 None 0 None 0 BLOCK_UNKNOWN_HEIGHT.

(** The header 1002 arrives, and 1003 waits for it. *)
Definition ex_waiting : Chain :=
  mkChain {[ 1%nat := ex_block 1001 0 400000; 8%nat := ex_new_header 1002 1001; 9%nat := ex_new_header 1003 1002 ]}
    {[ 1001 := 1%nat ]} {[ 1002 := 9%nat ]} ∅ (Some 1%nat) None 500000 0.

Lemma ex_waiting_ok : chain_ok ex_ht ex_waiting.
Proof.
  split; [split|].
  - intros h r E. cbn in E. apply lookup_singleton_Some in E as [<- <-]. eexists. split; [reflexivity|]. split; [reflexivity|].
    apply place_checked. vm_compute. reflexivity.
  - intros h r E. cbn in E. apply lookup_singleton_Some in E as [<- <-]. split.
    + eexists. split; [reflexivity|]. split; [reflexivity|].
      constructor; [done|split; split; vm_compute; congruence|right; vm_compute; reflexivity].
    + intros h' E. cbn in E. apply lookup_singleton_Some in E as [_ E]. congruence.
  - intros r b E Eb. cbn in E. injection E as <-. cbn in Eb. injection Eb as <-. reflexivity.
Qed.

Lemma ex_waiting_incoming : incoming ex_ht ex_waiting (8%nat, ex_new_header 1002 1001).
Proof.
  constructor; [reflexivity| |constructor; [done|split; split; vm_compute; congruence|right; vm_compute; reflexivity]].
  split; [|split]; [intros h E; cbn in E; apply lookup_singleton_Some in E as [_ E]; congruence..|discriminate].
Qed.

Notation ex_call := (@relay_call ex_chain [] (fun _ _ => 10) (fun _ _ => 3) 0 0).

Lemma relay_terminates_witness :
  (exists s, ex_call (ex_manager ex_waiting, 8%nat) s /\ snd s = 9%nat /\ chain_ok ex_ht (chain (fst s)) /\ orphans (chain (fst s)) !! 1002 = None) /\
  forall n s, nsteps ex_call n (ex_manager ex_waiting, 8%nat) s -> (n <= 1)%nat.
Proof.
  destruct (@relay_terminates ex_ht ex_chain [] (fun _ _ => 10) (fun _ _ => 3) ex_ht_bounded 0 0 8%nat _ (ex_manager ex_waiting)
    ex_waiting_ok ex_waiting_incoming) as (Hn & Hc & _).
  split; [|exact Hn].
  destruct (@relay_step ex_chain [] 0 (fun _ _ => 10) (fun _ _ => 3) 0 8 (ex_manager ex_waiting)) as [[[r|] m']|] eqn:E;
    [|exfalso; revert E; vm_compute; discriminate..].
  assert (Hr : r = 9%nat) by (revert E; vm_compute; congruence). subst r.
  assert (Hs : ex_call (ex_manager ex_waiting, 8%nat) (m', 9%nat)) by exact E.
  exists (m', 9%nat). split; [exact Hs|]. split; [reflexivity|].
  destruct (Hc 0%nat _ _ (nsteps_O _ _) Hs) as (Hok & b1 & b2 & H1 & _ & _ & _ & Ho). split; [exact Hok|].
  assert (E1 : ex_new_header 1002 1001 = b1) by (apply (inj Some); exact H1). rewrite <- E1 in Ho. exact Ho.
Defined.

(** ** The download of headers *)

Section headers.
Context (ht : Z -> Z) (Hht : heights_bounded ht) `{AddressChain} (ckpts : list Checkpoint) (now : Z).
Context (bloom_size : double -> Z -> Z) (bloom_funcs : Z -> Z -> Z).

(** The headers [l] follow the block [y]: each is linked to the one before it, below the height the peer
    announced, away from the checkpoints, and passes the difficulty check on the chain as it is then. *)
Fixpoint valid_run (earliestKeyTime : Z) (c : Chain) (y : Block) (l : list Block) : Prop :=
  match l with
  | [] => True
  | (r, b) :: l' =>
      let h := height (snd y) + 1 in
      prevBlock b = blockHash (snd y) /\ is_header b /\
      u32 (MerkleBlock.timestamp b + WEEK) <= u32 (earliestKeyTime + 2 * 60 * 60) /\
      DGW_START_BLOCK <= h < estimatedHeight c /\ checkpoints c !! h = None /\ orphans c !! blockHash b = None /\
      exists n, BRMerkleBlockVerifyDifficulty (with_height h b) (snd y) (linked_header c r b h) (pastCount c) = Some (true, n) /\
        valid_run earliestKeyTime (extended c r b h n) (r, with_height h b) l'
  end.

Notation relay_header p := (fun r => _peerRelayedBlock ckpts now bloom_size bloom_funcs p r).

(** The step for one header, on the invariant that the run needs. *)
Lemma header_step m p r b y l : chain_ok ht (chain m) -> last_block (chain m) = Some y -> incoming ht (chain m) (r, b) ->
  bloomFilter (filters m) <> None -> is_Some (peerStore (net m) !! p) -> valid_run (earliestKeyTime m) (chain m) y ((r, b) :: l) ->
  exists m' n, relay_header p r m = Some (tt, m') /\ chain m' = extended (chain m) r b (height (snd y) + 1) n /\ same_rest m m' /\
    chain_ok ht (chain m') /\ in_chain (chain m') (r, with_height (height (snd y) + 1) b) /\
    valid_run (earliestKeyTime m) (chain m') (r, with_height (height (snd y) + 1) b) l.
Proof.
  intros Hok Hl Hin Hf [x Hx] (Hp & Hh & Ht & He & Hk & Ho & n & Hd & Hrun).
  assert (Hn : next_header ht m p r b y x) by now constructor.
  destruct (header_relayed ht Hht ckpts now bloom_size bloom_funcs m p r b y x n Hn Hd) as ([] & m' & E & Ec & Hs).
  destruct (extended_ok ht Hht m p r b y x n Hn) as [Hok2 Hin2].
  exists m', n. rewrite Ec. do 3 (split; [done|]). split; [|done]. exact (set_last_ok ht _ _ Hok2 Hin2).
Qed.

Lemma extended_incoming c r b h n x : r <> fst x -> incoming ht c x -> incoming ht (extended c r b h n) x.
Proof.
  intros Hne [Hh (Ub & Uo & Ul) Hr]. constructor; [|split; [|split]|exact Hr]; cbn.
  - now rewrite lookup_insert_ne.
  - intros k. rewrite lookup_insert. case_decide; [congruence|apply Ub].
  - exact Uo.
  - congruence.
Qed.

(** A block of the chain that is not above the last one stays in it. *)
Lemma extended_in_chain c r b y n z : chain_core ht c -> in_chain c z -> incoming ht c (r, b) -> in_chain c y ->
  prevBlock b = blockHash (snd y) -> height (snd z) <= height (snd y) -> in_chain (extended c r b (height (snd y) + 1) n) z.
Proof.
  intros Hok Hz [_ (Ub & _) Hr] Hy Hp Hh. pose proof Hz as [Hz1 Hz2]. cbn [fst snd] in *. split; cbn.
  - rewrite lookup_insert_ne; [exact Hz1|]. intros E. destruct (in_chain_place ht c Hok z Hz) as [_ _ Hzh _], (in_chain_place ht c Hok y Hy) as [Hy0 _ Hyh _].
    destruct Hr as [_ _ [H0|Hr]]; [congruence|]. rewrite Hp in Hr. rewrite E in Hr. lia.
  - rewrite lookup_insert_ne; [exact Hz2|]. intros E. apply (Ub (blockHash (snd z))). now rewrite E.
Qed.

(** C3. Headers make progress.  A peer the manager knows relays any number of new headers, each linked to the one
    before it and the first to the last block.  Suppose a bloom filter is loaded, and each of the headers has a height of at least
    338778, where Dark Gravity Wave starts (below, [_BRPeerManagerVerifyBlock] frees old blocks), and below the
    estimated height, at which there is no checkpoint; no orphan waits for it; its time stamp is at least a week
    before [earliestKeyTime] + 2 hours; and it passes the difficulty check on the chain as it is then.  Then
    the handler returns for each header, and in the end they all are in the chain, at consecutive heights, the last one is
    [lastBlock], and no block of the chain at or below the height of the old last block was lost. *)
Theorem headers_sync p : forall l m y, chain_ok ht (chain m) -> last_block (chain m) = Some y -> NoDup (fst <$> l) ->
  Forall (incoming ht (chain m)) l -> bloomFilter (filters m) <> None -> is_Some (peerStore (net m) !! p) ->
  valid_run (earliestKeyTime m) (chain m) y l ->
  exists m' z, each (relay_header p) (fst <$> l) m = Some (tt, m') /\ chain_ok ht (chain m') /\
    last_block (chain m') = Some z /\ height (snd z) = height (snd y) + len l /\
    (forall i r b, l !! i = Some (r, b) -> in_chain (chain m') (r, with_height (height (snd y) + 1 + Z.of_nat i) b)) /\
    forall x, in_chain (chain m) x -> height (snd x) <= height (snd y) -> in_chain (chain m') x.
Proof.
  induction l as [|[r b] l IH]; intros m y Hok Hl Hnd Hin Hf Hp Hrun.
  { exists m, y. split; [done|]. split; [done|]. split; [done|]. split; [cbn; lia|]. split; [|auto].
    intros i r b Hi. now rewrite lookup_nil in Hi. }
  apply NoDup_cons in Hnd as [Hr Hnd]. apply Forall_cons in Hin as [Hb Hin]. destruct (last_in_chain (chain m) y (proj2 Hok) Hl) as [Hy _].
  destruct (header_step m p r b y l Hok Hl Hb Hf Hp Hrun) as (m1 & n & E1 & Ec & (Sf & Sp & Se) & Hok1 & Hin1 & Hrun1).
  set (h := height (snd y) + 1) in *. destruct Hrun as (Hpv & _).
  assert (Hl1 : last_block (chain m1) = Some (r, with_height h b)).
  { unfold last_block. destruct Hin1 as [_ Hh1]. rewrite Ec in Hh1 |- *. cbn [extended set_lastBlock lastBlock fst snd] in *.
    rewrite bind_Some_l, Hh1, bind_Some_l. reflexivity. }
  destruct (IH m1 (r, with_height h b)) as (m' & z & E & Hok' & Hlz & Hz & Hall & Hold); [done|done|done| |congruence|now rewrite Sp|now rewrite Se|].
  { apply Forall_forall. intros x Hx. rewrite Forall_forall in Hin. rewrite Ec. apply extended_incoming; [|now apply Hin].
    intros E. apply Hr. cbn [fst]. rewrite E. now apply list_elem_of_fmap_2. }
  exists m', z. cbn [each fmap list_fmap fst]. split; [rewrite (run_bind _ _ _ _ _ E1); exact E|]. do 2 (split; [done|]).
  cbn [snd with_height height] in *. split; [rewrite Hz; cbn [length]; lia|]. split.
  - intros [|i] r' b' Hi; cbn [lookup list_lookup] in Hi.
    + injection Hi as <- <-. rewrite Z.add_0_r. fold h. apply Hold; [exact Hin1|cbn; lia].
    + fold h. replace (h + Z.of_nat (S i)) with (h + 1 + Z.of_nat i) by lia. now apply Hall.
  - intros x Hx Hxh. apply Hold; [|lia]. rewrite Ec. now apply (extended_in_chain (chain m) r b y n x (proj1 Hok)).
Qed.
End headers.

(** ** Locators *)

Lemma depth_closed i : Z.of_nat (locator_depth (9 + i)) = 2 ^ (Z.of_nat i + 1) + 7.
Proof.
  induction i as [|i IH]; [reflexivity|]. rewrite Nat.add_succ_r. cbn [locator_depth]. rewrite Nat2Z.inj_add, IH, Nat2Z.inj_pow.
  replace (Z.of_nat (9 + i + 1 - 9)) with (Z.of_nat i + 1) by lia. replace (Z.of_nat (S i) + 1) with (Z.succ (Z.of_nat i + 1)) by lia.
  rewrite Z.pow_succ_r by lia. change (Z.of_nat 2) with 2. lia.
Qed.

Lemma depth_mono i j : (i <= j)%nat -> (locator_depth i <= locator_depth j)%nat.
Proof. induction 1; [done|]. cbn [locator_depth]. lia. Qed.

Lemma omap_lookup {A B} (f : A -> option B) (l : list A) : (forall a, a ∈ l -> is_Some (f a)) ->
  forall i a, l !! i = Some a -> omap f l !! i = f a.
Proof.
  induction l as [|a' l IH]; intros Hall i a Hi; [now rewrite lookup_nil in Hi|]. cbn [omap list_omap].
  destruct (Hall a' ltac:(left)) as [b Hb]. rewrite Hb. destruct i as [|i]; cbn [lookup list_lookup] in *; [congruence|].
  apply IH; [|done]. intros a2 Ha2. apply Hall. now right.
Qed.

(** Heights stay below 2^30: the locators before the genesis hash. *)
Definition max_locators : nat := 38.

(** C7. The block locators of a well formed chain: both calls of [_BRPeerManagerBlockLocators] return, the second fills the array
    exactly; the locators are the last ten blocks, then blocks at depths 11, 15, 23, ... of the main chain as far
    as they are above height 0, then the genesis hash; there are at most 39. *)
Theorem locators_spec ht ckpts c x : heights_bounded ht -> chain_ok ht c -> last_block c = Some x ->
  exists l k, line c (Some x) l /\ (k <= max_locators)%nat /\
    (forall j, (j < k)%nat <-> exists y, l !! locator_depth j = Some y /\ 0 < height (snd y)) /\
    _BRPeerManagerBlockLocators ckpts c None = Some ([], Z.of_nat k + 1) /\
    block_locators ckpts c = Some (locator_hashes x l k ++ [GENESIS_BLOCK_HASH ckpts]) /\
    forall j y, (j < k)%nat -> l !! locator_depth j = Some y -> locator_hashes x l k !! j = Some (blockHash (snd y)).
Proof.
  intros Hht [Hok Hl] El. destruct (last_in_chain c x Hl El) as [Hx _]. destruct (line_exists ht Hht c Hok x Hx) as [l Hline].
  destruct (locators_line ht Hht c Hok ckpts x l Hl El Hline) as (k & Hk & Hj & E0 & E1). exists l, k. split; [exact Hline|].
  assert (Hsome : forall j, (locator_depth j < length (main_hashes x l))%nat <-> exists y, l !! locator_depth j = Some y /\ 0 < height (snd y)).
  { intros j. rewrite <- lookup_lt_is_Some, (main_lookup ht c Hok x l Hline Hx). destruct (l !! locator_depth j) as [y|]; [|split; [intros [? [=]]|intros (? & [=] & _)]].
    destruct (Z.ltb_spec 0 (height (snd y))); (split; [intros [? Hs]|intros (y' & [= <-] & Hy)]); [eauto|eauto|discriminate|lia]. }
  assert (Hk38 : (k <= 38)%nat).
  { destruct (decide (k <= 38)%nat) as [|Hgt]; [done|]. pose proof (Hj 38%nat ltac:(lia)) as Hlt. pose proof (depth_closed 29) as H38.
    change (9 + 29)%nat with 38%nat in H38. pose proof (in_chain_height ht Hht c Hok x Hx). unfold main_hashes in Hlt.
    rewrite length_fmap, length_take in Hlt. change (2 ^ (Z.of_nat 29 + 1)) with 0x40000000 in H38. lia. }
  split; [exact Hk38|]. split.
  - intros j. rewrite <- Hsome. split; [apply Hj|]. intros Hlt. destruct (decide (j < k)%nat) as [|Hge]; [done|].
    pose proof (depth_mono k j ltac:(lia)). lia.
  - split; [exact E0|]. split; [exact E1|]. intros j y Hjk Hy. unfold locator_hashes.
    rewrite (omap_lookup _ (seq 0 k)) with (a := j).
    + rewrite (main_lookup ht c Hok x l Hline Hx), Hy. specialize (Hj j Hjk). apply Hsome in Hj as (y' & Hy' & Hpos).
      assert (y' = y) as -> by congruence. now rewrite (proj2 (Z.ltb_lt _ _) Hpos).
    + intros a Ha. apply elem_of_seq in Ha. apply lookup_lt_is_Some, Hj. lia.
    + rewrite lookup_seq_lt; [done|lia].
Qed.

(** ** Reorganisations *)

Lemma bind_ext {A B} (x : M A) (f g : A -> M B) m : (forall a m1, x m = Some (a, m1) -> f a m1 = g a m1) -> (x ≫= f) m = (x ≫= g) m.
Proof. intros Hfg. unfold mbind, M_bind. destruct (x m) as [[a m1]|]; [rewrite !bind_Some_l; now apply Hfg|done]. Qed.

Lemma bind_ext_l {A B} (x y : M A) (f : A -> M B) m : x m = y m -> (x ≫= f) m = (y ≫= f) m.
Proof. intros E. unfold mbind, M_bind. now rewrite E. Qed.

(** What a reorganisation does, written out: the wallet's transactions above [join] become unconfirmed; then, for
    each pair of a block of the fork and its parent, the transactions the block reports are confirmed at its height, with the mean of
    the two time stamps; [x] becomes [lastBlock]; at the height the peers announced, the mempools are loaded. The result is the number of blocks to save. *)
Definition switch_chain `{AddressChain} (now : Z) (bloom_size : double -> Z -> Z) (bloom_funcs : Z -> Z -> Z) (x join : Block)
    (pairs : list (Block * Block)) : M Z :=
  _ ← on_wallet (fun w => BRWalletSetTxUnconfirmedAfter now w (height (snd join)));
  _ ← each (fun e : Block * Block =>
         let '((_, b), (_, parent)) := e in
         '(_, count) ← try (BRMerkleBlockTxHashes b None);
         '(hashes, count) ← try (BRMerkleBlockTxHashes b (Some count));
         when (0 <? count) (on_wallet (fun w => BRWalletUpdateTransactions now w hashes (height b)
                                                   (MerkleBlock.timestamp b / 2 + MerkleBlock.timestamp parent / 2)))) pairs;
  _ ← update_chain (fun c => Some (set_lastBlock (Some (fst x)) c));
  estimated ← gets (fun m => estimatedHeight (chain m));
  if height (snd x) =? estimated
  then _ ← _BRPeerManagerLoadMempools bloom_size bloom_funcs; mret (height (snd x) mod 2016 + 2016 + 1)
  else mret 0.

Lemma with_parents_cons x l n : with_parents (x :: l) (S n) = (x, l !! 0%nat) :: with_parents l n.
Proof. unfold with_parents. cbn [seq fmap list_fmap]. rewrite <- fmap_S_seq, <- list_fmap_compose. reflexivity. Qed.

(** The blocks of the fork with their parents. *)
Lemma confirm_pairs `{AddressChain} now (f : Block * Block -> M unit) :
  (forall r b x m, f ((r, b), x) m = confirm_block now ((r, b), Some x) m) ->
  forall n l m, (n < length l)%nat -> each (confirm_block now) (with_parents l n) m = each f (zip (take n l) (tail l)) m.
Proof.
  intros Hf. induction n as [|n IH]; intros l m Hn; [done|]. destruct l as [|[r b] [|y l]]; cbn [length] in Hn; try lia.
  rewrite with_parents_cons. cbn [lookup list_lookup take tail zip zip_with each]. unfold mbind, M_bind. rewrite Hf.
  destruct (confirm_block now (r, b, Some y) m) as [[[] m1]|]; [|done]. rewrite !bind_Some_l. apply (IH (y :: l)). cbn. lia.
Qed.

Lemma switch_result `{AddressChain} now bloom_size bloom_funcs x z pairs m n m' :
  switch_chain now bloom_size bloom_funcs x z pairs m = Some (n, m') ->
  if height (snd x) =? estimatedHeight (chain m) then n = height (snd x) mod 2016 + 2016 + 1
  else n = 0 /\ chain m' = set_lastBlock (Some (fst x)) (chain m).
Proof.
  unfold switch_chain. intros E. apply bind_run in E as (e1 & m1 & E1 & E). apply neutral_wallet in E1.
  apply bind_run in E as (e2 & m2 & E2 & E).
  assert (C2 : chain m2 = chain m1).
  { revert E2. apply neutral_each. intros [[r b] [rp p]]. neutral_tac. }
  apply bind_run in E as (e3 & m3 & E3 & E).
  assert (C3 : chain m3 = set_lastBlock (Some (fst x)) (chain m2)).
  { unfold update_chain, on_chain in E3. rewrite !bind_Some_l in E3. injection E3 as _ <-. reflexivity. }
  apply bind_run in E as (h & m4 & E4 & E). injection E4 as <- <-. rewrite C2, E1 in C3.
  assert (Eh : estimatedHeight (chain m3) = estimatedHeight (chain m)) by now rewrite C3. rewrite Eh in E.
  destruct (_ =? _); [|now injection E as <- <-]. apply bind_run in E as (e5 & m5 & E5 & E). now injection E as <- <-.
Qed.

(** C5. A fork that becomes longer than the main chain: with [lb] the new block's line and [ll] the one of
    [lastBlock], the walk ends at the first block of [lb] that is on [ll]; the wallet's transactions above it are made unconfirmed, then the
    transactions of each block of the fork above it, newest first, are confirmed at the height of that block with
    the mean time of the block and its parent; then the new block is [lastBlock].  If it has the height the peers announced, the mempools are loaded and the blocks down to the
    transition before the last one are to be saved; otherwise nothing else changes in the chain. *)
Theorem reorg_spec ht `{AddressChain} now bloom_size bloom_funcs m x y lb ll : heights_bounded ht -> chain_ok ht (chain m) ->
  in_chain (chain m) x -> last_block (chain m) = Some y -> height (snd y) < height (snd x) ->
  line (chain m) (Some x) lb -> line (chain m) (Some y) ll -> (exists z, z ∈ lb /\ z ∈ ll) ->
  exists i z, lb !! i = Some z /\ z ∈ ll /\ (forall j w, (j < i)%nat -> lb !! j = Some w -> w ∉ ll) /\
    reorganize now bloom_size bloom_funcs x m = switch_chain now bloom_size bloom_funcs x z (zip (take i lb) (tail lb)) m /\
    forall n m', reorganize now bloom_size bloom_funcs x m = Some (n, m') ->
      if height (snd x) =? estimatedHeight (chain m) then n = height (snd x) mod 2016 + 2016 + 1
      else n = 0 /\ chain m' = set_lastBlock (Some (fst x)) (chain m).
Proof.
  intros Hht [Hok Hlast] Hx Hl Hh Hlb Hll (z0 & Hz0 & Hz0l). destruct (last_in_chain (chain m) y Hlast Hl) as [Hy _].
  destruct (list_find (fun z => z ∈ ll) lb) as [[i z]|] eqn:Ef; cycle 1.
  { apply list_find_None in Ef. rewrite Forall_forall in Ef. now destruct (Ef z0 Hz0). }
  apply list_find_Some in Ef as (Hi & Hz & Hmin). exists i, z. split; [done|]. split; [done|].
  assert (Hno : forall j w, (j < i)%nat -> lb !! j = Some w -> w ∉ ll) by (intros j w Hj Hw; exact (Hmin j w Hw Hj)).
  split; [exact Hno|]. apply list_elem_of_lookup in Hz as [k Hk].
  pose proof (line_length ht Hht _ Hok x lb Hlb Hx) as [_ Hlen]. pose proof (lookup_lt_Some _ _ _ Hi) as Hil.
  assert (Ej : join_walk (S (size (blocks (chain m)))) (chain m) (Some x) (Some y) = Some (Some z, Some z))
    by (apply (join_walk_line ht Hht _ Hok z i x y lb ll _ k); [done..|lia|done|done|done|lia]).
  assert (Efk : fork_blocks (S (size (blocks (chain m)))) (chain m) (Some x) (height (snd z)) = Some (with_parents lb i)).
  { apply (fork_blocks_line _ _ lb); [done|lia| |lia]. intros j w Hj.
    destruct (line_lookup ht _ Hok x lb Hlb Hx j w Hj) as [_ ->], (line_lookup ht _ Hok x lb Hlb Hx i z Hi) as [_ ->]. lia. }
  assert (E : reorganize now bloom_size bloom_funcs x m = switch_chain now bloom_size bloom_funcs x z (zip (take i lb) (tail lb)) m);
    [|split; [exact E|intros n m' En; rewrite E in En; exact (switch_result now bloom_size bloom_funcs x z _ m n m' En)]].
  unfold reorganize. unfold last_of. rewrite (run_bind _ _ m y m) by (unfold look; now rewrite Hl). cbv beta.
  rewrite (run_bind _ _ m (Some z, Some z) m) by (unfold look; now rewrite Ej). cbv beta iota.
  rewrite (run_bind (try _) _ m z m) by done. cbv beta. destruct z as [rz bz]. cbn [snd] in *.
  apply bind_ext. intros u m1 Ew. assert (Ec : chain m1 = chain m) by exact (neutral_wallet _ _ _ _ Ew).
  apply bind_ext_l. rewrite (run_bind _ _ m1 (with_parents lb i) m1) by (unfold look; now rewrite Ec, Efk).
  apply confirm_pairs; [|done]. intros r b [rp p] m2. unfold confirm_block, fork_time. cbv beta iota. reflexivity.
Qed.

(** ** Saving and restoring *)

(** The saved blocks [bs] are read back: the application put them on the heap [h0] at [rs]. *)
Definition read_back (h0 : gmap nat BRMerkleBlock) (rs : list nat) (bs : list BRMerkleBlock) : Prop :=
  Forall2 (fun r b => h0 !! r = Some b) rs bs.

(** C6. What is saved can be restored.  From any block [x] of a well formed chain, the blocks that [_peerRelayedBlock] saves are
    at most the first [n] of its line, cut to end at a transition block, and the longest such cut (the assertion of the code
    holds); when they are read back, in any memory, [BRPeerManagerNew] returns a well formed chain whose last
    block is [x], with the saved blocks down to the first transition. *)
Theorem save_restore ht checkpoint_array sort_peers c x n w ekt ps i : heights_bounded ht ->
  Forall (checkpoint_ok ht) checkpoint_array -> NoDup (checkpoint_hash <$> checkpoint_array) ->
  chain_ok ht c -> in_chain c x -> 0 <= n ->
  exists l k, line c (Some x) l /\ (k <= Nat.min (Z.to_nat n) (length l))%nat /\ blocks_to_save n c (Some x) = Some (snd <$> take k l) /\
    (forall j, (0 < j <= Nat.min (Z.to_nat n) (length l))%nat -> ends_at_transition x j -> (j <= k)%nat) /\
    forall h0 rs, (0 < k)%nat -> read_back h0 rs (snd <$> take k l) ->
      exists m r0 t, BRPeerManagerNew checkpoint_array sort_peers h0 w ekt rs ps i = Some m /\ chain_ok ht (chain m) /\
        last_block (chain m) = Some (r0, snd x) /\ (t < k)%nat /\ ends_at_transition x (S t) /\
        forall j b r, (j <= t)%nat -> (snd <$> l) !! j = Some b -> rs !! j = Some r -> in_chain (chain m) (r, b).
Proof.
  intros Hht Hk Hnd [Hok Hlast] Hx Hn. destruct (line_exists ht Hht c Hok x Hx) as [l Hl].
  destruct (blocks_to_save_line ht c Hok n x l Hn Hl Hx) as (k & Es & Hkl & _ & Hmax). exists l, k. do 4 (split; [done|]).
  intros h0 rs Hk0 Hrs.
  destruct (restored_chain ht checkpoint_array h0 ekt rs c x l n _ Hht Hk Hnd Hok Hx Hl Hn Es) as (c' & r0 & t & E & Hok' & _ & Hl' & (b & Hb & Hbt) & Hin); [|done|].
  { destruct l; [cbn in Hkl; lia|]. destruct k; [lia|done]. }
  unfold BRPeerManagerNew. rewrite E, bind_Some_l. eexists _, r0, t. split; [reflexivity|]. cbn [chain]. split; [done|]. split; [done|].
  assert (Htk : (t < k)%nat) by (apply lookup_lt_Some in Hb; rewrite length_fmap, length_take in Hb; lia). split; [done|].
  rewrite fmap_take in Hb, Hin. rewrite lookup_take, decide_True, list_lookup_fmap in Hb by lia.
  destruct (l !! t) as [z|] eqn:Ez; [|discriminate]. injection Hb as <-. destruct (line_lookup ht c Hok x l Hl Hx t z Ez) as [_ Hzh].
  split; [unfold ends_at_transition; rewrite <- Hbt, Hzh; f_equal; lia|].
  intros j b' r Hj Hb' Hr. apply (Hin j b' r Hj); [|done]. rewrite lookup_take, decide_True by lia. exact Hb'.
Qed.

(** ** The theorems on the example *)

Definition ex_tall : Chain :=
  mkChain {[ 1%nat := ex_block 1001 0 400000; 8%nat := ex_new_header 1002 1001; 9%nat := ex_new_header 1003 1002 ]}
    {[ 1001 := 1%nat ]} ∅ ∅ (Some 1%nat) None 500000 0.

Lemma ex_incoming r hash prev : r <> 1%nat -> heap ex_tall !! r = Some (ex_new_header hash prev) -> hash <> 0 ->
  is_u256 hash /\ is_u256 prev -> ex_ht hash = ex_ht prev + 1 -> incoming ex_ht ex_tall (r, ex_new_header hash prev).
Proof.
  intros Hr Hh H0 Hu Hp. constructor; [exact Hh| |constructor; auto]. split; [|split]; cbn.
  - intros h E. apply lookup_singleton_Some in E as [_ E]. congruence.
  - intros h E. now rewrite lookup_empty in E.
  - congruence.
Qed.

Lemma headers_sync_witness : exists m' z,
  each (fun r => @_peerRelayedBlock ex_chain [] 0 (fun _ _ => 10) (fun _ _ => 3) 0 r) [8%nat; 9%nat] (ex_manager ex_tall) = Some (tt, m') /\
  last_block (chain m') = Some z /\ height (snd z) = 400002.
Proof.
  destruct (@headers_sync ex_ht ex_ht_bounded ex_chain [] 0 (fun _ _ => 10) (fun _ _ => 3) 0
    [(8%nat, ex_new_header 1002 1001); (9%nat, ex_new_header 1003 1002)] (ex_manager ex_tall) (1%nat, ex_block 1001 0 400000))
    as (m' & z & E & _ & Hl & Hh & _).
  - apply chain_checked. vm_compute. reflexivity.
  - vm_compute. reflexivity.
  - refine (bool_decide_eq_true_1 _ _). vm_compute. reflexivity.
  - repeat (apply Forall_cons; split; [apply ex_incoming; [done|vm_compute; reflexivity|done|split; split; vm_compute; congruence|vm_compute; reflexivity]|]).
    apply Forall_nil. exact I.
  - vm_compute. congruence.
  - vm_compute. eauto.
  - repeat (split; [vm_compute; first [reflexivity|congruence|split; congruence]|]). exists 1. split; [vm_compute; reflexivity|].
    repeat (split; [vm_compute; first [reflexivity|congruence|split; congruence]|]). exists 2. split; [vm_compute; reflexivity|exact I].
  - exists m', z. split; [exact E|]. split; [exact Hl|]. rewrite Hh. reflexivity.
Defined.

Lemma locators_spec_witness : exists l k, line ex_tree (Some (3%nat, ex_block 3 2 2)) l /\ (k <= max_locators)%nat /\
  block_locators checkpoint_array_testnet ex_tree = Some (locator_hashes (3%nat, ex_block 3 2 2) l k ++ [GENESIS_BLOCK_HASH checkpoint_array_testnet]).
Proof.
  destruct (locators_spec ex_ht checkpoint_array_testnet ex_tree (3%nat, ex_block 3 2 2) ex_ht_bounded ex_tree_ok eq_refl) as (l & k & Hl & Hk & _ & _ & E & _).
  exists l, k. auto.
Defined.

Lemma reorg_spec_witness : exists i z,
  @reorganize ex_chain 0 (fun _ _ => 10) (fun _ _ => 3) (5%nat, ex_block 5 4 3) (ex_manager ex_tree) =
    @switch_chain ex_chain 0 (fun _ _ => 10) (fun _ _ => 3) (5%nat, ex_block 5 4 3) z
      (zip (take i [(5%nat, ex_block 5 4 3); (4%nat, ex_block 4 2 2); (2%nat, ex_block 2 1 1); (1%nat, ex_block 1 0 0)])
        [(4%nat, ex_block 4 2 2); (2%nat, ex_block 2 1 1); (1%nat, ex_block 1 0 0)]) (ex_manager ex_tree) /\
  height (snd (z : Block)) < 3.
Proof.
  destruct (@reorg_spec ex_ht ex_chain 0 (fun _ _ => 10) (fun _ _ => 3) (ex_manager ex_tree) (5%nat, ex_block 5 4 3) (3%nat, ex_block 3 2 2)
    [(5%nat, ex_block 5 4 3); (4%nat, ex_block 4 2 2); (2%nat, ex_block 2 1 1); (1%nat, ex_block 1 0 0)]
    [(3%nat, ex_block 3 2 2); (2%nat, ex_block 2 1 1); (1%nat, ex_block 1 0 0)] ex_ht_bounded ex_tree_ok) as (i & z & _ & Hz & _ & E & _).
  - split; vm_compute; reflexivity.
  - vm_compute. reflexivity.
  - vm_compute. reflexivity.
  - line_tac.
  - line_tac.
  - exists (1%nat, ex_block 1 0 0). split; apply list_elem_of_lookup; [now exists 3%nat|now exists 2%nat].
  - exists i, z. split; [exact E|]. repeat (apply elem_of_cons in Hz as [->|Hz]; [vm_compute; reflexivity|]). now apply elem_of_nil in Hz.
Defined.

Lemma save_restore_witness : exists m r0 t,
  BRPeerManagerNew checkpoint_array_testnet (fun l => l) {[ 10%nat := ex_block 3 2 2; 11%nat := ex_block 2 1 1; 12%nat := ex_block 1 0 0 ]}
    ex_full 0 [10; 11; 12]%nat [] (mkInputs [] [] []) = Some m /\ chain_ok ex_ht (chain m) /\
  last_block (chain m) = Some (r0, ex_block 3 2 2) /\ ends_at_transition (3%nat, ex_block 3 2 2) (S t).
Proof.
  destruct ex_checkpoints as [Hk Hnd].
  destruct (save_restore ex_ht checkpoint_array_testnet (fun l => l) ex_tree (3%nat, ex_block 3 2 2) 5 ex_full 0 [] (mkInputs [] [] [])
    ex_ht_bounded Hk Hnd ex_tree_ok) as (l & k & _ & _ & Es & _ & Hr); [split; vm_compute; reflexivity|lia|].
  assert (Ev : blocks_to_save 5 ex_tree (Some (3%nat, ex_block 3 2 2)) = Some [ex_block 3 2 2; ex_block 2 1 1; ex_block 1 0 0]) by (vm_compute; reflexivity).
  rewrite Ev in Es. injection Es as Es.
  destruct (Hr {[ 10%nat := ex_block 3 2 2; 11%nat := ex_block 2 1 1; 12%nat := ex_block 1 0 0 ]} [10; 11; 12]%nat) as (m & r0 & t & E & Hok & Hl & _ & Ht & _).
  - destruct k; [discriminate|lia].
  - rewrite <- Es. repeat (apply Forall2_cons; split; [vm_compute; reflexivity|]). now apply Forall2_nil.
  - exists m, r0, t. auto.
Defined.
